(** * Verification of the [.sou] ingestion utilities

    A shallow embedding of the repository's Python scripts:

    - [src/sou_parser.py]: the streaming [.sou] parser ([parse],
      [parse_metadata], [extract_class_name]) and the statistics script
      that follows it;
    - [src/app/truncate_xml.py] and [src/app/truncate_xml_new.py]: the two XML
      truncators ([truncate_xml_to_lines], [balance_xml_tags]);
    - [src/app/CreateIndexes.py]: the index manager ([create_indexes]).

    Python strings are modelled by [string]; a character is a code point
    below 256.  Python's [None] is [None] of an option type.  A dict with
    string keys is a [gmap string _], a Python set of strings a
    [gset string].  Exceptions are explicit: a computation returns either
    a value or the exception it raised, next to the state it leaves
    behind. *)

From Stdlib Require Import String Ascii List ZArith Lia Bool.
From stdpp Require Import base list gmap strings.

(** ** Python string operations *)

Module Py.

(** [str.isspace] on one character (code points below 256): the ASCII
    white space, the four separators 0x1c-0x1f, NEL and NBSP.  The same
    set is the regex class [\s]. *)
Definition isspace (c : ascii) : bool :=
  let n := nat_of_ascii c in
  ((9 <=? n) && (n <=? 13)) || ((28 <=? n) && (n <=? 32))
  || (n =? 133) || (n =? 160).

Fixpoint lstrip (s : string) : string :=
  match s with
  | EmptyString => EmptyString
  | String c r => if isspace c then lstrip r else s
  end.

Fixpoint rstrip (s : string) : string :=
  match s with
  | EmptyString => EmptyString
  | String c r =>
      match rstrip r with
      | EmptyString => if isspace c then EmptyString else String c EmptyString
      | r' => String c r'
      end
  end.

(** [s.strip()] *)
Definition strip (s : string) : string := rstrip (lstrip s).

(** [s.split(sep)] for a one-character separator: never the empty list. *)
Fixpoint split (sep : ascii) (s : string) : list string :=
  match s with
  | EmptyString => [EmptyString]
  | String c r =>
      if Ascii.eqb c sep then EmptyString :: split sep r
      else match split sep r with
           | [] => [String c EmptyString]
           | h :: t => String c h :: t
           end
  end.

(** [sep.join(l)] *)
Fixpoint join (sep : string) (l : list string) : string :=
  match l with
  | [] => EmptyString
  | [x] => x
  | x :: r => x +:+ sep +:+ join sep r
  end.

(** [s.startswith(p)] *)
Definition startswith (s p : string) : bool := String.prefix p s.

(** [s.endswith(suf)]: some suffix of [s] is [suf]. *)
Fixpoint endswith (s suf : string) : bool :=
  String.eqb s suf
  || match s with
     | EmptyString => false
     | String _ r => endswith r suf
     end.

(** [sub in s] *)
Fixpoint contains (sub s : string) : bool :=
  String.prefix sub s
  || match s with
     | EmptyString => false
     | String _ r => contains sub r
     end.

(** Truth value of an optional string: [None] and [''] are falsy. *)
Definition truthy (o : option string) : bool :=
  match o with
  | Some (String _ _) => true
  | _ => false
  end.

(** What an f-string prints for an optional string. *)
Definition fmt (o : option string) : string :=
  match o with
  | Some s => s
  | None => "None"
  end.

End Py.

(** ** The element tree of [lxml] *)

Module Xml.

(** An element as [lxml.etree] shows it: tag, attributes, text before the
    first child, children, text after the closing tag. *)
#[warnings="-register-all"]
Inductive element : Type :=
  Element (tag : string) (attrib : list (string * string))
          (text : option string) (children : list element)
          (tail : option string).

Definition tag (e : element) : string :=
  let 'Element t _ _ _ _ := e in t.
Definition attrib (e : element) : list (string * string) :=
  let 'Element _ a _ _ _ := e in a.
Definition text (e : element) : option string :=
  let 'Element _ _ x _ _ := e in x.
Definition children (e : element) : list element :=
  let 'Element _ _ _ c _ := e in c.
Definition tail (e : element) : option string :=
  let 'Element _ _ _ _ l := e in l.

(** [elem.find(t)] for a plain tag: the first child with that tag. *)
Definition find (e : element) (t : string) : option element :=
  List.find (fun c => String.eqb (tag c) t) (children e).

(** [elem.findtext(t, default)]: the text of the first child tagged [t]
    (['']  when that child has no text), [default] when there is none. *)
Definition findtext (e : element) (t : string) (default : option string)
  : option string :=
  match find e t with
  | None => default
  | Some c => Some (match text c with Some s => s | None => EmptyString end)
  end.

(** [elem.findall(t)] *)
Definition findall (e : element) (t : string) : list element :=
  List.filter (fun c => String.eqb (tag c) t) (children e).

(** [elem.get(k)] *)
Fixpoint get_attr (a : list (string * string)) (k : string) : option string :=
  match a with
  | [] => None
  | (k', v) :: r => if String.eqb k' k then Some v else get_attr r k
  end.

Definition get (e : element) (k : string) : option string :=
  get_attr (attrib e) k.

(** [elem.clear()]: text, tail, attributes and children are dropped, the
    element stays where it is in its parent. *)
Definition clear (e : element) : element :=
  Element (tag e) [] None [] None.

End Xml.

(** ** [src/sou_parser.py] *)

Module SouParser.
Import Xml.

(** A yielded record is a Python dict whose keys and values are strings. *)
Abbreviation record := (gmap string string).

Inductive exn : Type :=
| AttributeError      (* [None.split]: [extract_class_name(None)] *)
| UnboundLocalError.  (* [class_name] read before any assignment *)

(** [extract_class_name(full_name)]: [full_name.split(".")[-1]]; [None]
    has no [split]. *)
Definition extract_class_name (full_name : option string) : exn + string :=
  match full_name with
  | None => inl AttributeError
  | Some s => inr (List.last (Py.split "." s) EmptyString)
  end.

(** The locals of [parse] that live across loop iterations, the records
    yielded so far, what was printed, and the number of [uuid.uuid4()]
    calls made.  [class_name] is [None] while the local is unbound. *)
Record locals : Type := Locals {
  pending_class : option record;
  types_count : nat;
  methods_count : nat;
  class_name : option string;
  uuid_calls : nat;
  yielded : list record;
  printed : list exn
}.

Definition init : locals :=
  Locals None 0 0 None 0 [] [].

(** A step of the generator body: the state it leaves and either a value
    or the exception that ends the generator. *)
Definition M (A : Type) : Type := locals -> locals * (exn + A).

Definition ret {A} (a : A) : M A := fun s => (s, inr a).
Definition raise {A} (e : exn) : M A := fun s => (s, inl e).
Definition bind {A B} (m : M A) (k : A -> M B) : M B :=
  fun s => match m s with
           | (s', inr a) => k a s'
           | (s', inl e) => (s', inl e)
           end.
Definition lift {A} (r : exn + A) : M A := fun s => (s, r).

Notation "x <- m ;; k" := (bind m (fun x => k))
  (at level 100, m at next level, right associativity).
Notation "m ;;; k" := (bind m (fun _ => k))
  (at level 100, right associativity).

(** [for x in l: body x] *)
Fixpoint for_each {A} (l : list A) (body : A -> M unit) : M unit :=
  match l with
  | [] => ret tt
  | x :: r => body x ;;; for_each r body
  end.

Definition yield (r : record) : M unit :=
  fun s => (Locals (pending_class s) (types_count s) (methods_count s)
              (class_name s) (uuid_calls s) (yielded s ++ [r]) (printed s),
            inr tt).

Definition set_pending (p : option record) : M unit :=
  fun s => (Locals p (types_count s) (methods_count s) (class_name s)
              (uuid_calls s) (yielded s) (printed s), inr tt).

Definition set_class_name (n : string) : M unit :=
  fun s => (Locals (pending_class s) (types_count s) (methods_count s)
              (Some n) (uuid_calls s) (yielded s) (printed s), inr tt).

Definition incr_types : M unit :=
  fun s => (Locals (pending_class s) (S (types_count s)) (methods_count s)
              (class_name s) (uuid_calls s) (yielded s) (printed s), inr tt).

Definition incr_methods : M unit :=
  fun s => (Locals (pending_class s) (types_count s) (S (methods_count s))
              (class_name s) (uuid_calls s) (yielded s) (printed s), inr tt).

Definition print (e : exn) : M unit :=
  fun s => (Locals (pending_class s) (types_count s) (methods_count s)
              (class_name s) (uuid_calls s) (yielded s) (printed s ++ [e]),
            inr tt).

Definition get_pending : M (option record) :=
  fun s => (s, inr (pending_class s)).

(** Reading the local [class_name]; unbound, Python raises. *)
Definition read_class_name : M string :=
  fun s => match class_name s with
           | Some n => (s, inr n)
           | None => (s, inl UnboundLocalError)
           end.

Definition TYPE : string := "SymbolType.TYPE".
Definition METHOD : string := "SymbolType.METHOD".

(** The dict literal with the five keys. *)
Definition mk_record (name type body comment id : string) : record :=
  <["name" := name]> (<["type" := type]> (<["body" := body]>
    (<["comment" := comment]> (<["id" := id]> ∅)))).

Definition or_empty (o : option string) : string :=
  match o with Some s => s | None => EmptyString end.

Section WithLibraries.

(** [str(uuid.uuid4())]: the value of the [n]-th call of a run. *)
Variable uuid4 : nat -> string.

(** [ET.tostring(e, encoding="unicode", method="xml")] of [lxml]. *)
Variable tostring : element -> string.

Definition fresh_uuid : M string :=
  fun s => (Locals (pending_class s) (types_count s) (methods_count s)
              (class_name s) (S (uuid_calls s)) (yielded s) (printed s),
            inr (uuid4 (uuid_calls s))).

Definition inner_xml (elem : element) : string :=
  Py.strip (Py.join EmptyString (map tostring (children elem))).

(** The body of the [for event, elem in context] loop at an ["end"]
    event; ["start"] events fail the first test.  The result is the
    element as the handler leaves it in the tree. *)
Definition on_end (elem : element) : M element :=
  if negb (bool_decide (tag elem ∈ ["class"; "comment"; "methods"]))
  then ret elem
  else
    p <- get_pending ;;
    if String.eqb (tag elem) "class" then
      name <- lift (extract_class_name (findtext elem "name" None)) ;;
      let body := inner_xml elem in
      id <- fresh_uuid ;;
      set_pending (Some (mk_record name TYPE body EmptyString id)) ;;;
      ret elem
    else
      match String.eqb (tag elem) "comment", p with
      | true, Some pc =>
          comment_class_id <-
            lift (extract_class_name (findtext elem "class-id" (Some EmptyString))) ;;
          let pc' :=
            if Py.endswith comment_class_id (pc !!! "name")
            then <["comment" :=
                    Py.strip (or_empty (findtext elem "body" (Some EmptyString)))]> pc
            else pc in
          incr_types ;;;
          yield pc' ;;;
          set_pending None ;;;
          ret (clear elem)
      | _, _ =>
          if String.eqb (tag elem) "methods" then
            (fun s =>
               match extract_class_name (findtext elem "class-id" None) with
               | inr n => set_class_name n s
               | inl e => print e s
               end) ;;;
            for_each (findall elem "body") (fun body =>
              incr_methods ;;;
              cn <- read_class_name ;;
              id <- fresh_uuid ;;
              yield (mk_record (cn +:+ "." +:+ Py.fmt (get body "selector"))
                       METHOD (Py.strip (or_empty (text body)))
                       EmptyString id)) ;;;
            ret (clear elem)
          else
            match p with
            | Some pc =>
                yield pc ;;;
                set_pending None ;;;
                ret (clear elem)
            | None => ret (clear elem)
            end
      end.

(** [ET.iterparse(path, events=("start", "end"), recover=True)] on a
    well-formed document: the ["end"] event of an element comes after
    the events of its children, which the handler may have cleared. *)
Fixpoint visit (e : element) : M element :=
  match e with
  | Element t a x cs l =>
      cs' <- (fix visit_all (cs : list element) : M (list element) :=
                match cs with
                | [] => ret []
                | c :: r =>
                    c' <- visit c ;;
                    r' <- visit_all r ;;
                    ret (c' :: r')
                end) cs ;;
      on_end (Element t a x cs' l)
  end.

(** The events of a list of siblings, in document order. *)
Fixpoint visit_all (cs : list element) : M (list element) :=
  match cs with
  | [] => ret []
  | c :: r =>
      c' <- visit c ;;
      r' <- visit_all r ;;
      ret (c' :: r')
  end.

(** [parse(path)], [root] being the document at [path]: the records the
    generator yields, and the exception that ends it, if any. *)
Definition parse (root : element) : list record * option exn :=
  match visit root init with
  | (s, inr _) => (yielded s, None)
  | (s, inl e) => (yielded s, Some e)
  end.

End WithLibraries.

(** [parse_metadata]: the loop body at an ["end"] event. *)
Definition metadata_on_end (elem : element) (fqdn_set : gset string)
  : element * gset string :=
  if String.eqb (tag elem) "methods" then
    let class_name := findtext elem "class-id" None in
    (clear elem,
     fold_left (fun acc body =>
                  let selector := get body "selector" in
                  if Py.truthy class_name && Py.truthy selector
                  then acc ∪ {[ or_empty class_name +:+ "." +:+ or_empty selector ]}
                  else acc)
               (findall elem "body") fqdn_set)
  else (elem, fqdn_set).

(** [ET.iterparse(path, events=("end",))] *)
Fixpoint metadata_visit (e : element) (fqdn_set : gset string)
  : element * gset string :=
  match e with
  | Element t a x cs l =>
      let '(cs', acc) :=
        (fix visit_all (cs : list element) (acc : gset string) :=
           match cs with
           | [] => ([], acc)
           | c :: r =>
               let '(c', acc1) := metadata_visit c acc in
               let '(r', acc2) := visit_all r acc1 in
               (c' :: r', acc2)
           end) cs fqdn_set in
      metadata_on_end (Element t a x cs' l) acc
  end.

Fixpoint metadata_visit_all (cs : list element) (acc : gset string)
  : list element * gset string :=
  match cs with
  | [] => ([], acc)
  | c :: r =>
      let '(c', acc1) := metadata_visit c acc in
      let '(r', acc2) := metadata_visit_all r acc1 in
      (c' :: r', acc2)
  end.

Definition parse_metadata (root : element) : gset string :=
  snd (metadata_visit root ∅).

End SouParser.

(** ** The regular expressions of the truncators

    Each pattern of the source is a fixed shape, and is embedded as the
    function that tries it at the start of a string; [finditer] and
    [search] move that attempt along the line as [re] does: leftmost match
    first, the next attempt after the end of the previous match. *)

Module Re.

(** [[a-zA-Z]] *)
Definition is_alpha (c : ascii) : bool :=
  let n := nat_of_ascii c in
  ((65 <=? n) && (n <=? 90)) || ((97 <=? n) && (n <=? 122)).

(** [\w] on code points below 256: letters, digits and other numeric
    characters, and the underscore. *)
Definition is_word (c : ascii) : bool :=
  let n := nat_of_ascii c in
  is_alpha c || ((48 <=? n) && (n <=? 57)) || (n =? 95)
  || (n =? 170) || (n =? 178) || (n =? 179) || (n =? 181)
  || (n =? 185) || (n =? 186) || ((188 <=? n) && (n <=? 190))
  || ((192 <=? n) && (n <=? 214)) || ((216 <=? n) && (n <=? 246))
  || ((248 <=? n) && (n <=? 255)).

(** [[\w-]] *)
Definition is_tag_char (c : ascii) : bool :=
  is_word c || Ascii.eqb c "-".

(** The longest prefix whose characters satisfy [p], and the rest: what a
    greedy [[...]*] consumes first. *)
Fixpoint span (p : ascii -> bool) (s : string) : string * string :=
  match s with
  | EmptyString => (EmptyString, EmptyString)
  | String c r =>
      if p c then let '(a, b) := span p r in (String c a, b)
      else (EmptyString, s)
  end.

(** [re.finditer]: the group of every match, left to right.  [m] tries
    the pattern at the start of a string and gives the group and the
    length of the match (at least one here); [skip] counts the characters
    still covered by the previous match. *)
Fixpoint finditer (m : string -> option (string * nat)) (skip : nat)
         (s : string) : list string :=
  match s with
  | EmptyString => []
  | String _ r =>
      match skip with
      | S k => finditer m k r
      | O =>
          match m s with
          | Some (g, len) => g :: finditer m (Nat.pred len) r
          | None => finditer m 0 r
          end
      end
  end.

(** [re.search]: the group of the leftmost match. *)
Fixpoint search (m : string -> option string) (s : string) : option string :=
  match m s with
  | Some g => Some g
  | None =>
      match s with
      | EmptyString => None
      | String _ r => search m r
      end
  end.

(** The opening pattern [<(NAME)[^/>]*(?<!/)>] at the start of [s], NAME
    being [[a-zA-Z][\w-]*].  The name takes the longest run of [[\w-]];
    giving characters back cannot help, since [[^/>]*] takes them all
    the same.  The character before the final [>] is never a slash, so
    the look-behind always holds. *)
Definition opening_at (s : string) : option (string * nat) :=
  match s with
  | String "<" (String c r) =>
      if is_alpha c then
        let '(name, r1) := span is_tag_char (String c r) in
        let '(mid, r2) :=
          span (fun x => negb (Ascii.eqb x "/" || Ascii.eqb x ">")) r1 in
        match r2 with
        | String ">" _ =>
            Some (name, S (String.length name + String.length mid + 1))
        | _ => None
        end
      else None
  | _ => None
  end.

(** The closing pattern [</(NAME)>] at the start of [s]. *)
Definition closing_at (s : string) : option (string * nat) :=
  match s with
  | String "<" (String "/" (String c r)) =>
      if is_alpha c then
        let '(name, r1) := span is_tag_char (String c r) in
        match r1 with
        | String ">" _ => Some (name, 2 + String.length name + 1)
        | _ => None
        end
      else None
  | _ => None
  end.

Definition opening_tags (line : string) : list string :=
  finditer opening_at 0 line.

Definition closing_tags (line : string) : list string :=
  finditer closing_at 0 line.

(** The rest of [s] after the prefix [p], when [s] starts with [p]. *)
Fixpoint strip_prefix (p s : string) : option string :=
  match p, s with
  | EmptyString, _ => Some s
  | String a p', String b s' =>
      if Ascii.eqb a b then strip_prefix p' s' else None
  | String _ _, EmptyString => None
  end.

(** [<t>([^<]+)</t>] at the start of [s], for a fixed tag [t]. *)
Definition simple_element_at (t : string) (s : string) : option string :=
  match strip_prefix ("<" +:+ t +:+ ">") s with
  | None => None
  | Some r =>
      let '(g, r1) := span (fun x => negb (Ascii.eqb x "<")) r in
      match g with
      | EmptyString => None
      | _ => if String.prefix ("</" +:+ t +:+ ">") r1 then Some g else None
      end
  end.

(** [re.search(r'<class[>\s]', line)] as a truth value. *)
Definition class_open (line : string) : bool :=
  match search (fun s =>
                  match strip_prefix "<class" s with
                  | Some (String c _) =>
                      if Ascii.eqb c ">" || Py.isspace c
                      then Some EmptyString else None
                  | _ => None
                  end) line with
  | Some _ => true
  | None => false
  end.

(** [re.search(r'<[a-zA-Z]', line)] as a truth value. *)
Definition element_open (line : string) : bool :=
  match search (fun s =>
                  match s with
                  | String "<" (String c _) =>
                      if is_alpha c then Some EmptyString else None
                  | _ => None
                  end) line with
  | Some _ => true
  | None => false
  end.

End Re.

(** ** The fallback tiers shared by both truncators *)

Module Truncate.

Definition nl : ascii := "010"%char.

(** The exceptions the truncators can meet. *)
Inductive pyexn : Type :=
| XMLSyntaxError
| IndexError
| OtherError (what : string).

(** [isinstance(e, etree.XMLSyntaxError)] *)
Definition is_syntax_error (e : pyexn) : bool :=
  match e with XMLSyntaxError => true | _ => false end.

(** *** [balance_xml_tags] (the same text in both files) *)

Definition truncation_comment : string :=
  String nl "  <!-- Truncated - closing open tags -->".

Definition closing_tag (t : string) : string := "</" +:+ t +:+ ">".

(** The two [for match in re.finditer(...)] loops over one line:
    every opening tag is pushed, then every closing tag pops the stack
    when it names its top.  The top of the stack is the end of the
    list, as in the source. *)
Definition track (open_tags : list string) (line : string) : list string :=
  let pushed :=
    fold_left (fun st t =>
                 if bool_decide (t ∈ ["?xml"; "!--"]) then st else st ++ [t])
              (Re.opening_tags line) open_tags in
  fold_left (fun st t =>
               match last st with
               | Some top => if String.eqb top t then removelast st else st
               | None => st
               end)
            (Re.closing_tags line) pushed.

(** [while open_tags: tag = open_tags.pop(); balanced_lines.append(...)] *)
Definition close_all (open_tags balanced_lines : list string) : list string :=
  fold_left (fun bl t => bl ++ [closing_tag t]) (rev open_tags) balanced_lines.

Definition balance_xml_tags (xml_content : string) : string :=
  let lines := Py.split nl xml_content in
  let '(open_tags, balanced_lines) :=
    fold_left (fun '(ot, bl) line => (track ot line, bl ++ [line]))
              lines ([], []) in
  let balanced_lines :=
    match open_tags with
    | [] => balanced_lines
    | _ => close_all open_tags (balanced_lines ++ [truncation_comment])
    end in
  Py.join (String nl EmptyString) balanced_lines.

(** *** The three tiers *)

Inductive tier : Type := Strict | Recovering | Balancing.

(** What a call leaves behind: the value returned or the exception that
    escapes, the tiers that were entered, and what went to [stderr]. *)
Record outcome : Type := Outcome {
  result : pyexn + string;
  entered : list tier;
  stderr : list pyexn
}.

Section WithLxml.

(** The body of the first [try]: [etree.fromstring] of the encoded
    content with the default parser, then [etree.tostring] with
    [pretty_print]. *)
Variable strict_parse : string -> pyexn + string.

(** The body of the second [try]: the same with
    [etree.XMLParser(recover=True)]. *)
Variable recovering_parse : string -> pyexn + string.

(** From [# Try to parse as-is first] to the end of
    [truncate_xml_to_lines].  The first handler catches
    [etree.XMLSyntaxError] only, the second every [Exception]. *)
Definition fallback (truncated_content : string) : outcome :=
  match strict_parse truncated_content with
  | inr xml => Outcome (inr xml) [Strict] []
  | inl e =>
      if is_syntax_error e then
        match recovering_parse truncated_content with
        | inr xml => Outcome (inr xml) [Strict; Recovering] []
        | inl e' =>
            Outcome (inr (balance_xml_tags truncated_content))
                    [Strict; Recovering; Balancing] [e']
        end
      else Outcome (inl e) [Strict] []
  end.

End WithLxml.

Definition cr : ascii := "013"%char.

(** What a file opened with [open(path, 'r', encoding='utf-8')] gives for
    the characters stored in it: in text mode with the default
    [newline=None], a carriage return followed by a line feed, and a
    carriage return alone, are each read as one line feed. *)
Fixpoint universal_newlines (stored : string) : string :=
  match stored with
  | EmptyString => EmptyString
  | String c r =>
      if Ascii.eqb c cr then
        match r with
        | String c' r' =>
            if Ascii.eqb c' nl then String nl (universal_newlines r')
            else String nl (universal_newlines r)
        | EmptyString => String nl EmptyString
        end
      else String c (universal_newlines r)
  end.

(** The lines of a text as a file object gives them: a line ends with
    its line feed, the last one may lack it. *)
Fixpoint lines_of (text : string) : list string :=
  match text with
  | EmptyString => []
  | String c r =>
      if Ascii.eqb c nl then String c EmptyString :: lines_of r
      else match lines_of r with
           | [] => [String c EmptyString]
           | h :: t => String c h :: t
           end
  end.

(** [f.readlines()], and the iteration [for line in f], on the file
    whose stored characters are [content]. *)
Definition readlines (content : string) : list string :=
  lines_of (universal_newlines content).

End Truncate.

(** ** [src/app/truncate_xml.py] *)

Module TruncateXml.
Import Truncate.

(** [for i, line in enumerate(f): if i >= max_lines: break;
    lines.append(line)] *)
Fixpoint read_lines (f : list string) (i : Z) (max_lines : Z)
         (lines : list string) : list string :=
  match f with
  | [] => lines
  | line :: rest =>
      if (i >=? max_lines)%Z then lines
      else read_lines rest (i + 1)%Z max_lines (lines ++ [line])
  end.

Definition truncate_xml_to_lines
  (strict_parse recovering_parse : string -> pyexn + string)
  (input_file : string) (max_lines : Z) : outcome :=
  let lines := read_lines (readlines input_file) 0%Z max_lines [] in
  let truncated_content := Py.join EmptyString lines in
  fallback strict_parse recovering_parse truncated_content.

End TruncateXml.

(** ** [src/app/truncate_xml_new.py] *)

Module TruncateXmlNew.
Import Truncate.

(** A [(start, end, name)] tuple of [class_ranges] or [methods_ranges]. *)
Abbreviation range := (nat * nat * option string)%type.

(** An [(elem_type, start, end, name)] tuple of [priority_ranges]. *)
Abbreviation prange := (string * nat * nat * option string)%type.

(** The regex and the assignment that follow [if '<name>' in ...]
    (and the same for [<class-id>]): the variable changes only when
    both the substring test and the search succeed. *)
Definition update_name (t : string) (line : string) (old : option string)
  : option string :=
  if Py.contains ("<" +:+ t +:+ ">") line then
    match Re.search (Re.simple_element_at t) line with
    | Some g => Some g
    | None => old
    end
  else old.

(** The inner [while i < len(all_lines) and class_depth > 0] loop; [rest]
    is [all_lines[i:]].  The result is the value of [i] when the loop is
    left and the range appended to [class_ranges], if any. *)
Fixpoint class_loop (rest : list string) (i class_start : nat)
         (class_name : option string) (class_depth : nat)
  : nat * option range :=
  match rest with
  | [] => (i, None)
  | line :: rest' =>
      if class_depth =? 0 then (i, None)
      else
        let class_name := update_name "name" line class_name in
        let class_depth :=
          if Re.class_open line then S class_depth else class_depth in
        if Py.contains "</class>" line then
          let class_depth := Nat.pred class_depth in
          if class_depth =? 0 then (i, Some (class_start, i, class_name))
          else class_loop rest' (S i) class_start class_name class_depth
        else class_loop rest' (S i) class_start class_name class_depth
  end.

(** The inner [while i < len(all_lines)] loop of the methods branch. *)
Fixpoint methods_loop (rest : list string) (i methods_start : nat)
         (class_id : option string) : nat * option range :=
  match rest with
  | [] => (i, None)
  | line :: rest' =>
      let class_id := update_name "class-id" line class_id in
      if Py.contains "</methods>" line
      then (i, Some (methods_start, i, class_id))
      else methods_loop rest' (S i) methods_start class_id
  end.

(** The outer [while i < len(all_lines)] loop.  Every turn moves [i]
    forward, so [len(all_lines)] turns are enough ([fuel]). *)
Fixpoint scan (fuel : nat) (all_lines : list string) (i : nat)
         (class_ranges methods_ranges : list range)
  : list range * list range :=
  match fuel with
  | O => (class_ranges, methods_ranges)
  | S fuel' =>
      match all_lines !! i with
      | None => (class_ranges, methods_ranges)
      | Some line =>
          if Re.class_open line then
            let '(i', r) :=
              class_loop (drop (S i) all_lines) (S i) i None 1 in
            scan fuel' all_lines (S i')
                 (class_ranges ++ option_list r) methods_ranges
          else if Py.contains "<methods>" line then
            let '(i', r) :=
              methods_loop (drop (S i) all_lines) (S i) i None in
            scan fuel' all_lines (S i')
                 class_ranges (methods_ranges ++ option_list r)
          else scan fuel' all_lines (S i) class_ranges methods_ranges
      end
  end.

Definition find_ranges (all_lines : list string) : list range * list range :=
  scan (length all_lines) all_lines 0 [] [].

(** [class_name and any(class_name.startswith(prefix) for ...)] *)
Definition has_priority (priority_prefixes : list string)
           (class_name : option string) : bool :=
  Py.truthy class_name
  && existsb (Py.startswith (SouParser.or_empty class_name)) priority_prefixes.

(** One turn of [for start, end, class_name in class_ranges: ...] on
    [priority_class_names], [priority_ranges] and [other_ranges]. *)
Definition categorize_step (priority_prefixes : list string)
           (acc : list (option string) * list prange * list prange)
           (r : range)
  : list (option string) * list prange * list prange :=
  let '(names, prio, other) := acc in
  let '(start, end_, class_name) := r in
  if has_priority priority_prefixes class_name
  then (names ++ [class_name],
        prio ++ [("class", start, end_, class_name)], other)
  else (names, prio, other ++ [("class", start, end_, class_name)]).

Definition categorize (priority_prefixes : list string)
           (class_ranges : list range)
  : list (option string) * list prange * list prange :=
  fold_left (categorize_step priority_prefixes) class_ranges ([], [], []).

(** [for start, end, class_id in methods_ranges:
      if class_id in priority_class_names: ...] *)
Definition add_methods (priority_class_names : list (option string))
           (methods_ranges : list range) (priority_ranges : list prange)
  : list prange :=
  fold_left
    (fun prio '(start, end_, class_id) =>
       if bool_decide (class_id ∈ priority_class_names)
       then prio ++ [("methods", start, end_, class_id)]
       else prio)
    methods_ranges priority_ranges.

Definition range_start (r : prange) : nat :=
  let '(_, start, _, _) := r in start.

(** [priority_ranges.sort(key=lambda x: x[1])]: a stable sort. *)
Fixpoint insert_by_start (x : prange) (l : list prange) : list prange :=
  match l with
  | [] => [x]
  | y :: r =>
      if range_start x <=? range_start y then x :: l
      else y :: insert_by_start x r
  end.

Definition sort_by_start (l : list prange) : list prange :=
  foldr insert_by_start [] l.

(** The first line that opens an element and is not the XML declaration;
    [0] when there is none. *)
Fixpoint first_element_line (lines : list string) (i : nat) : option nat :=
  match lines with
  | [] => None
  | line :: rest =>
      if Re.element_open line && negb (Py.contains "<?xml" line)
      then Some i
      else first_element_line rest (S i)
  end.

Definition find_header_end (all_lines : list string) : nat :=
  match first_element_line all_lines 0 with
  | Some i => i
  | None => 0
  end.

(** [output_lines] and [used_lines] *)
Abbreviation selection := (list string * gset nat)%type.

Section Select.

Variable all_lines : list string.
Variable max_lines : Z.

(** [len(output_lines) >= max_lines] *)
Definition full (st : selection) : bool :=
  (Z.of_nat (length (fst st)) >=? max_lines)%Z.

(** [output_lines.append(all_lines[i]); used_lines.add(i)] *)
Definition take_line (i : nat) (st : selection) : pyexn + selection :=
  match all_lines !! i with
  | None => inl IndexError
  | Some line => inr (fst st ++ [line], {[i]} ∪ snd st)
  end.

(** [for i in range(header_end + 1): ...] *)
Fixpoint add_header (idxs : list nat) (st : selection) : pyexn + selection :=
  match idxs with
  | [] => inr st
  | i :: rest =>
      match take_line i st with
      | inl e => inl e
      | inr st' => add_header rest st'
      end
  end.

(** [for i in range(start, end + 1): if i not in used_lines: ...;
    if len(output_lines) >= max_lines: break] *)
Fixpoint add_range (idxs : list nat) (st : selection) : pyexn + selection :=
  match idxs with
  | [] => inr st
  | i :: rest =>
      if bool_decide (i ∈ snd st) then add_range rest st
      else
        match take_line i st with
        | inl e => inl e
        | inr st' => if full st' then inr st' else add_range rest st'
        end
  end.

(** [for elem_type, start, end, name in priority_ranges:
    if len(output_lines) >= max_lines: break; ...] *)
Fixpoint add_priority (ranges : list prange) (st : selection)
  : pyexn + selection :=
  match ranges with
  | [] => inr st
  | (_, start, end_, _) :: rest =>
      if full st then inr st
      else
        match add_range (seq start (S end_ - start)) st with
        | inl e => inl e
        | inr st' => add_priority rest st'
        end
  end.

(** [for i in range(header_end + 1, len(all_lines)): ...] *)
Fixpoint add_other (idxs : list nat) (st : selection) : pyexn + selection :=
  match idxs with
  | [] => inr st
  | i :: rest =>
      if full st then inr st
      else if bool_decide (i ∈ snd st) then add_other rest st
      else
        match take_line i st with
        | inl e => inl e
        | inr st' => add_other rest st'
        end
  end.

End Select.

(** The priority ranges of a file, sorted by start line. *)
Definition priority_ranges_of (all_lines : list string)
           (priority_prefixes : list string) : list prange :=
  let '(class_ranges, methods_ranges) := find_ranges all_lines in
  let '(priority_class_names, priority_ranges, _) :=
    categorize priority_prefixes class_ranges in
  sort_by_start (add_methods priority_class_names methods_ranges priority_ranges).

(** [output_lines] after the header and the priority loop. *)
Definition select_priority (all_lines : list string) (max_lines : Z)
           (priority_prefixes : list string) : pyexn + selection :=
  let header_end := find_header_end all_lines in
  match add_header all_lines (seq 0 (S header_end)) ([], ∅) with
  | inl e => inl e
  | inr st =>
      add_priority all_lines max_lines
                   (priority_ranges_of all_lines priority_prefixes) st
  end.

(** [output_lines] when the last selection loop is done. *)
Definition select_lines (all_lines : list string) (max_lines : Z)
           (priority_prefixes : list string) : pyexn + selection :=
  let header_end := find_header_end all_lines in
  match select_priority all_lines max_lines priority_prefixes with
  | inl e => inl e
  | inr st =>
      add_other all_lines max_lines
                (seq (S header_end) (length all_lines - S header_end)) st
  end.

(** [truncate_xml_to_lines(input_file, max_lines, priority_prefixes)];
    [priority_prefixes=None] is the empty list. *)
Definition truncate_xml_to_lines
  (strict_parse recovering_parse : string -> pyexn + string)
  (input_file : string) (max_lines : Z) (priority_prefixes : list string)
  : outcome :=
  let all_lines := readlines input_file in
  match select_lines all_lines max_lines priority_prefixes with
  | inl e => Outcome (inl e) [] []
  | inr (output_lines, _) =>
      fallback strict_parse recovering_parse (Py.join EmptyString output_lines)
  end.

End TruncateXmlNew.

(** ** [src/app/CreateIndexes.py] *)

Module CreateIndexes.

(** The [indexes] dict, in insertion order (the order of iteration). *)
Definition indexes : list (string * string) :=
  [
    ("idx_symbol_calls_lookup",
     "
            CREATE INDEX idx_symbol_calls_lookup IF NOT EXISTS
            FOR (s:Symbol) ON (s.repository_url, s.type, s.fq_name)
        ");
    ("idx_symbol_type_lookup",
     "
            CREATE INDEX idx_symbol_type_lookup IF NOT EXISTS
            FOR (s:Symbol) ON (s.repository_url, s.type, s.fq_name, s.file_path)
        ");
    ("idx_symbol_file_path",
     "
            CREATE INDEX idx_symbol_file_path IF NOT EXISTS
            FOR (s:Symbol) ON (s.repository_url, s.file_path)
        ");
    ("idx_symbol_namespace",
     "
            CREATE INDEX idx_symbol_namespace IF NOT EXISTS
            FOR (s:Symbol) ON (s.namespace)
        ");
    ("idx_namespace_repo_name",
     "
            CREATE INDEX idx_namespace_repo_name IF NOT EXISTS
            FOR (n:Namespace) ON (n.repository_url, n.name)
        ");
    ("idx_file_repo_path",
     "
            CREATE INDEX idx_file_repo_path IF NOT EXISTS
            FOR (f:File) ON (f.repository_url, f.path)
        ");
    ("idx_repository_url",
     "
            CREATE INDEX idx_repository_url IF NOT EXISTS
            FOR (r:Repository) ON (r.url)
        ")
  ].

(** *** The graph database, as far as index statements go

    Modelled from the spec: the graph database, which is not part of the
    repository.  A [CREATE INDEX name FOR schema] statement adds an
    entry, and fails when an index of that name or of that schema
    exists; guarded by [IF NOT EXISTS] it does nothing in that case.
    Any other text is a syntax error here. *)

Record index_entry : Type := IndexEntry {
  ix_name : string;
  ix_schema : list string
}.

Inductive db_error : Type :=
| SyntaxError
| EquivalentSchemaRuleAlreadyExists
| ServiceUnavailable.

(** The words of a statement, white space dropped. *)
Fixpoint words_from (cur : string) (s : string) : list string :=
  match s with
  | EmptyString =>
      match cur with EmptyString => [] | _ => [cur] end
  | String c r =>
      if Py.isspace c then
        match cur with
        | EmptyString => words_from EmptyString r
        | _ => cur :: words_from EmptyString r
        end
      else words_from (cur +:+ String c EmptyString) r
  end.

Definition words (s : string) : list string := words_from EmptyString s.

Definition exists_equivalent (name : string) (schema : list string)
           (catalog : list index_entry) : bool :=
  existsb (fun e => String.eqb (ix_name e) name
                    || bool_decide (ix_schema e = schema)) catalog.

(** The words after the words [expected], when the statement starts
    with them. *)
Fixpoint after_words (expected ws : list string) : option (list string) :=
  match expected, ws with
  | [], _ => Some ws
  | e :: expected', w :: ws' =>
      if String.eqb e w then after_words expected' ws' else None
  | _ :: _, [] => None
  end.

Definition execute (catalog : list index_entry) (query : string)
  : list index_entry * option db_error :=
  match after_words ["CREATE"; "INDEX"] (words query) with
  | Some (name :: rest) =>
      match after_words ["IF"; "NOT"; "EXISTS"; "FOR"] rest with
      | Some schema =>
          if exists_equivalent name schema catalog then (catalog, None)
          else (catalog ++ [IndexEntry name schema], None)
      | None =>
          match after_words ["FOR"] rest with
          | Some schema =>
              if exists_equivalent name schema catalog
              then (catalog, Some EquivalentSchemaRuleAlreadyExists)
              else (catalog ++ [IndexEntry name schema], None)
          | None => (catalog, Some SyntaxError)
          end
      end
  | _ => (catalog, Some SyntaxError)
  end.

(** What can go wrong with a call whatever the statement: the
    connection is lost before the server ran it, or after. *)
Inductive fault : Type := NoFault | LostBefore | LostAfter.

(** A line of standard output; the elapsed time of a successful
    statement is left out. *)
Inductive line : Type :=
| Banner (text : string)
| Created (index_name : string)
| Failed (index_name : string) (e : db_error)
| Index (name : string) (properties : list string).

Definition line_index (l : line) : option string :=
  match l with
  | Created n | Failed n _ => Some n
  | _ => None
  end.

(** The database, the number of [session.run] calls so far, and
    standard output. *)
Record world : Type := World {
  catalog : list index_entry;
  calls : nat;
  stdout : list line
}.

Definition M (A : Type) : Type := world -> world * (db_error + A).

Definition ret {A} (a : A) : M A := fun w => (w, inr a).
Definition bind {A B} (m : M A) (k : A -> M B) : M B :=
  fun w => match m w with
           | (w', inr a) => k a w'
           | (w', inl e) => (w', inl e)
           end.

(** [try: body except Exception as e: handler e] *)
Definition try_except (body : M unit) (handler : db_error -> M unit) : M unit :=
  fun w => match body w with
           | (w', inl e) => handler e w'
           | r => r
           end.

Fixpoint for_each {A} (l : list A) (body : A -> M unit) : M unit :=
  match l with
  | [] => ret tt
  | x :: r => bind (body x) (fun _ => for_each r body)
  end.

Definition print (l : line) : M unit :=
  fun w => (World (catalog w) (calls w) (stdout w ++ [l]), inr tt).

Section WithFaults.

(** The fate of the [n]-th call of the process. *)
Variable faults : nat -> fault.

(** [session.run(query)] for a schema statement. *)
Definition session_run (query : string) : M unit :=
  fun w =>
    let n := calls w in
    match faults n with
    | LostBefore =>
        (World (catalog w) (S n) (stdout w), inl ServiceUnavailable)
    | LostAfter =>
        (World (fst (execute (catalog w) query)) (S n) (stdout w),
         inl ServiceUnavailable)
    | NoFault =>
        let '(c, r) := execute (catalog w) query in
        (World c (S n) (stdout w),
         match r with Some e => inl e | None => inr tt end)
    end.

(** The body of the loop: the [try] statement. *)
Definition statement_turn (entry : string * string) : M unit :=
  let '(index_name, index_query) := entry in
  try_except
    (bind (session_run index_query) (fun _ => print (Created index_name)))
    (fun e => print (Failed index_name e)).

(** [for index_name, index_query in indexes.items(): try: ...] *)
Definition statement_loop : M unit :=
  for_each indexes statement_turn.

(** [session.run("SHOW INDEXES")] and the loop over its records. *)
Definition show_indexes : M unit :=
  fun w =>
    let n := calls w in
    match faults n with
    | NoFault =>
        (World (catalog w) (S n)
               (stdout w ++ map (fun e => Index (ix_name e) (ix_schema e))
                                (catalog w)),
         inr tt)
    | _ => (World (catalog w) (S n) (stdout w), inl ServiceUnavailable)
    end.

Definition create_indexes : M unit :=
  bind (print (Banner "Creating indexes for optimal query performance...")) (fun _ =>
  bind statement_loop (fun _ =>
  bind (print (Banner "Verifying created indexes...")) (fun _ =>
  show_indexes))).

End WithFaults.

End CreateIndexes.

(** * Statements about the parser *)

Module SouParserSpec.
Import Xml SouParser.

(** ** The shape of a record *)

(** A record with exactly the five keys, typed [TYPE] or [METHOD], a
    method carrying no comment. *)
Definition well_shaped (r : record) : Prop :=
  dom r = list_to_set ["name"; "type"; "body"; "comment"; "id"]
  /\ (r !! "type" = Some TYPE \/ r !! "type" = Some METHOD)
  /\ (r !! "type" = Some METHOD -> r !! "comment" = Some EmptyString).

(** What [parse] keeps true of its locals: every record handed out is
    well shaped, and so is the pending class, which is a [TYPE]. *)
Definition shape_inv (s : locals) : Prop :=
  Forall well_shaped (yielded s)
  /\ forall p, pending_class s = Some p ->
               well_shaped p /\ p !! "type" = Some TYPE.

(** ** Two runs on the same document *)

(** A record given by the number of the draw that made its id and by its
    other fields; [inst u] puts the id of the run [u] in. *)
Definition inst (u : nat -> string) (x : nat * record) : record :=
  <["id" := u (fst x)]> (snd x).
Arguments inst : simpl never.

(** The locals of two runs whose UUID sources are [u1] and [u2]: the same
    draws in the same places, everything else equal. *)
Inductive twin (u1 u2 : nat -> string) (s1 s2 : locals) : Prop :=
  Twin (pa : option (nat * record)) (ya : list (nat * record))
       (twin_p1 : pending_class s1 = inst u1 <$> pa)
       (twin_p2 : pending_class s2 = inst u2 <$> pa)
       (twin_y1 : yielded s1 = inst u1 <$> ya)
       (twin_y2 : yielded s2 = inst u2 <$> ya)
       (twin_tc : types_count s1 = types_count s2)
       (twin_mc : methods_count s1 = methods_count s2)
       (twin_cn : class_name s1 = class_name s2)
       (twin_uc : uuid_calls s1 = uuid_calls s2)
       (twin_pr : printed s1 = printed s2)
       (twin_lt : Forall (fun x => fst x < uuid_calls s1) (option_list pa ++ ya))
       (twin_nd : NoDup ((option_list pa ++ ya).*1)).

(** Two steps that leave twin locals and end alike. *)
Definition twin_step (u1 u2 : nat -> string) {A}
           (r1 r2 : locals * (exn + A)) : Prop :=
  twin u1 u2 (fst r1) (fst r2) /\ snd r1 = snd r2.

(** ** Documents without surprises *)

(** The tags the handler looks at. *)
Definition special (t : string) : bool :=
  bool_decide (t ∈ ["class"; "comment"; "methods"]).

(** No [class], [comment] or [methods] element in the subtree. *)
Fixpoint plain (e : element) : bool :=
  match e with
  | Element t _ _ cs _ => negb (special t) && forallb plain cs
  end.

(** The last dotted component of an optional text. *)
Definition class_text (o : option string) : string :=
  List.last (Py.split "." (or_empty o)) EmptyString.

(** The record of one [<body>] of a methods block, [n] being the number
    of the draw that gives its id. *)
Definition method_record (u : nat -> string) (cn : string) (body : element)
           (n : nat) : record :=
  mk_record (cn +:+ "." +:+ Py.fmt (get body "selector")) METHOD
            (Py.strip (or_empty (text body))) EmptyString (u n).

Fixpoint method_records (u : nat -> string) (cn : string)
         (bodies : list element) (n : nat) : list record :=
  match bodies with
  | [] => []
  | b :: r => method_record u cn b n :: method_records u cn r (S n)
  end.

(** ** The names of the methods *)

(** The set of [name] fields of the [METHOD] records. *)
Definition method_names (rs : list record) : gset string :=
  list_to_set (omap (fun r : record =>
                       if bool_decide (r !! "type" = Some METHOD)
                       then r !! "name" else None) rs).

(** The names a [methods] element stands for: its class-id, a dot, each
    selector. *)
Definition own_names (e : element) : gset string :=
  if String.eqb (tag e) "methods" then
    list_to_set (map (fun b => or_empty (findtext e "class-id" None) +:+ "."
                               +:+ or_empty (get b "selector"))
                     (findall e "body"))
  else ∅.

Fixpoint names_of (e : element) : gset string :=
  match e with
  | Element _ _ _ cs _ => ⋃ (map names_of cs) ∪ own_names e
  end.

(** ['.' not in s] *)
Definition dot_free (s : string) : bool := negb (Py.contains "." s).

(** A class has a name; a methods block has a class-id that is not empty
    and has no dot, and every body has a selector that is not empty. *)
Definition tidy_node (e : element) : bool :=
  if String.eqb (tag e) "class" then
    match findtext e "name" None with Some _ => true | None => false end
  else if String.eqb (tag e) "methods" then
    match findtext e "class-id" None with
    | Some cid =>
        Py.truthy (Some cid) && dot_free cid
        && forallb (fun b => Py.truthy (get b "selector")) (findall e "body")
    | None => false
    end
  else true.

Fixpoint tidy (e : element) : bool :=
  match e with
  | Element _ _ _ cs _ => tidy_node e && forallb tidy cs
  end.

(** An element after the handlers have run on it and below it: the tag
    stays, and so do text and attributes unless the element was
    cleared. *)
Definition kept (e e' : element) : Prop :=
  tag e' = tag e
  /\ (tag e <> "comment" -> tag e <> "methods" ->
      text e' = text e /\ attrib e' = attrib e).

Definition pending_typed (s : locals) : Prop :=
  forall p, pending_class s = Some p -> p !! "type" = Some TYPE.

(** What the events of a tidy subtree do to [parse]'s locals, and to the
    set of [parse_metadata]. *)
Definition names_spec (u : nat -> string) (ts : element -> string)
           (e : element) : Prop :=
  tidy e = true -> forall s, pending_typed s ->
  exists s' e',
    visit u ts e s = (s', inr e')
    /\ kept e e' /\ pending_typed s'
    /\ method_names (yielded s') = method_names (yielded s) ∪ names_of e.

Definition metadata_spec (e : element) : Prop :=
  tidy e = true -> forall acc : gset string,
  exists e', metadata_visit e acc = (e', acc ∪ names_of e) /\ kept e e'.

(** ** Sample documents *)

Definition leaf (t x : string) : element := Element t [] (Some x) [] None.

Definition sample_class (name : string) : element :=
  Element "class" [] None [leaf "name" name; leaf "super" "Core.Object"] None.

Definition sample_comment (class_id body : string) : element :=
  Element "comment" [] None [leaf "class-id" class_id; leaf "body" body] None.

Definition sample_body (selector source : string) : element :=
  Element "body" [("selector", selector)] (Some source) [] None.

Definition sample_methods (class_id : string) (bodies : list element)
  : element :=
  Element "methods" [] None (leaf "class-id" class_id :: bodies) None.

Definition sample_source (cs : list element) : element :=
  Element "st-source" [] None cs None.

Definition sample_uuid (n : nat) : string :=
  "uuid-a" +:+ String (ascii_of_nat (48 + n)) EmptyString.

Definition other_uuid (n : nat) : string :=
  "uuid-b" +:+ String (ascii_of_nat (48 + n)) EmptyString.

Definition sample_tostring (e : element) : string := "<" +:+ tag e +:+ "/>".

End SouParserSpec.

(** * Statements about the truncators *)

Module TruncateSpec.
Import Truncate.

(** ** What [balance_xml_tags] appends *)

Definition NL : string := String nl EmptyString.

(** The stack of [balance_xml_tags] when all lines are read. *)
Definition open_tags_of (xml_content : string) : list string :=
  fold_left track (Py.split nl xml_content) [].

(** One turn of the loop over the closing tags of a line. *)
Definition pop (st : list string) (t : string) : list string :=
  match last st with
  | Some top => if String.eqb top t then removelast st else st
  | None => st
  end.

Fixpoint concat_all (l : list string) : string :=
  match l with
  | [] => EmptyString
  | x :: r => x +:+ concat_all r
  end.

(** The text after the input: nothing when no tag is left open, else a
    line break, the comment, and one closing tag per line. *)
Definition appended (open_tags : list string) : string :=
  match open_tags with
  | [] => EmptyString
  | _ => NL +:+ truncation_comment
         +:+ concat_all (map (fun t => NL +:+ closing_tag t) (rev open_tags))
  end.

(** The same, line by line. *)
Definition appended_lines (open_tags : list string) : list string :=
  match open_tags with
  | [] => []
  | _ => EmptyString :: "  <!-- Truncated - closing open tags -->"
         :: map closing_tag (rev open_tags)
  end.

(** ** The tags of a text, as XML reads them

    A reader of the markup of XML 1.0, character by character: start
    tags, end tags, empty-element tags, comments, processing
    instructions and declarations.  It reports the start and end tags
    in the order of the text.  Well-formed XML has its tags properly
    nested and all closed; that is the part of well-formedness the
    statements below speak about. *)

Inductive tag_event : Type :=
| Open (name : string)
| Close (name : string).

Definition tag_event_eqb (a b : tag_event) : bool :=
  match a, b with
  | Open x, Open y | Close x, Close y => String.eqb x y
  | _, _ => false
  end.

Inductive lex_mode : Type :=
| Text                      (* character data *)
| Lt                        (* after [<] *)
| OpenName (name : string)  (* in the name of a start tag *)
| Attrs (name : string) (slash : bool) (quote : option ascii)
                            (* in a start tag, after the name *)
| CloseSlash                (* after [</] *)
| CloseName (name : string) (* in the name of an end tag *)
| CloseSpace (name : string)(* after the name of an end tag *)
| Bang                      (* after [<!] *)
| Bang1                     (* after [<!-] *)
| Comment (dashes : nat)    (* in a comment, after that many dashes *)
| Decl                      (* in another [<!...>] *)
| PI (qmark : bool)         (* in a processing instruction *)
| Bad.

(** [NameStartChar] and [NameChar] of XML, for code points below 256. *)
Definition is_name_start (c : ascii) : bool :=
  let n := nat_of_ascii c in
  Re.is_alpha c || (n =? 95) || (n =? 58)
  || ((192 <=? n) && negb (n =? 215) && negb (n =? 247)).

Definition is_name_char (c : ascii) : bool :=
  let n := nat_of_ascii c in
  is_name_start c || ((48 <=? n) && (n <=? 57)) || (n =? 45) || (n =? 46)
  || (n =? 183).

(** White space of XML. *)
Definition is_xml_space (c : ascii) : bool :=
  let n := nat_of_ascii c in
  (n =? 32) || (n =? 9) || (n =? 10) || (n =? 13).

Definition snoc (s : string) (c : ascii) : string := s +:+ String c EmptyString.

Definition step (m : lex_mode) (c : ascii) : lex_mode * list tag_event :=
  match m with
  | Text => if Ascii.eqb c "<" then (Lt, []) else (Text, [])
  | Lt =>
      if Ascii.eqb c "/" then (CloseSlash, [])
      else if Ascii.eqb c "!" then (Bang, [])
      else if Ascii.eqb c "?" then (PI false, [])
      else if is_name_start c then (OpenName (String c EmptyString), [])
      else (Bad, [])
  | OpenName n =>
      if is_name_char c then (OpenName (snoc n c), [])
      else if Ascii.eqb c ">" then (Text, [Open n])
      else if Ascii.eqb c "/" then (Attrs n true None, [])
      else if is_xml_space c then (Attrs n false None, [])
      else (Bad, [])
  | Attrs n slash None =>
      if Ascii.eqb c ">" then (Text, if slash then [] else [Open n])
      else if slash then (Bad, [])
      else if Ascii.eqb c "/" then (Attrs n true None, [])
      else if Ascii.eqb c "<" then (Bad, [])
      else if Ascii.eqb c "034" || Ascii.eqb c "039"
           then (Attrs n false (Some c), [])
      else (Attrs n false None, [])
  | Attrs n _ (Some q) =>
      if Ascii.eqb c q then (Attrs n false None, [])
      else if Ascii.eqb c "<" then (Bad, [])
      else (Attrs n false (Some q), [])
  | CloseSlash =>
      if is_name_start c then (CloseName (String c EmptyString), [])
      else (Bad, [])
  | CloseName n =>
      if is_name_char c then (CloseName (snoc n c), [])
      else if Ascii.eqb c ">" then (Text, [Close n])
      else if is_xml_space c then (CloseSpace n, [])
      else (Bad, [])
  | CloseSpace n =>
      if Ascii.eqb c ">" then (Text, [Close n])
      else if is_xml_space c then (CloseSpace n, [])
      else (Bad, [])
  | Bang => if Ascii.eqb c "-" then (Bang1, []) else (Decl, [])
  | Bang1 => if Ascii.eqb c "-" then (Comment 0, []) else (Bad, [])
  | Comment k =>
      if Ascii.eqb c "-" then (Comment (Nat.min 2 (S k)), [])
      else if Ascii.eqb c ">" && (k =? 2) then (Text, [])
      else (Comment 0, [])
  | Decl => if Ascii.eqb c ">" then (Text, []) else (Decl, [])
  | PI q =>
      if Ascii.eqb c "?" then (PI true, [])
      else if Ascii.eqb c ">" && q then (Text, [])
      else (PI false, [])
  | Bad => (Bad, [])
  end.

(** The mode after a text read from mode [m], and the tags met. *)
Fixpoint lex_from (m : lex_mode) (s : string) : lex_mode * list tag_event :=
  match s with
  | EmptyString => (m, [])
  | String c r =>
      let '(m1, ev) := step m c in
      let '(m2, evs) := lex_from m1 r in
      (m2, ev ++ evs)
  end.

(** The open elements after a sequence of tags, innermost first; [None]
    when an end tag does not close the innermost open element. *)
Fixpoint nest (stack : list string) (evs : list tag_event)
  : option (list string) :=
  match evs with
  | [] => Some stack
  | Open n :: r => nest (n :: stack) r
  | Close n :: r =>
      match stack with
      | top :: st => if String.eqb top n then nest st r else None
      | [] => None
      end
  end.

(** The markup is complete, the tags are properly nested and none is
    left open. *)
Definition tags_balanced (s : string) : bool :=
  match lex_from Text s with
  | (Text, evs) =>
      match nest [] evs with
      | Some [] => true
      | _ => false
      end
  | _ => false
  end.

(** The start of a properly nested text: the markup is complete and
    every end tag closes the innermost open element. *)
Definition nested_prefix (s : string) : bool :=
  match lex_from Text s with
  | (Text, evs) =>
      match nest [] evs with
      | Some _ => true
      | None => false
      end
  | _ => false
  end.

(** The tags of a line as the two patterns of [balance_xml_tags] report
    them: every match of the opening pattern, then every match of the
    closing pattern. *)
Definition tracked_events (line : string) : list tag_event :=
  map Open (Re.opening_tags line) ++ map Close (Re.closing_tags line).

Fixpoint events_eqb (a b : list tag_event) : bool :=
  match a, b with
  | [], [] => true
  | x :: a', y :: b' => tag_event_eqb x y && events_eqb a' b'
  | _, _ => false
  end.

(** The patterns read the line as XML does: the line holds whole tags
    only, and its tags are those the patterns report, in that order. *)
Definition line_exact (line : string) : bool :=
  match lex_from Text line with
  | (Text, evs) => events_eqb evs (tracked_events line)
  | _ => false
  end.

(** Every character of the string satisfies [p]. *)
Fixpoint all_chars (p : ascii -> bool) (s : string) : bool :=
  match s with
  | EmptyString => true
  | String c r => p c && all_chars p r
  end.

(** A name as the reader above accepts it. *)
Definition valid_name (n : string) : bool :=
  match n with
  | EmptyString => false
  | String c r => is_name_start c && all_chars is_name_char r
  end.

(** A name as the patterns of [balance_xml_tags] capture it. *)
Definition pattern_name (n : string) : bool :=
  match n with
  | EmptyString => false
  | String c r => Re.is_alpha c && all_chars Re.is_tag_char r
  end.

Definition not_nl (c : ascii) : bool := negb (Ascii.eqb c nl).

Definition event_name (e : tag_event) : string :=
  match e with Open n | Close n => n end.

Definition event_ok (e : tag_event) : Prop :=
  valid_name (event_name e) = true.

Definition mode_ok (m : lex_mode) : bool :=
  match m with
  | OpenName n | Attrs n _ _ | CloseName n | CloseSpace n => valid_name n
  | _ => true
  end.

(** ** Sample inputs *)

(** The beginning of a [.sou] file, cut inside a method body; its third
    line holds two elements. *)
Definition cut_sou : string :=
  "<st-source>" +:+ NL
  +:+ "<methods>" +:+ NL
  +:+ "<class-id>Root.Foo</class-id> <category>accessing</category>" +:+ NL
  +:+ "<body>bar".

(** The file it was cut from. *)
Definition whole_sou : string :=
  cut_sou +:+ NL +:+ "  ^1</body>" +:+ NL
  +:+ "</methods>" +:+ NL +:+ "</st-source>".

(** A cut file with one element to a line. *)
Definition cut_one_per_line : string :=
  "<st-source>" +:+ NL
  +:+ "<methods>" +:+ NL
  +:+ "<class-id>Root.Foo</class-id>" +:+ NL
  +:+ "<body>bar".

End TruncateSpec.

(** * Statements about the prefix-priority truncator *)

Module TruncateXmlNewSpec.
Import Truncate TruncateXmlNew.

(** The number of lines of a range, both ends counted. *)
Definition range_size (r : prange) : nat :=
  let '(_, start, end_, _) := r in S end_ - start.

Fixpoint total_size (rs : list prange) : nat :=
  match rs with
  | [] => 0
  | r :: rest => range_size r + total_size rest
  end.

(** The range lies within the file. *)
Definition in_file (all_lines : list string) (r : range) : Prop :=
  let '(start, end_, _) := r in start <= end_ < length all_lines.

Definition pin_file (all_lines : list string) (r : prange) : Prop :=
  let '(_, start, end_, _) := r in start <= end_ < length all_lines.

(** Line [i] of the file is in the selection. *)
Definition selected (all_lines : list string) (st : selection) (i : nat)
  : Prop :=
  i ∈ snd st
  /\ exists line, all_lines !! i = Some line /\ line ∈ fst st.

(** Every line marked as used is in the output. *)
Definition sel_ok (all_lines : list string) (st : selection) : Prop :=
  forall i, i ∈ snd st -> selected all_lines st i.

(** ** The layout of a file, line by line *)

(** A file as a sequence of blocks of whole lines: a class block goes
    from a line that opens a class to the first later line with
    [</class>], a methods block from a line with [<methods>] to the
    first later line with [</methods>]; any other line is a block of
    its own. *)
Inductive block : Type :=
| Plain (line : string)
| ClassBlock (opening : string) (inner : list string) (closing : string)
| MethodsBlock (opening : string) (inner : list string) (closing : string).

Definition block_lines (b : block) : list string :=
  match b with
  | Plain line => [line]
  | ClassBlock opening inner closing
  | MethodsBlock opening inner closing => opening :: inner ++ [closing]
  end.

Definition layout_lines (blocks : list block) : list string :=
  concat (map block_lines blocks).

(** The lines of a block are what the description above says: a plain
    line opens neither a class nor a methods block; in a class block
    the first line opens the class and does not close it, no later line
    opens another class, and the last line is the first with
    [</class>]; likewise for a methods block. *)
Definition block_ok (b : block) : bool :=
  match b with
  | Plain line =>
      negb (Re.class_open line) && negb (Py.contains "<methods>" line)
  | ClassBlock opening inner closing =>
      Re.class_open opening && negb (Py.contains "</class>" opening)
      && forallb (fun line => negb (Re.class_open line)
                              && negb (Py.contains "</class>" line)) inner
      && negb (Re.class_open closing) && Py.contains "</class>" closing
  | MethodsBlock opening inner closing =>
      negb (Re.class_open opening) && Py.contains "<methods>" opening
      && negb (Py.contains "</methods>" opening)
      && forallb (fun line => negb (Py.contains "</methods>" line)) inner
      && Py.contains "</methods>" closing
  end.

(** The text of an element [<t>text</t>] that stands on one line, the
    text being not empty and without [<]: the first such element of
    the line. *)
Definition element_text (t line : string) : option string :=
  if Py.contains ("<" +:+ t +:+ ">") line
  then Re.search (Re.simple_element_at t) line
  else None.

(** The last such text on the given lines. *)
Definition read_name (t : string) (lines : list string) : option string :=
  last (omap (element_text t) lines).

(** The name of a class block and the class-id of a methods block are
    read on the lines after the opening line. *)
Definition class_name_of (b : block) : option string :=
  match b with
  | ClassBlock _ inner closing => read_name "name" (inner ++ [closing])
  | _ => None
  end.

Definition class_id_of (b : block) : option string :=
  match b with
  | MethodsBlock _ inner closing => read_name "class-id" (inner ++ [closing])
  | _ => None
  end.

(** The class blocks whose name starts with a priority prefix. *)
Definition priority_class (priority_prefixes : list string) (b : block)
  : bool :=
  match b with
  | ClassBlock _ _ _ => has_priority priority_prefixes (class_name_of b)
  | _ => false
  end.

Definition priority_names (priority_prefixes : list string)
           (blocks : list block) : list (option string) :=
  map class_name_of (List.filter (priority_class priority_prefixes) blocks).

(** The blocks with priority: these classes, and the methods blocks
    whose class-id is the name of one of them. *)
Definition block_priority (priority_prefixes : list string)
           (names : list (option string)) (b : block) : bool :=
  match b with
  | Plain _ => false
  | ClassBlock _ _ _ => has_priority priority_prefixes (class_name_of b)
  | MethodsBlock _ _ _ => bool_decide (class_id_of b ∈ names)
  end.

(** The number of lines of the blocks with priority. *)
Definition priority_size (priority_prefixes : list string)
           (blocks : list block) : nat :=
  list_sum
    (map (fun b => length (block_lines b))
         (List.filter
            (block_priority priority_prefixes
                            (priority_names priority_prefixes blocks))
            blocks)).

(** The ranges of the class blocks and of the methods blocks of a
    layout whose first line is line [start] of the file. *)
Fixpoint layout_ranges (start : nat) (blocks : list block)
  : list range * list range :=
  match blocks with
  | [] => ([], [])
  | b :: rest =>
      let n := length (block_lines b) in
      let '(class_ranges, methods_ranges) := layout_ranges (start + n) rest in
      match b with
      | Plain _ => (class_ranges, methods_ranges)
      | ClassBlock _ _ _ =>
          ((start, start + n - 1, class_name_of b) :: class_ranges,
           methods_ranges)
      | MethodsBlock _ _ _ =>
          (class_ranges,
           (start, start + n - 1, class_id_of b) :: methods_ranges)
      end
  end.

(** Two priority ranges have no line in common. *)
Definition apart (x y : prange) : Prop :=
  let '(_, s1, e1, _) := x in
  let '(_, s2, e2, _) := y in
  e1 < s2 \/ e2 < s1.

Fixpoint all_apart (l : list prange) : Prop :=
  match l with
  | [] => True
  | x :: rest => Forall (apart x) rest /\ all_apart rest
  end.

Definition class_prange (r : range) : prange :=
  let '(start, end_, name) := r in ("class", start, end_, name).

Definition methods_prange (r : range) : prange :=
  let '(start, end_, name) := r in ("methods", start, end_, name).

Definition range_name (r : range) : option string :=
  let '(_, _, name) := r in name.

(** ** Sample files *)

Definition ln (s : string) : string := s +:+ String nl EmptyString.

(** A small file: one class named [FooBar], another class, and the
    methods of [FooBar]. *)
Definition small_file : string :=
  Py.join EmptyString
    ([ln "<st-source>"; ln "<filler/>"; ln "<filler/>";
      ln "<class>"; ln "<name>FooBar</name>"; ln "<super>Object</super>";
      ln "</class>";
      ln "<class>"; ln "<name>Other</name>"; ln "</class>";
      ln "<methods>"; ln "<class-id>FooBar</class-id>";
      ln "<body>bar ^1</body>"; ln "</methods>";
      ln "</st-source>"]).

(** A file whose only class, [FooBar], is sixty lines long. *)
Definition long_class_file : string :=
  Py.join EmptyString
    ([ln "<st-source>"; ln "<class>"; ln "<name>FooBar</name>"]
     ++ repeat (ln "<attribute>x</attribute>") 56
     ++ [ln "<category>the last line of FooBar</category>"; ln "</class>";
         ln "</st-source>"]).

(** A file of seventy-two lines whose class [FooBar] and its methods
    stand past line sixty. *)
Definition far_class_layout : list block :=
  [Plain (ln "<st-source>")]
  ++ repeat (Plain (ln "<filler/>")) 59
  ++ [ClassBlock (ln "<class>")
                 [ln "<name>FooBar</name>"; ln "<super>Object</super>"]
                 (ln "</class>");
      ClassBlock (ln "<class>") [ln "<name>Other</name>"] (ln "</class>");
      MethodsBlock (ln "<methods>")
                   [ln "<class-id>FooBar</class-id>"; ln "<body>bar ^1</body>"]
                   (ln "</methods>");
      Plain (ln "</st-source>")].

Definition far_class_file : string :=
  Py.join EmptyString (layout_lines far_class_layout).

(** The same class with its name on the line of the opening tag. *)
Definition name_on_opening_line : string :=
  Py.join EmptyString
    ([ln "<st-source>"]
     ++ repeat (ln "<filler/>") 59
     ++ [ln "<class><name>FooBar</name>"; ln "<super>Object</super>";
         ln "</class>"; ln "</st-source>"]).

(** Parsers for the samples: one that rejects every text, one that
    accepts every text as it is. *)
Definition rejecting_parse (content : string) : pyexn + string :=
  inl XMLSyntaxError.

Definition accepting_parse (content : string) : pyexn + string :=
  inr content.

End TruncateXmlNewSpec.

(** * Statements about the index manager *)

Module CreateIndexesSpec.
Import CreateIndexes.

(** No two entries of the catalog have the same name, or the same
    schema. *)
Definition catalog_ok (c : list index_entry) : Prop :=
  NoDup (map ix_name c) /\ NoDup (map ix_schema c).

(** The schema of a statement of the form
    [CREATE INDEX name IF NOT EXISTS FOR ...], [name] being the key the
    statement is stored under. *)
Definition guarded_schema (index_name query : string)
  : option (list string) :=
  match after_words ["CREATE"; "INDEX"] (words query) with
  | Some (name :: rest) =>
      if String.eqb name index_name
      then after_words ["IF"; "NOT"; "EXISTS"; "FOR"] rest
      else None
  | _ => None
  end.

Definition guarded (entry : string * string) : Prop :=
  is_Some (guarded_schema (fst entry) (snd entry)).

(** The lines a step printed. *)
Definition printed_by {A} (w : world) (r : world * A) : list line :=
  drop (length (stdout w)) (stdout (fst r)).

(** The statement the database has nothing left to do for. *)
Definition settled (c : list index_entry) (entry : string * string) : Prop :=
  exists schema, guarded_schema (fst entry) (snd entry) = Some schema
                 /\ exists_equivalent (fst entry) schema c = true.

Definition no_faults (n : nat) : fault := NoFault.

(** The line a turn of the loop prints for a guarded statement stored
    under [index_name], given the fate of its call: the statement itself
    cannot fail, so that the turn fails only with the connection. *)
Definition turn_line (f : fault) (index_name : string) : line :=
  match f with
  | NoFault => Created index_name
  | LostBefore | LostAfter => Failed index_name ServiceUnavailable
  end.

(** One line for every statement, in order, the call of the first one
    being the [n]-th of the process. *)
Fixpoint loop_lines (faults : nat -> fault) (n : nat)
         (stmts : list (string * string)) : list line :=
  match stmts with
  | [] => []
  | (index_name, _) :: rest =>
      turn_line (faults n) index_name :: loop_lines faults (S n) rest
  end.

(** The connection is lost before the third call reaches the server. *)
Definition lost_third (n : nat) : fault :=
  if n =? 2 then LostBefore else NoFault.

Definition empty_world : world := World [] 0 [].

End CreateIndexesSpec.

(** * Further statements about the parser *)

Module SouParserProps.
Import Xml SouParser SouParserSpec.

(** ** Counting *)

(** The number of elements tagged [t] in a document. *)
Fixpoint count_tag (t : string) (e : element) : nat :=
  match e with
  | Element t' _ _ cs _ =>
      (if String.eqb t' t then 1 else 0) + list_sum (map (count_tag t) cs)
  end.

(** The number of [<body>] children of the [<methods>] elements of a
    document. *)
Fixpoint count_bodies (e : element) : nat :=
  match e with
  | Element t _ _ cs _ =>
      (if String.eqb t "methods"
       then length (List.filter (fun c => String.eqb (tag c) "body") cs)
       else 0)
      + list_sum (map count_bodies cs)
  end.

Definition has_type (t : string) (r : record) : bool :=
  bool_decide (r !! "type" = Some t).

(** The number of records of type [t]. *)
Definition count_type (t : string) (rs : list record) : nat :=
  length (List.filter (has_type t) rs).

(** Every [<class>] of the document has a [<name>] child. *)
Fixpoint classes_named (e : element) : bool :=
  match e with
  | Element t _ _ cs _ =>
      (negb (String.eqb t "class")
       || existsb (fun c => String.eqb (tag c) "name") cs)
      && forallb classes_named cs
  end.

(** Every [<class>] has a [<name>] child, and every [<methods>] block
    a [<class-id>] child. *)
Fixpoint identified (e : element) : bool :=
  match e with
  | Element t _ _ cs _ =>
      (negb (String.eqb t "class")
       || existsb (fun c => String.eqb (tag c) "name") cs)
      && (negb (String.eqb t "methods")
          || existsb (fun c => String.eqb (tag c) "class-id") cs)
      && forallb identified cs
  end.

(** ** Fields *)

Fixpoint last_char (c : ascii) (s : string) : ascii :=
  match s with
  | EmptyString => c
  | String d r => last_char d r
  end.

(** The string neither begins nor ends with white space. *)
Definition trimmed (s : string) : bool :=
  match s with
  | EmptyString => true
  | String c r => negb (Py.isspace c) && negb (Py.isspace (last_char c r))
  end.

(** What every record has in its fields: body and comment are trimmed,
    the name of a [TYPE] has no dot, the name of a [METHOD] has one. *)
Definition fields_ok (r : record) : Prop :=
  trimmed (r !!! "body") = true
  /\ trimmed (r !!! "comment") = true
  /\ (r !! "type" = Some TYPE -> dot_free (r !!! "name") = true)
  /\ (r !! "type" = Some METHOD -> Py.contains "." (r !!! "name") = true).

Definition fields_inv (s : locals) : Prop :=
  Forall fields_ok (yielded s)
  /\ (forall p, pending_class s = Some p ->
                fields_ok p /\ p !! "type" = Some TYPE).

(** ** The names of [parse_metadata] *)

(** The names a [methods] element gives to [parse_metadata]: class-id,
    dot, selector, for every body, when neither is missing or empty. *)
Definition own_fqdn (e : element) : gset string :=
  if String.eqb (tag e) "methods" then
    list_to_set
      (omap (fun b =>
               if Py.truthy (findtext e "class-id" None)
                  && Py.truthy (get b "selector")
               then Some (or_empty (findtext e "class-id" None) +:+ "."
                          +:+ or_empty (get b "selector"))
               else None)
            (findall e "body"))
  else ∅.

(** The same for every element of the document, at any depth. *)
Fixpoint fqdn_of (e : element) : gset string :=
  match e with
  | Element _ _ _ cs _ => ⋃ (map fqdn_of cs) ∪ own_fqdn e
  end.

(** What the events of a subtree do to the set of [parse_metadata]. *)
Definition fqdn_spec (e : element) : Prop :=
  forall acc : gset string,
  exists e', metadata_visit e acc = (e', acc ∪ fqdn_of e) /\ kept e e'.

(** ** What a run does to the counts *)

Definition pending_count (s : locals) : nat :=
  match pending_class s with Some _ => 1 | None => 0 end.

(** The effect of the events of [e], from locals [s] to the result [r]. *)
Definition effect (e : element) (s : locals) (r : locals * (exn + element))
  : Prop :=
  pending_typed (fst r)
  /\ count_type TYPE (yielded (fst r)) + pending_count (fst r)
     <= count_type TYPE (yielded s) + pending_count s + count_tag "class" e
  /\ count_type TYPE (yielded (fst r))
     <= count_type TYPE (yielded s) + count_tag "comment" e
  /\ count_type METHOD (yielded (fst r))
     <= count_type METHOD (yielded s) + count_bodies e
  /\ forall e', snd r = inr e' ->
       tag e' = tag e
       /\ count_type METHOD (yielded (fst r))
          = count_type METHOD (yielded s) + count_bodies e
       /\ classes_named e = true.

End SouParserProps.

(** * Further statements about the truncators *)

Module TruncateProps.
Import Truncate TruncateXmlNew TruncateSpec TruncateXmlNewSpec.

Definition not_lt (c : ascii) : bool := negb (Ascii.eqb c "<").

Definition not_cr (c : ascii) : bool := negb (Ascii.eqb c cr).

(** ** Sample files and parsers *)

Definition CRLF : string := String cr NL.

(** Three lines that end with a carriage return and a line feed, with a
    carriage return alone, and with a line feed. *)
Definition mixed_line_ends : string :=
  "<st-source>" +:+ CRLF
  +:+ "<methods>" +:+ String cr EmptyString
  +:+ "<class-id>Root.Foo</class-id>" +:+ NL.

(** A file that has text before its first tag, with line breaks stored
    as carriage return and line feed. *)
Definition text_before_root : string :=
  "exported 2024" +:+ CRLF
  +:+ "<st-source>" +:+ CRLF
  +:+ "<methods>" +:+ CRLF
  +:+ "<class-id>Root.Foo</class-id>" +:+ CRLF
  +:+ "<body>bar" +:+ CRLF.

(** [lxml] on a text in which [libxml2] finds no root element: the
    default parser raises [XMLSyntaxError]; with [recover=True],
    [fromstring] returns [None], and [tostring] raises a [TypeError]. *)
Definition no_tree : pyexn :=
  OtherError "Type 'NoneType' cannot be serialized.".

Definition no_root_strict (content : string) : pyexn + string :=
  inl XMLSyntaxError.

Definition no_root_recovering (content : string) : pyexn + string :=
  inl no_tree.

(** The line opens an element and is not the XML declaration: the test
    of the header loop. *)
Definition opens_element (line : string) : bool :=
  Re.element_open line && negb (Py.contains "<?xml" line).

(** ** The selection *)

(** The output is made of the lines of the file numbered [idxs], in
    that order; no number comes twice, and [used_lines] holds exactly
    these numbers. *)
Definition picks (all_lines : list string) (st : selection)
           (idxs : list nat) : Prop :=
  NoDup idxs
  /\ snd st = list_to_set idxs
  /\ Forall2 (fun i line => all_lines !! i = Some line) idxs (fst st).

(** [output_lines] and [used_lines] when the first [j] lines of the file
    have been taken, in order. *)
Definition first_lines (all_lines : list string) (j : nat) : selection :=
  (take j all_lines, list_to_set (seq 0 j)).

(** The numbers of the lines of a priority range. *)
Definition range_lines (r : prange) : list nat :=
  let '(_, start, end_, _) := r in seq start (S end_ - start).

(** The priority ranges come by increasing first line. *)
Fixpoint by_start (l : list prange) : Prop :=
  match l with
  | [] => True
  | x :: rest =>
      Forall (fun y => range_start x <= range_start y) rest /\ by_start rest
  end.

(** ** The ranges *)

Definition range_end (r : range) : nat := let '(_, end_, _) := r in end_.

Definition range_begin (r : range) : nat := let '(start, _, _) := r in start.

(** [r1] ends before [r2] starts. *)
Definition before (r1 r2 : range) : Prop := range_end r1 < range_begin r2.

(** A class range starts at a line that opens a class and ends at a
    later line that closes one. *)
Definition class_range_ok (all_lines : list string) (r : range) : Prop :=
  let '(start, end_, _) := r in
  start < end_
  /\ (exists line, all_lines !! start = Some line
                   /\ Re.class_open line = true)
  /\ (exists line, all_lines !! end_ = Some line
                   /\ Py.contains "</class>" line = true).

(** A methods range starts at a line with [<methods>] that opens no
    class, and ends at the first later line with [</methods>]. *)
Definition methods_range_ok (all_lines : list string) (r : range) : Prop :=
  let '(start, end_, _) := r in
  start < end_
  /\ (exists line, all_lines !! start = Some line
                   /\ Re.class_open line = false
                   /\ Py.contains "<methods>" line = true)
  /\ (exists line, all_lines !! end_ = Some line
                   /\ Py.contains "</methods>" line = true)
  /\ (forall j line, start < j < end_ -> all_lines !! j = Some line ->
                     Py.contains "</methods>" line = false).

(** The ranges come in the order of the file, none reaching into a
    later one. *)
Fixpoint ordered (rs : list range) : Prop :=
  match rs with
  | [] => True
  | r :: rest => Forall (before r) rest /\ ordered rest
  end.

(** The name of a range, when it has one, is the text matched by
    [<t>([^<]+)</t>] on a line of the range after its first; it is not
    empty and holds no [<]. *)
Definition name_from (t : string) (all_lines : list string) (r : range)
  : Prop :=
  let '(start, end_, name) := r in
  forall nm, name = Some nm ->
    nm <> EmptyString /\ all_chars not_lt nm = true
    /\ exists j line, start < j <= end_ /\ all_lines !! j = Some line
                      /\ Re.search (Re.simple_element_at t) line = Some nm.

(** What the first pass keeps true when it is at line [i]: the ranges
    found are well formed, they lie before [i], and each list is in the
    order of the file, no range reaching into the next one. *)
Definition scan_inv (all_lines : list string) (i : nat)
           (class_ranges methods_ranges : list range) : Prop :=
  Forall (class_range_ok all_lines) class_ranges
  /\ Forall (methods_range_ok all_lines) methods_ranges
  /\ Forall (fun r => range_end r < i) (class_ranges ++ methods_ranges)
  /\ ordered class_ranges
  /\ ordered methods_ranges
  /\ (forall c m, c ∈ class_ranges -> m ∈ methods_ranges ->
                  before c m \/ before m c).

End TruncateProps.

(** * Further statements about the index manager *)

Module CreateIndexesProps.
Import CreateIndexes CreateIndexesSpec.

(** The catalog entry a guarded statement stands for. *)
Definition entry_of (entry : string * string) : option index_entry :=
  option_map (IndexEntry (fst entry)) (guarded_schema (fst entry) (snd entry)).

(** The entries of the seven statements, in the order of the dict. *)
Definition index_entries : list index_entry := omap entry_of indexes.

(** No entry of [c] has the name or the schema of [e]. *)
Definition absent (c : list index_entry) (e : index_entry) : Prop :=
  exists_equivalent (ix_name e) (ix_schema e) c = false.

End CreateIndexesProps.

(** ** The statistics script at the end of [src/sou_parser.py] *)

Module SouStats.
Import Xml SouParser.

(** The line boundaries of [str.splitlines], for code points below 256:
    line feed, vertical tab, form feed, carriage return, the file, group
    and record separators, and NEL. *)
Definition is_line_break (c : ascii) : bool :=
  let n := nat_of_ascii c in
  ((10 <=? n) && (n <=? 13)) || ((28 <=? n) && (n <=? 30)) || (n =? 133).

(** [len(s.splitlines())].  [open_line] tells that characters were read
    since the last boundary; a carriage return followed by a line feed
    is one boundary; a boundary at the end opens no further line. *)
Fixpoint count_lines (s : string) (open_line : bool) : nat :=
  match s with
  | EmptyString => if open_line then 1 else 0
  | String c r =>
      if is_line_break c then
        if Ascii.eqb c "013" then
          match r with
          | String d r' =>
              if Ascii.eqb d "010" then S (count_lines r' false)
              else S (count_lines r false)
          | EmptyString => 1
          end
        else S (count_lines r false)
      else count_lines r true
  end.

(** The exceptions the script can end with: one that [parse] raised, a
    key missing from a record, an index out of range, [min] of an
    empty list. *)
Inductive script_exn : Type :=
| Raised (e : exn)
| KeyError (key : string)
| IndexError
| ValueError.

(** A number as the script prints it: an [int], or the result of a true
    division, given by its operands. *)
Inductive number : Type :=
| Int (n : nat)
| Quotient (num den : nat).

(** The lines of standard output: [print(e)] in [parse], which writes
    the exception it caught, and the [print] calls of the script. *)
Inductive out_line : Type :=
| Caught (e : exn)
| TotalTypes (n : nat)
| TotalMethods (n : nat)
| TotalCount (n : nat)
| MinBodyLines (n : nat)
| MaxBodyLines (n : nat)
| AvgBodyLines (q : number)
| MedianBodyLines (q : number).

(** The module-level variables the loop updates. *)
Record tally : Type := Tally {
  count : nat;
  methods : nat;
  types : nat;
  body_len : list nat
}.

Definition tally0 : tally := Tally 0 0 0 [].

(** The body of [for m in parse(...)]. *)
Definition tally_step (t : tally) (m : record) : script_exn + tally :=
  let count := S (count t) in
  match m !! "type" with
  | None => inl (KeyError "type")
  | Some ty =>
      let '(types, methods) :=
        if String.eqb ty "SymbolType.TYPE" then (S (types t), methods t)
        else (types t, S (methods t)) in
      match m !! "body" with
      | None => inl (KeyError "body")
      | Some body =>
          inr (Tally count methods types
                     (body_len t ++ [count_lines body false]))
      end
  end.

Fixpoint tally_all (t : tally) (ms : list record) : script_exn + tally :=
  match ms with
  | [] => inr t
  | m :: rest =>
      match tally_step t m with
      | inl e => inl e
      | inr t' => tally_all t' rest
      end
  end.

(** [min] and [max] of a list that is not empty. *)
Definition list_min (x : nat) (l : list nat) : nat := fold_left Nat.min l x.
Definition list_max (x : nat) (l : list nat) : nat := fold_left Nat.max l x.

(** [sorted(body_len)] *)
Fixpoint insert_sorted (x : nat) (l : list nat) : list nat :=
  match l with
  | [] => [x]
  | y :: r => if x <=? y then x :: l else y :: insert_sorted x r
  end.

Definition sorted (l : list nat) : list nat := foldr insert_sorted [] l.

(** [data[i]] *)
Definition item (data : list nat) (i : nat) : script_exn + nat :=
  match data !! i with
  | Some v => inr v
  | None => inl IndexError
  end.

(** The median, as the last lines of the script compute it. *)
Definition median_of (data : list nat) : script_exn + number :=
  let n := length data in
  if n mod 2 =? 1 then
    match item data (n / 2) with
    | inl e => inl e
    | inr v => inr (Int v)
    end
  else
    match item data (n / 2 - 1), item data (n / 2) with
    | inr a, inr b => inr (Quotient (a + b) 2)
    | inl e, _ | _, inl e => inl e
    end.

(** The script, from [count = 0] to the last [print], on what [parse]
    yields, prints and ends with.  When the body of the loop raises,
    the script ends there, [parse] being suspended at that record:
    [inl].  Otherwise [parse] runs to its end, and what it printed comes
    first on standard output, all [print] calls of the script being
    after the loop: [inr] gives standard output and the exception the
    script ends with, if any. *)
Definition statistics (printed : list exn) (ms : list record)
           (ended : option exn)
  : script_exn + (list out_line * option script_exn) :=
  match tally_all tally0 ms with
  | inl e => inl e
  | inr t =>
      let caught := map Caught printed in
      match ended with
      | Some e => inr (caught, Some (Raised e))
      | None =>
          let totals :=
            [TotalTypes (types t); TotalMethods (methods t);
             TotalCount (count t)] in
          match body_len t with
          | [] => inr (caught ++ totals, Some ValueError)
          | x :: l =>
              let stats :=
                [MinBodyLines (list_min x l); MaxBodyLines (list_max x l);
                 AvgBodyLines (Quotient (list_sum (x :: l))
                                        (length (x :: l)))] in
              match median_of (sorted (x :: l)) with
              | inl e => inr (caught ++ totals ++ stats, Some e)
              | inr median =>
                  inr (caught ++ totals ++ stats ++ [MedianBodyLines median],
                       None)
              end
          end
      end
  end.

Section WithLibraries.
Variable uuid4 : nat -> string.
Variable tostring : element -> string.

(** The script on the document at the path it names. *)
Definition script (root : element)
  : script_exn + (list out_line * option script_exn) :=
  let '(s, r) := visit uuid4 tostring root init in
  statistics (printed s) (yielded s)
             (match r with inl e => Some e | inr _ => None end).

End WithLibraries.

End SouStats.

(** * The parser: proofs *)

Module SouParserCorrect.
Import Xml SouParser SouParserSpec.

(** ** Induction on documents *)

Lemma element_ind' (P : element -> Prop) :
  (forall t a x cs l, Forall P cs -> P (Element t a x cs l)) ->
  forall e, P e.
Proof.
  intros H. fix IH 1. intros [t a x cs l]. apply H.
  induction cs as [|c cs IHcs]; constructor; [apply IH | exact IHcs].
Qed.

Lemma visit_eq u ts t a x cs l :
  visit u ts (Element t a x cs l)
  = (cs' <- visit_all u ts cs ;; on_end u ts (Element t a x cs' l)).
Proof. reflexivity. Qed.

Lemma visit_all_cons u ts c r s :
  visit_all u ts (c :: r) s
  = match visit u ts c s with
    | (s1, inr c') =>
        match visit_all u ts r s1 with
        | (s2, inr r') => (s2, inr (c' :: r'))
        | (s2, inl e) => (s2, inl e)
        end
    | (s1, inl e) => (s1, inl e)
    end.
Proof.
  cbn [visit_all]. unfold bind, ret.
  destruct (visit u ts c s) as [s1 [e|c']]; [reflexivity|].
  destruct (visit_all u ts r s1) as [s2 [e|r']]; reflexivity.
Qed.

Lemma visit_all_app u ts a b s :
  visit_all u ts (a ++ b) s
  = match visit_all u ts a s with
    | (s1, inr a') =>
        match visit_all u ts b s1 with
        | (s2, inr b') => (s2, inr (a' ++ b'))
        | (s2, inl e) => (s2, inl e)
        end
    | (s1, inl e) => (s1, inl e)
    end.
Proof.
  revert s. induction a as [|c a IH]; intros s.
  - cbn [visit_all app]. unfold ret.
    destruct (visit_all u ts b s) as [s2 [e|b']]; reflexivity.
  - cbn [app]. rewrite !visit_all_cons.
    destruct (visit u ts c s) as [s1 [e|c']]; [reflexivity|].
    rewrite IH. destruct (visit_all u ts a s1) as [s2 [e|a']]; [reflexivity|].
    destruct (visit_all u ts b s2) as [s3 [e|b']]; reflexivity.
Qed.

Lemma bind_get_pending {B} (k : option record -> M B) s :
  bind get_pending k s = k (pending_class s) s.
Proof. reflexivity. Qed.

(** ** Invariants of the generator *)

Section Invariants.
Variable uuid4 : nat -> string.
Variable tostring : element -> string.
Variable I : locals -> Prop.
Hypothesis on_end_I :
  forall e s, I s -> I (fst (on_end uuid4 tostring e s)).

Lemma visit_all_inv cs :
  Forall (fun c => forall s, I s -> I (fst (visit uuid4 tostring c s))) cs ->
  forall s, I s -> I (fst (visit_all uuid4 tostring cs s)).
Proof.
  induction 1 as [|c cs Hc _ IH]; intros s Hs; [exact Hs|].
  rewrite visit_all_cons. specialize (Hc s Hs).
  destruct (visit uuid4 tostring c s) as [s1 [e|c']]; [exact Hc|].
  specialize (IH s1 Hc).
  destruct (visit_all uuid4 tostring cs s1) as [s2 [e|cs']]; exact IH.
Qed.

Lemma visit_inv e : forall s, I s -> I (fst (visit uuid4 tostring e s)).
Proof.
  induction e as [t a x cs l IH] using element_ind'. intros s Hs.
  rewrite visit_eq. unfold bind.
  pose proof (visit_all_inv cs IH s Hs) as H1.
  destruct (visit_all uuid4 tostring cs s) as [s1 [e|cs']]; [exact H1|].
  apply on_end_I, H1.
Qed.
End Invariants.

Lemma for_each_inv {A} (I : locals -> Prop) (l : list A) (body : A -> M unit) :
  (forall x s, I s -> I (fst (body x s))) ->
  forall s, I s -> I (fst (for_each l body s)).
Proof.
  intros Hb. induction l as [|x l IH]; intros s Hs; [exact Hs|].
  cbn [for_each]. unfold bind. specialize (Hb x s Hs).
  destruct (body x s) as [s1 [e|[]]]; [exact Hb|]. apply IH, Hb.
Qed.

Lemma bind_inv {A B} (I : locals -> Prop) (m : M A) (k : A -> M B) s :
  I (fst (m s)) -> (forall a s', I s' -> I (fst (k a s'))) ->
  I (fst (bind m k s)).
Proof.
  intros Hm Hk. unfold bind. destruct (m s) as [s1 [e|a]]; [exact Hm|].
  apply Hk, Hm.
Qed.

(** ** The shape of the records (C10) *)

Lemma mk_record_shape n t b c i :
  dom (mk_record n t b c i)
  = list_to_set ["name"; "type"; "body"; "comment"; "id"].
Proof.
  unfold mk_record. rewrite !dom_insert_L, dom_empty_L. cbn.
  rewrite !union_empty_r_L. reflexivity.
Qed.

Lemma well_shaped_type n b c i : well_shaped (mk_record n TYPE b c i).
Proof.
  split; [apply mk_record_shape|]. split.
  - left. reflexivity.
  - intros H. discriminate H.
Qed.

Lemma well_shaped_method n b i :
  well_shaped (mk_record n METHOD b EmptyString i).
Proof.
  split; [apply mk_record_shape|]. split.
  - right. reflexivity.
  - intros _. reflexivity.
Qed.

Lemma well_shaped_set_comment p c :
  well_shaped p -> p !! "type" = Some TYPE ->
  well_shaped (<["comment" := c]> p).
Proof.
  intros (Hd & Ht & Hm) HT. split; [|split].
  - rewrite dom_insert_L, Hd. apply subseteq_union_1_L.
    apply singleton_subseteq_l. cbn.
    rewrite !elem_of_union, !elem_of_singleton. tauto.
  - left. rewrite lookup_insert_ne by done. exact HT.
  - rewrite lookup_insert_ne by done. rewrite HT. intros H. discriminate H.
Qed.

Lemma shape_yield r s :
  well_shaped r -> shape_inv s -> shape_inv (fst (yield r s)).
Proof.
  intros Hr [Hy Hp]. split; [|exact Hp]. cbn.
  apply Forall_app. split; [exact Hy|]. constructor; [exact Hr|constructor].
Qed.

Lemma methods_branch_shape u (e : element) s :
  shape_inv s ->
  shape_inv (fst (((fun s0 : locals =>
        match extract_class_name (findtext e "class-id" None) with
        | inl e0 => print e0 s0
        | inr n => set_class_name n s0
        end) ;;;
     for_each (findall e "body")
       (fun body : element =>
          incr_methods ;;;
          cn <- read_class_name ;;
          id <- fresh_uuid u ;;
          yield
            (mk_record (cn +:+ "." +:+ Py.fmt (get body "selector")) METHOD
               (Py.strip (or_empty (text body))) EmptyString id)) ;;;
     ret (clear e)) s)).
Proof.
  intros Hs. apply bind_inv.
  { destruct (extract_class_name _); exact Hs. }
  intros _ s1 Hs1. apply bind_inv; [|intros; assumption].
  apply for_each_inv; [|exact Hs1]. clear. intros body s Hs.
  apply bind_inv; [exact Hs|]. intros _ s1 Hs1.
  apply bind_inv.
  { unfold read_class_name. destruct (class_name s1); exact Hs1. }
  intros cn s2 Hs2. apply bind_inv; [exact Hs2|]. intros id s3 Hs3.
  apply shape_yield; [apply well_shaped_method|exact Hs3].
Qed.

Lemma on_end_shape u ts e s :
  shape_inv s -> shape_inv (fst (on_end u ts e s)).
Proof.
  intros Hs. unfold on_end.
  destruct (negb _); [exact Hs|].
  rewrite bind_get_pending.
  destruct (String.eqb (tag e) "class").
  { apply bind_inv; [exact Hs|]. intros name s1 Hs1.
    apply bind_inv; [exact Hs1|]. intros id s2 Hs2.
    apply bind_inv; [|intros; assumption].
    destruct Hs2 as [Hy _]. split; [exact Hy|]. cbn.
    intros q [= <-]. split; [apply well_shaped_type|reflexivity]. }
  assert (Hflush : forall r, well_shaped r ->
            shape_inv (fst ((yield r ;;; set_pending None ;;; ret (clear e)) s))).
  { intros r Hr. apply bind_inv; [apply shape_yield; assumption|].
    intros _ s1 [Hy1 _]. apply bind_inv; [|intros; assumption].
    split; [exact Hy1|]. cbn. intros q [=]. }
  destruct (String.eqb (tag e) "comment"), (pending_class s) as [pc|] eqn:Hpc.
  all: try (destruct (String.eqb (tag e) "methods");
            [apply methods_branch_shape; exact Hs|]).
  all: try exact Hs.
  - apply bind_inv; [exact Hs|]. intros cid s1 Hs1.
    apply bind_inv; [exact Hs1|]. intros _ s2 Hs2.
    destruct Hs as [_ Hp]. destruct (Hp pc Hpc) as [Hw HT].
    apply bind_inv.
    { apply shape_yield; [|exact Hs2].
      destruct (Py.endswith _ _); [apply well_shaped_set_comment|]; assumption. }
    intros _ s3 [Hy3 _]. apply bind_inv; [|intros; assumption].
    split; [exact Hy3|]. cbn. intros q [=].
  - apply (Hflush pc). destruct Hs as [_ Hp]. apply (Hp pc Hpc).
Qed.

Lemma shape_init : shape_inv init.
Proof. split; [constructor|intros p [=]]. Qed.

(** C10.  Every record yielded by [parse] has exactly the five keys
    [name], [type], [body], [comment] and [id]; its type is [TYPE] or
    [METHOD]; the comment of a [METHOD] record is the empty string.
    This holds of the records yielded before an exception as well. *)
Theorem C10_records_well_shaped u ts root :
  Forall well_shaped (fst (parse u ts root)).
Proof.
  unfold parse.
  pose proof (visit_inv u ts shape_inv (on_end_shape u ts) root init shape_init) as H.
  destruct (visit u ts root init) as [s [e|e']]; exact (proj1 H).
Qed.

(** ** What the handler does at each tag *)

Lemma special_class : special "class" = true.
Proof. reflexivity. Qed.

Lemma special_comment : special "comment" = true.
Proof. reflexivity. Qed.

Lemma special_methods : special "methods" = true.
Proof. reflexivity. Qed.

Lemma tag_cases (t : string) :
  t = "class" \/ t = "comment" \/ t = "methods" \/ special t = false.
Proof.
  unfold special. destruct (decide (t = "class")) as [->|H1]; [auto|].
  destruct (decide (t = "comment")) as [->|H2]; [auto|].
  destruct (decide (t = "methods")) as [->|H3]; [auto|].
  right; right; right. apply bool_decide_eq_false_2.
  rewrite !elem_of_cons, elem_of_nil. tauto.
Qed.

Lemma special_false_tag t :
  special t = false -> t <> "class" /\ t <> "comment" /\ t <> "methods".
Proof.
  unfold special. intros H%bool_decide_eq_false_1.
  rewrite !elem_of_cons, elem_of_nil in H. tauto.
Qed.

Lemma findtext_default e t d :
  findtext e t (Some d) = Some (or_empty (findtext e t (Some d))).
Proof. unfold findtext. destruct (find e t); reflexivity. Qed.

Lemma extract_class_name_some o s :
  o = Some s -> extract_class_name o = inr (class_text o).
Proof. intros ->. reflexivity. Qed.

Lemma mk_record_name n t b c i : mk_record n t b c i !!! "name" = n.
Proof. unfold mk_record. apply lookup_total_insert_eq. Qed.

Lemma set_comment_record n t b c i :
  <["comment" := c]> (mk_record n t b EmptyString i) = mk_record n t b c i.
Proof.
  unfold mk_record. apply map_eq. intros k. rewrite !lookup_insert.
  repeat case_decide; subst; try done.
Qed.

Section Handlers.
Variable u : nat -> string.
Variable ts : element -> string.

Lemma on_end_plain e s :
  special (tag e) = false -> on_end u ts e s = (s, inr e).
Proof.
  intros H. unfold on_end. fold (special (tag e)). rewrite H. reflexivity.
Qed.

Lemma on_end_class e s nm :
  tag e = "class" -> findtext e "name" None = Some nm ->
  on_end u ts e s
  = (Locals (Some (mk_record (class_text (Some nm)) TYPE (inner_xml ts e)
                     EmptyString (u (uuid_calls s))))
            (types_count s) (methods_count s) (class_name s)
            (S (uuid_calls s)) (yielded s) (printed s),
     inr e).
Proof.
  intros Ht Hn. unfold on_end. fold (special (tag e)).
  rewrite Ht, special_class, Hn. reflexivity.
Qed.

Lemma on_end_comment_pending e s pc :
  tag e = "comment" -> pending_class s = Some pc ->
  on_end u ts e s
  = (Locals None (S (types_count s)) (methods_count s) (class_name s)
            (uuid_calls s)
            (yielded s ++
               [if Py.endswith
                     (class_text (findtext e "class-id" (Some EmptyString)))
                     (pc !!! "name")
                then <["comment" :=
                        Py.strip (or_empty (findtext e "body" (Some EmptyString)))]> pc
                else pc])
            (printed s),
     inr (clear e)).
Proof.
  intros Ht Hp. unfold on_end. fold (special (tag e)).
  rewrite Ht, special_comment. cbn [negb]. rewrite bind_get_pending.
  rewrite Hp. cbn [String.eqb Ascii.eqb Bool.eqb].
  rewrite (extract_class_name_some _ _ (findtext_default e "class-id" EmptyString)).
  reflexivity.
Qed.

Lemma on_end_comment_none e s :
  tag e = "comment" -> pending_class s = None ->
  on_end u ts e s = (s, inr (clear e)).
Proof.
  intros Ht Hp. unfold on_end. fold (special (tag e)).
  rewrite Ht, special_comment. cbn [negb]. rewrite bind_get_pending.
  rewrite Hp. reflexivity.
Qed.

Lemma for_each_methods bodies : forall s cn,
  class_name s = Some cn ->
  for_each bodies (fun body =>
      incr_methods ;;;
      cn <- read_class_name ;;
      id <- fresh_uuid u ;;
      yield (mk_record (cn +:+ "." +:+ Py.fmt (get body "selector"))
               METHOD (Py.strip (or_empty (text body))) EmptyString id)) s
  = (Locals (pending_class s) (types_count s)
            (length bodies + methods_count s) (Some cn)
            (length bodies + uuid_calls s)
            (yielded s ++ method_records u cn bodies (uuid_calls s))
            (printed s),
     inr tt).
Proof.
  induction bodies as [|b bodies IH]; intros s cn Hcn.
  - cbn. unfold ret. rewrite app_nil_r, <- Hcn. destruct s; reflexivity.
  - cbn [for_each]. unfold bind at 1.
    unfold bind at 1, incr_methods at 1, read_class_name at 1,
      fresh_uuid at 1, yield at 1. cbn. rewrite Hcn. cbn.
    rewrite (IH _ cn) by reflexivity. cbn.
    rewrite <- app_assoc, <- !Nat.add_succ_r. reflexivity.
Qed.

Lemma on_end_methods e s mcid :
  tag e = "methods" -> findtext e "class-id" None = Some mcid ->
  on_end u ts e s
  = (Locals (pending_class s) (types_count s)
            (length (findall e "body") + methods_count s)
            (Some (class_text (Some mcid)))
            (length (findall e "body") + uuid_calls s)
            (yielded s ++ method_records u (class_text (Some mcid))
                                         (findall e "body") (uuid_calls s))
            (printed s),
     inr (clear e)).
Proof.
  intros Ht Hc. unfold on_end. fold (special (tag e)).
  rewrite Ht, special_methods, Hc. cbn [negb]. rewrite bind_get_pending.
  cbn [String.eqb Ascii.eqb Bool.eqb extract_class_name].
  unfold bind at 1, set_class_name.
  unfold bind at 1.
  rewrite (for_each_methods _ _ (class_text (Some mcid))) by reflexivity.
  reflexivity.
Qed.

(** *** Subtrees the handler does not look at *)

Lemma visit_all_plain_aux cs :
  Forall (fun c => plain c = true ->
                   forall s, visit u ts c s = (s, inr c)) cs ->
  forallb plain cs = true -> forall s, visit_all u ts cs s = (s, inr cs).
Proof.
  induction 1 as [|c cs Hc _ IH]; intros Hp s; [reflexivity|].
  cbn in Hp. apply andb_prop in Hp as [Hp1 Hp2].
  rewrite visit_all_cons, (Hc Hp1), (IH Hp2). reflexivity.
Qed.

Lemma visit_plain e : plain e = true -> forall s, visit u ts e s = (s, inr e).
Proof.
  induction e as [t a x cs l IH] using element_ind'. intros Hp s.
  cbn in Hp. apply andb_prop in Hp as [Ht Hcs].
  rewrite visit_eq. unfold bind.
  rewrite (visit_all_plain_aux cs IH Hcs).
  apply on_end_plain. cbn. apply negb_true_iff, Ht.
Qed.

Lemma visit_all_plain cs :
  forallb plain cs = true -> forall s, visit_all u ts cs s = (s, inr cs).
Proof.
  intros H. apply visit_all_plain_aux; [|exact H].
  apply Forall_forall. intros c _. apply visit_plain.
Qed.

Lemma visit_flat t a x cs l s :
  forallb plain cs = true ->
  visit u ts (Element t a x cs l) s = on_end u ts (Element t a x cs l) s.
Proof.
  intros H. rewrite visit_eq. unfold bind.
  rewrite (visit_all_plain cs H). reflexivity.
Qed.
End Handlers.

(** ** One class, its comment, its methods (C1) *)

(** C1, amended.  For a document whose root holds, in this order and
    among elements the parser does not look at, one [<class>] with a
    [<name>], one [<comment>] whose class-id matches the class, and one
    [<methods>] block with a class-id and two [<body selector=...>]
    entries, [parse] yields exactly three records and ends normally:
    the [TYPE] record of the class, whose comment is the text of the
    comment's [<body>] with leading and trailing white space stripped,
    then the two [METHOD] records in document order. *)
Theorem C1_one_class_yields_three u ts rt ra rx rl pre mid1 mid2 post
        ca cx ccs cl ma mx mcs ml ka kx kcs kl nm mcid b1 b2 sel1 sel2 :
  let cls := Element "class" ca cx ccs cl in
  let cmt := Element "comment" ka kx kcs kl in
  let mth := Element "methods" ma mx mcs ml in
  special rt = false ->
  forallb plain pre = true -> forallb plain mid1 = true ->
  forallb plain mid2 = true -> forallb plain post = true ->
  forallb plain ccs = true -> forallb plain kcs = true ->
  forallb plain mcs = true ->
  findtext cls "name" None = Some nm ->
  Py.endswith (class_text (findtext cmt "class-id" (Some EmptyString)))
              (class_text (Some nm)) = true ->
  findtext mth "class-id" None = Some mcid ->
  findall mth "body" = [b1; b2] ->
  get b1 "selector" = Some sel1 -> get b2 "selector" = Some sel2 ->
  parse u ts (Element rt ra rx
                (pre ++ cls :: mid1 ++ cmt :: mid2 ++ mth :: post) rl)
  = ([mk_record (class_text (Some nm)) TYPE (inner_xml ts cls)
        (Py.strip (or_empty (findtext cmt "body" (Some EmptyString)))) (u 0);
      mk_record (class_text (Some mcid) +:+ "." +:+ sel1) METHOD
        (Py.strip (or_empty (text b1))) EmptyString (u 1);
      mk_record (class_text (Some mcid) +:+ "." +:+ sel2) METHOD
        (Py.strip (or_empty (text b2))) EmptyString (u 2)],
     None).
Proof.
  intros cls cmt mth Hrt Hpre Hmid1 Hmid2 Hpost Hccs Hkcs Hmcs
         Hnm Hmatch Hcid Hbodies Hs1 Hs2.
  unfold parse. rewrite visit_eq. unfold bind at 1.
  rewrite visit_all_app, (visit_all_plain u ts pre Hpre).
  rewrite visit_all_cons. unfold cls at 1.
  rewrite (visit_flat u ts _ _ _ _ _ _ Hccs).
  fold cls. rewrite (on_end_class u ts cls init nm eq_refl Hnm).
  rewrite visit_all_app, (visit_all_plain u ts mid1 Hmid1).
  rewrite visit_all_cons. unfold cmt at 1.
  rewrite (visit_flat u ts _ _ _ _ _ _ Hkcs).
  fold cmt. erewrite (on_end_comment_pending u ts cmt) by reflexivity.
  cbn [pending_class types_count methods_count class_name uuid_calls
       yielded printed init].
  rewrite mk_record_name, Hmatch, set_comment_record.
  rewrite visit_all_app, (visit_all_plain u ts mid2 Hmid2).
  rewrite visit_all_cons. unfold mth at 1.
  rewrite (visit_flat u ts _ _ _ _ _ _ Hmcs).
  fold mth. rewrite (on_end_methods u ts mth _ mcid eq_refl Hcid).
  rewrite (visit_all_plain u ts post Hpost).
  cbn [pending_class types_count methods_count class_name uuid_calls
       yielded printed].
  rewrite Hbodies. cbn [method_records length Nat.add].
  rewrite on_end_plain by exact Hrt.
  cbn [yielded app]. unfold method_record. rewrite Hs1, Hs2. reflexivity.
Qed.

(** The amended statement at a sample document. *)
Lemma C1_one_class_witness :
  parse sample_uuid sample_tostring
    (sample_source
       [sample_class "Root.Foo";
        sample_comment "Root.Foo" "  about Foo ";
        sample_methods "Root.Foo"
          [sample_body "bar" "bar ^1"; sample_body "baz:" "baz: x ^x "]])
  = ([mk_record "Foo" TYPE "<name/><super/>" "about Foo" (sample_uuid 0);
      mk_record "Foo.bar" METHOD "bar ^1" EmptyString (sample_uuid 1);
      mk_record "Foo.baz:" METHOD "baz: x ^x" EmptyString (sample_uuid 2)],
     None).
Proof.
  exact (C1_one_class_yields_three sample_uuid sample_tostring
           "st-source" [] None None [] [] [] []
           [] None [leaf "name" "Root.Foo"; leaf "super" "Core.Object"] None
           [] None [leaf "class-id" "Root.Foo"; sample_body "bar" "bar ^1";
                    sample_body "baz:" "baz: x ^x "] None
           [] None [leaf "class-id" "Root.Foo"; leaf "body" "  about Foo "] None
           "Root.Foo" "Root.Foo"
           (sample_body "bar" "bar ^1") (sample_body "baz:" "baz: x ^x ")
           "bar" "baz:"
           eq_refl eq_refl eq_refl eq_refl eq_refl eq_refl eq_refl eq_refl
           eq_refl eq_refl eq_refl eq_refl eq_refl eq_refl).
Defined.

(** C1 as stated fails: the comment field is not the text of the
    comment's body when that text begins or ends with white space. *)
Lemma C1_comment_is_stripped :
  let cmt := sample_comment "Root.Foo" "  about Foo " in
  let doc :=
    sample_source
      [sample_class "Root.Foo"; cmt;
       sample_methods "Root.Foo"
         [sample_body "bar" "bar ^1"; sample_body "baz:" "baz: x ^x "]] in
  findtext cmt "body" None = Some "  about Foo "
  /\ ~ exists r m1 m2 : record,
         parse sample_uuid sample_tostring doc = ([r; m1; m2], None)
         /\ r !! "type" = Some TYPE
         /\ r !! "comment" = findtext cmt "body" None
         /\ m1 !! "type" = Some METHOD /\ m2 !! "type" = Some METHOD.
Proof.
  intros cmt doc. split; [reflexivity|].
  intros (r & m1 & m2 & Hp & _ & Hc & _).
  assert (E : (fun l : list record =>
                 match l with r :: _ => r !! "comment" | [] => None end)
                (fst (parse sample_uuid sample_tostring doc))
              = Some "about Foo")
    by (vm_compute; reflexivity).
  rewrite Hp in E. cbn in E. rewrite Hc in E. discriminate E.
Qed.

(** ** Classes that are never handed out (C2) *)

(** C2 fails on the code.  A class followed by another class is
    overwritten without being yielded, and a class followed only by its
    methods block is never yielded: of the first document only [B] comes
    out, of the second only the method. *)
Theorem C2_pending_class_dropped u ts :
  parse u ts (sample_source [sample_class "A"; sample_class "B";
                             sample_comment "Root.B" "about B"])
  = ([mk_record "B" TYPE (inner_xml ts (sample_class "B")) "about B" (u 1)],
     None)
  /\ parse u ts (sample_source [sample_class "A";
                                sample_methods "Root.A" [sample_body "m" "m ^1"]])
     = ([mk_record "A.m" METHOD "m ^1" EmptyString (u 1)], None).
Proof.
  split; vm_compute; reflexivity.
Qed.

(** ** Two runs on one document (C8) *)

Lemma mk_record_inst u n name type body comment :
  mk_record name type body comment (u n)
  = inst u (n, mk_record name type body comment EmptyString).
Proof.
  unfold inst, mk_record. cbn [fst snd].
  apply map_eq. intros k. rewrite !lookup_insert.
  repeat case_decide; subst; try done.
Qed.

Lemma fresh_index (s : locals) (pa : option (nat * record)) ya :
  Forall (fun x => fst x < uuid_calls s) (option_list pa ++ ya) ->
  uuid_calls s ∉ (option_list pa ++ ya).*1.
Proof.
  intros H Hin. apply list_elem_of_fmap in Hin as [x [Hx Hin]].
  rewrite Forall_forall in H. specialize (H x Hin). lia.
Qed.

Section Twins.
Variables u1 u2 : nat -> string.
Variable ts : element -> string.

Lemma twin_ret {A} (a : A) s1 s2 :
  twin u1 u2 s1 s2 -> twin_step u1 u2 (s1, inr a) (s2, @inr exn A a).
Proof. intros H. split; [exact H|reflexivity]. Qed.

Lemma bind_twin {A B} (m1 m2 : M A) (k1 k2 : A -> M B) s1 s2 :
  twin_step u1 u2 (m1 s1) (m2 s2) ->
  (forall a t1 t2, twin u1 u2 t1 t2 -> twin_step u1 u2 (k1 a t1) (k2 a t2)) ->
  twin_step u1 u2 (bind m1 k1 s1) (bind m2 k2 s2).
Proof.
  unfold bind, twin_step. intros [Hr Hv] Hk.
  destruct (m1 s1) as [t1 [e1|a1]], (m2 s2) as [t2 [e2|a2]]; cbn in *;
    try discriminate.
  - injection Hv as <-. split; [assumption|reflexivity].
  - injection Hv as <-. apply Hk; assumption.
Qed.

Lemma for_each_twin {A} (l : list A) (b1 b2 : A -> M unit) :
  (forall x s1 s2, twin u1 u2 s1 s2 -> twin_step u1 u2 (b1 x s1) (b2 x s2)) ->
  forall s1 s2, twin u1 u2 s1 s2 ->
    twin_step u1 u2 (for_each l b1 s1) (for_each l b2 s2).
Proof.
  intros Hb. induction l as [|x l IH]; intros s1 s2 Hs.
  - apply twin_ret, Hs.
  - cbn [for_each]. eapply bind_twin; [apply Hb, Hs|].
    intros _ t1 t2 Ht. apply IH, Ht.
Qed.

(** A step that touches neither the pending class, nor the records
    yielded, nor the count of draws. *)
Lemma twin_keep s1 s2 t1 t2 :
  twin u1 u2 s1 s2 ->
  pending_class t1 = pending_class s1 -> pending_class t2 = pending_class s2 ->
  yielded t1 = yielded s1 -> yielded t2 = yielded s2 ->
  types_count t1 = types_count t2 -> methods_count t1 = methods_count t2 ->
  class_name t1 = class_name t2 -> uuid_calls t1 = uuid_calls s1 ->
  uuid_calls t2 = uuid_calls s2 -> printed t1 = printed t2 ->
  twin u1 u2 t1 t2.
Proof.
  intros [pa ya Hp1 Hp2 Hy1 Hy2 Htc Hmc Hcn Huc Hpr Hlt Hnd]
         E1 E2 E3 E4 E5 E6 E7 E8 E9 E10.
  apply (Twin _ _ _ _ pa ya); try congruence.
  rewrite E8. exact Hlt.
Qed.

Lemma method_body_twin (body : element) s1 s2 :
  twin u1 u2 s1 s2 ->
  twin_step u1 u2
    ((incr_methods ;;;
      cn <- read_class_name ;;
      id <- fresh_uuid u1 ;;
      yield (mk_record (cn +:+ "." +:+ Py.fmt (get body "selector")) METHOD
               (Py.strip (or_empty (text body))) EmptyString id)) s1)
    ((incr_methods ;;;
      cn <- read_class_name ;;
      id <- fresh_uuid u2 ;;
      yield (mk_record (cn +:+ "." +:+ Py.fmt (get body "selector")) METHOD
               (Py.strip (or_empty (text body))) EmptyString id)) s2).
Proof.
  intros [pa ya Hp1 Hp2 Hy1 Hy2 Htc Hmc Hcn Huc Hpr Hlt Hnd].
  unfold bind, incr_methods, read_class_name, fresh_uuid, yield. cbn.
  rewrite <- Hcn. destruct (class_name s1) as [cn|]; cbn.
  - split; [|reflexivity]. cbn.
    rewrite <- Huc, !mk_record_inst.
    set (x := (uuid_calls s1, mk_record _ _ _ _ _)).
    apply (Twin _ _ _ _ pa (ya ++ [x])); cbn; try congruence.
    + rewrite Hy1, fmap_app. reflexivity.
    + rewrite Hy2, fmap_app. reflexivity.
    + rewrite app_assoc. apply Forall_app. split.
      * eapply Forall_impl; [exact Hlt|]. cbn. intros; lia.
      * constructor; [cbn; lia|constructor].
    + rewrite app_assoc, fmap_app. apply NoDup_app.
      split; [exact Hnd|]. split.
      * intros n Hn ->%list_elem_of_singleton. cbn in Hn.
        eapply fresh_index; eauto.
      * cbn. apply NoDup_singleton.
  - split; [|reflexivity]. cbn.
    apply (Twin _ _ _ _ pa ya); cbn; try congruence; assumption.
Qed.

Lemma methods_branch_twin e s1 s2 :
  twin u1 u2 s1 s2 ->
  twin_step u1 u2
    (((fun s0 : locals =>
      match extract_class_name (findtext e "class-id" None) with
      | inl e0 => print e0 s0
      | inr n => set_class_name n s0
      end) ;;;
     for_each (findall e "body")
       (fun body : element =>
        incr_methods ;;;
        cn <- read_class_name ;;
        id <- fresh_uuid u1 ;;
        yield (mk_record (cn +:+ "." +:+ Py.fmt (get body "selector")) METHOD
                 (Py.strip (or_empty (text body))) EmptyString id)) ;;;
     ret (clear e)) s1)
    (((fun s0 : locals =>
      match extract_class_name (findtext e "class-id" None) with
      | inl e0 => print e0 s0
      | inr n => set_class_name n s0
      end) ;;;
     for_each (findall e "body")
       (fun body : element =>
        incr_methods ;;;
        cn <- read_class_name ;;
        id <- fresh_uuid u2 ;;
        yield (mk_record (cn +:+ "." +:+ Py.fmt (get body "selector")) METHOD
                 (Py.strip (or_empty (text body))) EmptyString id)) ;;;
     ret (clear e)) s2).
Proof.
  intros Hs. eapply bind_twin.
  - destruct (extract_class_name _) as [ex|n]; (split; [|reflexivity]); cbn;
      (eapply twin_keep; [exact Hs|..]); cbn; try reflexivity;
      destruct Hs; congruence.
  - intros _ t1 t2 Ht. eapply bind_twin.
    + apply for_each_twin; [|exact Ht]. intros; apply method_body_twin; assumption.
    + intros _ r1 r2 Hr. apply twin_ret, Hr.
Qed.

Lemma on_end_twin e s1 s2 :
  twin u1 u2 s1 s2 ->
  twin_step u1 u2 (on_end u1 ts e s1) (on_end u2 ts e s2).
Proof.
  intros Hs. unfold on_end.
  destruct (negb _); [apply twin_ret, Hs|].
  rewrite !bind_get_pending.
  destruct (String.eqb (tag e) "class").
  { unfold bind, lift, fresh_uuid, set_pending, ret.
    destruct (extract_class_name _) as [ex|name]; cbn;
      [split; [exact Hs|reflexivity]|].
    split; [|reflexivity]. cbn.
    destruct Hs as [pa ya Hp1 Hp2 Hy1 Hy2 Htc Hmc Hcn Huc Hpr Hlt Hnd].
    rewrite <- Huc, !mk_record_inst.
    set (x := (uuid_calls s1, mk_record _ _ _ _ _)).
    apply (Twin _ _ _ _ (Some x) ya); cbn; try congruence.
    - constructor; [cbn; lia|].
      apply Forall_app in Hlt as [_ Hlt].
      eapply Forall_impl; [exact Hlt|]. cbn. intros; lia.
    - apply NoDup_cons. split.
      + intros Hin. eapply (fresh_index s1 None ya); [|exact Hin].
        apply Forall_app in Hlt as [_ Hlt]. exact Hlt.
      + rewrite fmap_app in Hnd.
        apply NoDup_app in Hnd as (_ & _ & Hnd). exact Hnd. }
  pose proof (methods_branch_twin e s1 s2 Hs) as Hm.
  destruct Hs as [pa ya Hp1 Hp2 Hy1 Hy2 Htc Hmc Hcn Huc Hpr Hlt Hnd].
  rewrite Hp1, Hp2.
  assert (Hs : twin u1 u2 s1 s2) by (apply (Twin _ _ _ _ pa ya); assumption).
  assert (Hflush : forall b n b0, pa = Some (n, b0) ->
     twin u1 u2
       (fst ((yield (inst u1 (n, b)) ;;; set_pending None ;;; ret (clear e)) s1))
       (fst ((yield (inst u2 (n, b)) ;;; set_pending None ;;; ret (clear e)) s2))).
  { intros b n b0 ->. cbn.
    apply (Twin _ _ _ _ None (ya ++ [(n, b)])); cbn; try congruence.
    - rewrite Hy1, fmap_app. reflexivity.
    - rewrite Hy2, fmap_app. reflexivity.
    - cbn in Hlt. apply Forall_cons in Hlt as [Hn Hlt].
      apply Forall_app. split; [exact Hlt|].
      constructor; [exact Hn|constructor].
    - cbn in Hnd. apply NoDup_cons in Hnd as [Hn Hnd].
      rewrite fmap_app. apply NoDup_app. split; [exact Hnd|]. split.
      + intros k Hk ->%list_elem_of_singleton. exact (Hn Hk).
      + apply NoDup_singleton. }
  destruct (String.eqb (tag e) "comment"), pa as [[n b]|];
    cbn [fmap option_fmap option_map].
  all: try (destruct (String.eqb (tag e) "methods"); [exact Hm|]).
  all: try (apply twin_ret, Hs).
  - clear Hm Hflush.
    assert (Hname : inst u1 (n, b) !!! "name" = inst u2 (n, b) !!! "name").
    { unfold inst. cbn. rewrite !lookup_total_insert_ne by done. reflexivity. }
    rewrite <- Hname.
    unfold bind, lift, incr_types, yield, set_pending, ret.
    destruct (extract_class_name _) as [ex|cid]; cbn;
      [split; [exact Hs|reflexivity]|].
    split; [|reflexivity]. cbn.
    set (c := Py.strip _).
    set (b' := if Py.endswith cid (inst u1 (n, b) !!! "name")
               then <["comment" := c]> b else b).
    assert (E : forall u, (if Py.endswith cid (inst u1 (n, b) !!! "name")
                 then <["comment" := c]> (inst u (n, b)) else inst u (n, b))
                = inst u (n, b')).
    { intros u. unfold b'. destruct (Py.endswith _ _); [|reflexivity].
      unfold inst. cbn. apply insert_insert_ne. done. }
    rewrite !E.
    apply (Twin _ _ _ _ None (ya ++ [(n, b')])); cbn; try congruence.
    + rewrite Hy1, fmap_app. reflexivity.
    + rewrite Hy2, fmap_app. reflexivity.
    + cbn in Hlt. apply Forall_cons in Hlt as [Hn Hlt].
      apply Forall_app. split; [exact Hlt|].
      constructor; [exact Hn|constructor].
    + cbn in Hnd. apply NoDup_cons in Hnd as [Hn Hnd].
      rewrite fmap_app. apply NoDup_app. split; [exact Hnd|]. split.
      * intros k Hk ->%list_elem_of_singleton. exact (Hn Hk).
      * apply NoDup_singleton.
  - split; [|reflexivity]. apply (Hflush b n b). reflexivity.
Qed.

Lemma visit_all_twin cs :
  Forall (fun c => forall s1 s2, twin u1 u2 s1 s2 ->
            twin_step u1 u2 (visit u1 ts c s1) (visit u2 ts c s2)) cs ->
  forall s1 s2, twin u1 u2 s1 s2 ->
    twin_step u1 u2 (visit_all u1 ts cs s1) (visit_all u2 ts cs s2).
Proof.
  induction 1 as [|c cs Hc _ IH]; intros s1 s2 Hs.
  - apply twin_ret, Hs.
  - cbn [visit_all]. eapply bind_twin; [apply Hc, Hs|].
    intros c1 t1 t2 Ht. eapply bind_twin; [apply IH, Ht|].
    intros r1 q1 q2 Hq. apply twin_ret, Hq.
Qed.

Lemma visit_twin e :
  forall s1 s2, twin u1 u2 s1 s2 ->
    twin_step u1 u2 (visit u1 ts e s1) (visit u2 ts e s2).
Proof.
  induction e as [t a x cs l IH] using element_ind'. intros s1 s2 Hs.
  rewrite !visit_eq.
  eapply bind_twin; [apply visit_all_twin; assumption|].
  intros cs1 t1 t2 Ht. apply on_end_twin, Ht.
Qed.

Lemma twin_init : twin u1 u2 init init.
Proof. apply (Twin _ _ _ _ None []); try reflexivity; constructor. Qed.

(** Both runs hand out the same records up to the ids, which are the
    values of the same draws, no draw being used twice. *)
Lemma parse_twin root :
  snd (parse u1 ts root) = snd (parse u2 ts root)
  /\ exists ya : list (nat * record),
       NoDup ya.*1
       /\ fst (parse u1 ts root) = inst u1 <$> ya
       /\ fst (parse u2 ts root) = inst u2 <$> ya.
Proof.
  unfold parse. destruct (visit_twin root init init twin_init) as [Hr Hv].
  destruct (visit u1 ts root init) as [t1 [e1|a1]],
           (visit u2 ts root init) as [t2 [e2|a2]]; cbn in *;
    try discriminate.
  all: destruct Hr as [pa ya Hp1 Hp2 Hy1 Hy2 Htc Hmc Hcn Huc Hpr Hlt Hnd].
  all: (split; [congruence|]); exists ya; (split; [|split; assumption]).
  all: rewrite fmap_app in Hnd;
       apply NoDup_app in Hnd as (_ & _ & Hnd); exact Hnd.
Qed.
End Twins.

(** C8.  The id of every record is a value drawn from the UUID source
    and nothing else: two runs of [parse] on the same document, whose
    sources give different values, end alike and yield records that agree
    on every field except [id] and differ on [id]; the ids of a run are
    the values of distinct draws of its source, the same draws in both
    runs. *)
Theorem C8_ids_fresh ts root (u1 u2 : nat -> string) :
  (forall n, u1 n <> u2 n) ->
  snd (parse u1 ts root) = snd (parse u2 ts root)
  /\ Forall2 (fun r1 r2 : record =>
                delete "id" r1 = delete "id" r2 /\ r1 !! "id" <> r2 !! "id")
             (fst (parse u1 ts root)) (fst (parse u2 ts root))
  /\ exists draws : list nat,
       NoDup draws
       /\ (fun r : record => r !! "id") <$> fst (parse u1 ts root)
          = (fun n => Some (u1 n)) <$> draws
       /\ (fun r : record => r !! "id") <$> fst (parse u2 ts root)
          = (fun n => Some (u2 n)) <$> draws.
Proof.
  intros Hu. destruct (parse_twin u1 u2 ts root) as (He & ya & Hnd & H1 & H2).
  split; [exact He|]. rewrite H1, H2. split.
  - clear -Hu. induction ya as [|[n b] ya IH]; [constructor|].
    cbn. constructor; [|exact IH]. unfold inst. cbn. split.
    + rewrite !delete_insert_eq. reflexivity.
    + rewrite !lookup_insert_eq. intros [= E]. exact (Hu n E).
  - exists (ya.*1). split; [exact Hnd|].
    rewrite <- !list_fmap_compose.
    split; apply list_fmap_ext; intros i [n b] _;
      unfold inst; cbn; apply lookup_insert_eq.
Qed.

Lemma sample_uuids_differ n : sample_uuid n <> other_uuid n.
Proof. intros H. discriminate H. Qed.

(** C8 at a sample document and two sample sources. *)
Lemma C8_ids_fresh_witness :
  let doc :=
    sample_source
      [sample_class "Root.Foo"; sample_comment "Root.Foo" "about Foo";
       sample_methods "Root.Foo" [sample_body "bar" "bar ^1"]] in
  (forall n, sample_uuid n <> other_uuid n)
  /\ snd (parse sample_uuid sample_tostring doc)
     = snd (parse other_uuid sample_tostring doc)
  /\ Forall2 (fun r1 r2 : record =>
                delete "id" r1 = delete "id" r2 /\ r1 !! "id" <> r2 !! "id")
             (fst (parse sample_uuid sample_tostring doc))
             (fst (parse other_uuid sample_tostring doc)).
Proof.
  intros doc. split; [exact sample_uuids_differ|].
  destruct (C8_ids_fresh sample_tostring doc sample_uuid other_uuid
              sample_uuids_differ) as (H1 & H2 & _).
  split; [exact H1|exact H2].
Defined.

(** ** [parse] and [parse_metadata] (C5) *)

Lemma kept_refl e : kept e e.
Proof. split; [reflexivity|]. intros; split; reflexivity. Qed.

Lemma kept_clear e :
  tag e = "comment" \/ tag e = "methods" -> kept e (clear e).
Proof.
  intros H. split; [reflexivity|]. intros H1 H2. destruct H; contradiction.
Qed.

Lemma find_kept cs cs' t :
  Forall2 kept cs cs' -> t <> "comment" -> t <> "methods" ->
  option_map (fun c => (text c, attrib c))
             (List.find (fun c => String.eqb (tag c) t) cs')
  = option_map (fun c => (text c, attrib c))
               (List.find (fun c => String.eqb (tag c) t) cs).
Proof.
  intros H H1 H2. induction H as [|c c' cs cs' [Ht Hk] _ IH]; [reflexivity|].
  cbn. rewrite Ht. destruct (String.eqb (tag c) t) eqn:E; [|exact IH].
  apply String.eqb_eq in E. cbn.
  destruct Hk as [-> ->]; [congruence..|reflexivity].
Qed.

Lemma filter_kept cs cs' t :
  Forall2 kept cs cs' -> t <> "comment" -> t <> "methods" ->
  map (fun c => (text c, attrib c))
      (List.filter (fun c => String.eqb (tag c) t) cs')
  = map (fun c => (text c, attrib c))
        (List.filter (fun c => String.eqb (tag c) t) cs).
Proof.
  intros H H1 H2. induction H as [|c c' cs cs' [Ht Hk] _ IH]; [reflexivity|].
  cbn. rewrite Ht. destruct (String.eqb (tag c) t) eqn:E; [|exact IH].
  apply String.eqb_eq in E. cbn. rewrite IH.
  destruct Hk as [-> ->]; [congruence..|reflexivity].
Qed.

Lemma findtext_kept t a x cs cs' l tg d :
  Forall2 kept cs cs' -> tg <> "comment" -> tg <> "methods" ->
  findtext (Element t a x cs' l) tg d = findtext (Element t a x cs l) tg d.
Proof.
  intros H H1 H2. unfold findtext, find. cbn.
  pose proof (find_kept cs cs' tg H H1 H2) as E.
  destruct (List.find _ cs') as [c'|], (List.find _ cs) as [c|]; cbn in E;
    try discriminate; [|reflexivity].
  injection E as -> _. reflexivity.
Qed.

Lemma selectors_kept t a x cs cs' l :
  Forall2 kept cs cs' ->
  map (fun b => get b "selector") (findall (Element t a x cs' l) "body")
  = map (fun b => get b "selector") (findall (Element t a x cs l) "body").
Proof.
  intros H.
  pose proof (filter_kept cs cs' "body" H ltac:(done) ltac:(done)) as E.
  apply (f_equal (map (fun p : option string * list (string * string) =>
                         get_attr (snd p) "selector"))) in E.
  rewrite !map_map in E. exact E.
Qed.

Lemma own_names_kept t a x cs cs' l :
  Forall2 kept cs cs' ->
  own_names (Element t a x cs' l) = own_names (Element t a x cs l).
Proof.
  intros H. unfold own_names. cbn [tag].
  destruct (String.eqb t "methods"); [|reflexivity].
  rewrite (findtext_kept t a x cs cs' l "class-id" None H) by done.
  f_equal.
  pose proof (selectors_kept t a x cs cs' l H) as E.
  apply (f_equal (map (fun o =>
           or_empty (findtext (Element t a x cs l) "class-id" None)
           +:+ "." +:+ or_empty o))) in E.
  rewrite !map_map in E. exact E.
Qed.

Lemma forallb_map {A B} (f : B -> bool) (g : A -> B) l :
  forallb f (map g l) = forallb (fun x => f (g x)) l.
Proof.
  induction l as [|x l IH]; [reflexivity|]. cbn. rewrite IH. reflexivity.
Qed.

Lemma tidy_node_kept t a x cs cs' l :
  Forall2 kept cs cs' ->
  tidy_node (Element t a x cs' l) = tidy_node (Element t a x cs l).
Proof.
  intros H. unfold tidy_node. cbn [tag].
  rewrite (findtext_kept t a x cs cs' l "name" None H) by done.
  rewrite (findtext_kept t a x cs cs' l "class-id" None H) by done.
  destruct (String.eqb t "class"); [reflexivity|].
  destruct (String.eqb t "methods"); [|reflexivity].
  destruct (findtext _ "class-id" None); [|reflexivity]. f_equal.
  pose proof (selectors_kept t a x cs cs' l H) as E.
  apply (f_equal (forallb Py.truthy)) in E.
  rewrite !forallb_map in E. exact E.
Qed.

Lemma split_dot_free s : dot_free s = true -> Py.split "." s = [s].
Proof.
  unfold dot_free. rewrite negb_true_iff.
  induction s as [|c r IH]; [reflexivity|].
  cbn [Py.contains String.prefix Py.split]. intros H.
  destruct (ascii_dec "." c) as [<-|Hc].
  { destruct r; discriminate H. }
  cbn [orb] in H. rewrite (IH H).
  destruct (Ascii.eqb c ".") eqn:E; [|reflexivity].
  apply Ascii.eqb_eq in E. congruence.
Qed.

Lemma class_text_dot_free s : dot_free s = true -> class_text (Some s) = s.
Proof.
  intros H. unfold class_text. cbn. rewrite (split_dot_free s H). reflexivity.
Qed.

Lemma method_names_app l1 l2 :
  method_names (l1 ++ l2) = method_names l1 ∪ method_names l2.
Proof.
  unfold method_names. rewrite omap_app, list_to_set_app_L. reflexivity.
Qed.

Lemma method_names_type (p : record) :
  p !! "type" = Some TYPE -> method_names [p] = ∅.
Proof.
  intros H. unfold method_names. cbn. rewrite H.
  rewrite bool_decide_eq_false_2 by discriminate. reflexivity.
Qed.

Lemma method_names_method n b c i :
  method_names [mk_record n METHOD b c i] = {[ n ]}.
Proof.
  unfold method_names. cbn.
  replace (mk_record n METHOD b c i !! "type") with (Some METHOD)
    by (unfold mk_record; rewrite lookup_insert_ne by done;
        rewrite lookup_insert_eq; reflexivity).
  rewrite bool_decide_eq_true_2 by reflexivity.
  replace (mk_record n METHOD b c i !! "name") with (Some n)
    by (unfold mk_record; rewrite lookup_insert_eq; reflexivity).
  cbn. apply union_empty_r_L.
Qed.

Lemma method_names_records u cn bodies : forall n,
  method_names (method_records u cn bodies n)
  = list_to_set (map (fun b => cn +:+ "." +:+ Py.fmt (get b "selector")) bodies).
Proof.
  induction bodies as [|b bodies IH]; intros n; [reflexivity|].
  cbn [method_records map].
  change (method_record u cn b n :: ?l) with ([method_record u cn b n] ++ l).
  rewrite method_names_app, IH. cbn [list_to_set]. f_equal.
  apply method_names_method.
Qed.

Lemma own_names_other e : tag e <> "methods" -> own_names e = ∅.
Proof.
  intros H. unfold own_names.
  destruct (String.eqb (tag e) "methods") eqn:E; [|reflexivity].
  apply String.eqb_eq in E. contradiction.
Qed.

Lemma names_of_eq t a x cs l :
  names_of (Element t a x cs l)
  = ⋃ (map names_of cs) ∪ own_names (Element t a x cs l).
Proof. reflexivity. Qed.

Lemma tidy_eq t a x cs l :
  tidy (Element t a x cs l)
  = tidy_node (Element t a x cs l) && forallb tidy cs.
Proof. reflexivity. Qed.

Section Names.
Variable u : nat -> string.
Variable ts : element -> string.

Lemma on_end_names e s :
  tidy_node e = true -> pending_typed s ->
  exists s' e',
    on_end u ts e s = (s', inr e')
    /\ kept e e' /\ pending_typed s'
    /\ method_names (yielded s') = method_names (yielded s) ∪ own_names e.
Proof.
  intros Ht Hp. destruct (tag_cases (tag e)) as [Hc|[Hc|[Hc|Hc]]].
  - unfold tidy_node in Ht. rewrite Hc in Ht. cbn in Ht.
    destruct (findtext e "name" None) as [nm|] eqn:Hn; [|discriminate].
    eexists _, _. split; [apply (on_end_class u ts e s nm Hc Hn)|].
    split; [apply kept_refl|]. split.
    + intros p [= <-]. reflexivity.
    + cbn [yielded]. rewrite own_names_other by (rewrite Hc; done).
      rewrite union_empty_r_L. reflexivity.
  - destruct (pending_class s) as [pc|] eqn:Hpc.
    + eexists _, _.
      split; [apply (on_end_comment_pending u ts e s pc Hc Hpc)|].
      split; [apply kept_clear; auto|]. split; [intros p [=]|].
      cbn [yielded].
      rewrite method_names_app, own_names_other by (rewrite Hc; done).
      rewrite method_names_type; [reflexivity|].
      destruct (Py.endswith _ _); [|apply Hp, Hpc].
      rewrite lookup_insert_ne by done. apply Hp, Hpc.
    + eexists _, _. split; [apply (on_end_comment_none u ts e s Hc Hpc)|].
      split; [apply kept_clear; auto|]. split; [exact Hp|].
      rewrite own_names_other by (rewrite Hc; done).
      rewrite union_empty_r_L. reflexivity.
  - unfold tidy_node in Ht. rewrite Hc in Ht. cbn in Ht.
    destruct (findtext e "class-id" None) as [cid|] eqn:Hcid; [|discriminate].
    apply andb_prop in Ht as [Ht Hsel]. apply andb_prop in Ht as [Hne Hdot].
    eexists _, _. split; [apply (on_end_methods u ts e s cid Hc Hcid)|].
    split; [apply kept_clear; auto|]. split; [exact Hp|].
    cbn [yielded]. rewrite method_names_app, method_names_records. f_equal.
    unfold own_names. rewrite Hc, Hcid.
    cbn [String.eqb Ascii.eqb Bool.eqb or_empty].
    rewrite (class_text_dot_free cid Hdot). f_equal.
    apply map_ext_in. intros b Hb. rewrite forallb_forall in Hsel.
    specialize (Hsel b Hb).
    destruct (get b "selector") as [[|c r]|]; try discriminate.
    reflexivity.
  - eexists _, _. split; [apply (on_end_plain u ts e s Hc)|].
    split; [apply kept_refl|]. split; [exact Hp|].
    apply special_false_tag in Hc as (_ & _ & Hc).
    rewrite own_names_other by exact Hc.
    rewrite union_empty_r_L. reflexivity.
Qed.

Lemma visit_all_names cs :
  Forall (names_spec u ts) cs -> forallb tidy cs = true ->
  forall s, pending_typed s ->
  exists s' cs',
    visit_all u ts cs s = (s', inr cs')
    /\ Forall2 kept cs cs' /\ pending_typed s'
    /\ method_names (yielded s')
       = method_names (yielded s) ∪ ⋃ (map names_of cs).
Proof.
  induction 1 as [|c cs Hc _ IH]; intros Ht s Hs.
  - exists s, []. split; [reflexivity|]. split; [constructor|].
    split; [exact Hs|]. cbn. rewrite union_empty_r_L. reflexivity.
  - cbn in Ht. apply andb_prop in Ht as [Ht1 Ht2].
    destruct (Hc Ht1 s Hs) as (s1 & c' & E1 & K1 & P1 & N1).
    destruct (IH Ht2 s1 P1) as (s2 & cs' & E2 & K2 & P2 & N2).
    exists s2, (c' :: cs'). split.
    { rewrite visit_all_cons, E1, E2. reflexivity. }
    split; [constructor; assumption|]. split; [exact P2|].
    rewrite N2, N1. cbn [map].
    rewrite union_list_cons, (assoc_L (∪)). reflexivity.
Qed.

Lemma visit_names e : names_spec u ts e.
Proof.
  induction e as [t a x cs l IH] using element_ind'. intros Ht s Hs.
  rewrite tidy_eq in Ht. apply andb_prop in Ht as [Hn Hcs].
  destruct (visit_all_names cs IH Hcs s Hs) as (s1 & cs' & E1 & K1 & P1 & N1).
  rewrite <- (tidy_node_kept t a x cs cs' l K1) in Hn.
  destruct (on_end_names _ s1 Hn P1) as (s2 & e' & E2 & K2 & P2 & N2).
  exists s2, e'. split.
  { rewrite visit_eq. unfold bind. rewrite E1. exact E2. }
  split; [exact K2|]. split; [exact P2|].
  rewrite N2, N1, (own_names_kept t a x cs cs' l K1), names_of_eq,
    (assoc_L (∪)).
  reflexivity.
Qed.
End Names.

Lemma metadata_fold cn bodies : forall acc : gset string,
  Py.truthy cn = true ->
  forallb (fun b => Py.truthy (get b "selector")) bodies = true ->
  fold_left (fun (acc : gset string) body =>
               if Py.truthy cn && Py.truthy (get body "selector")
               then acc ∪ {[ or_empty cn +:+ "." +:+ or_empty (get body "selector") ]}
               else acc) bodies acc
  = acc ∪ list_to_set
            (map (fun b => or_empty cn +:+ "." +:+ or_empty (get b "selector"))
                 bodies).
Proof.
  induction bodies as [|b bodies IH]; intros acc Hc Hs.
  - cbn. rewrite union_empty_r_L. reflexivity.
  - cbn in Hs. apply andb_prop in Hs as [Hb Hs].
    cbn [fold_left map list_to_set]. rewrite (IH _ Hc Hs).
    rewrite Hc, Hb. cbn [andb].
    rewrite (assoc_L (∪)). reflexivity.
Qed.

Lemma metadata_on_end_names e (acc : gset string) :
  tidy_node e = true ->
  exists e', metadata_on_end e acc = (e', acc ∪ own_names e) /\ kept e e'.
Proof.
  intros Ht. unfold metadata_on_end, own_names. cbv zeta.
  destruct (String.eqb (tag e) "methods") eqn:E.
  - apply String.eqb_eq in E. unfold tidy_node in Ht. rewrite E in Ht.
    cbn in Ht.
    destruct (findtext e "class-id" None) as [cid|] eqn:Hcid; [|discriminate].
    apply andb_prop in Ht as [Ht Hsel]. apply andb_prop in Ht as [Hne Hdot].
    exists (clear e). split; [|apply kept_clear; auto].
    rewrite (metadata_fold (Some cid) _ acc Hne Hsel). reflexivity.
  - exists e. split; [|apply kept_refl]. rewrite union_empty_r_L. reflexivity.
Qed.

Lemma metadata_visit_eq t a x cs l acc :
  metadata_visit (Element t a x cs l) acc
  = let '(cs', acc1) := metadata_visit_all cs acc in
    metadata_on_end (Element t a x cs' l) acc1.
Proof. reflexivity. Qed.

Lemma metadata_visit_all_names cs :
  Forall metadata_spec cs -> forallb tidy cs = true ->
  forall acc : gset string,
  exists cs', metadata_visit_all cs acc = (cs', acc ∪ ⋃ (map names_of cs))
              /\ Forall2 kept cs cs'.
Proof.
  induction 1 as [|c cs Hc _ IH]; intros Ht acc.
  - exists []. split; [|constructor]. cbn. rewrite union_empty_r_L. reflexivity.
  - cbn in Ht. apply andb_prop in Ht as [Ht1 Ht2].
    destruct (Hc Ht1 acc) as (c' & E1 & K1).
    destruct (IH Ht2 (acc ∪ names_of c)) as (cs' & E2 & K2).
    exists (c' :: cs'). split; [|constructor; assumption].
    cbn [metadata_visit_all]. rewrite E1, E2. cbn [map].
    rewrite union_list_cons, (assoc_L (∪)). reflexivity.
Qed.

Lemma metadata_visit_names e : metadata_spec e.
Proof.
  induction e as [t a x cs l IH] using element_ind'. intros Ht acc.
  rewrite tidy_eq in Ht. apply andb_prop in Ht as [Hn Hcs].
  destruct (metadata_visit_all_names cs IH Hcs acc) as (cs' & E1 & K1).
  rewrite <- (tidy_node_kept t a x cs cs' l K1) in Hn.
  destruct (metadata_on_end_names _ (acc ∪ ⋃ (map names_of cs)) Hn)
    as (e' & E2 & K2).
  exists e'. split; [|exact K2].
  rewrite metadata_visit_eq, E1, E2, (own_names_kept t a x cs cs' l K1),
    names_of_eq, (assoc_L (∪)).
  reflexivity.
Qed.

(** C5, amended.  For a document in which every class has a name, every
    methods block has a class-id that is not empty and contains no dot,
    and every body has a selector that is not empty, [parse] ends
    normally and the names of its [METHOD] records are exactly the set
    [parse_metadata] returns. *)
Theorem C5_names_agree u ts root :
  tidy root = true ->
  snd (parse u ts root) = None
  /\ method_names (fst (parse u ts root)) = parse_metadata root.
Proof.
  intros Ht.
  destruct (visit_names u ts root Ht init) as (s & e' & E & _ & _ & N).
  { intros p [=]. }
  destruct (metadata_visit_names root Ht ∅) as (e2 & E2 & _).
  unfold parse, parse_metadata. rewrite E, E2. split; [reflexivity|].
  cbn [fst snd]. rewrite N. reflexivity.
Qed.

(** The amended statement at a sample document. *)
Lemma C5_names_agree_witness :
  let doc :=
    sample_source
      [sample_class "Foo"; sample_comment "Foo" "about Foo";
       sample_methods "Foo"
         [sample_body "bar" "bar ^1"; sample_body "baz:" "baz: x"]] in
  tidy doc = true
  /\ snd (parse sample_uuid sample_tostring doc) = None
  /\ method_names (fst (parse sample_uuid sample_tostring doc))
     = parse_metadata doc.
Proof.
  intros doc. split; [reflexivity|].
  exact (C5_names_agree sample_uuid sample_tostring doc eq_refl).
Defined.

(** C5 as stated fails: for a dotted class-id [parse] keeps the last
    component only, [parse_metadata] the whole of it. *)
Lemma C5_dotted_class_id_differs :
  let doc :=
    sample_source [sample_methods "Root.Foo" [sample_body "bar" "bar ^1"]] in
  method_names (fst (parse sample_uuid sample_tostring doc))
  <> parse_metadata doc.
Proof.
  intros doc H.
  assert (Hin : bool_decide
                  ("Foo.bar" ∈ method_names
                     (fst (parse sample_uuid sample_tostring doc))) = true)
    by (vm_compute; reflexivity).
  rewrite H in Hin. vm_compute in Hin. discriminate Hin.
Qed.

End SouParserCorrect.

(** * The truncators: proofs *)

Module TruncateCorrect.
Import Truncate TruncateSpec.

(** ** Strings *)

Lemma append_cons c a b : String c a +:+ b = String c (a +:+ b).
Proof. reflexivity. Qed.

Lemma append_nil_l s : EmptyString +:+ s = s.
Proof. reflexivity. Qed.

Lemma append_nil_r s : s +:+ EmptyString = s.
Proof.
  induction s as [|c s IH]; [reflexivity|].
  rewrite append_cons, IH. reflexivity.
Qed.

Lemma append_assoc a b c : (a +:+ b) +:+ c = a +:+ (b +:+ c).
Proof.
  induction a as [|x a IH]; [reflexivity|].
  rewrite !append_cons, IH. reflexivity.
Qed.

Lemma split_cons sep s : exists h t, Py.split sep s = h :: t.
Proof.
  induction s as [|c r (h & t & IH)]; [eexists _, _; reflexivity|].
  cbn. destruct (Ascii.eqb c sep); [eexists _, _; reflexivity|].
  rewrite IH. eexists _, _; reflexivity.
Qed.

Lemma join_cons sep x y l :
  Py.join sep (x :: y :: l) = x +:+ sep +:+ Py.join sep (y :: l).
Proof. reflexivity. Qed.

(** Joining the lines of a text gives the text back. *)
Lemma join_split s : Py.join NL (Py.split nl s) = s.
Proof.
  induction s as [|c r IH]; [reflexivity|].
  cbn [Py.split]. destruct (split_cons nl r) as (h & t & E).
  rewrite E in IH |- *. destruct (Ascii.eqb c nl) eqn:Ec.
  - apply Ascii.eqb_eq in Ec as ->. rewrite join_cons, IH. reflexivity.
  - destruct t as [|y t].
    + cbn in IH |- *. rewrite IH. reflexivity.
    + rewrite join_cons in IH |- *. rewrite append_cons, IH. reflexivity.
Qed.

Lemma join_app sep a x b :
  Py.join sep (a ++ x :: b)
  = match a with
    | [] => Py.join sep (x :: b)
    | _ => Py.join sep a +:+ sep +:+ Py.join sep (x :: b)
    end.
Proof.
  induction a as [|y a IH]; [reflexivity|].
  destruct a as [|z a].
  - reflexivity.
  - change ((y :: z :: a) ++ x :: b) with (y :: (z :: a) ++ x :: b).
    cbn [app]. rewrite join_cons. cbn [app] in IH. rewrite IH.
    rewrite join_cons, !append_assoc. reflexivity.
Qed.

(** ** [balance_xml_tags] only appends (C9) *)

Lemma read_lines_fold lines : forall ot bl,
  fold_left (fun '(ot, bl) line => (track ot line, bl ++ [line])) lines (ot, bl)
  = (fold_left track lines ot, bl ++ lines).
Proof.
  induction lines as [|l lines IH]; intros ot bl.
  - cbn. rewrite app_nil_r. reflexivity.
  - cbn [fold_left]. rewrite IH, <- app_assoc. reflexivity.
Qed.

Lemma close_all_eq ot bl : close_all ot bl = bl ++ map closing_tag (rev ot).
Proof.
  unfold close_all. generalize (rev ot) as l. intros l. revert bl.
  induction l as [|t l IH]; intros bl.
  - cbn. rewrite app_nil_r. reflexivity.
  - cbn [fold_left map]. rewrite IH, <- app_assoc. reflexivity.
Qed.

(** The lines [balance_xml_tags] joins: those of the input, then the
    comment and the closing tags. *)
Lemma balance_lines s :
  balance_xml_tags s
  = Py.join NL (Py.split nl s
                ++ match open_tags_of s with
                   | [] => []
                   | _ => truncation_comment
                          :: map closing_tag (rev (open_tags_of s))
                   end).
Proof.
  unfold balance_xml_tags, open_tags_of.
  rewrite read_lines_fold. cbn [app].
  destruct (fold_left track (Py.split nl s) []) as [|t ot] eqn:E.
  - rewrite app_nil_r. reflexivity.
  - rewrite close_all_eq, <- app_assoc. reflexivity.
Qed.

Lemma join_closing l :
  concat_all (map (fun t => NL +:+ closing_tag t) l)
  = match l with
    | [] => EmptyString
    | _ => NL +:+ Py.join NL (map closing_tag l)
    end.
Proof.
  induction l as [|t l IH]; [reflexivity|].
  cbn [map concat_all]. rewrite IH. destruct l as [|t' l].
  - cbn. rewrite !append_nil_r. reflexivity.
  - cbn [map]. rewrite join_cons, !append_assoc. reflexivity.
Qed.

Lemma balance_appends s :
  balance_xml_tags s = s +:+ appended (open_tags_of s).
Proof.
  rewrite balance_lines. unfold appended.
  destruct (open_tags_of s) as [|t ot] eqn:E.
  - rewrite app_nil_r, join_split, append_nil_r. reflexivity.
  - rewrite join_app. destruct (split_cons nl s) as (h & tl & Es).
    rewrite Es, <- Es, join_split. f_equal. f_equal.
    rewrite join_closing.
    destruct (rev (t :: ot)) as [|x l] eqn:Er.
    + cbn. rewrite append_nil_r. reflexivity.
    + cbn [map]. rewrite join_cons. reflexivity.
Qed.

(** *** The names the patterns capture *)

Lemma span_all p s :
  all_chars p (fst (Re.span p s)) = true.
Proof.
  induction s as [|c r IH]; [reflexivity|].
  cbn [Re.span]. destruct (p c) eqn:E; [|reflexivity].
  destruct (Re.span p r) as [a b]. cbn in IH |- *. rewrite E, IH. reflexivity.
Qed.

Lemma span_head p c r :
  p c = true -> exists a b, Re.span p (String c r) = (String c a, b)
                            /\ all_chars p a = true.
Proof.
  intros E. cbn [Re.span]. rewrite E.
  pose proof (span_all p r) as H. destruct (Re.span p r) as [a b].
  exists a, b. split; [reflexivity|exact H].
Qed.

Lemma alpha_tag_char c : Re.is_alpha c = true -> Re.is_tag_char c = true.
Proof.
  intros H. unfold Re.is_tag_char, Re.is_word. rewrite H. reflexivity.
Qed.

Lemma opening_at_name s g len :
  Re.opening_at s = Some (g, len) -> pattern_name g = true.
Proof.
  unfold Re.opening_at.
  destruct s as [|c0 [|c r]]; [discriminate|..];
    destruct c0 as [[] [] [] [] [] [] [] []]; try discriminate.
  destruct (Re.is_alpha c) eqn:Ea; [|discriminate].
  destruct (span_head Re.is_tag_char c r (alpha_tag_char c Ea)) as (a & b & -> & Ha).
  destruct (Re.span _ b) as [mid r2].
  destruct r2 as [|c2 r2]; [discriminate|].
  destruct c2 as [[] [] [] [] [] [] [] []]; try discriminate.
  intros [= <- _]. cbn. rewrite Ea, Ha. reflexivity.
Qed.

Lemma finditer_Forall (P : string -> Prop) m :
  (forall s g len, m s = Some (g, len) -> P g) ->
  forall s skip, Forall P (Re.finditer m skip s).
Proof.
  intros Hm. induction s as [|c r IH]; intros skip; [constructor|].
  cbn [Re.finditer]. destruct skip as [|k]; [|apply IH].
  destruct (m (String c r)) as [[g len]|] eqn:E; [|apply IH].
  constructor; [eapply Hm; exact E|apply IH].
Qed.

Lemma opening_tags_names line :
  Forall (fun g => pattern_name g = true) (Re.opening_tags line).
Proof.
  apply (finditer_Forall (fun g => pattern_name g = true)).
  apply opening_at_name.
Qed.

Lemma pattern_name_kept g :
  pattern_name g = true -> bool_decide (g ∈ ["?xml"; "!--"]) = false.
Proof.
  intros H. apply bool_decide_eq_false_2.
  rewrite !elem_of_cons, elem_of_nil. intros [->|[->|[]]]; discriminate H.
Qed.

(** Every opening tag of the line is pushed. *)
Lemma push_all os : forall ot,
  Forall (fun g => pattern_name g = true) os ->
  fold_left (fun st t =>
               if bool_decide (t ∈ ["?xml"; "!--"]) then st else st ++ [t])
            os ot
  = ot ++ os.
Proof.
  induction os as [|o os IH]; intros ot H.
  - rewrite app_nil_r. reflexivity.
  - apply Forall_cons in H as [Ho H]. cbn [fold_left].
    rewrite (pattern_name_kept o Ho), (IH _ H), <- app_assoc. reflexivity.
Qed.

Lemma track_eq ot line :
  track ot line
  = fold_left pop (Re.closing_tags line) (ot ++ Re.opening_tags line).
Proof.
  unfold track. rewrite (push_all _ _ (opening_tags_names line)). reflexivity.
Qed.

Lemma removelast_Forall {A} (P : A -> Prop) (l : list A) :
  Forall P l -> Forall P (removelast l).
Proof.
  induction 1 as [|x l Hx Hl IH]; [constructor|].
  cbn. destruct l; [constructor|]. constructor; assumption.
Qed.

Lemma pop_Forall (P : string -> Prop) cs : forall st,
  Forall P st -> Forall P (fold_left pop cs st).
Proof.
  induction cs as [|c cs IH]; intros st H; [exact H|].
  cbn [fold_left]. apply IH. unfold pop.
  destruct (last st) as [top|]; [|exact H].
  destruct (String.eqb top c); [apply removelast_Forall|]; exact H.
Qed.

Lemma open_tags_names s :
  Forall (fun g => pattern_name g = true) (open_tags_of s).
Proof.
  unfold open_tags_of.
  assert (H : forall lines ot,
             Forall (fun g => pattern_name g = true) ot ->
             Forall (fun g => pattern_name g = true) (fold_left track lines ot)).
  { induction lines as [|l lines IH]; intros ot Hot; [exact Hot|].
    cbn [fold_left]. apply IH. rewrite track_eq. apply pop_Forall.
    apply Forall_app. split; [exact Hot|apply opening_tags_names]. }
  apply H. constructor.
Qed.

(** *** Line by line *)

Lemma split_one s : all_chars not_nl s = true -> Py.split nl s = [s].
Proof.
  induction s as [|c r IH]; [reflexivity|].
  cbn [all_chars Py.split]. intros [Hc Hr]%andb_prop.
  unfold not_nl in Hc. apply negb_true_iff in Hc. rewrite Hc, (IH Hr).
  reflexivity.
Qed.

Lemma split_app a b :
  Py.split nl (a +:+ NL +:+ b) = Py.split nl a ++ Py.split nl b.
Proof.
  induction a as [|c r IH].
  - cbn. reflexivity.
  - rewrite append_cons. cbn [Py.split]. rewrite IH.
    destruct (Ascii.eqb c nl); [reflexivity|].
    destruct (split_cons nl r) as (h & t & ->). reflexivity.
Qed.

Lemma all_chars_app p a b :
  all_chars p (a +:+ b) = all_chars p a && all_chars p b.
Proof.
  induction a as [|c r IH]; [reflexivity|].
  rewrite append_cons. cbn [all_chars]. rewrite IH, andb_assoc. reflexivity.
Qed.

Lemma all_chars_impl (p q : ascii -> bool) s :
  (forall c, p c = true -> q c = true) ->
  all_chars p s = true -> all_chars q s = true.
Proof.
  intros H. induction s as [|c r IH]; [reflexivity|].
  cbn. intros [Hc Hr]%andb_prop. rewrite (H c Hc), (IH Hr). reflexivity.
Qed.

Lemma tag_char_not_nl c : Re.is_tag_char c = true -> not_nl c = true.
Proof.
  unfold not_nl. destruct (Ascii.eqb c nl) eqn:E; [|reflexivity].
  apply Ascii.eqb_eq in E as ->. intros H. discriminate H.
Qed.

Lemma closing_tag_one_line t :
  pattern_name t = true -> all_chars not_nl (closing_tag t) = true.
Proof.
  intros H. unfold closing_tag. rewrite !all_chars_app.
  destruct t as [|c r]; [discriminate|]. cbn in H.
  apply andb_prop in H as [Hc Hr]. cbn [all_chars].
  rewrite (tag_char_not_nl c (alpha_tag_char c Hc)).
  rewrite (all_chars_impl _ _ r tag_char_not_nl Hr). reflexivity.
Qed.

Lemma split_closers l :
  Forall (fun g => pattern_name g = true) l ->
  forall a, Py.split nl (a +:+ concat_all (map (fun t => NL +:+ closing_tag t) l))
            = Py.split nl a ++ map closing_tag l.
Proof.
  induction 1 as [|t l Ht _ IH]; intros a.
  - cbn. rewrite append_nil_r, app_nil_r. reflexivity.
  - cbn [map concat_all].
    rewrite <- !append_assoc, IH, append_assoc, split_app.
    rewrite (split_one _ (closing_tag_one_line t Ht)), <- app_assoc.
    reflexivity.
Qed.

Lemma balance_appends_lines s :
  Py.split nl (balance_xml_tags s)
  = Py.split nl s ++ appended_lines (open_tags_of s).
Proof.
  rewrite balance_appends. unfold appended, appended_lines.
  pose proof (open_tags_names s) as Hn.
  destruct (open_tags_of s) as [|t ot] eqn:E.
  - rewrite append_nil_r, app_nil_r. reflexivity.
  - rewrite <- !append_assoc, split_closers.
    2:{ apply Forall_rev, Hn. }
    rewrite append_assoc, split_app. unfold truncation_comment.
    rewrite <- app_assoc. reflexivity.
Qed.

(** C9.  [balance_xml_tags] only appends: the result is the input
    followed by nothing at all, or by a line break, the comment line and
    one closing tag per line; read line by line, the lines of the input
    come first, unchanged and in order. *)
Theorem C9_balance_only_appends s :
  balance_xml_tags s = s +:+ appended (open_tags_of s)
  /\ Py.split nl (balance_xml_tags s)
     = Py.split nl s ++ appended_lines (open_tags_of s).
Proof.
  split; [apply balance_appends|apply balance_appends_lines].
Qed.

(** ** Balanced output on lines the patterns read exactly (C4) *)

Lemma lex_app a : forall m b,
  lex_from m (a +:+ b)
  = let '(m1, e1) := lex_from m a in
    let '(m2, e2) := lex_from m1 b in
    (m2, e1 ++ e2).
Proof.
  induction a as [|c r IH]; intros m b.
  - rewrite append_nil_l. cbn [lex_from]. destruct (lex_from m b). reflexivity.
  - rewrite append_cons. cbn [lex_from].
    destruct (step m c) as [m1 ev]. rewrite IH.
    destruct (lex_from m1 r) as [m2 e1].
    destruct (lex_from m2 b) as [m3 e2].
    rewrite app_assoc. reflexivity.
Qed.

Lemma all_chars_snoc p s c :
  all_chars p (snoc s c) = all_chars p s && p c.
Proof.
  unfold snoc. rewrite all_chars_app. cbn. rewrite andb_true_r. reflexivity.
Qed.

Lemma valid_name_snoc n c :
  valid_name n = true -> is_name_char c = true -> valid_name (snoc n c) = true.
Proof.
  destruct n as [|x r]; [discriminate|]. unfold snoc. rewrite append_cons.
  cbn [valid_name]. intros [Hx Hr]%andb_prop Hc.
  fold (snoc r c). rewrite all_chars_snoc, Hx, Hr, Hc. reflexivity.
Qed.

Lemma valid_name_start c : is_name_start c = true ->
  valid_name (String c EmptyString) = true.
Proof. intros H. cbn. rewrite H. reflexivity. Qed.

Lemma step_ok m c :
  mode_ok m = true ->
  mode_ok (fst (step m c)) = true /\ Forall event_ok (snd (step m c)).
Proof.
  intros Hm. destruct m as [| |n|n sl q| |n|n| | |k| |q|]; cbn [step].
  all: repeat match goal with
       | |- context [if ?b then _ else _] => destruct b eqn:?
       | |- context [match ?q with Some _ => _ | None => _ end] => destruct q
       end.
  all: cbn [fst snd mode_ok] in *.
  all: split; try reflexivity; try exact Hm; repeat constructor.
  all: try (apply valid_name_start; assumption).
  all: try (apply valid_name_snoc; assumption).
  all: try exact Hm.
Qed.

Lemma lex_ok s : forall m,
  mode_ok m = true ->
  mode_ok (fst (lex_from m s)) = true /\ Forall event_ok (snd (lex_from m s)).
Proof.
  induction s as [|c r IH]; intros m Hm; [split; [exact Hm|constructor]|].
  cbn [lex_from]. destruct (step_ok m c Hm) as [H1 H2].
  destruct (step m c) as [m1 ev]. cbn [fst snd] in H1, H2.
  destruct (IH m1 H1) as [H3 H4].
  destruct (lex_from m1 r) as [m2 evs]. cbn [fst snd] in *.
  split; [exact H3|]. apply Forall_app. split; assumption.
Qed.

Lemma lex_close_name r : forall acc,
  all_chars is_name_char r = true ->
  lex_from (CloseName acc) (r +:+ ">") = (Text, [Close (acc +:+ r)]).
Proof.
  induction r as [|c r IH]; intros acc H.
  - rewrite append_nil_l, append_nil_r. reflexivity.
  - cbn in H. apply andb_prop in H as [Hc Hr].
    rewrite append_cons. cbn [lex_from step]. rewrite Hc.
    rewrite (IH _ Hr). unfold snoc. rewrite append_assoc. reflexivity.
Qed.

Lemma lex_closing_tag n :
  valid_name n = true -> lex_from Text (closing_tag n) = (Text, [Close n]).
Proof.
  destruct n as [|c r]; [discriminate|]. cbn [valid_name].
  intros [Hc Hr]%andb_prop. unfold closing_tag.
  change ("</" +:+ String c r +:+ ">")
    with (String "<" (String "/" (String c (r +:+ ">")))).
  cbn [lex_from step Ascii.eqb Bool.eqb]. rewrite Hc.
  cbn [Ascii.eqb Bool.eqb].
  rewrite (lex_close_name r (String c EmptyString) Hr). reflexivity.
Qed.

Lemma lex_nl m' evs x :
  lex_from Text x = (m', evs) -> lex_from Text (NL +:+ x) = (m', evs).
Proof. intros H. unfold NL. rewrite append_cons, append_nil_l. cbn. rewrite H. reflexivity. Qed.

Lemma lex_closers l :
  Forall (fun n => valid_name n = true) l ->
  lex_from Text (concat_all (map (fun t => NL +:+ closing_tag t) l))
  = (Text, map Close l).
Proof.
  induction 1 as [|t l Ht _ IH]; [reflexivity|].
  cbn [map concat_all]. rewrite append_assoc.
  apply lex_nl. rewrite lex_app, (lex_closing_tag t Ht), IH. reflexivity.
Qed.

Lemma tag_event_eqb_eq a b : tag_event_eqb a b = true -> a = b.
Proof.
  destruct a, b; cbn; try discriminate; intros H%String.eqb_eq; congruence.
Qed.

Lemma events_eqb_eq a : forall b, events_eqb a b = true -> a = b.
Proof.
  induction a as [|x a IH]; intros [|y b]; cbn; try discriminate; [reflexivity|].
  intros [H1 H2]%andb_prop. rewrite (tag_event_eqb_eq x y H1), (IH b H2).
  reflexivity.
Qed.

Lemma line_exact_lex line :
  line_exact line = true -> lex_from Text line = (Text, tracked_events line).
Proof.
  unfold line_exact. destruct (lex_from Text line) as [m evs].
  destruct m; try discriminate. intros H%events_eqb_eq. congruence.
Qed.

(** The tags of a text whose lines the patterns read exactly. *)
Lemma lex_lines lines :
  forallb line_exact lines = true ->
  lex_from Text (Py.join NL lines)
  = (Text, concat (map tracked_events lines)).
Proof.
  induction lines as [|l lines IH]; [reflexivity|].
  cbn [forallb]. intros [Hl Hr]%andb_prop.
  destruct lines as [|l' lines].
  - cbn. rewrite (line_exact_lex l Hl), app_nil_r. reflexivity.
  - rewrite join_cons, lex_app, (line_exact_lex l Hl).
    rewrite (lex_nl _ _ _ (IH Hr)). reflexivity.
Qed.

Lemma nest_app a : forall st b,
  nest st (a ++ b)
  = match nest st a with
    | Some st' => nest st' b
    | None => None
    end.
Proof.
  induction a as [|[n|n] a IH]; intros st b; [reflexivity|apply IH|].
  cbn [app nest]. destruct st as [|top st]; [reflexivity|].
  destruct (String.eqb top n); [apply IH|reflexivity].
Qed.

Lemma nest_opens os : forall st,
  nest st (map Open os) = Some (rev os ++ st).
Proof.
  induction os as [|o os IH]; intros st; [reflexivity|].
  cbn [map nest]. rewrite IH. cbn [rev]. rewrite <- app_assoc. reflexivity.
Qed.

(** While the end tags nest, the loop over the closing tags pops what
    XML closes. *)
Lemma nest_closes cs : forall ot st',
  nest (rev ot) (map Close cs) = Some st' ->
  st' = rev (fold_left pop cs ot).
Proof.
  induction cs as [|c cs IH]; intros ot st'.
  - cbn. intros [= <-]. reflexivity.
  - cbn [map nest fold_left].
    destruct ot as [|x ot _] using rev_ind; [discriminate|].
    rewrite rev_app_distr. cbn [rev app].
    destruct (String.eqb x c) eqn:E; [|discriminate].
    intros H. apply IH in H. rewrite H. f_equal. f_equal.
    unfold pop. rewrite last_snoc, E, removelast_last. reflexivity.
Qed.

Lemma nest_track line ot st' :
  nest (rev ot) (tracked_events line) = Some st' ->
  st' = rev (track ot line).
Proof.
  unfold tracked_events. rewrite nest_app, nest_opens, <- rev_app_distr.
  rewrite track_eq. apply nest_closes.
Qed.

Lemma nest_lines lines : forall ot st',
  nest (rev ot) (concat (map tracked_events lines)) = Some st' ->
  st' = rev (fold_left track lines ot).
Proof.
  induction lines as [|l lines IH]; intros ot st'.
  - cbn. intros [= <-]. reflexivity.
  - cbn [map concat fold_left]. rewrite nest_app.
    destruct (nest (rev ot) (tracked_events l)) as [st1|] eqn:E; [|discriminate].
    apply nest_track in E as ->. apply IH.
Qed.

Lemma nest_close_all st : nest st (map Close st) = Some [].
Proof.
  induction st as [|t st IH]; [reflexivity|].
  cbn [map nest]. rewrite String.eqb_refl. exact IH.
Qed.

Lemma nest_Forall (P : string -> Prop) evs : forall st st',
  Forall (fun e => P (event_name e)) evs -> Forall P st ->
  nest st evs = Some st' -> Forall P st'.
Proof.
  induction evs as [|[n|n] evs IH]; intros st st' He Hs.
  - intros [= <-]. exact Hs.
  - apply Forall_cons in He as [Hn He]. cbn [nest].
    apply IH; [exact He|]. constructor; assumption.
  - apply Forall_cons in He as [Hn He]. cbn [nest].
    destruct st as [|top st]; [discriminate|].
    destruct (String.eqb top n); [|discriminate].
    apply Forall_cons in Hs as [_ Hs]. apply IH; assumption.
Qed.

Lemma lex_exact_text s :
  forallb line_exact (Py.split nl s) = true ->
  lex_from Text s = (Text, concat (map tracked_events (Py.split nl s))).
Proof.
  intros H. rewrite <- (join_split s) at 1. apply lex_lines, H.
Qed.

Lemma lex_truncation_comment :
  lex_from Text truncation_comment = (Text, []).
Proof. reflexivity. Qed.

(** C4, amended.  For every input whose lines the two patterns read as
    XML does (whole tags only on a line, the start tags of a line before
    its end tags) and whose end tags each close the innermost open
    element, the stack of [balance_xml_tags] holds exactly the elements
    left open, the closing tags appended are theirs, innermost first,
    and the tags of the result are properly nested and all closed. *)
Theorem C4_balanced_when_read_exactly s :
  forallb line_exact (Py.split nl s) = true ->
  nested_prefix s = true ->
  nest [] (snd (lex_from Text s)) = Some (rev (open_tags_of s))
  /\ balance_xml_tags s = s +:+ appended (open_tags_of s)
  /\ tags_balanced (balance_xml_tags s) = true.
Proof.
  intros Hl Hn. pose proof (lex_exact_text s Hl) as El.
  pose proof (lex_ok s Text eq_refl) as [_ Hev].
  unfold nested_prefix in Hn. rewrite El in Hn, Hev |- *. cbn [snd] in *.
  destruct (nest [] (concat (map tracked_events (Py.split nl s))))
    as [st|] eqn:En; [clear Hn|discriminate].
  pose proof (nest_lines (Py.split nl s) [] st En) as ->.
  fold (open_tags_of s) in *.
  assert (Hv : Forall (fun n => valid_name n = true) (rev (open_tags_of s))).
  { eapply (nest_Forall (fun n => valid_name n = true)); [exact Hev| |exact En].
    constructor. }
  split; [reflexivity|]. split; [apply balance_appends|].
  unfold tags_balanced. rewrite balance_appends. unfold appended.
  destruct (open_tags_of s) as [|t ot] eqn:Eo.
  - rewrite append_nil_r, El, En. reflexivity.
  - rewrite lex_app, El.
    rewrite (lex_nl Text (map Close (rev (t :: ot)))).
    + rewrite nest_app, En. rewrite nest_close_all. reflexivity.
    + rewrite lex_app, lex_truncation_comment, (lex_closers _ Hv). reflexivity.
Qed.

(** The amended statement at a cut file with one element to a line. *)
Lemma C4_balanced_witness :
  forallb line_exact (Py.split nl cut_one_per_line) = true
  /\ nested_prefix cut_one_per_line = true
  /\ tags_balanced (balance_xml_tags cut_one_per_line) = true.
Proof.
  split; [reflexivity|]. split; [reflexivity|].
  exact (proj2 (proj2 (C4_balanced_when_read_exactly cut_one_per_line
                         eq_refl eq_refl))).
Defined.

(** C4 as stated fails.  A [.sou] file cut inside a method body, one
    of whose lines holds two elements: the first of them is closed once
    more, and the result is not well-formed. *)
Lemma C4_cut_file_not_balanced :
  String.prefix cut_sou whole_sou = true
  /\ tags_balanced whole_sou = true
  /\ balance_xml_tags cut_sou
     = cut_sou +:+ NL +:+ truncation_comment
       +:+ NL +:+ "</body>" +:+ NL +:+ "</class-id>"
       +:+ NL +:+ "</methods>" +:+ NL +:+ "</st-source>"
  /\ tags_balanced (balance_xml_tags cut_sou) = false.
Proof. repeat split; vm_compute; reflexivity. Qed.

End TruncateCorrect.

(** * The prefix-priority truncator: proofs *)

Module TruncateXmlNewCorrect.
Import Truncate TruncateXmlNew TruncateXmlNewSpec.

(** ** The selection loops *)

Section Loops.
Variable all_lines : list string.
Variable max_lines : Z.

Lemma take_line_ok i st :
  i < length all_lines -> sel_ok all_lines st ->
  exists st', take_line all_lines i st = inr st'
              /\ sel_ok all_lines st'
              /\ length (fst st') = S (length (fst st))
              /\ snd st' = {[i]} ∪ snd st.
Proof.
  intros Hi Hs. unfold take_line.
  destruct (lookup_lt_is_Some_2 all_lines i Hi) as [line El]. rewrite El.
  eexists. split; [reflexivity|]. cbn [fst snd].
  split; [|split; [rewrite length_app; cbn; lia|reflexivity]].
  intros j Hj. cbn [snd] in Hj. apply elem_of_union in Hj as [Hj|Hj].
  - apply elem_of_singleton in Hj as ->. split.
    + cbn. apply elem_of_union_l, elem_of_singleton. reflexivity.
    + exists line. split; [exact El|]. cbn. apply elem_of_app. right.
      apply list_elem_of_singleton. reflexivity.
  - destruct (Hs j Hj) as [_ (l & E & Hin)]. split.
    + cbn. apply elem_of_union_r, Hj.
    + exists l. split; [exact E|]. cbn. apply elem_of_app. left. exact Hin.
Qed.

Lemma add_header_ok idxs : forall st,
  Forall (fun i => i < length all_lines) idxs -> sel_ok all_lines st ->
  exists st', add_header all_lines idxs st = inr st'
              /\ sel_ok all_lines st'
              /\ length (fst st') = length (fst st) + length idxs.
Proof.
  induction idxs as [|i idxs IH]; intros st Hb Hs.
  - exists st. split; [reflexivity|]. split; [exact Hs|cbn; lia].
  - apply Forall_cons in Hb as [Hi Hb]. cbn [add_header].
    destruct (take_line_ok i st Hi Hs) as (st1 & -> & Hs1 & L1 & _).
    destruct (IH st1 Hb Hs1) as (st' & E & Hs' & L').
    exists st'. split; [exact E|]. split; [exact Hs'|]. cbn. lia.
Qed.

(** One priority range: every line of it is taken, unless the output
    is full before the range is through. *)
Lemma add_range_ok idxs : forall st,
  Forall (fun i => i < length all_lines) idxs -> sel_ok all_lines st ->
  exists st', add_range all_lines max_lines idxs st = inr st'
              /\ sel_ok all_lines st'
              /\ snd st ⊆ snd st'
              /\ length (fst st') <= length (fst st) + length idxs
              /\ forall i, i ∈ idxs ->
                   i ∈ snd st'
                   \/ (full max_lines st' = true
                       /\ length (fst st') < length (fst st) + length idxs).
Proof.
  induction idxs as [|i idxs IH]; intros st Hb Hs.
  - exists st. split; [reflexivity|]. split; [exact Hs|].
    split; [reflexivity|]. split; [cbn; lia|].
    intros i Hi. apply elem_of_nil in Hi as [].
  - apply Forall_cons in Hb as [Hi Hb]. cbn [add_range].
    destruct (bool_decide (i ∈ snd st)) eqn:Eu.
    + apply bool_decide_eq_true_1 in Eu.
      destruct (IH st Hb Hs) as (st' & E & Hs' & Hsub & Hlen & Hall).
      exists st'. split; [exact E|]. split; [exact Hs'|].
      split; [exact Hsub|]. split; [cbn; lia|].
      intros j Hj. apply elem_of_cons in Hj as [->|Hj].
      * left. apply Hsub, Eu.
      * destruct (Hall j Hj) as [H|[H1 H2]]; [left; exact H|].
        right. split; [exact H1|cbn; lia].
    + destruct (take_line_ok i st Hi Hs) as (st1 & -> & Hs1 & L1 & U1).
      destruct (full max_lines st1) eqn:Ef.
      * exists st1. split; [reflexivity|]. split; [exact Hs1|].
        split; [rewrite U1; apply union_subseteq_r|]. split; [cbn; lia|].
        intros j Hj. apply elem_of_cons in Hj as [->|Hj].
        -- left. rewrite U1. apply elem_of_union_l, elem_of_singleton.
           reflexivity.
        -- right. split; [exact Ef|]. destruct idxs as [|k idxs].
           ++ apply elem_of_nil in Hj as [].
           ++ cbn. lia.
      * destruct (IH st1 Hb Hs1) as (st' & E & Hs' & Hsub & Hlen & Hall).
        exists st'. split; [exact E|]. split; [exact Hs'|].
        split; [etransitivity; [|exact Hsub]; rewrite U1;
                apply union_subseteq_r|].
        split; [cbn; lia|].
        intros j Hj. apply elem_of_cons in Hj as [->|Hj].
        -- left. apply Hsub. rewrite U1.
           apply elem_of_union_l, elem_of_singleton. reflexivity.
        -- destruct (Hall j Hj) as [H|[H1 H2]]; [left; exact H|].
           right. split; [exact H1|cbn; lia].
Qed.

Lemma add_priority_full ranges st :
  full max_lines st = true ->
  add_priority all_lines max_lines ranges st = inr st.
Proof.
  intros H. destruct ranges as [|[[[ty s] e] n] rest]; [reflexivity|].
  cbn [add_priority]. rewrite H. reflexivity.
Qed.

Lemma range_indices_bound (s e : nat) :
  e < length all_lines ->
  Forall (fun i => i < length all_lines) (seq s (S e - s)).
Proof.
  intros He. apply Forall_forall. intros i Hi%list_elem_of_In.
  apply in_seq in Hi. lia.
Qed.

Lemma range_indices_mem (s e i : nat) :
  s <= i <= e -> i ∈ seq s (S e - s).
Proof. intros H. apply list_elem_of_In, in_seq. lia. Qed.

(** All priority ranges: every line of every range is taken, unless
    the output is full before the ranges are through. *)
Lemma add_priority_ok ranges : forall st,
  Forall (pin_file all_lines) ranges -> sel_ok all_lines st ->
  exists st', add_priority all_lines max_lines ranges st = inr st'
              /\ sel_ok all_lines st'
              /\ snd st ⊆ snd st'
              /\ length (fst st') <= length (fst st) + total_size ranges
              /\ forall ty s e n i,
                   (ty, s, e, n) ∈ ranges -> s <= i <= e ->
                   i ∈ snd st'
                   \/ (full max_lines st' = true
                       /\ length (fst st')
                          < length (fst st) + total_size ranges).
Proof.
  induction ranges as [|[[[ty0 s0] e0] n0] rest IH]; intros st Hb Hs.
  - exists st. split; [reflexivity|]. split; [exact Hs|].
    split; [reflexivity|]. split; [cbn; lia|].
    intros ty s e n i Hin. apply elem_of_nil in Hin as [].
  - apply Forall_cons in Hb as [[Hse He] Hb].
    cbn [add_priority total_size range_size].
    destruct (full max_lines st) eqn:Ef.
    + exists st. split; [reflexivity|]. split; [exact Hs|].
      split; [reflexivity|]. split; [lia|].
      intros ty s e n i Hin Hi. right. split; [exact Ef|].
      apply elem_of_cons in Hin as [[= -> -> -> ->]|Hin]; [lia|].
      assert (1 <= total_size rest); [|lia].
      clear -Hin Hi. induction rest as [|r rest IH].
      * apply elem_of_nil in Hin as [].
      * apply elem_of_cons in Hin as [<-|Hin]; cbn; [lia|].
        specialize (IH Hin). lia.
    + destruct (add_range_ok (seq s0 (S e0 - s0)) st
                  (range_indices_bound s0 e0 He) Hs)
        as (st1 & -> & Hs1 & Hsub1 & Hlen1 & Hall1).
      rewrite length_seq in Hlen1, Hall1.
      destruct (IH st1 Hb Hs1) as (st' & E & Hs' & Hsub & Hlen & Hall).
      exists st'. split; [exact E|]. split; [exact Hs'|].
      split; [etransitivity; eassumption|]. split; [lia|].
      intros ty s e n i Hin Hi.
      apply elem_of_cons in Hin as [[= -> -> -> ->]|Hin].
      * destruct (Hall1 i (range_indices_mem s0 e0 i Hi)) as [H|[H1 H2]].
        -- left. apply Hsub, H.
        -- rewrite (add_priority_full rest st1 H1) in E.
           injection E as <-. right. split; [exact H1|lia].
      * destruct (Hall ty s e n i Hin Hi) as [H|[H1 H2]]; [left; exact H|].
        right. split; [exact H1|lia].
Qed.

Lemma add_other_ok idxs : forall st,
  Forall (fun i => i < length all_lines) idxs -> sel_ok all_lines st ->
  exists st', add_other all_lines max_lines idxs st = inr st'
              /\ sel_ok all_lines st' /\ snd st ⊆ snd st'.
Proof.
  induction idxs as [|i idxs IH]; intros st Hb Hs.
  - exists st. split; [reflexivity|]. split; [exact Hs|reflexivity].
  - apply Forall_cons in Hb as [Hi Hb]. cbn [add_other].
    destruct (full max_lines st);
      [exists st; split; [reflexivity|]; split; [exact Hs|reflexivity]|].
    destruct (bool_decide (i ∈ snd st)); [apply IH; assumption|].
    destruct (take_line_ok i st Hi Hs) as (st1 & -> & Hs1 & _ & U1).
    destruct (IH st1 Hb Hs1) as (st' & E & Hs' & Hsub).
    exists st'. split; [exact E|]. split; [exact Hs'|].
    etransitivity; [|exact Hsub]. rewrite U1. apply union_subseteq_r.
Qed.
End Loops.

(** ** The ranges found by the first pass lie within the file *)

Lemma class_loop_range rest : forall i cs name depth i' r,
  class_loop rest i cs name depth = (i', Some r) ->
  exists n, r = (cs, i', n) /\ i <= i' < i + length rest.
Proof.
  induction rest as [|line rest IH]; intros i cs name depth i' r;
    cbn [class_loop]; [discriminate|].
  destruct (depth =? 0); [discriminate|].
  destruct (Py.contains "</class>" line).
  - destruct (Nat.pred _ =? 0).
    + intros [= <- <-]. eexists. split; [reflexivity|]. cbn. lia.
    + intros H. apply IH in H as (n & -> & Hb).
      exists n. split; [reflexivity|]. cbn. lia.
  - intros H. apply IH in H as (n & -> & Hb).
    exists n. split; [reflexivity|]. cbn. lia.
Qed.

Lemma methods_loop_range rest : forall i ms cid i' r,
  methods_loop rest i ms cid = (i', Some r) ->
  exists n, r = (ms, i', n) /\ i <= i' < i + length rest.
Proof.
  induction rest as [|line rest IH]; intros i ms cid i' r;
    cbn [methods_loop]; [discriminate|].
  destruct (Py.contains "</methods>" line).
  - intros [= <- <-]. eexists. split; [reflexivity|]. cbn. lia.
  - intros H. apply IH in H as (n & -> & Hb).
    exists n. split; [reflexivity|]. cbn. lia.
Qed.

Lemma option_list_in_file all_lines i i' (r : option range) :
  i < length all_lines ->
  (forall x, r = Some x ->
     exists n, x = (i, i', n)
               /\ S i <= i' < S i + length (drop (S i) all_lines)) ->
  Forall (in_file all_lines) (option_list r).
Proof.
  intros Hi H. destruct r as [x|]; [|constructor].
  destruct (H x eq_refl) as (n & -> & Hb). rewrite length_drop in Hb.
  constructor; [|constructor]. cbn. lia.
Qed.

Lemma scan_in_file all_lines fuel : forall i cr mr,
  Forall (in_file all_lines) cr -> Forall (in_file all_lines) mr ->
  Forall (in_file all_lines) (fst (scan fuel all_lines i cr mr))
  /\ Forall (in_file all_lines) (snd (scan fuel all_lines i cr mr)).
Proof.
  induction fuel as [|fuel IH]; intros i cr mr Hc Hm; [split; assumption|].
  cbn [scan]. destruct (all_lines !! i) as [line|] eqn:El; [|split; assumption].
  apply lookup_lt_Some in El.
  destruct (Re.class_open line).
  - destruct (class_loop _ _ _ _ _) as [i' r] eqn:E. apply IH; [|exact Hm].
    apply Forall_app. split; [exact Hc|].
    apply (option_list_in_file all_lines i i' r El).
    intros x ->. apply class_loop_range in E. exact E.
  - destruct (Py.contains "<methods>" line); [|apply IH; assumption].
    destruct (methods_loop _ _ _ _) as [i' r] eqn:E. apply IH; [exact Hc|].
    apply Forall_app. split; [exact Hm|].
    apply (option_list_in_file all_lines i i' r El).
    intros x ->. apply methods_loop_range in E. exact E.
Qed.

Lemma find_ranges_in_file all_lines :
  Forall (in_file all_lines) (fst (find_ranges all_lines))
  /\ Forall (in_file all_lines) (snd (find_ranges all_lines)).
Proof. apply scan_in_file; constructor. Qed.

(** *** The fuel of the first pass is enough *)

Lemma class_loop_ge rest : forall i cs name depth i' r,
  class_loop rest i cs name depth = (i', r) -> i <= i'.
Proof.
  induction rest as [|line rest IH]; intros i cs name depth i' r;
    cbn [class_loop]; [intros [= <- _]; lia|].
  destruct (depth =? 0); [intros [= <- _]; lia|].
  destruct (Py.contains "</class>" line).
  - destruct (Nat.pred _ =? 0); [intros [= <- _]; lia|].
    intros H%IH. lia.
  - intros H%IH. lia.
Qed.

Lemma methods_loop_ge rest : forall i ms cid i' r,
  methods_loop rest i ms cid = (i', r) -> i <= i'.
Proof.
  induction rest as [|line rest IH]; intros i ms cid i' r;
    cbn [methods_loop]; [intros [= <- _]; lia|].
  destruct (Py.contains "</methods>" line); [intros [= <- _]; lia|].
  intros H%IH. lia.
Qed.

(** More turns than lines left change nothing: the outer loop has
    ended by then. *)
Lemma scan_fuel all_lines fuel : forall i cr mr extra,
  length all_lines - i <= fuel ->
  scan (fuel + extra) all_lines i cr mr = scan fuel all_lines i cr mr.
Proof.
  induction fuel as [|fuel IH]; intros i cr mr extra Hf.
  - cbn [Nat.add scan]. destruct extra as [|extra]; [reflexivity|].
    cbn [scan]. rewrite (lookup_ge_None_2 all_lines i) by lia. reflexivity.
  - cbn [Nat.add scan]. destruct (all_lines !! i) as [line|] eqn:El;
      [|reflexivity].
    apply lookup_lt_Some in El.
    destruct (Re.class_open line).
    + destruct (class_loop _ _ _ _ _) as [i' r] eqn:E.
      apply class_loop_ge in E. apply IH. lia.
    + destruct (Py.contains "<methods>" line); [|apply IH; lia].
      destruct (methods_loop _ _ _ _) as [i' r] eqn:E.
      apply methods_loop_ge in E. apply IH. lia.
Qed.

Lemma find_ranges_fuel all_lines extra :
  scan (length all_lines + extra) all_lines 0 [] [] = find_ranges all_lines.
Proof. apply scan_fuel. lia. Qed.

(** ** The priority ranges *)

Lemma categorize_spec prefixes class_ranges : forall names prio other,
  let '(names', prio', _) :=
    fold_left (categorize_step prefixes) class_ranges (names, prio, other) in
  (forall x, x ∈ names' <->
     x ∈ names \/ (has_priority prefixes x = true
                   /\ exists s e, (s, e, x) ∈ class_ranges))
  /\ (forall x, x ∈ prio' <->
        x ∈ prio \/ exists s e n, x = ("class", s, e, n)
                                  /\ has_priority prefixes n = true
                                  /\ (s, e, n) ∈ class_ranges).
Proof.
  induction class_ranges as [|[[s0 e0] n0] rest IH]; intros names prio other.
  - cbn. split; intros x; split; try tauto.
    + intros [H|(_ & s & e & H)]; [exact H|]. apply elem_of_nil in H as [].
    + intros [H|(s & e & n & _ & _ & H)]; [exact H|].
      apply elem_of_nil in H as [].
  - cbn [fold_left categorize_step].
    destruct (has_priority prefixes n0) eqn:Ep.
    + specialize (IH (names ++ [n0]) (prio ++ [("class", s0, e0, n0)]) other).
      destruct (fold_left _ rest _) as [[names' prio'] other'].
      destruct IH as [IH1 IH2]. split; intros x.
      * rewrite IH1, elem_of_app, list_elem_of_singleton. split.
        -- intros [[H| ->]|(Hp & s & e & H)]; [tauto| |].
           ++ right. split; [exact Ep|]. exists s0, e0. apply elem_of_cons. tauto.
           ++ right. split; [exact Hp|]. exists s, e. apply elem_of_cons. tauto.
        -- intros [H|(Hp & s & e & H)]; [tauto|].
           apply elem_of_cons in H as [[= -> -> ->]|H]; [tauto|].
           right. split; [exact Hp|]. exists s, e. exact H.
      * rewrite IH2, elem_of_app, list_elem_of_singleton. split.
        -- intros [[H| ->]|(s & e & n & -> & Hp & H)]; [tauto| |].
           ++ right. exists s0, e0, n0. split; [reflexivity|].
              split; [exact Ep|]. apply elem_of_cons. tauto.
           ++ right. exists s, e, n. split; [reflexivity|].
              split; [exact Hp|]. apply elem_of_cons. tauto.
        -- intros [H|(s & e & n & -> & Hp & H)]; [tauto|].
           apply elem_of_cons in H as [[= -> -> ->]|H]; [tauto|].
           right. exists s, e, n. tauto.
    + specialize (IH names prio (other ++ [("class", s0, e0, n0)])).
      destruct (fold_left _ rest _) as [[names' prio'] other'].
      destruct IH as [IH1 IH2]. split; intros x.
      * rewrite IH1. split.
        -- intros [H|(Hp & s & e & H)]; [tauto|].
           right. split; [exact Hp|]. exists s, e. apply elem_of_cons. tauto.
        -- intros [H|(Hp & s & e & H)]; [tauto|].
           apply elem_of_cons in H as [[= -> -> ->]|H]; [congruence|].
           right. split; [exact Hp|]. exists s, e. exact H.
      * rewrite IH2. split.
        -- intros [H|(s & e & n & -> & Hp & H)]; [tauto|].
           right. exists s, e, n. split; [reflexivity|].
           split; [exact Hp|]. apply elem_of_cons. tauto.
        -- intros [H|(s & e & n & -> & Hp & H)]; [tauto|].
           apply elem_of_cons in H as [[= -> -> ->]|H]; [congruence|].
           right. exists s, e, n. tauto.
Qed.

Lemma add_methods_spec names methods_ranges : forall prio x,
  x ∈ add_methods names methods_ranges prio
  <-> x ∈ prio \/ exists s e n, x = ("methods", s, e, n)
                                /\ n ∈ names /\ (s, e, n) ∈ methods_ranges.
Proof.
  unfold add_methods.
  induction methods_ranges as [|[[s0 e0] n0] rest IH]; intros prio x.
  - cbn. split; [tauto|]. intros [H|(s & e & n & _ & _ & H)]; [exact H|].
    apply elem_of_nil in H as [].
  - cbn [fold_left]. rewrite IH. destruct (bool_decide (n0 ∈ names)) eqn:Eb.
    + apply bool_decide_eq_true_1 in Eb.
      rewrite elem_of_app, list_elem_of_singleton. split.
      * intros [[H| ->]|(s & e & n & -> & Hn & H)]; [tauto| |].
        -- right. exists s0, e0, n0. split; [reflexivity|].
           split; [exact Eb|]. apply elem_of_cons. tauto.
        -- right. exists s, e, n. split; [reflexivity|].
           split; [exact Hn|]. apply elem_of_cons. tauto.
      * intros [H|(s & e & n & -> & Hn & H)]; [tauto|].
        apply elem_of_cons in H as [[= -> -> ->]|H]; [tauto|].
        right. exists s, e, n. tauto.
    + apply bool_decide_eq_false_1 in Eb. split.
      * intros [H|(s & e & n & -> & Hn & H)]; [tauto|].
        right. exists s, e, n. split; [reflexivity|].
        split; [exact Hn|]. apply elem_of_cons. tauto.
      * intros [H|(s & e & n & -> & Hn & H)]; [tauto|].
        apply elem_of_cons in H as [[= -> -> ->]|H]; [contradiction|].
        right. exists s, e, n. tauto.
Qed.

Lemma insert_by_start_mem x l y :
  y ∈ insert_by_start x l <-> y = x \/ y ∈ l.
Proof.
  induction l as [|z l IH]; cbn [insert_by_start].
  - rewrite list_elem_of_singleton, elem_of_nil. tauto.
  - destruct (range_start x <=? range_start z).
    + rewrite elem_of_cons. tauto.
    + rewrite !elem_of_cons, IH. tauto.
Qed.

Lemma sort_by_start_mem l y : y ∈ sort_by_start l <-> y ∈ l.
Proof.
  unfold sort_by_start. induction l as [|x l IH]; [reflexivity|].
  cbn [foldr]. rewrite insert_by_start_mem, IH, elem_of_cons. tauto.
Qed.

(** The priority ranges are the classes whose name has a priority
    prefix and the methods blocks whose class-id is the name of such a
    class. *)
Lemma priority_ranges_mem all_lines prefixes x :
  x ∈ priority_ranges_of all_lines prefixes
  <-> (exists s e n, x = ("class", s, e, n)
                     /\ has_priority prefixes n = true
                     /\ (s, e, n) ∈ fst (find_ranges all_lines))
      \/ (exists s e n, x = ("methods", s, e, n)
                        /\ (has_priority prefixes n = true
                            /\ exists s' e',
                                 (s', e', n) ∈ fst (find_ranges all_lines))
                        /\ (s, e, n) ∈ snd (find_ranges all_lines)).
Proof.
  unfold priority_ranges_of.
  destruct (find_ranges all_lines) as [cr mr]. cbn [fst snd].
  pose proof (categorize_spec prefixes cr [] [] []) as H.
  unfold categorize.
  destruct (fold_left _ cr _) as [[names prio] other].
  destruct H as [H1 H2].
  rewrite sort_by_start_mem, add_methods_spec, H2. split.
  - intros [[H|H]|(s & e & n & -> & Hn & H)].
    + apply elem_of_nil in H as [].
    + left. exact H.
    + right. exists s, e, n. split; [reflexivity|]. split; [|exact H].
      apply H1 in Hn as [Hn|Hn]; [apply elem_of_nil in Hn as []|exact Hn].
  - intros [H|(s & e & n & -> & Hn & H)]; [left; right; exact H|].
    right. exists s, e, n. split; [reflexivity|]. split; [|exact H].
    apply H1. right. exact Hn.
Qed.

Lemma priority_ranges_in_file all_lines prefixes :
  Forall (pin_file all_lines) (priority_ranges_of all_lines prefixes).
Proof.
  destruct (find_ranges_in_file all_lines) as [Hc Hm].
  rewrite Forall_forall in Hc, Hm.
  apply Forall_forall. intros x Hx. apply priority_ranges_mem in Hx.
  destruct Hx as [(s & e & n & -> & _ & H)|(s & e & n & -> & _ & H)].
  - exact (Hc _ H).
  - exact (Hm _ H).
Qed.

(** ** The header *)

Lemma first_element_line_bound lines : forall i j,
  first_element_line lines i = Some j -> i <= j < i + length lines.
Proof.
  induction lines as [|l lines IH]; intros i j; cbn [first_element_line];
    [discriminate|].
  destruct (_ && _).
  - intros [= <-]. cbn. lia.
  - intros H%IH. cbn. lia.
Qed.

Lemma header_end_bound all_lines :
  all_lines <> [] -> find_header_end all_lines < length all_lines.
Proof.
  intros Hne. unfold find_header_end.
  destruct (first_element_line all_lines 0) as [j|] eqn:E.
  - apply first_element_line_bound in E. lia.
  - destruct all_lines; [contradiction|cbn; lia].
Qed.

Lemma sel_ok_empty all_lines : sel_ok all_lines ([], ∅).
Proof. intros i Hi. apply elem_of_empty in Hi as []. Qed.

Lemma lines_of_nil text : lines_of text = [] -> text = EmptyString.
Proof.
  destruct text as [|c r]; [reflexivity|]. cbn [lines_of].
  destruct (Ascii.eqb c nl); [discriminate|].
  destruct (lines_of r); discriminate.
Qed.

Lemma universal_newlines_nil stored :
  universal_newlines stored = EmptyString -> stored = EmptyString.
Proof.
  destruct stored as [|c r]; [reflexivity|]. cbn [universal_newlines].
  destruct (Ascii.eqb c cr); [|discriminate].
  destruct r as [|c' r']; [discriminate|].
  destruct (Ascii.eqb c' nl); discriminate.
Qed.

Lemma readlines_nil content : readlines content = [] -> content = EmptyString.
Proof.
  intros H. apply universal_newlines_nil, lines_of_nil, H.
Qed.

(** ** Priority ranges within the budget *)

(** For a file that is not empty, when the header lines and the lines
    of all priority ranges together number at most [max_lines], every
    line of every range the first pass recorded for a class whose name
    starts with a priority prefix, and for a methods block whose
    class-id is the name of such a class, is among the lines the
    truncator hands to its parsing tiers. *)
Lemma priority_ranges_within_budget strict_parse recovering_parse
        input_file max_lines priority_prefixes :
  let all_lines := readlines input_file in
  input_file <> EmptyString ->
  (Z.of_nat (S (find_header_end all_lines)
             + total_size (priority_ranges_of all_lines priority_prefixes))
   <= max_lines)%Z ->
  exists st,
    select_lines all_lines max_lines priority_prefixes = inr st
    /\ truncate_xml_to_lines strict_parse recovering_parse
         input_file max_lines priority_prefixes
       = fallback strict_parse recovering_parse (Py.join EmptyString (fst st))
    /\ (forall s e name i,
          (s, e, name) ∈ fst (find_ranges all_lines) ->
          has_priority priority_prefixes name = true ->
          s <= i <= e -> selected all_lines st i)
    /\ (forall s e class_id i,
          (s, e, class_id) ∈ snd (find_ranges all_lines) ->
          has_priority priority_prefixes class_id = true ->
          (exists s' e', (s', e', class_id) ∈ fst (find_ranges all_lines)) ->
          s <= i <= e -> selected all_lines st i).
Proof.
  intros all_lines Hne Hbudget.
  assert (Hnil : all_lines <> []).
  { intros H. apply readlines_nil in H. contradiction. }
  pose proof (header_end_bound all_lines Hnil) as Hh.
  destruct (add_header_ok all_lines (seq 0 (S (find_header_end all_lines)))
              ([], ∅)) as (st0 & E0 & Hs0 & L0).
  { apply Forall_forall. intros i Hi%list_elem_of_In. apply in_seq in Hi. lia. }
  { apply sel_ok_empty. }
  rewrite length_seq in L0. cbn [fst length Nat.add] in L0.
  destruct (add_priority_ok all_lines max_lines
              (priority_ranges_of all_lines priority_prefixes) st0
              (priority_ranges_in_file all_lines priority_prefixes) Hs0)
    as (st1 & E1 & Hs1 & Hsub1 & Hlen1 & Hall1).
  destruct (add_other_ok all_lines max_lines
              (seq (S (find_header_end all_lines))
                   (length all_lines - S (find_header_end all_lines))) st1)
    as (st2 & E2 & Hs2 & Hsub2).
  { apply Forall_forall. intros i Hi%list_elem_of_In. apply in_seq in Hi. lia. }
  { exact Hs1. }
  assert (Esel : select_lines all_lines max_lines priority_prefixes = inr st2).
  { unfold select_lines, select_priority. rewrite E0, E1. exact E2. }
  assert (Hprio : forall ty s e n i,
            (ty, s, e, n) ∈ priority_ranges_of all_lines priority_prefixes ->
            s <= i <= e -> selected all_lines st2 i).
  { intros ty s e n i Hin Hi. apply Hs2, Hsub2.
    destruct (Hall1 ty s e n i Hin Hi) as [H|[Hf Hlt]]; [exact H|].
    unfold full in Hf. apply Z.geb_le in Hf. lia. }
  exists st2. split; [exact Esel|]. split.
  { unfold truncate_xml_to_lines. fold all_lines. rewrite Esel.
    destruct st2. reflexivity. }
  split.
  - intros s e name i Hin Hp Hi.
    apply (Hprio "class" s e name i); [|exact Hi].
    apply priority_ranges_mem. left. exists s, e, name. tauto.
  - intros s e class_id i Hin Hp Hc Hi.
    apply (Hprio "methods" s e class_id i); [|exact Hi].
    apply priority_ranges_mem. right. exists s, e, class_id. tauto.
Qed.

(** C3 as stated fails: the priority loop stops at [max_lines] too.  Of
    a class [FooBar] of sixty lines, only forty-nine follow the header
    line in the fifty lines selected; the last lines of the class are not
    among them. *)
Lemma C3_long_class_is_cut :
  let all_lines := readlines long_class_file in
  find_ranges all_lines = ([(1, 60, Some "FooBar")], [])
  /\ has_priority ["Foo"] (Some "FooBar") = true
  /\ exists st,
       select_lines all_lines 50 ["Foo"] = inr st
       /\ truncate_xml_to_lines rejecting_parse accepting_parse
            long_class_file 50 ["Foo"]
          = fallback rejecting_parse accepting_parse
              (Py.join EmptyString (fst st))
       /\ length (fst st) = 50
       /\ ~ selected all_lines st 59
       /\ Py.contains "the last line of FooBar"
                      (Py.join EmptyString (fst st)) = false.
Proof.
  intros all_lines. split; [vm_compute; reflexivity|].
  split; [reflexivity|].
  assert (T : match select_lines all_lines 50 ["Foo"] with
              | inr st =>
                  (length (fst st) =? 50)
                  && negb (bool_decide (59 ∈ snd st))
                  && negb (Py.contains "the last line of FooBar"
                             (Py.join EmptyString (fst st)))
              | inl _ => false
              end = true) by (vm_compute; reflexivity).
  destruct (select_lines all_lines 50 ["Foo"]) as [e|st] eqn:E;
    [discriminate T|].
  apply andb_prop in T as [T T3]. apply andb_prop in T as [T1 T2].
  exists st. split; [reflexivity|]. split.
  { unfold truncate_xml_to_lines. fold all_lines. rewrite E.
    destruct st. reflexivity. }
  split; [apply Nat.eqb_eq, T1|]. split.
  - intros [Hin _]. apply negb_true_iff, bool_decide_eq_false_1 in T2.
    exact (T2 Hin).
  - apply negb_true_iff, T3.
Qed.

(** ** The tiers, and the empty file (C6) *)

Ltac no_tier :=
  let H := fresh in
  intros H; repeat (destruct H as [H|H]; [discriminate H|]); destruct H.

(** Which tiers [fallback] enters: the strict one always, the
    recovering one exactly when the strict one raised
    [XMLSyntaxError], the balancing one exactly when the recovering
    one was entered and raised; a strict success is returned as it
    is. *)
Lemma fallback_tiers strict_parse recovering_parse content :
  let o := fallback strict_parse recovering_parse content in
  (exists rest, entered o = Strict :: rest)
  /\ (Recovering ∈ entered o <-> strict_parse content = inl XMLSyntaxError)
  /\ (Balancing ∈ entered o <->
        strict_parse content = inl XMLSyntaxError
        /\ exists e, recovering_parse content = inl e)
  /\ (forall xml, strict_parse content = inr xml ->
        result o = inr xml /\ entered o = [Strict])
  /\ (Balancing ∈ entered o -> result o = inr (balance_xml_tags content)).
Proof.
  assert (Hmem : forall (t : tier) l, t ∈ l <-> In t l)
    by (intros; apply list_elem_of_In).
  unfold fallback.
  destruct (strict_parse content) as [e|xml] eqn:Es;
    [destruct e; cbn [is_syntax_error];
     [destruct (recovering_parse content) as [e'|xml'] eqn:Er|..]|];
    cbn [entered result]; rewrite !Hmem; cbn [In].
  - split; [eauto|]. split; [tauto|]. split; [|split].
    + split; [intros _; split; [reflexivity|exists e'; reflexivity]|tauto].
    + intros xml [=].
    + reflexivity.
  - split; [eauto|]. split; [tauto|]. split; [|split].
    + split; [no_tier|]. intros [_ [e [=]]].
    + intros xml [=].
    + no_tier.
  - split; [eauto|]. split; [|split; [|split]].
    + split; [no_tier|intros [=]].
    + split; [no_tier|intros [[=] _]].
    + intros xml [=].
    + no_tier.
  - split; [eauto|]. split; [|split; [|split]].
    + split; [no_tier|intros [=]].
    + split; [no_tier|intros [[=] _]].
    + intros xml [=].
    + no_tier.
  - split; [eauto|]. split; [|split; [|split]].
    + split; [no_tier|intros [=]].
    + split; [no_tier|intros [[=] _]].
    + intros xml' [= <-]. split; reflexivity.
    + no_tier.
Qed.

(** C6 fails on the code for the empty file.  The prefix-priority
    truncator reads [all_lines[0]] for the header before any tier, and
    raises [IndexError]; no tier is entered.  The first truncator hands
    the empty text to its tiers. *)
Theorem C6_empty_file_raises strict_parse recovering_parse
        max_lines priority_prefixes :
  TruncateXmlNew.truncate_xml_to_lines strict_parse recovering_parse
    EmptyString max_lines priority_prefixes
  = Outcome (inl IndexError) [] []
  /\ TruncateXml.truncate_xml_to_lines strict_parse recovering_parse
       EmptyString max_lines
     = fallback strict_parse recovering_parse EmptyString.
Proof. split; reflexivity. Qed.

End TruncateXmlNewCorrect.

(** * The index manager: proofs *)

Module CreateIndexesCorrect.
Import CreateIndexes CreateIndexesSpec.

(** ** The seven statements *)

Lemma seven_guarded : length indexes = 7 /\ Forall guarded indexes.
Proof.
  split; [reflexivity|].
  repeat (constructor; [eexists; vm_compute; reflexivity|]). constructor.
Qed.

(** ** The database keeps its catalog free of duplicates *)

Lemma exists_equivalent_false name schema c :
  exists_equivalent name schema c = false ->
  (name ∉ map ix_name c) /\ (schema ∉ map ix_schema c).
Proof.
  unfold exists_equivalent. induction c as [|e c IH]; cbn [existsb map].
  - intros _. split; apply not_elem_of_nil.
  - intros [He Hc]%orb_false_elim. apply orb_false_elim in He as [H1 H2].
    destruct (IH Hc) as [IH1 IH2].
    apply String.eqb_neq in H1. apply bool_decide_eq_false_1 in H2.
    split; rewrite elem_of_cons; intros [E|E]; congruence.
Qed.

Lemma catalog_ok_add name schema c :
  catalog_ok c -> exists_equivalent name schema c = false ->
  catalog_ok (c ++ [IndexEntry name schema]).
Proof.
  intros [H1 H2] [Hn Hs]%exists_equivalent_false.
  split; rewrite map_app; cbn [map]; apply NoDup_app.
  - split; [exact H1|]. split; [|apply NoDup_singleton].
    intros x Hx ->%list_elem_of_singleton. exact (Hn Hx).
  - split; [exact H2|]. split; [|apply NoDup_singleton].
    intros x Hx ->%list_elem_of_singleton. exact (Hs Hx).
Qed.

(** A statement leaves the catalog as it is or adds one entry that was
    not there. *)
Lemma execute_cases c query :
  fst (execute c query) = c
  \/ exists name schema,
       fst (execute c query) = c ++ [IndexEntry name schema]
       /\ exists_equivalent name schema c = false.
Proof.
  unfold execute.
  destruct (after_words _ (words query)) as [[|name rest]|];
    try (left; reflexivity).
  destruct (after_words _ rest) as [schema|].
  - destruct (exists_equivalent name schema c) eqn:E; [left; reflexivity|].
    right. exists name, schema. split; [reflexivity|exact E].
  - destruct (after_words _ rest) as [schema|]; [|left; reflexivity].
    destruct (exists_equivalent name schema c) eqn:E; [left; reflexivity|].
    right. exists name, schema. split; [reflexivity|exact E].
Qed.

Lemma execute_ok c query :
  catalog_ok c -> catalog_ok (fst (execute c query)).
Proof.
  intros H. destruct (execute_cases c query) as [->|(n & s & -> & E)];
    [exact H|apply catalog_ok_add; assumption].
Qed.

Section Runs.
Variable faults : nat -> fault.

Lemma session_run_ok query w :
  catalog_ok (catalog w) ->
  catalog_ok (catalog (fst (session_run faults query w))).
Proof.
  intros H. unfold session_run. destruct (faults (calls w)); cbn.
  - pose proof (execute_ok (catalog w) query H) as H'.
    destruct (execute (catalog w) query) as [c r]. exact H'.
  - exact H.
  - apply execute_ok, H.
Qed.

Lemma session_run_stdout query w :
  stdout (fst (session_run faults query w)) = stdout w.
Proof.
  unfold session_run. destruct (faults (calls w)); cbn; try reflexivity.
  destruct (execute (catalog w) query) as [c r]. reflexivity.
Qed.

(** One turn of the statement loop: no exception leaves it, one line
    is printed, and the catalog is the one [session.run] left. *)
Lemma turn_spec index_name index_query w :
  exists w1 l,
    statement_turn faults (index_name, index_query) w = (w1, inr tt)
    /\ catalog w1 = catalog (fst (session_run faults index_query w))
    /\ line_index l = Some index_name
    /\ stdout w1 = stdout w ++ [l].
Proof.
  unfold statement_turn, try_except, bind.
  pose proof (session_run_stdout index_query w) as Hs.
  destruct (session_run faults index_query w) as [w1 [e|[]]];
    cbn [fst snd print catalog stdout] in *.
  - eexists _, (Failed index_name e). split; [reflexivity|].
    cbn. rewrite Hs. repeat split.
  - eexists _, (Created index_name). split; [reflexivity|].
    cbn. rewrite Hs. repeat split.
Qed.

Lemma for_each_cons {A} (x : A) l (body : A -> M unit) w :
  for_each (x :: l) body w
  = match body x w with
    | (w1, inr _) => for_each l body w1
    | (w1, inl e) => (w1, inl e)
    end.
Proof. reflexivity. Qed.

(** The loop over any list of statements. *)
Lemma loop_spec (stmts : list (string * string)) : forall w,
  exists w' ls,
    for_each stmts (statement_turn faults) w = (w', inr tt)
    /\ (catalog_ok (catalog w) -> catalog_ok (catalog w'))
    /\ omap line_index ls = map fst stmts
    /\ stdout w' = stdout w ++ ls.
Proof.
  induction stmts as [|[n q] stmts IH]; intros w.
  - exists w, []. split; [reflexivity|]. split; [tauto|].
    rewrite app_nil_r. split; reflexivity.
  - destruct (turn_spec n q w) as (w1 & l & E1 & H2 & Hl & Hs).
    destruct (IH w1) as (w' & ls & E & I2 & Hls & Hss).
    exists w', (l :: ls). split; [rewrite for_each_cons, E1; exact E|].
    split.
    + intros Hok. apply I2. rewrite H2. apply session_run_ok, Hok.
    + split.
      * change (omap line_index (l :: ls))
          with (match line_index l with
                | Some y => y :: omap line_index ls
                | None => omap line_index ls
                end).
        rewrite Hl, Hls. reflexivity.
      * rewrite Hss, Hs, <- app_assoc. reflexivity.
Qed.

Lemma statement_loop_spec w :
  snd (statement_loop faults w) = inr tt
  /\ (catalog_ok (catalog w) ->
      catalog_ok (catalog (fst (statement_loop faults w))))
  /\ omap line_index (printed_by w (statement_loop faults w))
     = map fst indexes.
Proof.
  unfold statement_loop, printed_by.
  destruct (loop_spec indexes w) as (w' & ls & -> & H2 & Hls & Hs).
  cbn [fst snd]. split; [reflexivity|]. split; [exact H2|].
  rewrite Hs, drop_app_length. exact Hls.
Qed.

Lemma show_indexes_catalog w :
  catalog (fst (show_indexes faults w)) = catalog w.
Proof. unfold show_indexes. destruct (faults (calls w)); reflexivity. Qed.

(** The catalog after [create_indexes] is the one its statement loop
    leaves. *)
Lemma create_indexes_catalog w :
  exists w0,
    catalog w0 = catalog w
    /\ catalog (fst (create_indexes faults w))
       = catalog (fst (statement_loop faults w0)).
Proof.
  exists (fst (print (Banner
            "Creating indexes for optimal query performance...") w)).
  split; [reflexivity|].
  unfold create_indexes. unfold bind at 1. cbn [print fst].
  unfold bind at 1.
  match goal with |- context [statement_loop faults ?w0] =>
    destruct (statement_loop_spec w0) as (H1 & _);
    destruct (statement_loop faults w0) as [w1 r1] end.
  cbn [snd] in H1. subst r1. unfold bind at 1. cbn [print fst].
  rewrite show_indexes_catalog. reflexivity.
Qed.

Lemma create_indexes_ok w :
  catalog_ok (catalog w) ->
  catalog_ok (catalog (fst (create_indexes faults w))).
Proof.
  intros H. destruct (create_indexes_catalog w) as (w0 & E0 & ->).
  apply statement_loop_spec. rewrite E0. exact H.
Qed.
End Runs.

(** ** Running again changes nothing *)

Lemma guarded_execute n q schema c :
  guarded_schema n q = Some schema ->
  execute c q
  = (if exists_equivalent n schema c then c
     else c ++ [IndexEntry n schema], None).
Proof.
  unfold guarded_schema, execute.
  destruct (after_words _ (words q)) as [[|name rest]|]; try discriminate.
  destruct (String.eqb name n) eqn:E; [|discriminate].
  apply String.eqb_eq in E as ->. intros ->.
  destruct (exists_equivalent n schema c); reflexivity.
Qed.

Lemma exists_equivalent_app n s c l :
  exists_equivalent n s (c ++ l)
  = exists_equivalent n s c || exists_equivalent n s l.
Proof. unfold exists_equivalent. apply existsb_app. Qed.

Lemma exists_equivalent_self n s :
  exists_equivalent n s [IndexEntry n s] = true.
Proof.
  unfold exists_equivalent. cbn. rewrite String.eqb_refl. reflexivity.
Qed.

Lemma settled_execute c entry :
  settled c entry -> fst (execute c (snd entry)) = c.
Proof.
  intros (schema & Hg & He).
  rewrite (guarded_execute _ _ schema c Hg), He. reflexivity.
Qed.

Lemma execute_settles c entry :
  guarded entry -> settled (fst (execute c (snd entry))) entry.
Proof.
  intros [schema Hg]. exists schema. split; [exact Hg|].
  rewrite (guarded_execute _ _ schema c Hg).
  destruct (exists_equivalent (fst entry) schema c) eqn:E; cbn [fst];
    [exact E|].
  rewrite exists_equivalent_app, exists_equivalent_self.
  apply orb_true_r.
Qed.

Lemma settled_grows c q entry :
  settled c entry -> settled (fst (execute c q)) entry.
Proof.
  intros (schema & Hg & He). exists schema. split; [exact Hg|].
  destruct (execute_cases c q) as [->|(n & s & -> & _)]; [exact He|].
  rewrite exists_equivalent_app, He. reflexivity.
Qed.

Section Again.
Variable faults : nat -> fault.

Lemma session_run_settled_grows q w entry :
  settled (catalog w) entry ->
  settled (catalog (fst (session_run faults q w))) entry.
Proof.
  intros H. unfold session_run. destruct (faults (calls w)); cbn.
  - pose proof (settled_grows (catalog w) q entry H) as H'.
    destruct (execute (catalog w) q) as [c r]. exact H'.
  - exact H.
  - apply settled_grows, H.
Qed.

Lemma session_run_settled w entry :
  settled (catalog w) entry ->
  catalog (fst (session_run faults (snd entry) w)) = catalog w.
Proof.
  intros H. unfold session_run. destruct (faults (calls w)); cbn.
  - pose proof (settled_execute (catalog w) entry H) as H'.
    destruct (execute (catalog w) (snd entry)) as [c r]. exact H'.
  - reflexivity.
  - apply settled_execute, H.
Qed.

Lemma loop_settled_grows stmts entry : forall w,
  settled (catalog w) entry ->
  settled (catalog (fst (for_each stmts (statement_turn faults) w))) entry.
Proof.
  induction stmts as [|[n q] stmts IH]; intros w H; [exact H|].
  destruct (turn_spec faults n q w) as (w1 & l & E1 & H2 & _).
  rewrite for_each_cons, E1. apply IH. rewrite H2.
  apply session_run_settled_grows, H.
Qed.

(** Where every statement is settled the loop leaves the catalog as
    it is, whatever the faults. *)
Lemma loop_settled stmts : forall w,
  Forall (settled (catalog w)) stmts ->
  catalog (fst (for_each stmts (statement_turn faults) w)) = catalog w.
Proof.
  induction stmts as [|[n q] stmts IH]; intros w H; [reflexivity|].
  apply Forall_cons in H as [H1 H].
  destruct (turn_spec faults n q w) as (w1 & l & E1 & H2 & _).
  rewrite for_each_cons, E1.
  pose proof (session_run_settled w (n, q) H1) as E. cbn [snd] in E.
  rewrite E in H2. rewrite IH; rewrite H2; [reflexivity|exact H].
Qed.
End Again.

(** A run without faults settles every statement. *)
Lemma loop_settles stmts : forall w,
  Forall guarded stmts ->
  Forall (settled (catalog (fst (for_each stmts
                                   (statement_turn no_faults) w)))) stmts.
Proof.
  induction stmts as [|[n q] stmts IH]; intros w H; [constructor|].
  apply Forall_cons in H as [H1 H].
  destruct (turn_spec no_faults n q w) as (w1 & l & E1 & H2 & _).
  rewrite for_each_cons, E1. constructor; [|apply IH, H].
  apply loop_settled_grows. rewrite H2.
  unfold session_run, no_faults. cbn.
  pose proof (execute_settles (catalog w) (n, q) H1) as H'. cbn [snd] in H'.
  destruct (execute (catalog w) q) as [c r]. exact H'.
Qed.

(** ** What the loop does with guarded statements *)

Section Guarded.
Variable faults : nat -> fault.

(** One turn on a guarded statement: one call, one line, and the
    statement executed unless the connection was lost before. *)
Lemma guarded_turn n q w :
  guarded (n, q) ->
  statement_turn faults (n, q) w
  = (World (match faults (calls w) with
            | LostBefore => catalog w
            | _ => fst (execute (catalog w) q)
            end)
           (S (calls w))
           (stdout w ++ [turn_line (faults (calls w)) n]),
     inr tt).
Proof.
  intros [schema Hg]. cbn [fst snd] in Hg.
  unfold statement_turn, try_except, bind, session_run.
  rewrite (guarded_execute n q schema (catalog w) Hg).
  destruct (faults (calls w)); reflexivity.
Qed.

Lemma guarded_loop stmts : forall w,
  Forall guarded stmts ->
  snd (for_each stmts (statement_turn faults) w) = inr tt
  /\ calls (fst (for_each stmts (statement_turn faults) w))
     = calls w + length stmts
  /\ stdout (fst (for_each stmts (statement_turn faults) w))
     = stdout w ++ loop_lines faults (calls w) stmts
  /\ forall i entry,
       stmts !! i = Some entry -> faults (calls w + i) <> LostBefore ->
       settled (catalog (fst (for_each stmts (statement_turn faults) w)))
               entry.
Proof.
  induction stmts as [|[n q] stmts IH]; intros w H.
  - cbn. rewrite app_nil_r, Nat.add_0_r. repeat split.
    intros i entry Hi. discriminate Hi.
  - apply Forall_cons in H as [H1 H].
    rewrite for_each_cons, (guarded_turn n q w H1).
    match goal with |- context [for_each stmts _ ?w1] =>
      destruct (IH w1 H) as (I1 & I2 & I3 & I4) end.
    cbn [calls stdout] in I2, I3, I4.
    split; [exact I1|]. split; [rewrite I2; cbn [length]; lia|].
    split; [rewrite I3, <- app_assoc; reflexivity|].
    intros [|i] entry Hi Hf.
    + injection Hi as <-. rewrite Nat.add_0_r in Hf.
      apply loop_settled_grows. cbn [catalog].
      destruct (faults (calls w)); [|contradiction|];
        apply (execute_settles (catalog w) (n, q) H1).
    + apply (I4 i entry Hi).
      replace (S (calls w) + i) with (calls w + S i) by lia. exact Hf.
Qed.

(** [create_indexes] leaves the catalog its statement loop leaves, the
    loop starting with the catalog and the number of calls the function
    was entered with. *)
Lemma create_indexes_loop w :
  let w0 := World (catalog w) (calls w)
                  (stdout w
                   ++ [Banner "Creating indexes for optimal query performance..."]) in
  catalog (fst (create_indexes faults w))
  = catalog (fst (statement_loop faults w0)).
Proof.
  intros w0. unfold create_indexes. unfold bind at 1. cbn [print fst].
  fold w0. unfold bind at 1.
  destruct (statement_loop_spec faults w0) as (H1 & _).
  destruct (statement_loop faults w0) as [w1 r1].
  cbn [snd] in H1. subst r1. unfold bind at 1. cbn [print fst].
  rewrite show_indexes_catalog. reflexivity.
Qed.
End Guarded.

(** C7.  The seven statements are all [CREATE INDEX ... IF NOT EXISTS]
    statements, each named by the key it is stored under.  No exception
    leaves the statement loop, whatever fails: the loop makes its seven
    calls, and prints for every statement, in order, that it was created
    when its call came back and that it failed, with the error, when the
    connection was lost; every statement whose call reached the server
    has its index in the catalog after the loop.  Because the statements
    are guarded, a statement whose index exists is no failure.  Running
    [create_indexes] twice leaves a catalog without duplicate entries;
    and when the calls of the first run reached the server, all seven
    indexes exist after it and the second run leaves the catalog as it
    is. *)
Theorem C7_create_indexes_twice (faults1 faults2 : nat -> fault) (w : world) :
  catalog_ok (catalog w) ->
  let w1 := fst (create_indexes faults1 w) in
  let w2 := fst (create_indexes faults2 w1) in
  (length indexes = 7 /\ Forall guarded indexes)
  /\ (forall faults w0,
        snd (statement_loop faults w0) = inr tt
        /\ calls (fst (statement_loop faults w0)) = calls w0 + 7
        /\ printed_by w0 (statement_loop faults w0)
           = loop_lines faults (calls w0) indexes
        /\ forall i entry,
             indexes !! i = Some entry ->
             faults (calls w0 + i) <> LostBefore ->
             settled (catalog (fst (statement_loop faults w0))) entry)
  /\ catalog_ok (catalog w1) /\ catalog_ok (catalog w2)
  /\ ((forall i, i < 7 -> faults1 (calls w + i) <> LostBefore) ->
      Forall (settled (catalog w1)) indexes /\ catalog w2 = catalog w1).
Proof.
  intros Hok w1 w2. destruct seven_guarded as [H7 Hg].
  split; [split; assumption|]. split.
  { intros faults w0. unfold statement_loop.
    destruct (guarded_loop faults indexes w0 Hg) as (I1 & I2 & I3 & I4).
    split; [exact I1|]. split; [rewrite I2, H7; reflexivity|].
    split; [|exact I4].
    unfold printed_by. rewrite I3, drop_app_length. reflexivity. }
  pose proof (create_indexes_ok faults1 w Hok) as Hok1. fold w1 in Hok1.
  split; [exact Hok1|]. split; [apply create_indexes_ok, Hok1|].
  intros Hnf.
  assert (Hs : Forall (settled (catalog w1)) indexes).
  { unfold w1. rewrite create_indexes_loop. unfold statement_loop.
    match goal with |- context [for_each indexes _ ?w0] =>
      destruct (guarded_loop faults1 indexes w0 Hg) as (_ & _ & _ & I4) end.
    cbn [calls] in I4. apply Forall_lookup. intros i entry Hi.
    apply (I4 i entry Hi), Hnf.
    apply lookup_lt_Some in Hi. rewrite H7 in Hi. exact Hi. }
  split; [exact Hs|].
  unfold w2. rewrite create_indexes_loop. unfold statement_loop.
  rewrite loop_settled; [reflexivity|exact Hs].
Qed.

(** C7 at the empty database, the connection being lost at the third
    call of the first run: the third statement is reported as failed
    and the six others as created; a second run without faults then
    completes the catalog, and a third leaves it as it is. *)
Lemma C7_create_indexes_witness :
  let w1 := fst (create_indexes lost_third empty_world) in
  let w2 := fst (create_indexes no_faults w1) in
  let w3 := fst (create_indexes no_faults w2) in
  catalog_ok (catalog empty_world)
  /\ printed_by empty_world (statement_loop lost_third empty_world)
     = [Created "idx_symbol_calls_lookup";
        Created "idx_symbol_type_lookup";
        Failed "idx_symbol_file_path" ServiceUnavailable;
        Created "idx_symbol_namespace";
        Created "idx_namespace_repo_name";
        Created "idx_file_repo_path";
        Created "idx_repository_url"]
  /\ catalog_ok (catalog w1) /\ catalog_ok (catalog w2)
  /\ Forall (settled (catalog w2)) indexes
  /\ catalog w3 = catalog w2.
Proof.
  intros w1 w2 w3.
  assert (H0 : catalog_ok (catalog empty_world))
    by (split; apply NoDup_nil_2).
  split; [exact H0|].
  destruct (C7_create_indexes_twice lost_third no_faults empty_world H0)
    as (_ & Hloop & H1 & H2 & _).
  fold w1 in H1. fold w2 in H2.
  split; [exact (proj1 (proj2 (proj2 (Hloop lost_third empty_world))))|].
  split; [exact H1|]. split; [exact H2|].
  destruct (C7_create_indexes_twice no_faults no_faults w1 H1)
    as (_ & _ & _ & _ & H3).
  apply H3. intros i _ E. discriminate E.
Defined.

End CreateIndexesCorrect.

(** * The parser: further properties *)

Module SouParserMore.
Import Xml SouParser SouParserSpec SouParserProps SouParserCorrect.
Import TruncateSpec TruncateCorrect.

(** ** The handler where an exception is met *)

Section Handlers.
Variable u : nat -> string.
Variable ts : element -> string.

Lemma on_end_class_none e s :
  tag e = "class" -> findtext e "name" None = None ->
  on_end u ts e s = (s, inl AttributeError).
Proof.
  intros Ht Hn. unfold on_end. fold (special (tag e)).
  rewrite Ht, special_class, Hn. reflexivity.
Qed.

Lemma for_each_unbound b bodies s :
  class_name s = None ->
  for_each (b :: bodies) (fun body =>
      incr_methods ;;;
      cn <- read_class_name ;;
      id <- fresh_uuid u ;;
      yield (mk_record (cn +:+ "." +:+ Py.fmt (get body "selector"))
               METHOD (Py.strip (or_empty (text body))) EmptyString id)) s
  = (Locals (pending_class s) (types_count s) (S (methods_count s)) None
            (uuid_calls s) (yielded s) (printed s),
     inl UnboundLocalError).
Proof.
  intros Hcn. cbn [for_each]. unfold bind, incr_methods, read_class_name.
  cbn. rewrite Hcn. reflexivity.
Qed.

Lemma on_end_methods_stale e s cn :
  tag e = "methods" -> findtext e "class-id" None = None ->
  class_name s = Some cn ->
  on_end u ts e s
  = (Locals (pending_class s) (types_count s)
            (length (findall e "body") + methods_count s)
            (Some cn)
            (length (findall e "body") + uuid_calls s)
            (yielded s ++ method_records u cn (findall e "body") (uuid_calls s))
            (printed s ++ [AttributeError]),
     inr (clear e)).
Proof.
  intros Ht Hc Hcn. unfold on_end. fold (special (tag e)).
  rewrite Ht, special_methods, Hc. cbn [negb]. rewrite bind_get_pending.
  cbn [String.eqb Ascii.eqb Bool.eqb extract_class_name].
  unfold bind at 1, print.
  unfold bind at 1.
  rewrite (for_each_methods u _ _ cn) by exact Hcn.
  reflexivity.
Qed.

Lemma on_end_methods_unbound e s :
  tag e = "methods" -> findtext e "class-id" None = None ->
  class_name s = None ->
  on_end u ts e s
  = match findall e "body" with
    | [] =>
        (Locals (pending_class s) (types_count s) (methods_count s) None
                (uuid_calls s) (yielded s) (printed s ++ [AttributeError]),
         inr (clear e))
    | _ :: _ =>
        (Locals (pending_class s) (types_count s) (S (methods_count s)) None
                (uuid_calls s) (yielded s) (printed s ++ [AttributeError]),
         inl UnboundLocalError)
    end.
Proof.
  intros Ht Hc Hcn. unfold on_end. fold (special (tag e)).
  rewrite Ht, special_methods, Hc. cbn [negb]. rewrite bind_get_pending.
  cbn [String.eqb Ascii.eqb Bool.eqb extract_class_name].
  unfold bind at 1, print.
  unfold bind at 1.
  destruct (findall e "body") as [|b bodies].
  - cbn. rewrite Hcn. reflexivity.
  - rewrite for_each_unbound by exact Hcn. reflexivity.
Qed.

End Handlers.


(** ** Exceptions that end the generator *)

(** X1.  A [<class>] without a [<name>] child ends the generator with an
    [AttributeError] ([None] has no [split]): nothing of the class is
    yielded, and the elements after it are never looked at. *)
Theorem class_without_name_raises u ts rt ra rx rl pre post ca cx ccs cl :
  let cls := Element "class" ca cx ccs cl in
  forallb plain pre = true -> forallb plain ccs = true ->
  findtext cls "name" None = None ->
  parse u ts (Element rt ra rx (pre ++ cls :: post) rl)
  = ([], Some AttributeError).
Proof.
  intros cls Hpre Hccs Hn.
  unfold parse. rewrite visit_eq. unfold bind at 1.
  rewrite visit_all_app, (visit_all_plain u ts pre Hpre).
  rewrite visit_all_cons. unfold cls at 1.
  rewrite (visit_flat u ts _ _ _ _ _ _ Hccs).
  fold cls. rewrite (on_end_class_none u ts cls init eq_refl Hn).
  reflexivity.
Qed.

Lemma class_without_name_witness :
  parse sample_uuid sample_tostring
    (sample_source
       [Element "class" [] None [leaf "super" "Core.Object"] None;
        sample_methods "Root.Foo" [sample_body "bar" "bar ^1"]])
  = ([], Some AttributeError).
Proof.
  exact (class_without_name_raises sample_uuid sample_tostring
           "st-source" [] None None []
           [sample_methods "Root.Foo" [sample_body "bar" "bar ^1"]]
           [] None [leaf "super" "Core.Object"] None
           eq_refl eq_refl eq_refl).
Defined.

(** X2.  The first [<methods>] block of a document, when it has no
    [<class-id>] child and at least one [<body>]: the [AttributeError]
    is caught and printed, and reading [class_name], which was never
    assigned, ends the generator with an [UnboundLocalError]. *)
Theorem methods_without_class_id_unbound u ts rt ra rx rl pre post
        ma mx mcs ml b bodies :
  let mth := Element "methods" ma mx mcs ml in
  forallb plain pre = true -> forallb plain mcs = true ->
  findtext mth "class-id" None = None ->
  findall mth "body" = b :: bodies ->
  parse u ts (Element rt ra rx (pre ++ mth :: post) rl)
  = ([], Some UnboundLocalError)
  /\ printed (fst (visit u ts (Element rt ra rx (pre ++ mth :: post) rl) init))
     = [AttributeError].
Proof.
  intros mth Hpre Hmcs Hc Hb.
  assert (E : visit u ts (Element rt ra rx (pre ++ mth :: post) rl) init
              = (Locals None 0 1 None 0 [] [AttributeError],
                 inl UnboundLocalError)).
  { rewrite visit_eq. unfold bind at 1.
    rewrite visit_all_app, (visit_all_plain u ts pre Hpre).
    rewrite visit_all_cons. unfold mth at 1.
    rewrite (visit_flat u ts _ _ _ _ _ _ Hmcs).
    fold mth.
    rewrite (on_end_methods_unbound u ts mth init eq_refl Hc eq_refl).
    rewrite Hb. reflexivity. }
  unfold parse. rewrite E. split; reflexivity.
Qed.

Lemma methods_without_class_id_unbound_witness :
  let mth := Element "methods" [] None [sample_body "bar" "bar ^1"] None in
  parse sample_uuid sample_tostring (sample_source [mth])
  = ([], Some UnboundLocalError)
  /\ printed (fst (visit sample_uuid sample_tostring (sample_source [mth]) init))
     = [AttributeError].
Proof.
  exact (methods_without_class_id_unbound sample_uuid sample_tostring
           "st-source" [] None None [] []
           [] None [sample_body "bar" "bar ^1"] None
           (sample_body "bar" "bar ^1") []
           eq_refl eq_refl eq_refl eq_refl).
Defined.

(** X3.  A [<methods>] block without a [<class-id>] child that follows a
    block with one: the [AttributeError] is caught and printed,
    [class_name] keeps the value the earlier block gave it, and the
    methods of the second block are yielded under the name of the class
    of the first. *)
Theorem methods_without_class_id_stale u ts rt ra rx rl pre mid post
        ma mx mcs ml na nx ncs nl mcid :
  let m1 := Element "methods" ma mx mcs ml in
  let m2 := Element "methods" na nx ncs nl in
  let cn := class_text (Some mcid) in
  special rt = false ->
  forallb plain pre = true -> forallb plain mid = true ->
  forallb plain post = true ->
  forallb plain mcs = true -> forallb plain ncs = true ->
  findtext m1 "class-id" None = Some mcid ->
  findtext m2 "class-id" None = None ->
  parse u ts (Element rt ra rx (pre ++ m1 :: mid ++ m2 :: post) rl)
  = (method_records u cn (findall m1 "body") 0
     ++ method_records u cn (findall m2 "body") (length (findall m1 "body")),
     None)
  /\ printed (fst (visit u ts (Element rt ra rx
                                 (pre ++ m1 :: mid ++ m2 :: post) rl) init))
     = [AttributeError].
Proof.
  intros m1 m2 cn Hrt Hpre Hmid Hpost Hmcs Hncs Hc1 Hc2.
  assert (E : exists s e',
             visit u ts (Element rt ra rx (pre ++ m1 :: mid ++ m2 :: post) rl)
                   init = (s, inr e')
             /\ yielded s
                = method_records u cn (findall m1 "body") 0
                  ++ method_records u cn (findall m2 "body")
                       (length (findall m1 "body"))
             /\ printed s = [AttributeError]).
  { eexists _, _. split.
    - rewrite visit_eq. unfold bind at 1.
      rewrite visit_all_app, (visit_all_plain u ts pre Hpre).
      rewrite visit_all_cons. unfold m1 at 1.
      rewrite (visit_flat u ts _ _ _ _ _ _ Hmcs).
      fold m1. rewrite (on_end_methods u ts m1 init mcid eq_refl Hc1).
      rewrite visit_all_app, (visit_all_plain u ts mid Hmid).
      rewrite visit_all_cons. unfold m2 at 1.
      rewrite (visit_flat u ts _ _ _ _ _ _ Hncs).
      fold m2.
      rewrite (on_end_methods_stale u ts m2 _ cn eq_refl Hc2) by reflexivity.
      rewrite (visit_all_plain u ts post Hpost).
      rewrite on_end_plain by exact Hrt. reflexivity.
    - cbn [yielded printed uuid_calls init app].
      rewrite Nat.add_0_r. split; reflexivity. }
  destruct E as (s & e' & E & Hy & Hp).
  unfold parse. rewrite E. cbn [fst]. rewrite Hy, Hp. split; reflexivity.
Qed.

Lemma methods_without_class_id_stale_witness :
  let m1 := sample_methods "Root.Foo" [sample_body "bar" "bar ^1"] in
  let m2 := Element "methods" [] None [sample_body "baz" "baz ^2"] None in
  parse sample_uuid sample_tostring (sample_source [m1; m2])
  = ([mk_record "Foo.bar" METHOD "bar ^1" EmptyString (sample_uuid 0);
      mk_record "Foo.baz" METHOD "baz ^2" EmptyString (sample_uuid 1)],
     None).
Proof.
  exact (proj1 (methods_without_class_id_stale sample_uuid sample_tostring
           "st-source" [] None None [] [] []
           [] None [leaf "class-id" "Root.Foo"; sample_body "bar" "bar ^1"] None
           [] None [sample_body "baz" "baz ^2"] None
           "Root.Foo"
           eq_refl eq_refl eq_refl eq_refl eq_refl eq_refl eq_refl eq_refl)).
Defined.

(** ** Which comment is merged *)

Lemma endswith_spec s suf :
  Py.endswith s suf = true <-> exists p, s = p +:+ suf.
Proof.
  split.
  - induction s as [|c r IH]; cbn [Py.endswith]; intros H.
    + rewrite orb_false_r in H. apply String.eqb_eq in H. subst suf.
      exists EmptyString. reflexivity.
    + apply orb_true_iff in H as [H|H].
      * apply String.eqb_eq in H. exists EmptyString.
        rewrite append_nil_l. exact H.
      * destruct (IH H) as [p ->]. exists (String c p).
        rewrite append_cons. reflexivity.
  - intros [p ->]. induction p as [|c p IH].
    + rewrite append_nil_l. destruct suf; cbn [Py.endswith];
        rewrite String.eqb_refl; reflexivity.
    + rewrite append_cons. cbn [Py.endswith]. rewrite IH.
      apply orb_true_r.
Qed.

(** X4.  A class followed by a comment is yielded at the comment, and only
    there.  The comment's body, stripped, becomes the comment of the
    class exactly when the last dotted component of the comment's
    class-id ends with the name of the class (so a comment written for
    [XFoo] is merged into [Foo]); otherwise the class is yielded with
    an empty comment. *)
Theorem comment_merged_by_suffix u ts rt ra rx rl pre mid post
        ca cx ccs cl ka kx kcs kl nm :
  let cls := Element "class" ca cx ccs cl in
  let cmt := Element "comment" ka kx kcs kl in
  let name := class_text (Some nm) in
  let cid := class_text (findtext cmt "class-id" (Some EmptyString)) in
  special rt = false ->
  forallb plain pre = true -> forallb plain mid = true ->
  forallb plain post = true ->
  forallb plain ccs = true -> forallb plain kcs = true ->
  findtext cls "name" None = Some nm ->
  parse u ts (Element rt ra rx (pre ++ cls :: mid ++ cmt :: post) rl)
  = ([mk_record name TYPE (inner_xml ts cls)
        (if Py.endswith cid name
         then Py.strip (or_empty (findtext cmt "body" (Some EmptyString)))
         else EmptyString)
        (u 0)],
     None)
  /\ (Py.endswith cid name = true <-> exists p, cid = p +:+ name).
Proof.
  intros cls cmt name cid Hrt Hpre Hmid Hpost Hccs Hkcs Hnm.
  split; [|apply endswith_spec].
  unfold parse. rewrite visit_eq. unfold bind at 1.
  rewrite visit_all_app, (visit_all_plain u ts pre Hpre).
  rewrite visit_all_cons. unfold cls at 1.
  rewrite (visit_flat u ts _ _ _ _ _ _ Hccs).
  fold cls. rewrite (on_end_class u ts cls init nm eq_refl Hnm).
  rewrite visit_all_app, (visit_all_plain u ts mid Hmid).
  rewrite visit_all_cons. unfold cmt at 1.
  rewrite (visit_flat u ts _ _ _ _ _ _ Hkcs).
  fold cmt. erewrite (on_end_comment_pending u ts cmt) by reflexivity.
  cbn [pending_class types_count methods_count class_name uuid_calls
       yielded printed init].
  rewrite mk_record_name. fold name cid.
  rewrite (visit_all_plain u ts post Hpost).
  rewrite on_end_plain by exact Hrt.
  cbn [yielded app]. destruct (Py.endswith cid name).
  - rewrite set_comment_record. reflexivity.
  - reflexivity.
Qed.

Lemma comment_merged_by_suffix_witness :
  parse sample_uuid sample_tostring
    (sample_source [sample_class "Root.Foo";
                    sample_comment "Root.XFoo" " about XFoo "])
  = ([mk_record "Foo" TYPE "<name/><super/>" "about XFoo" (sample_uuid 0)],
     None).
Proof.
  exact (proj1 (comment_merged_by_suffix sample_uuid sample_tostring
           "st-source" [] None None [] [] []
           [] None [leaf "name" "Root.Foo"; leaf "super" "Core.Object"] None
           [] None [leaf "class-id" "Root.XFoo"; leaf "body" " about XFoo "]
           None "Root.Foo"
           eq_refl eq_refl eq_refl eq_refl eq_refl eq_refl eq_refl)).
Defined.


(** ** Counting the records *)

Lemma count_type_app t a b :
  count_type t (a ++ b) = count_type t a + count_type t b.
Proof. unfold count_type. rewrite List.filter_app, length_app. reflexivity. Qed.

Lemma mk_record_type n t b c i : mk_record n t b c i !! "type" = Some t.
Proof.
  unfold mk_record. rewrite lookup_insert_ne by done.
  apply lookup_insert_eq.
Qed.

Lemma count_type_one t (r : record) :
  count_type t [r] = if has_type t r then 1 else 0.
Proof. unfold count_type. cbn. destruct (has_type t r); reflexivity. Qed.

Lemma has_type_mk n t b c i t' :
  has_type t' (mk_record n t b c i) = bool_decide (t = t').
Proof.
  unfold has_type. rewrite mk_record_type.
  apply bool_decide_ext. split; congruence.
Qed.

Lemma count_type_method_records t u cn bodies : forall n,
  count_type t (method_records u cn bodies n)
  = if bool_decide (METHOD = t) then length bodies else 0.
Proof.
  induction bodies as [|b bodies IH]; intros n.
  - cbn. destruct (bool_decide _); reflexivity.
  - cbn [method_records].
    change (method_record u cn b n :: ?l) with ([method_record u cn b n] ++ l).
    rewrite count_type_app, IH, count_type_one. unfold method_record.
    rewrite has_type_mk. destruct (bool_decide (METHOD = t)); reflexivity.
Qed.

Lemma pending_has_type (p : record) :
  p !! "type" = Some TYPE ->
  has_type TYPE p = true /\ has_type METHOD p = false.
Proof.
  intros H. unfold has_type. rewrite H. split.
  - apply bool_decide_eq_true_2. reflexivity.
  - apply bool_decide_eq_false_2. discriminate.
Qed.

Lemma find_existsb e t :
  is_Some (find e t)
  <-> existsb (fun c => String.eqb (tag c) t) (children e) = true.
Proof.
  unfold find. induction (children e) as [|c cs IH]; cbn.
  - split; [intros [? [=]]|discriminate].
  - destruct (String.eqb (tag c) t); [|exact IH].
    split; [reflexivity|eauto].
Qed.

Lemma findtext_is_Some e t : is_Some (findtext e t None) <-> is_Some (find e t).
Proof.
  unfold findtext. destruct (find e t); split; intros [? [=]]; eauto.
Qed.

(** What one ["end"] event does to the counts. *)
Lemma on_end_effect u ts e s :
  pending_typed s ->
  let r := on_end u ts e s in
  pending_typed (fst r)
  /\ count_type TYPE (yielded (fst r)) + pending_count (fst r)
     <= count_type TYPE (yielded s) + pending_count s
        + (if String.eqb (tag e) "class" then 1 else 0)
  /\ count_type TYPE (yielded (fst r))
     <= count_type TYPE (yielded s)
        + (if String.eqb (tag e) "comment" then 1 else 0)
  /\ count_type METHOD (yielded (fst r))
     <= count_type METHOD (yielded s)
        + (if String.eqb (tag e) "methods"
           then length (findall e "body") else 0)
  /\ forall e', snd r = inr e' ->
       tag e' = tag e
       /\ count_type METHOD (yielded (fst r))
          = count_type METHOD (yielded s)
            + (if String.eqb (tag e) "methods"
               then length (findall e "body") else 0)
       /\ (negb (String.eqb (tag e) "class")
           || existsb (fun c => String.eqb (tag c) "name") (children e)) = true.
Proof.
  intros Hp r. subst r.
  destruct (tag_cases (tag e)) as [Hc|[Hc|[Hc|Hc]]].
  - destruct (findtext e "name" None) as [nm|] eqn:Hn.
    + rewrite (on_end_class u ts e s nm Hc Hn), Hc.
      cbn [fst snd yielded String.eqb Ascii.eqb Bool.eqb].
      unfold pending_count at 1. cbn [pending_class].
      split; [intros p [= <-]; apply mk_record_type|].
      repeat split; try lia.
      * injection H as <-. exact Hc.
      * cbn [negb orb]. apply find_existsb, findtext_is_Some.
        rewrite Hn. eauto.
    + rewrite (on_end_class_none u ts e s Hc Hn), Hc.
      cbn [fst snd String.eqb Ascii.eqb Bool.eqb].
      repeat split; try assumption; try lia; discriminate.
  - destruct (pending_class s) as [pc|] eqn:Hpc.
    + rewrite (on_end_comment_pending u ts e s pc Hc Hpc), Hc.
      cbn [fst snd yielded String.eqb Ascii.eqb Bool.eqb].
      unfold pending_count. rewrite Hpc. cbn [pending_class].
      rewrite !count_type_app, !count_type_one.
      match goal with |- context [has_type TYPE ?q] =>
        assert (Hq : q !! "type" = Some TYPE)
      end.
      { destruct (Py.endswith _ _); [|apply Hp, Hpc].
        rewrite lookup_insert_ne by done. apply Hp, Hpc. }
      destruct (pending_has_type _ Hq) as [-> ->].
      split; [intros p [=]|].
      repeat split; try lia. injection H as <-. exact Hc.
    + rewrite (on_end_comment_none u ts e s Hc Hpc), Hc.
      cbn [fst snd String.eqb Ascii.eqb Bool.eqb].
      repeat split; try assumption; try lia. injection H as <-. exact Hc.
  - rewrite Hc. cbn [String.eqb Ascii.eqb Bool.eqb negb orb].
    destruct (findtext e "class-id" None) as [cid|] eqn:Hcid;
      [|destruct (class_name s) as [cn|] eqn:Hcn].
    + rewrite (on_end_methods u ts e s cid Hc Hcid).
      cbn [fst snd yielded].
      rewrite !count_type_app, !count_type_method_records.
      rewrite bool_decide_eq_false_2 by discriminate.
      rewrite bool_decide_eq_true_2 by reflexivity.
      unfold pending_count. cbn [pending_class].
      repeat split; try assumption; try lia. injection H as <-. exact Hc.
    + rewrite (on_end_methods_stale u ts e s cn Hc Hcid Hcn).
      cbn [fst snd yielded].
      rewrite !count_type_app, !count_type_method_records.
      rewrite bool_decide_eq_false_2 by discriminate.
      rewrite bool_decide_eq_true_2 by reflexivity.
      unfold pending_count. cbn [pending_class].
      repeat split; try assumption; try lia. injection H as <-. exact Hc.
    + rewrite (on_end_methods_unbound u ts e s Hc Hcid Hcn).
      destruct (findall e "body") as [|b bodies];
        cbn [fst snd yielded length]; unfold pending_count;
        cbn [pending_class];
        repeat split; try assumption; try lia; try discriminate.
      injection H as <-. exact Hc.
  - rewrite (on_end_plain u ts e s Hc).
    apply special_false_tag in Hc as (H1 & H2 & H3).
    apply String.eqb_neq in H1, H2, H3. rewrite H1, H2, H3.
    cbn [fst snd negb orb].
    repeat split; try assumption; try lia. injection H as <-. reflexivity.
Qed.

Lemma filter_tags cs cs' t :
  Forall2 (fun c c' => tag c' = tag c) cs cs' ->
  length (List.filter (fun c => String.eqb (tag c) t) cs')
  = length (List.filter (fun c => String.eqb (tag c) t) cs)
  /\ existsb (fun c => String.eqb (tag c) t) cs'
     = existsb (fun c => String.eqb (tag c) t) cs.
Proof.
  induction 1 as [|c c' cs cs' Ht _ [IH1 IH2]]; [split; reflexivity|].
  cbn. rewrite Ht, IH2. split; [|reflexivity].
  destruct (String.eqb (tag c) t); cbn; rewrite IH1; reflexivity.
Qed.

Lemma list_sum_cons x l : list_sum (x :: l) = x + list_sum l.
Proof. reflexivity. Qed.

Section Effects.
Variable u : nat -> string.
Variable ts : element -> string.

Lemma visit_all_effect cs :
  Forall (fun c => forall s, pending_typed s -> effect c s (visit u ts c s)) cs ->
  forall s, pending_typed s ->
  let r := visit_all u ts cs s in
  pending_typed (fst r)
  /\ count_type TYPE (yielded (fst r)) + pending_count (fst r)
     <= count_type TYPE (yielded s) + pending_count s
        + list_sum (map (count_tag "class") cs)
  /\ count_type TYPE (yielded (fst r))
     <= count_type TYPE (yielded s) + list_sum (map (count_tag "comment") cs)
  /\ count_type METHOD (yielded (fst r))
     <= count_type METHOD (yielded s) + list_sum (map count_bodies cs)
  /\ forall cs', snd r = inr cs' ->
       Forall2 (fun c c' => tag c' = tag c) cs cs'
       /\ count_type METHOD (yielded (fst r))
          = count_type METHOD (yielded s) + list_sum (map count_bodies cs)
       /\ forallb classes_named cs = true.
Proof.
  induction 1 as [|c cs Hc _ IH]; intros s Hs.
  - cbn [visit_all]. unfold ret. cbn [fst snd map forallb].
    change (list_sum []) with 0.
    split; [exact Hs|]. repeat split; try lia.
    injection H as <-. constructor.
  - cbv zeta. rewrite visit_all_cons.
    destruct (Hc s Hs) as (P1 & A1 & B1 & C1 & D1).
    destruct (visit u ts c s) as [s1 [x|c']]; cbn [fst snd] in *.
    { cbn [map]. rewrite !list_sum_cons.
      repeat split; try assumption; try lia; discriminate. }
    destruct (D1 c' eq_refl) as (T1 & E1 & N1).
    destruct (IH s1 P1) as (P2 & A2 & B2 & C2 & D2).
    destruct (visit_all u ts cs s1) as [s2 [x|cs']]; cbn [fst snd] in *.
    { cbn [map]. rewrite !list_sum_cons.
      repeat split; try assumption; try lia; discriminate. }
    destruct (D2 cs' eq_refl) as (T2 & E2 & N2).
    cbn [map forallb]. rewrite !list_sum_cons.
    repeat split; try assumption; try lia.
    + injection H as <-. constructor; assumption.
    + rewrite N1, N2. reflexivity.
Qed.

Lemma visit_effect e : forall s, pending_typed s -> effect e s (visit u ts e s).
Proof.
  induction e as [t a x cs l IH] using element_ind'. intros s Hs.
  unfold effect. rewrite visit_eq. unfold bind.
  destruct (visit_all_effect cs IH s Hs) as (P1 & A1 & B1 & C1 & D1).
  destruct (visit_all u ts cs s) as [s1 [y|cs']]; cbn [fst snd] in *.
  { cbn [count_tag count_bodies].
    repeat split; try assumption; try lia; discriminate. }
  destruct (D1 cs' eq_refl) as (T1 & E1 & N1).
  destruct (filter_tags cs cs' "body" T1) as [F1 _].
  destruct (filter_tags cs cs' "name" T1) as [_ F2].
  destruct (on_end_effect u ts (Element t a x cs' l) s1 P1)
    as (P2 & A2 & B2 & C2 & D2).
  unfold findall in C2, D2. cbn [tag children] in A2, B2, C2, D2.
  rewrite F1 in C2, D2. rewrite F2 in D2.
  cbn [count_tag count_bodies classes_named].
  repeat split; try assumption; try lia.
  - apply (D2 e' H).
  - destruct (D2 e' H) as (_ & E2 & _). lia.
  - destruct (D2 e' H) as (_ & _ & E2). rewrite E2, N1. reflexivity.
Qed.

End Effects.

Lemma pending_typed_init : pending_typed init.
Proof. intros p [=]. Qed.

(** X5.  For every document, [parse] yields at most one [TYPE] record for
    each [<class>] element and at most one for each [<comment>]
    element, and at most one [METHOD] record for each [<body>] child of
    a [<methods>] element; when the generator ends without an
    exception, it has yielded exactly one [METHOD] record for each such
    body. *)
Theorem parse_counts u ts root :
  let rs := fst (parse u ts root) in
  count_type TYPE rs <= count_tag "class" root
  /\ count_type TYPE rs <= count_tag "comment" root
  /\ count_type METHOD rs <= count_bodies root
  /\ (snd (parse u ts root) = None ->
      count_type METHOD rs = count_bodies root).
Proof.
  intros rs. subst rs. unfold parse.
  destruct (visit_effect u ts root init pending_typed_init)
    as (_ & A & B & C & D).
  destruct (visit u ts root init) as [s [x|e']]; cbn [fst snd] in *.
  - unfold pending_count in A. cbn in A, B, C.
    repeat split; try lia; discriminate.
  - unfold pending_count in A. cbn in A, B, C.
    destruct (D e' eq_refl) as (_ & E & _). cbn in E.
    repeat split; try lia.
Qed.

Lemma parse_counts_witness :
  let doc :=
    sample_source
      [sample_class "A"; sample_class "B"; sample_comment "Root.B" "about B";
       sample_comment "Root.B" "again";
       sample_methods "Root.B" [sample_body "m" "m ^1"; sample_body "n" "n ^2"]]
  in
  snd (parse sample_uuid sample_tostring doc) = None
  /\ count_type TYPE (fst (parse sample_uuid sample_tostring doc)) <= 2
  /\ count_type METHOD (fst (parse sample_uuid sample_tostring doc)) = 2.
Proof.
  intros doc.
  pose proof (parse_counts sample_uuid sample_tostring doc) as (A & _ & _ & D).
  split; [reflexivity|]. split; [exact A|]. exact (D eq_refl).
Defined.

(** X6.  When [parse] ends without an exception, every [<class>] element of
    the document, at any depth, has a [<name>] child: a class without
    one always ends the generator. *)
Theorem parse_ends_normally_named u ts root :
  snd (parse u ts root) = None -> classes_named root = true.
Proof.
  unfold parse.
  destruct (visit_effect u ts root init pending_typed_init)
    as (_ & _ & _ & _ & D).
  destruct (visit u ts root init) as [s [x|e']]; cbn [fst snd] in *.
  - discriminate.
  - intros _. apply (D e' eq_refl).
Qed.

Lemma parse_ends_normally_named_witness :
  let doc :=
    sample_source [sample_class "A"; sample_comment "Root.A" "about A"] in
  snd (parse sample_uuid sample_tostring doc) = None
  /\ classes_named doc = true.
Proof.
  intros doc. split; [reflexivity|].
  exact (parse_ends_normally_named sample_uuid sample_tostring doc eq_refl).
Defined.

(** ** Documents on which the generator cannot fail *)

Section Identified.
Variable u : nat -> string.
Variable ts : element -> string.

Lemma on_end_identified e s :
  (negb (String.eqb (tag e) "class")
   || existsb (fun c => String.eqb (tag c) "name") (children e)) = true ->
  (negb (String.eqb (tag e) "methods")
   || existsb (fun c => String.eqb (tag c) "class-id") (children e)) = true ->
  exists s' e', on_end u ts e s = (s', inr e') /\ tag e' = tag e.
Proof.
  intros Hn Hc.
  destruct (tag_cases (tag e)) as [Ht|[Ht|[Ht|Ht]]].
  - rewrite Ht in Hn. cbn [String.eqb Ascii.eqb Bool.eqb negb orb] in Hn.
    apply find_existsb, findtext_is_Some in Hn as [nm Hnm].
    rewrite (on_end_class u ts e s nm Ht Hnm). eauto.
  - destruct (pending_class s) as [pc|] eqn:Hpc.
    + rewrite (on_end_comment_pending u ts e s pc Ht Hpc). eauto.
    + rewrite (on_end_comment_none u ts e s Ht Hpc). eauto.
  - rewrite Ht in Hc. cbn [String.eqb Ascii.eqb Bool.eqb negb orb] in Hc.
    apply find_existsb, findtext_is_Some in Hc as [cid Hcid].
    rewrite (on_end_methods u ts e s cid Ht Hcid). eauto.
  - rewrite (on_end_plain u ts e s Ht). eauto.
Qed.

Lemma visit_all_identified cs :
  Forall (fun c => identified c = true ->
                   forall s, exists s' c', visit u ts c s = (s', inr c')
                                           /\ tag c' = tag c) cs ->
  forallb identified cs = true ->
  forall s, exists s' cs',
    visit_all u ts cs s = (s', inr cs')
    /\ Forall2 (fun c c' => tag c' = tag c) cs cs'.
Proof.
  induction 1 as [|c cs Hc _ IH]; intros Hi s.
  - exists s, []. split; [reflexivity|constructor].
  - cbn [forallb] in Hi. apply andb_prop in Hi as [Hi1 Hi2].
    destruct (Hc Hi1 s) as (s1 & c' & E1 & T1).
    destruct (IH Hi2 s1) as (s2 & cs' & E2 & T2).
    exists s2, (c' :: cs'). rewrite visit_all_cons, E1, E2.
    split; [reflexivity|constructor; assumption].
Qed.

Lemma visit_identified e :
  identified e = true ->
  forall s, exists s' e', visit u ts e s = (s', inr e') /\ tag e' = tag e.
Proof.
  induction e as [t a x cs l IH] using element_ind'. intros Hi s.
  cbn [identified] in Hi. apply andb_prop in Hi as [Hi Hcs].
  apply andb_prop in Hi as [Hn Hc].
  destruct (visit_all_identified cs IH Hcs s) as (s1 & cs' & E1 & T1).
  destruct (filter_tags cs cs' "name" T1) as [_ F1].
  destruct (filter_tags cs cs' "class-id" T1) as [_ F2].
  destruct (on_end_identified (Element t a x cs' l) s1) as (s2 & e' & E2 & T2).
  { cbn [tag children]. rewrite F1. exact Hn. }
  { cbn [tag children]. rewrite F2. exact Hc. }
  exists s2, e'. rewrite visit_eq. unfold bind. rewrite E1.
  split; [exact E2|exact T2].
Qed.

End Identified.

(** X7.  A document in which every [<class>] has a [<name>] child and every
    [<methods>] block a [<class-id>] child is parsed without an
    exception, whatever else it holds, and gives exactly one [METHOD]
    record for each [<body>] child of a [<methods>] block. *)
Theorem parse_identified_ends_normally u ts root :
  identified root = true ->
  snd (parse u ts root) = None
  /\ count_type METHOD (fst (parse u ts root)) = count_bodies root.
Proof.
  intros Hi. unfold parse.
  destruct (visit_identified u ts root Hi init) as (s & e' & E & _).
  destruct (visit_effect u ts root init pending_typed_init)
    as (_ & _ & _ & _ & D).
  rewrite E in D |- *. cbn [fst snd] in *.
  split; [reflexivity|]. destruct (D e' eq_refl) as (_ & M & _). exact M.
Qed.

Lemma parse_identified_ends_normally_witness :
  let doc :=
    sample_source
      [sample_class "A"; sample_class "Root.B";
       sample_methods "Root.B" [sample_body "m" "m ^1"];
       sample_methods "" [Element "body" [] None [] None]] in
  identified doc = true
  /\ snd (parse sample_uuid sample_tostring doc) = None
  /\ count_type METHOD (fst (parse sample_uuid sample_tostring doc)) = 2.
Proof.
  intros doc. split; [reflexivity|].
  exact (parse_identified_ends_normally sample_uuid sample_tostring doc eq_refl).
Defined.

(** ** [extract_class_name] *)

Lemma join_split_sep c s :
  Py.join (String c EmptyString) (Py.split c s) = s.
Proof.
  induction s as [|d r IH]; [reflexivity|].
  cbn [Py.split]. destruct (split_cons c r) as (h & t & E).
  rewrite E in IH |- *. destruct (Ascii.eqb d c) eqn:Ec.
  - apply Ascii.eqb_eq in Ec as ->. rewrite join_cons, IH. reflexivity.
  - destruct t as [|y t].
    + cbn in IH |- *. rewrite IH. reflexivity.
    + rewrite join_cons in IH |- *. rewrite append_cons, IH. reflexivity.
Qed.

Lemma dot_free_cons c s :
  c <> "."%char -> dot_free s = true -> dot_free (String c s) = true.
Proof.
  unfold dot_free. rewrite !negb_true_iff. intros Hc Hs.
  cbn [Py.contains String.prefix].
  destruct (ascii_dec "." c) as [E|_]; [congruence|]. exact Hs.
Qed.

Lemma split_parts_dot_free s :
  Forall (fun p => dot_free p = true) (Py.split "." s).
Proof.
  induction s as [|c r IH]; [repeat constructor|].
  cbn [Py.split]. destruct (Ascii.eqb c ".") eqn:Ec.
  - constructor; [reflexivity|exact IH].
  - apply Ascii.eqb_neq in Ec.
    destruct (Py.split "." r) as [|h t]; [repeat constructor|].
    + apply dot_free_cons; [exact Ec|reflexivity].
    + inversion IH as [|? ? Hh Ht]; subst. constructor; [|exact Ht].
      apply dot_free_cons; assumption.
Qed.

Lemma class_text_free o : dot_free (class_text o) = true.
Proof.
  unfold class_text.
  pose proof (split_parts_dot_free (or_empty o)) as H.
  destruct (split_cons "." (or_empty o)) as (h & t & E).
  rewrite E in H |- *. clear E.
  revert h H. induction t as [|y t IH]; intros h H.
  - inversion H; subst. assumption.
  - inversion H as [|? ? _ Ht]; subst.
    change (List.last (h :: y :: t) EmptyString)
      with (List.last (y :: t) EmptyString).
    apply IH, Ht.
Qed.

(** X8.  [extract_class_name] gives the last dotted component of its
    argument: the result has no dot, and the argument is the result or
    ends with a dot and the result; on a result the function changes
    nothing.  [None] has no [split], and raises. *)
Theorem extract_class_name_last_component s :
  extract_class_name None = inl AttributeError
  /\ exists r,
       extract_class_name (Some s) = inr r
       /\ dot_free r = true
       /\ (s = r \/ exists p, s = p +:+ "." +:+ r)
       /\ extract_class_name (Some r) = inr r.
Proof.
  split; [reflexivity|].
  exists (class_text (Some s)). split; [reflexivity|].
  split; [apply class_text_free|]. split.
  - unfold class_text. cbn [or_empty].
    pose proof (join_split_sep "." s) as J.
    destruct (split_cons "." s) as (h & t & E). rewrite E in J |- *.
    destruct (exists_last (l := h :: t) ltac:(discriminate)) as (a & r & El).
    rewrite El in J |- *. rewrite last_last.
    rewrite join_app in J. destruct a as [|x a].
    + left. symmetry. exact J.
    + right. exists (Py.join "." (x :: a)). symmetry. exact J.
  - pose proof (class_text_dot_free _ (class_text_free (Some s))) as E.
    unfold extract_class_name. f_equal. exact E.
Qed.

(** ** The fields of the records *)

Lemma lstrip_head s :
  match Py.lstrip s with
  | EmptyString => True
  | String c _ => Py.isspace c = false
  end.
Proof.
  induction s as [|c r IH]; [exact I|].
  cbn [Py.lstrip]. destruct (Py.isspace c) eqn:E; [exact IH|exact E].
Qed.

Lemma rstrip_last s :
  match Py.rstrip s with
  | EmptyString => True
  | String c r => Py.isspace (last_char c r) = false
  end.
Proof.
  induction s as [|c r IH]; [exact I|].
  cbn [Py.rstrip]. destruct (Py.rstrip r) as [|d r'].
  - destruct (Py.isspace c) eqn:E; [exact I|exact E].
  - exact IH.
Qed.

Lemma rstrip_head c r :
  Py.isspace c = false -> exists r', Py.rstrip (String c r) = String c r'.
Proof.
  intros E. cbn [Py.rstrip]. destruct (Py.rstrip r) as [|d r'].
  - rewrite E. eauto.
  - eauto.
Qed.

Lemma strip_trimmed s : trimmed (Py.strip s) = true.
Proof.
  unfold Py.strip. pose proof (lstrip_head s) as H.
  destruct (Py.lstrip s) as [|c r]; [reflexivity|].
  destruct (rstrip_head c r H) as [r' E].
  pose proof (rstrip_last (String c r)) as L. rewrite E in L |- *.
  unfold trimmed. rewrite H, L. reflexivity.
Qed.

Lemma contains_dot a b : Py.contains "." (a +:+ "." +:+ b) = true.
Proof.
  induction a as [|c a IH].
  - rewrite append_nil_l. rewrite append_cons. cbn [Py.contains String.prefix].
    destruct (ascii_dec "." "."); [|congruence].
    destruct (EmptyString +:+ b); reflexivity.
  - rewrite append_cons. cbn [Py.contains]. rewrite IH. apply orb_true_r.
Qed.

Lemma mk_record_body n t b c i : mk_record n t b c i !!! "body" = b.
Proof.
  unfold mk_record. rewrite !lookup_total_insert_ne by done.
  apply lookup_total_insert_eq.
Qed.

Lemma mk_record_comment n t b c i : mk_record n t b c i !!! "comment" = c.
Proof.
  unfold mk_record. rewrite !lookup_total_insert_ne by done.
  apply lookup_total_insert_eq.
Qed.

Lemma fields_ok_type ts e nm i :
  fields_ok (mk_record (class_text (Some nm)) TYPE (inner_xml ts e)
                       EmptyString i).
Proof.
  unfold fields_ok.
  rewrite mk_record_body, mk_record_comment, mk_record_name, mk_record_type.
  split; [apply strip_trimmed|]. split; [reflexivity|].
  split; [intros _; apply class_text_free|discriminate].
Qed.

Lemma fields_ok_method u cn b n : fields_ok (method_record u cn b n).
Proof.
  unfold fields_ok, method_record.
  rewrite mk_record_body, mk_record_comment, mk_record_name, mk_record_type.
  split; [apply strip_trimmed|]. split; [reflexivity|].
  split; [discriminate|intros _; apply contains_dot].
Qed.

Lemma fields_ok_methods u cn bodies : forall n,
  Forall fields_ok (method_records u cn bodies n).
Proof.
  induction bodies as [|b bodies IH]; intros n; [constructor|].
  cbn [method_records]. constructor; [apply fields_ok_method|apply IH].
Qed.

Lemma fields_ok_set_comment (p : record) x :
  fields_ok p -> fields_ok (<["comment" := Py.strip x]> p).
Proof.
  intros (B & _ & T & M). unfold fields_ok.
  rewrite lookup_total_insert_eq.
  rewrite !lookup_total_insert_ne, !lookup_insert_ne by done.
  split; [exact B|]. split; [apply strip_trimmed|]. split; assumption.
Qed.

Lemma on_end_fields u ts e s :
  fields_inv s -> fields_inv (fst (on_end u ts e s)).
Proof.
  intros [Hy Hp].
  destruct (tag_cases (tag e)) as [Hc|[Hc|[Hc|Hc]]].
  - destruct (findtext e "name" None) as [nm|] eqn:Hn.
    + rewrite (on_end_class u ts e s nm Hc Hn). split; [exact Hy|].
      cbn [fst pending_class]. intros p [= <-].
      split; [apply fields_ok_type|apply mk_record_type].
    + rewrite (on_end_class_none u ts e s Hc Hn). split; assumption.
  - destruct (pending_class s) as [pc|] eqn:Hpc.
    + rewrite (on_end_comment_pending u ts e s pc Hc Hpc).
      destruct (Hp pc eq_refl) as [Hf _].
      split; [|intros p [=]]. cbn [fst yielded].
      apply Forall_app. split; [exact Hy|]. constructor; [|constructor].
      destruct (Py.endswith _ _); [apply fields_ok_set_comment|]; exact Hf.
    + rewrite (on_end_comment_none u ts e s Hc Hpc).
      split; [exact Hy|]. cbn [fst]. rewrite Hpc. intros p [=].
  - assert (Hm : forall cn n,
               Forall fields_ok
                 (yielded s ++ method_records u cn (findall e "body") n)).
    { intros cn n. apply Forall_app. split; [exact Hy|].
      apply fields_ok_methods. }
    destruct (findtext e "class-id" None) as [cid|] eqn:Hcid;
      [|destruct (class_name s) as [cn|] eqn:Hcn].
    + rewrite (on_end_methods u ts e s cid Hc Hcid).
      split; [apply Hm|exact Hp].
    + rewrite (on_end_methods_stale u ts e s cn Hc Hcid Hcn).
      split; [apply Hm|exact Hp].
    + rewrite (on_end_methods_unbound u ts e s Hc Hcid Hcn).
      destruct (findall e "body"); split; assumption.
  - rewrite (on_end_plain u ts e s Hc). split; assumption.
Qed.

(** X9.  Every record yielded by [parse], for every document: its body and
    its comment neither begin nor end with white space, the name of a
    [TYPE] record contains no dot, and the name of a [METHOD] record
    contains one. *)
Theorem parse_fields_normalised u ts root :
  Forall fields_ok (fst (parse u ts root)).
Proof.
  unfold parse.
  assert (H0 : fields_inv init) by (split; [constructor|intros p [=]]).
  pose proof (visit_inv u ts fields_inv (on_end_fields u ts) root init H0)
    as H.
  destruct (visit u ts root init) as [s [e|e']]; exact (proj1 H).
Qed.

(** ** What [parse_metadata] returns *)

Lemma metadata_fold_all cn bodies : forall acc : gset string,
  fold_left (fun (acc : gset string) body =>
               if Py.truthy cn && Py.truthy (get body "selector")
               then acc ∪ {[ or_empty cn +:+ "." +:+ or_empty (get body "selector") ]}
               else acc) bodies acc
  = acc ∪ list_to_set
            (omap (fun b =>
                     if Py.truthy cn && Py.truthy (get b "selector")
                     then Some (or_empty cn +:+ "."
                                +:+ or_empty (get b "selector"))
                     else None) bodies).
Proof.
  induction bodies as [|b bodies IH]; intros acc.
  - cbn. rewrite union_empty_r_L. reflexivity.
  - cbn [fold_left]. rewrite IH.
    change (omap ?f (b :: bodies))
      with (match f b with Some y => y :: omap f bodies | None => omap f bodies end).
    cbv beta.
    destruct (Py.truthy cn && Py.truthy (get b "selector")).
    + cbn [list_to_set]. rewrite (assoc_L (∪)). reflexivity.
    + reflexivity.
Qed.

Lemma metadata_on_end_fqdn e (acc : gset string) :
  exists e', metadata_on_end e acc = (e', acc ∪ own_fqdn e) /\ kept e e'.
Proof.
  unfold metadata_on_end, own_fqdn. cbv zeta.
  destruct (String.eqb (tag e) "methods") eqn:E.
  - apply String.eqb_eq in E.
    exists (clear e). split; [|apply kept_clear; auto].
    rewrite metadata_fold_all. reflexivity.
  - exists e. split; [|apply kept_refl]. rewrite union_empty_r_L. reflexivity.
Qed.

Lemma omap_map {A B C} (f : B -> option C) (g : A -> B) l :
  omap f (map g l) = omap (fun x => f (g x)) l.
Proof.
  induction l as [|x l IH]; [reflexivity|].
  cbn. rewrite IH. reflexivity.
Qed.

Lemma own_fqdn_kept t a x cs cs' l :
  Forall2 kept cs cs' ->
  own_fqdn (Element t a x cs' l) = own_fqdn (Element t a x cs l).
Proof.
  intros H. unfold own_fqdn. cbn [tag].
  destruct (String.eqb t "methods"); [|reflexivity].
  rewrite (findtext_kept t a x cs cs' l "class-id" None H) by done.
  f_equal.
  pose proof (selectors_kept t a x cs cs' l H) as E.
  set (cid := findtext (Element t a x cs l) "class-id" None).
  apply (f_equal (omap (fun o : option string =>
           if Py.truthy cid && Py.truthy o
           then Some (or_empty cid +:+ "." +:+ or_empty o) else None))) in E.
  rewrite !omap_map in E. exact E.
Qed.

Lemma metadata_visit_all_fqdn cs :
  Forall fqdn_spec cs ->
  forall acc : gset string,
  exists cs', metadata_visit_all cs acc = (cs', acc ∪ ⋃ (map fqdn_of cs))
              /\ Forall2 kept cs cs'.
Proof.
  induction 1 as [|c cs Hc _ IH]; intros acc.
  - exists []. split; [|constructor]. cbn. rewrite union_empty_r_L. reflexivity.
  - destruct (Hc acc) as (c' & E1 & K1).
    destruct (IH (acc ∪ fqdn_of c)) as (cs' & E2 & K2).
    exists (c' :: cs'). split; [|constructor; assumption].
    cbn [metadata_visit_all]. rewrite E1, E2. cbn [map].
    rewrite union_list_cons, (assoc_L (∪)). reflexivity.
Qed.

Lemma metadata_visit_fqdn e : fqdn_spec e.
Proof.
  induction e as [t a x cs l IH] using element_ind'. intros acc.
  destruct (metadata_visit_all_fqdn cs IH acc) as (cs' & E1 & K1).
  destruct (metadata_on_end_fqdn (Element t a x cs' l)
              (acc ∪ ⋃ (map fqdn_of cs))) as (e' & E2 & K2).
  exists e'. split.
  - rewrite metadata_visit_eq, E1, E2, (own_fqdn_kept t a x cs cs' l K1).
    cbn [fqdn_of]. rewrite (assoc_L (∪)). reflexivity.
  - destruct K2 as [K2 K3]. split; [exact K2|exact K3].
Qed.

(** X10.  For every document, [parse_metadata] returns exactly the names
    [class-id.selector] of the [<body>] children of the [<methods>]
    elements found at any depth, the class-id being the whole text of
    the first [<class-id>] child; bodies without a selector or with an
    empty one, and blocks without a class-id or with an empty one, give
    no name.  Clearing the elements on the way loses nothing. *)
Theorem parse_metadata_names root :
  parse_metadata root = fqdn_of root.
Proof.
  unfold parse_metadata.
  destruct (metadata_visit_fqdn root ∅) as (e' & E & _).
  rewrite E. cbn [snd]. apply union_empty_l_L.
Qed.

End SouParserMore.

(** * The truncators: further properties *)

Module TruncateMore.
Import Truncate TruncateSpec TruncateProps TruncateCorrect.

(** ** The lines that are kept *)

Lemma join_empty_cons x l :
  Py.join EmptyString (x :: l) = x +:+ Py.join EmptyString l.
Proof.
  destruct l as [|y l].
  - cbn. rewrite append_nil_r. reflexivity.
  - rewrite join_cons, append_nil_l. reflexivity.
Qed.

Lemma join_empty_app a b :
  Py.join EmptyString (a ++ b)
  = Py.join EmptyString a +:+ Py.join EmptyString b.
Proof.
  induction a as [|x a IH].
  - cbn [app Py.join]. rewrite append_nil_l. reflexivity.
  - cbn [app]. rewrite !join_empty_cons, IH, append_assoc. reflexivity.
Qed.

(** Joining the lines of a text gives the text. *)
Lemma join_lines_of text : Py.join EmptyString (lines_of text) = text.
Proof.
  induction text as [|c r IH]; [reflexivity|].
  cbn [lines_of]. destruct (Ascii.eqb c nl).
  - rewrite join_empty_cons, IH. rewrite append_cons, append_nil_l.
    reflexivity.
  - destruct (lines_of r) as [|h t].
    + cbn in IH. subst r. reflexivity.
    + rewrite join_empty_cons in IH |- *. rewrite append_cons, IH.
      reflexivity.
Qed.

(** Joining what [readlines] gives is the text of the file as text mode
    reads it. *)
Lemma join_readlines content :
  Py.join EmptyString (readlines content) = universal_newlines content.
Proof. apply join_lines_of. Qed.

(** Reading leaves no carriage return, and changes nothing in a file
    that has none. *)
Lemma universal_newlines_no_cr stored :
  all_chars not_cr (universal_newlines stored) = true.
Proof.
  assert (H : forall n stored, String.length stored <= n ->
              all_chars not_cr (universal_newlines stored) = true).
  { clear stored. induction n as [|n IH]; intros stored Hn.
    - destruct stored; [reflexivity|cbn in Hn; lia].
    - destruct stored as [|c r]; [reflexivity|]. cbn in Hn.
      cbn [universal_newlines]. destruct (Ascii.eqb c cr) eqn:Ec.
      + destruct r as [|c' r']; [reflexivity|]. cbn in Hn.
        destruct (Ascii.eqb c' nl); cbn [all_chars];
          change (not_cr nl) with true; cbn [andb]; apply IH; cbn; lia.
      + cbn [all_chars]. unfold not_cr at 1. rewrite Ec. cbn [negb andb].
        apply IH. lia. }
  apply (H (String.length stored)). lia.
Qed.

Lemma universal_newlines_id stored :
  all_chars not_cr stored = true -> universal_newlines stored = stored.
Proof.
  induction stored as [|c r IH]; [reflexivity|].
  cbn [all_chars universal_newlines]. intros H.
  apply andb_prop in H as [Hc Hr]. unfold not_cr in Hc.
  apply negb_true_iff in Hc. rewrite Hc, (IH Hr). reflexivity.
Qed.

Lemma read_lines_take f : forall i max_lines lines,
  TruncateXml.read_lines f i max_lines lines
  = lines ++ take (Z.to_nat (max_lines - i)) f.
Proof.
  induction f as [|line rest IH]; intros i max_lines lines.
  - cbn. rewrite take_nil, app_nil_r. reflexivity.
  - cbn [TruncateXml.read_lines]. destruct (i >=? max_lines)%Z eqn:E.
    + replace (Z.to_nat (max_lines - i)) with 0 by lia.
      cbn. rewrite app_nil_r. reflexivity.
    + rewrite IH.
      replace (Z.to_nat (max_lines - i))
        with (S (Z.to_nat (max_lines - (i + 1)))) by lia.
      cbn [take]. rewrite <- app_assoc. reflexivity.
Qed.

Lemma truncate_first_lines_eq strict_parse recovering_parse
      input_file max_lines :
  TruncateXml.truncate_xml_to_lines strict_parse recovering_parse
    input_file max_lines
  = fallback strict_parse recovering_parse
      (Py.join EmptyString (take (Z.to_nat max_lines) (readlines input_file))).
Proof.
  unfold TruncateXml.truncate_xml_to_lines.
  rewrite read_lines_take, Z.sub_0_r. reflexivity.
Qed.

(** X11.  [truncate_xml.py]: the text handed to the parsers is made of the
    first [max_lines] lines of the file (none when [max_lines] is zero
    or negative), each with its line break.  It is a prefix of the text
    of the file as text mode reads it, every line break a line feed, and
    the whole of that text when the file has no more than [max_lines]
    lines.  That text holds no carriage return, and is the stored text
    itself when the file holds none. *)
Theorem truncate_keeps_first_lines strict_parse recovering_parse
        input_file max_lines :
  let text := universal_newlines input_file in
  let lines := take (Z.to_nat max_lines) (readlines input_file) in
  TruncateXml.truncate_xml_to_lines strict_parse recovering_parse
    input_file max_lines
  = fallback strict_parse recovering_parse (Py.join EmptyString lines)
  /\ text
     = Py.join EmptyString lines
       +:+ Py.join EmptyString
             (drop (Z.to_nat max_lines) (readlines input_file))
  /\ ((Z.of_nat (length (readlines input_file)) <= max_lines)%Z ->
      Py.join EmptyString lines = text)
  /\ all_chars not_cr text = true
  /\ (all_chars not_cr input_file = true -> text = input_file).
Proof.
  intros text lines. subst text lines. split; [|split; [|split; [|split]]].
  - apply truncate_first_lines_eq.
  - rewrite <- join_empty_app, take_drop, join_readlines. reflexivity.
  - intros H. rewrite take_ge by lia. apply join_readlines.
  - apply universal_newlines_no_cr.
  - apply universal_newlines_id.
Qed.

(** A file of three lines that end with a carriage return and a line
    feed, with a carriage return alone, and with a line feed: all of it
    is kept, each line ending with a line feed. *)
Lemma truncate_keeps_first_lines_witness :
  (Z.of_nat (length (readlines mixed_line_ends)) <= 10)%Z
  /\ Py.join EmptyString (take (Z.to_nat 10) (readlines mixed_line_ends))
     = "<st-source>" +:+ NL +:+ "<methods>" +:+ NL
       +:+ "<class-id>Root.Foo</class-id>" +:+ NL.
Proof.
  split; [vm_compute; discriminate|].
  rewrite (proj1 (proj2 (proj2 (truncate_keeps_first_lines
           (fun _ => inl XMLSyntaxError) (fun _ => inl XMLSyntaxError)
           mixed_line_ends 10)))).
  - vm_compute. reflexivity.
  - vm_compute. discriminate.
Defined.

(** ** Balancing twice *)

Lemma finditer_short m s : forall k, String.length s <= k -> Re.finditer m k s = [].
Proof.
  induction s as [|c r IH]; intros k H; [reflexivity|].
  cbn in H. destruct k as [|k]; [lia|]. cbn [Re.finditer]. apply IH. lia.
Qed.

Lemma finditer_no_lt m s :
  (forall x, m x <> None -> exists r, x = String "<" r) ->
  all_chars not_lt s = true -> forall k, Re.finditer m k s = [].
Proof.
  intros Hm. induction s as [|c r IH]; intros H k; [reflexivity|].
  cbn in H. apply andb_prop in H as [Hc Hr].
  cbn [Re.finditer]. destruct k as [|k]; [|apply IH, Hr].
  destruct (m (String c r)) as [[g len]|] eqn:E; [|apply IH, Hr].
  destruct (Hm (String c r)) as [r' Er]; [rewrite E; discriminate|].
  injection Er as -> _. discriminate Hc.
Qed.

Lemma opening_at_lt x : Re.opening_at x <> None -> exists r, x = String "<" r.
Proof.
  destruct x as [|c r]; [intros H; contradiction H; reflexivity|].
  destruct (Ascii.eqb c "<") eqn:E.
  - apply Ascii.eqb_eq in E as ->. eauto.
  - intros H. contradiction H.
    destruct c as [[] [] [] [] [] [] [] []]; try reflexivity; discriminate E.
Qed.

Lemma closing_at_lt x : Re.closing_at x <> None -> exists r, x = String "<" r.
Proof.
  destruct x as [|c r]; [intros H; contradiction H; reflexivity|].
  destruct (Ascii.eqb c "<") eqn:E.
  - apply Ascii.eqb_eq in E as ->. eauto.
  - intros H. contradiction H.
    destruct c as [[] [] [] [] [] [] [] []]; try reflexivity; discriminate E.
Qed.

Lemma tag_char_not_lt c : Re.is_tag_char c = true -> not_lt c = true.
Proof.
  destruct c as [[] [] [] [] [] [] [] []]; intros H; try reflexivity;
    discriminate H.
Qed.

Lemma pattern_name_chars t :
  pattern_name t = true -> all_chars Re.is_tag_char t = true.
Proof.
  destruct t as [|c r]; [discriminate|]. cbn. intros H.
  apply andb_prop in H as [Hc Hr]. rewrite (alpha_tag_char c Hc). exact Hr.
Qed.

Lemma span_stop p a : forall c r,
  all_chars p a = true -> p c = false ->
  Re.span p (a +:+ String c r) = (a, String c r).
Proof.
  induction a as [|d a IH]; intros c r Ha Hc.
  - rewrite append_nil_l. cbn. rewrite Hc. reflexivity.
  - cbn in Ha. apply andb_prop in Ha as [Hd Ha].
    rewrite append_cons. cbn [Re.span]. rewrite Hd, (IH c r Ha Hc).
    reflexivity.
Qed.

Lemma length_append a b :
  String.length (a +:+ b) = String.length a + String.length b.
Proof.
  induction a as [|c a IH].
  - rewrite append_nil_l. reflexivity.
  - rewrite append_cons. cbn. rewrite IH. reflexivity.
Qed.

(** The two patterns on a line that is one closing tag. *)
Lemma closing_tag_tracked t :
  pattern_name t = true ->
  Re.opening_tags (closing_tag t) = []
  /\ Re.closing_tags (closing_tag t) = [t].
Proof.
  intros Ht. pose proof (pattern_name_chars t Ht) as Hc.
  unfold closing_tag, Re.opening_tags, Re.closing_tags.
  change ("</" +:+ t +:+ ">") with (String "<" (String "/" (t +:+ ">"))).
  split.
  - cbn [Re.finditer].
    change (Re.opening_at (String "<" (String "/" (t +:+ ">")))) with
      (@None (string * nat)).
    apply (finditer_no_lt _ _ opening_at_lt).
    cbn [all_chars]. rewrite all_chars_app. cbn.
    rewrite (all_chars_impl _ _ t tag_char_not_lt Hc). reflexivity.
  - destruct t as [|c r]; [discriminate|].
    cbn in Ht. apply andb_prop in Ht as [Ha _].
    cbn [Re.finditer].
    assert (E : Re.closing_at
                  (String "<" (String "/" (String c r +:+ ">")))
                = Some (String c r, 2 + String.length (String c r) + 1)).
    { rewrite append_cons. cbn [Re.closing_at]. rewrite Ha.
      rewrite <- append_cons.
      rewrite (span_stop Re.is_tag_char (String c r) ">" EmptyString Hc)
        by reflexivity.
      reflexivity. }
    rewrite E. f_equal. apply finditer_short.
    change (String.length (String c r +:+ ">") <= String.length (String c r) + 1).
    rewrite length_append. cbn [String.length]. lia.
Qed.

Lemma track_closing_tag st t :
  pattern_name t = true -> track st (closing_tag t) = pop st t.
Proof.
  intros Ht. rewrite track_eq.
  destruct (closing_tag_tracked t Ht) as [-> ->].
  rewrite app_nil_r. reflexivity.
Qed.

Lemma pop_last st t : pop (st ++ [t]) t = st.
Proof.
  unfold pop. rewrite last_snoc, String.eqb_refl. apply removelast_last.
Qed.

Lemma close_all_tracked ot :
  Forall (fun g => pattern_name g = true) ot ->
  fold_left track (map closing_tag (rev ot)) ot = [].
Proof.
  induction ot as [|t ot IH] using rev_ind; intros H; [reflexivity|].
  apply Forall_app in H as [Hot Ht]. inversion Ht as [|? ? Hn _]; subst.
  rewrite rev_app_distr. cbn [rev app map fold_left].
  rewrite (track_closing_tag _ _ Hn), pop_last. apply IH, Hot.
Qed.

Lemma track_appended ot :
  Forall (fun g => pattern_name g = true) ot ->
  fold_left track (appended_lines ot) ot = [].
Proof.
  intros H. destruct ot as [|t ot]; [reflexivity|].
  unfold appended_lines. cbn [fold_left].
  change (track (t :: ot) EmptyString) with (t :: ot).
  rewrite track_eq.
  change (Re.opening_tags "  <!-- Truncated - closing open tags -->")
    with (@nil string).
  change (Re.closing_tags "  <!-- Truncated - closing open tags -->")
    with (@nil string).
  rewrite app_nil_r. cbn [fold_left]. apply close_all_tracked, H.
Qed.

(** X12.  Balancing is idempotent: in the result of [balance_xml_tags] the
    tracker finds no tag left open, so a second pass appends nothing.
    This holds for every input, whether or not the first pass closed
    the right elements. *)
Theorem balance_idempotent s :
  open_tags_of (balance_xml_tags s) = []
  /\ balance_xml_tags (balance_xml_tags s) = balance_xml_tags s.
Proof.
  assert (H : open_tags_of (balance_xml_tags s) = []).
  { unfold open_tags_of at 1. rewrite balance_appends_lines, fold_left_app.
    apply track_appended, open_tags_names. }
  split; [exact H|].
  rewrite (balance_appends (balance_xml_tags s)), H.
  apply append_nil_r.
Qed.

(** ** Where the appended tags come from *)

Lemma pop_sublist cs : forall st, fold_left pop cs st `sublist_of` st.
Proof.
  induction cs as [|c cs IH]; intros st; [reflexivity|].
  cbn [fold_left]. etransitivity; [apply IH|].
  unfold pop. destruct (last st) as [top|]; [|reflexivity].
  destruct (String.eqb top c); [|reflexivity].
  rewrite removelast_firstn_len. apply sublist_take.
Qed.

Lemma track_sublist lines : forall ot seen,
  ot `sublist_of` seen ->
  fold_left track lines ot
    `sublist_of` seen ++ concat (map Re.opening_tags lines).
Proof.
  induction lines as [|line lines IH]; intros ot seen H.
  - cbn. rewrite app_nil_r. exact H.
  - cbn [fold_left map concat]. rewrite app_assoc. apply IH.
    rewrite track_eq. etransitivity; [apply pop_sublist|].
    apply sublist_app; [exact H|reflexivity].
Qed.

(** X13.  [balance_xml_tags] closes only what the input opens: the tags it
    appends, read in the order they were opened, are a subsequence of
    the matches of the opening pattern in the lines of the input.  A
    text in which the pattern matches nowhere is returned as it is. *)
Theorem balance_closes_opened s :
  let opened := concat (map Re.opening_tags (Py.split nl s)) in
  balance_xml_tags s = s +:+ appended (open_tags_of s)
  /\ open_tags_of s `sublist_of` opened
  /\ (opened = [] -> balance_xml_tags s = s).
Proof.
  intros opened.
  assert (H : open_tags_of s `sublist_of` opened).
  { apply (track_sublist (Py.split nl s) [] []). reflexivity. }
  split; [apply balance_appends|]. split; [exact H|].
  intros E. rewrite E in H. apply sublist_nil_r in H.
  rewrite balance_appends, H. apply append_nil_r.
Qed.

Lemma balance_closes_opened_witness :
  concat (map Re.opening_tags (Py.split nl "a </b> <c/> d")) = []
  /\ balance_xml_tags "a </b> <c/> d" = "a </b> <c/> d".
Proof.
  split; [reflexivity|].
  apply (balance_closes_opened "a </b> <c/> d"). reflexivity.
Defined.

(** ** The third tier on the truncated text *)

(** X14.  [truncate_xml.py], when the first parse raises an [XMLSyntaxError]
    and the recovering parse raises too: the exception of the second is
    printed to [stderr], and the function returns the first [max_lines]
    lines of the file, a prefix of its text as text mode reads it,
    followed by what [balance_xml_tags] appends and by nothing else. *)
Theorem truncate_balances_prefix strict_parse recovering_parse
        input_file max_lines e :
  let content :=
    Py.join EmptyString (take (Z.to_nat max_lines) (readlines input_file)) in
  strict_parse content = inl XMLSyntaxError ->
  recovering_parse content = inl e ->
  TruncateXml.truncate_xml_to_lines strict_parse recovering_parse
    input_file max_lines
  = Outcome (inr (content +:+ appended (open_tags_of content)))
            [Strict; Recovering; Balancing] [e]
  /\ exists rest, universal_newlines input_file = content +:+ rest.
Proof.
  intros content Hs Hr. split.
  - rewrite truncate_first_lines_eq. fold content. unfold fallback.
    rewrite Hs, Hr. cbn [is_syntax_error]. rewrite balance_appends.
    reflexivity.
  - exists (Py.join EmptyString
              (drop (Z.to_nat max_lines) (readlines input_file))).
    unfold content.
    rewrite <- join_empty_app, take_drop, join_readlines. reflexivity.
Qed.

(** A file with text before its first tag, its line breaks stored as
    carriage return and line feed, cut after three lines.  [libxml2]
    finds no root element in such a text: the first parse raises, and
    the recovering one gives no tree, which [tostring] refuses with a
    [TypeError]. *)
Lemma truncate_balances_prefix_witness :
  TruncateXml.truncate_xml_to_lines no_root_strict no_root_recovering
    text_before_root 3
  = Outcome (inr ("exported 2024" +:+ NL +:+ "<st-source>" +:+ NL
                  +:+ "<methods>" +:+ NL +:+ NL +:+ truncation_comment
                  +:+ NL +:+ "</methods>" +:+ NL +:+ "</st-source>"))
            [Strict; Recovering; Balancing] [no_tree].
Proof.
  pose proof (proj1 (truncate_balances_prefix
                no_root_strict no_root_recovering
                text_before_root 3 no_tree eq_refl eq_refl)) as H.
  rewrite H. vm_compute. reflexivity.
Defined.

End TruncateMore.

(** * The prefix-priority truncator: further properties *)

Module TruncateXmlNewMore.
Import Truncate TruncateXmlNew TruncateSpec TruncateXmlNewSpec TruncateProps.
Import TruncateCorrect TruncateXmlNewCorrect TruncateMore.

(** ** Without priority prefixes *)

Lemma has_priority_nil n : has_priority [] n = false.
Proof. unfold has_priority. cbn. apply andb_false_r. Qed.

Lemma categorize_nil class_ranges : forall other,
  exists other',
    fold_left (categorize_step []) class_ranges ([], [], other)
    = ([], [], other').
Proof.
  induction class_ranges as [|[[s e] n] rest IH]; intros other.
  - exists other. reflexivity.
  - cbn [fold_left categorize_step]. rewrite has_priority_nil. apply IH.
Qed.

Lemma add_methods_nil methods_ranges : add_methods [] methods_ranges [] = [].
Proof.
  unfold add_methods.
  induction methods_ranges as [|[[s e] n] rest IH]; [reflexivity|].
  cbn [fold_left]. rewrite bool_decide_eq_false_2; [exact IH|].
  apply not_elem_of_nil.
Qed.

Lemma priority_ranges_nil all_lines : priority_ranges_of all_lines [] = [].
Proof.
  unfold priority_ranges_of, categorize.
  destruct (find_ranges all_lines) as [cr mr].
  destruct (categorize_nil cr []) as [other ->].
  rewrite add_methods_nil. reflexivity.
Qed.

Section FirstLines.
Variable all_lines : list string.
Variable max_lines : Z.

Lemma take_line_first j :
  j < length all_lines ->
  take_line all_lines j (first_lines all_lines j)
  = inr (first_lines all_lines (S j)).
Proof.
  intros Hj. unfold take_line, first_lines.
  destruct (lookup_lt_is_Some_2 all_lines j Hj) as [line El]. rewrite El.
  cbn [fst snd]. f_equal. f_equal.
  - symmetry. apply take_S_r, El.
  - rewrite seq_S, list_to_set_app_L. cbn [list_to_set Nat.add].
    rewrite union_empty_r_L. apply (comm_L (∪)).
Qed.

Lemma add_header_first k : forall j,
  j + k <= length all_lines ->
  add_header all_lines (seq j k) (first_lines all_lines j)
  = inr (first_lines all_lines (j + k)).
Proof.
  induction k as [|k IH]; intros j H.
  - rewrite Nat.add_0_r. reflexivity.
  - cbn [seq add_header]. rewrite take_line_first by lia.
    rewrite IH by lia. rewrite Nat.add_succ_r. reflexivity.
Qed.

Lemma full_first j :
  j <= length all_lines ->
  full max_lines (first_lines all_lines j) = (Z.of_nat j >=? max_lines)%Z.
Proof.
  intros H. unfold full, first_lines. cbn [fst].
  rewrite length_take, Nat.min_l by lia. reflexivity.
Qed.

Lemma add_other_first k : forall j,
  j + k <= length all_lines ->
  add_other all_lines max_lines (seq j k) (first_lines all_lines j)
  = inr (first_lines all_lines
           (Nat.min (j + k) (Nat.max j (Z.to_nat max_lines)))).
Proof.
  induction k as [|k IH]; intros j H.
  - cbn [seq add_other]. f_equal. f_equal. lia.
  - cbn [seq add_other]. rewrite full_first by lia.
    destruct (Z.of_nat j >=? max_lines)%Z eqn:E.
    + f_equal. f_equal. lia.
    + rewrite bool_decide_eq_false_2.
      2:{ unfold first_lines. cbn [snd]. rewrite elem_of_list_to_set.
          intros Hin%list_elem_of_In%in_seq. lia. }
      rewrite take_line_first by lia. rewrite IH by lia.
      f_equal. f_equal. lia.
Qed.

End FirstLines.

Lemma readlines_not_nil content :
  content <> EmptyString -> readlines content <> [].
Proof. intros H E. apply H, readlines_nil, E. Qed.

(** X15.  With no priority prefixes (the default), the prefix-priority
    truncator hands to the parsers the first [max_lines] lines of a
    file that is not empty, or the lines up to the first element line
    when these are more: the header is never cut.  Whenever [max_lines]
    reaches past the header, the two truncators do the same. *)
Theorem no_prefixes_first_lines strict_parse recovering_parse
        input_file max_lines :
  let all_lines := readlines input_file in
  let header := S (find_header_end all_lines) in
  input_file <> EmptyString ->
  TruncateXmlNew.truncate_xml_to_lines strict_parse recovering_parse
    input_file max_lines []
  = fallback strict_parse recovering_parse
      (Py.join EmptyString
         (take (Nat.max header (Z.to_nat max_lines)) all_lines))
  /\ ((Z.of_nat header <= max_lines)%Z ->
      TruncateXmlNew.truncate_xml_to_lines strict_parse recovering_parse
        input_file max_lines []
      = TruncateXml.truncate_xml_to_lines strict_parse recovering_parse
          input_file max_lines).
Proof.
  intros all_lines header Hne.
  pose proof (header_end_bound all_lines (readlines_not_nil _ Hne)) as Hh.
  fold header in Hh.
  assert (E : TruncateXmlNew.truncate_xml_to_lines strict_parse
                recovering_parse input_file max_lines []
              = fallback strict_parse recovering_parse
                  (Py.join EmptyString
                     (take (Nat.max header (Z.to_nat max_lines)) all_lines))).
  { unfold TruncateXmlNew.truncate_xml_to_lines, select_lines,
      select_priority.
    fold all_lines. fold header.
    change ([], ∅) with (first_lines all_lines 0).
    rewrite (add_header_first all_lines header 0) by (cbn; lia).
    rewrite priority_ranges_nil. cbn [add_priority Nat.add].
    rewrite (add_other_first all_lines max_lines) by lia.
    unfold first_lines. f_equal. f_equal.
    replace (header + (length all_lines - header)) with (length all_lines)
      by lia.
    destruct (Nat.le_ge_cases (length all_lines)
                (Nat.max header (Z.to_nat max_lines))) as [L|L].
    - rewrite Nat.min_l by exact L. rewrite !take_ge by lia. reflexivity.
    - rewrite Nat.min_r by exact L. reflexivity. }
  split; [exact E|]. intros Hm. rewrite E.
  rewrite truncate_first_lines_eq. fold all_lines. rewrite Nat.max_r by lia. reflexivity.
Qed.

Lemma no_prefixes_first_lines_witness :
  small_file <> EmptyString
  /\ (Z.of_nat (S (find_header_end (readlines small_file))) <= 5)%Z
  /\ TruncateXmlNew.truncate_xml_to_lines rejecting_parse accepting_parse
       small_file 5 []
     = TruncateXml.truncate_xml_to_lines rejecting_parse accepting_parse
         small_file 5.
Proof.
  assert (H1 : small_file <> EmptyString) by (vm_compute; discriminate).
  assert (H2 : (Z.of_nat (S (find_header_end (readlines small_file))) <= 5)%Z)
    by (vm_compute; discriminate).
  split; [exact H1|]. split; [exact H2|].
  exact (proj2 (no_prefixes_first_lines rejecting_parse accepting_parse
                  small_file 5 H1) H2).
Defined.

(** ** The size of the selection *)

Lemma picks_length all_lines st idxs :
  picks all_lines st idxs -> length (fst st) = length idxs.
Proof. intros (_ & _ & H). symmetry. apply (Forall2_length _ _ _ H). Qed.

Lemma picks_bound all_lines st idxs :
  picks all_lines st idxs -> Forall (fun i => i < length all_lines) idxs.
Proof.
  intros (_ & _ & H). induction H as [|i line idxs ls Hi _ IH]; constructor.
  - apply lookup_lt_Some in Hi. exact Hi.
  - exact IH.
Qed.

Lemma picks_first all_lines j :
  j <= length all_lines -> picks all_lines (first_lines all_lines j) (seq 0 j).
Proof.
  intros Hj. split; [apply NoDup_seq|]. split; [reflexivity|].
  unfold first_lines. cbn [fst].
  induction j as [|j IH]; [constructor|].
  destruct (lookup_lt_is_Some_2 all_lines j ltac:(lia)) as [line El].
  rewrite (take_S_r _ _ _ El), seq_S. apply Forall2_app.
  - apply IH. lia.
  - constructor; [exact El|constructor].
Qed.

Section Picks.
Variable all_lines : list string.
Variable max_lines : Z.

Lemma take_line_picks i st idxs :
  picks all_lines st idxs -> i ∉ snd st -> i < length all_lines ->
  exists st', take_line all_lines i st = inr st'
              /\ picks all_lines st' (idxs ++ [i]).
Proof.
  intros (Hn & Hu & Hl) Hi Hb. unfold take_line.
  destruct (lookup_lt_is_Some_2 all_lines i Hb) as [line El]. rewrite El.
  eexists. split; [reflexivity|]. cbn [fst snd]. split; [|split].
  - apply NoDup_app. split; [exact Hn|]. split; [|apply NoDup_singleton].
    intros x Hx Hxi. apply list_elem_of_singleton in Hxi as ->.
    apply Hi. rewrite Hu. apply elem_of_list_to_set, Hx.
  - rewrite Hu, list_to_set_app_L. cbn [list_to_set].
    rewrite union_empty_r_L. apply (comm_L (∪)).
  - apply Forall2_app; [exact Hl|]. constructor; [exact El|constructor].
Qed.

(** A line is added only while the output is not full. *)
Lemma add_range_picks idxs : forall st done,
  picks all_lines st done ->
  Forall (fun i => i < length all_lines) idxs ->
  full max_lines st = false ->
  exists st' new,
    add_range all_lines max_lines idxs st = inr st'
    /\ picks all_lines st' (done ++ new)
    /\ (Z.of_nat (length (done ++ new)) <= max_lines)%Z
    /\ new `sublist_of` idxs.
Proof.
  induction idxs as [|i idxs IH]; intros st done Hp Hb Hf.
  - exists st, []. rewrite app_nil_r. split; [reflexivity|].
    split; [exact Hp|]. split; [|reflexivity]. unfold full in Hf.
    rewrite (picks_length _ _ _ Hp) in Hf. lia.
  - apply Forall_cons in Hb as [Hi Hb]. cbn [add_range].
    destruct (bool_decide (i ∈ snd st)) eqn:Eu.
    + destruct (IH st done Hp Hb Hf) as (st' & new & E & Hp' & L' & S').
      exists st', new. split; [exact E|]. split; [exact Hp'|].
      split; [exact L'|]. apply sublist_cons, S'.
    + apply bool_decide_eq_false_1 in Eu.
      destruct (take_line_picks i st done Hp Eu Hi) as (st1 & -> & Hp1).
      assert (L : (Z.of_nat (length (done ++ [i])) <= max_lines)%Z).
      { unfold full in Hf. rewrite (picks_length _ _ _ Hp) in Hf.
        rewrite length_app. cbn [length]. lia. }
      destruct (full max_lines st1) eqn:Ef.
      * exists st1, [i]. split; [reflexivity|]. split; [exact Hp1|].
        split; [exact L|]. apply sublist_skip, sublist_nil_l.
      * destruct (IH st1 (done ++ [i]) Hp1 Hb Ef)
          as (st' & new & E & Hp' & L' & S').
        exists st', (i :: new).
        rewrite <- app_assoc in Hp', L'. cbn [app] in Hp', L'.
        split; [exact E|]. split; [exact Hp'|]. split; [exact L'|].
        apply sublist_skip, S'.
Qed.

Lemma add_priority_picks ranges : forall st done,
  picks all_lines st done ->
  Forall (pin_file all_lines) ranges ->
  exists st' new,
    add_priority all_lines max_lines ranges st = inr st'
    /\ picks all_lines st' (done ++ new)
    /\ (Z.of_nat (length (done ++ new))
        <= Z.max (Z.of_nat (length done)) max_lines)%Z
    /\ new `sublist_of` concat (map range_lines ranges).
Proof.
  induction ranges as [|[[[ty s] e] n] rest IH]; intros st done Hp Hb.
  - exists st, []. rewrite app_nil_r. split; [reflexivity|].
    split; [exact Hp|]. split; [lia|reflexivity].
  - apply Forall_cons in Hb as [[Hse He] Hb].
    cbn [add_priority map concat range_lines].
    destruct (full max_lines st) eqn:Ef.
    + exists st, []. rewrite app_nil_r. split; [reflexivity|].
      split; [exact Hp|]. split; [lia|apply sublist_nil_l].
    + destruct (add_range_picks (seq s (S e - s)) st done Hp
                  (range_indices_bound all_lines s e He) Ef)
        as (st1 & new1 & -> & Hp1 & L1 & S1).
      destruct (IH st1 (done ++ new1) Hp1 Hb)
        as (st' & new & E & Hp' & L' & S').
      exists st', (new1 ++ new). rewrite app_assoc.
      split; [exact E|]. split; [exact Hp'|]. split; [lia|].
      apply sublist_app; assumption.
Qed.

(** The last loop goes on until the output is full or every line it
    looks at is used. *)
Lemma add_other_picks idxs : forall st done,
  picks all_lines st done ->
  Forall (fun i => i < length all_lines) idxs ->
  exists st' new,
    add_other all_lines max_lines idxs st = inr st'
    /\ picks all_lines st' (done ++ new)
    /\ (Z.of_nat (length (done ++ new))
        <= Z.max (Z.of_nat (length done)) max_lines)%Z
    /\ new `sublist_of` idxs
    /\ (full max_lines st' = true \/ forall i, i ∈ idxs -> i ∈ done ++ new).
Proof.
  induction idxs as [|i idxs IH]; intros st done Hp Hb.
  - exists st, []. rewrite app_nil_r. split; [reflexivity|].
    split; [exact Hp|]. split; [lia|]. split; [reflexivity|]. right.
    intros i Hi. apply elem_of_nil in Hi as [].
  - apply Forall_cons in Hb as [Hi Hb]. cbn [add_other].
    destruct (full max_lines st) eqn:Ef.
    + exists st, []. rewrite app_nil_r. split; [reflexivity|].
      split; [exact Hp|]. split; [lia|]. split; [apply sublist_nil_l|].
      left. exact Ef.
    + destruct (bool_decide (i ∈ snd st)) eqn:Eu.
      * apply bool_decide_eq_true_1 in Eu.
        destruct (IH st done Hp Hb) as (st' & new & E & Hp' & L' & S' & Hall).
        exists st', new. split; [exact E|]. split; [exact Hp'|].
        split; [exact L'|]. split; [apply sublist_cons, S'|].
        destruct Hall as [Hall|Hall]; [left; exact Hall|].
        right. intros j Hj. apply elem_of_cons in Hj as [->|Hj].
        -- apply elem_of_app. left.
           destruct Hp as (_ & Hu & _). rewrite Hu in Eu.
           apply elem_of_list_to_set in Eu. exact Eu.
        -- apply Hall, Hj.
      * apply bool_decide_eq_false_1 in Eu.
        destruct (take_line_picks i st done Hp Eu Hi) as (st1 & -> & Hp1).
        destruct (IH st1 (done ++ [i]) Hp1 Hb)
          as (st' & new & E & Hp' & L' & S' & Hall).
        exists st', (i :: new).
        rewrite <- app_assoc in Hp', L', Hall. cbn [app] in Hp', L', Hall.
        split; [exact E|]. split; [exact Hp'|]. split.
        { unfold full in Ef. rewrite (picks_length _ _ _ Hp) in Ef.
          rewrite length_app in L'. cbn [length] in L'.
          rewrite length_app in L' |- *. cbn [length] in L' |- *. lia. }
        split; [apply sublist_skip, S'|].
        destruct Hall as [Hall|Hall]; [left; exact Hall|].
        right. intros j Hj. apply elem_of_cons in Hj as [->|Hj].
        -- apply elem_of_app. right. apply elem_of_cons. left. reflexivity.
        -- apply Hall, Hj.
Qed.

End Picks.

Lemma covers_all n idxs :
  NoDup idxs -> Forall (fun i => i < n) idxs ->
  (forall i, i < n -> i ∈ idxs) -> length idxs = n.
Proof.
  intros Hn Hb Hc.
  rewrite <- (length_seq n 0). apply Permutation_length.
  apply NoDup_Permutation; [exact Hn|apply NoDup_seq|].
  intros i. rewrite Forall_forall in Hb. split.
  - intros Hi. apply list_elem_of_In, in_seq. specialize (Hb i Hi). lia.
  - intros Hi%list_elem_of_In%in_seq. apply Hc. lia.
Qed.

Lemma select_lines_shape input_file max_lines priority_prefixes :
  let all_lines := readlines input_file in
  let header := S (find_header_end all_lines) in
  input_file <> EmptyString ->
  exists st prio rest,
    select_lines all_lines max_lines priority_prefixes = inr st
    /\ picks all_lines st (seq 0 header ++ prio ++ rest)
    /\ prio `sublist_of`
         concat (map range_lines
                     (priority_ranges_of all_lines priority_prefixes))
    /\ rest `sublist_of` seq header (length all_lines - header)
    /\ Z.of_nat (length (fst st))
       = Z.min (Z.of_nat (length all_lines))
               (Z.max (Z.of_nat header) max_lines).
Proof.
  intros all_lines header Hne.
  pose proof (header_end_bound all_lines (readlines_not_nil _ Hne)) as Hh.
  fold header in Hh.
  unfold select_lines, select_priority. fold header.
  change ([], ∅) with (first_lines all_lines 0).
  rewrite (add_header_first all_lines header 0) by (cbn; lia).
  cbn [Nat.add].
  pose proof (picks_first all_lines header ltac:(lia)) as P0.
  destruct (add_priority_picks all_lines max_lines
              (priority_ranges_of all_lines priority_prefixes) _ _ P0
              (priority_ranges_in_file all_lines priority_prefixes))
    as (st1 & new1 & -> & P1 & L1 & S1).
  destruct (add_other_picks all_lines max_lines
              (seq header (length all_lines - header)) st1 _ P1)
    as (st2 & new2 & -> & P2 & L2 & S2 & Hall).
  { apply Forall_forall. intros i Hi%list_elem_of_In%in_seq. lia. }
  rewrite <- app_assoc in P2, L2, Hall.
  exists st2, new1, new2. split; [reflexivity|]. split; [exact P2|].
  split; [exact S1|]. split; [exact S2|].
  rewrite (picks_length _ _ _ P2).
  rewrite length_app, length_seq in L1.
  pose proof (picks_bound _ _ _ P2) as Hb.
  assert (Hle : length (seq 0 header ++ new1 ++ new2) <= length all_lines).
  { destruct P2 as (Hn & _ & _).
    rewrite <- (length_seq (length all_lines) 0).
    apply submseteq_length, NoDup_submseteq; [exact Hn|].
    intros i Hi. rewrite Forall_forall in Hb.
    apply list_elem_of_In, in_seq. specialize (Hb i Hi). lia. }
  assert (Hge : header <= length (seq 0 header ++ new1 ++ new2)).
  { rewrite length_app, length_seq. lia. }
  destruct Hall as [Hf|Hall].
  - unfold full in Hf. rewrite (picks_length _ _ _ P2) in Hf.
    apply Z.geb_le in Hf. rewrite !length_app, length_seq in *. lia.
  - assert (E : length (seq 0 header ++ new1 ++ new2) = length all_lines).
    { destruct P2 as (Hn & _ & _). apply covers_all; [exact Hn|exact Hb|].
      intros i Hi. destruct (Nat.lt_ge_cases i header) as [Hlt|Hge'].
      - apply elem_of_app. left. apply list_elem_of_In, in_seq. lia.
      - apply Hall. apply list_elem_of_In, in_seq. lia. }
    rewrite !length_app, length_seq in *. lia.
Qed.

(** X16.  For a file that is not empty, whatever the prefixes, no
    [IndexError] is raised: the selection is made of different lines
    of the file and is what the three tiers are given.  The number of
    lines selected is exactly [max_lines], or the number of header
    lines when that is more, or the number of lines of the file when
    that is less. *)
Theorem selection_size strict_parse recovering_parse
        input_file max_lines priority_prefixes :
  let all_lines := readlines input_file in
  let header := S (find_header_end all_lines) in
  input_file <> EmptyString ->
  exists st idxs,
    select_lines all_lines max_lines priority_prefixes = inr st
    /\ TruncateXmlNew.truncate_xml_to_lines strict_parse recovering_parse
         input_file max_lines priority_prefixes
       = fallback strict_parse recovering_parse (Py.join EmptyString (fst st))
    /\ picks all_lines st idxs
    /\ Z.of_nat (length (fst st))
       = Z.min (Z.of_nat (length all_lines))
               (Z.max (Z.of_nat header) max_lines).
Proof.
  intros all_lines header Hne.
  destruct (select_lines_shape input_file max_lines priority_prefixes Hne)
    as (st & prio & rest & E & P & _ & _ & L).
  exists st, (seq 0 header ++ prio ++ rest).
  split; [exact E|]. split; [|split; [exact P|exact L]].
  unfold TruncateXmlNew.truncate_xml_to_lines.
  rewrite E. destruct st as [output_lines used_lines]. reflexivity.
Qed.

Lemma selection_size_witness :
  small_file <> EmptyString
  /\ exists st,
       select_lines (readlines small_file) 9 ["Foo"] = inr st
       /\ Z.of_nat (length (fst st)) = 9%Z.
Proof.
  assert (H1 : small_file <> EmptyString) by (vm_compute; discriminate).
  split; [exact H1|].
  destruct (selection_size rejecting_parse accepting_parse
              small_file 9 ["Foo"] H1) as (st & idxs & E & _ & _ & L).
  exists st. split; [exact E|]. rewrite L. reflexivity.
Defined.

(** X17.  The order of the selection, for a file that is not empty: first the
    lines up to the first element line; then lines of the priority
    ranges, range after range in the order of their first lines, each
    line once; then other lines, in the order of the file.  So priority
    content that lies far down in the file is moved before the rest. *)
Theorem selection_order input_file max_lines priority_prefixes :
  let all_lines := readlines input_file in
  let header := S (find_header_end all_lines) in
  input_file <> EmptyString ->
  exists st prio rest,
    select_lines all_lines max_lines priority_prefixes = inr st
    /\ picks all_lines st (seq 0 header ++ prio ++ rest)
    /\ prio `sublist_of`
         concat (map range_lines
                     (priority_ranges_of all_lines priority_prefixes))
    /\ rest `sublist_of` seq header (length all_lines - header).
Proof.
  intros all_lines header Hne.
  destruct (select_lines_shape input_file max_lines priority_prefixes Hne)
    as (st & prio & rest & E & P & S1 & S2 & _).
  exists st, prio, rest.
  split; [exact E|]. split; [exact P|]. split; [exact S1|exact S2].
Qed.

Lemma selection_order_witness :
  small_file <> EmptyString
  /\ exists st,
       select_lines (readlines small_file) 9 ["Foo"] = inr st
       /\ picks (readlines small_file) st [0; 3; 4; 5; 6; 10; 11; 12; 13].
Proof.
  assert (H1 : small_file <> EmptyString) by (vm_compute; discriminate).
  split; [exact H1|].
  destruct (selection_order small_file 9 ["Foo"] H1)
    as (st & prio & rest & E & P & _ & _).
  exists st. split; [exact E|].
  assert (E' : select_lines (readlines small_file) 9 ["Foo"]
               = inr (map (fun i => nth i (readlines small_file) EmptyString)
                          [0; 3; 4; 5; 6; 10; 11; 12; 13],
                      list_to_set [0; 3; 4; 5; 6; 10; 11; 12; 13])).
  { vm_compute. reflexivity. }
  rewrite E' in E. injection E as <-.
  split; [apply (bool_decide_unpack _); vm_compute; exact I|].
  split; [reflexivity|]. repeat constructor.
Defined.

(** ** Which ranges have priority *)

Lemma insert_by_start_sorted x l :
  by_start l -> by_start (insert_by_start x l).
Proof.
  induction l as [|y l IH]; intros H.
  - cbn. split; [constructor|exact I].
  - cbn [insert_by_start]. destruct H as [Hy Hl].
    destruct (range_start x <=? range_start y) eqn:E.
    + apply Nat.leb_le in E. cbn [by_start]. split; [|split; assumption].
      constructor; [exact E|].
      eapply Forall_impl; [exact Hy|]. cbn. intros z Hz. lia.
    + apply Nat.leb_gt in E. cbn [by_start]. split; [|apply IH, Hl].
      apply Forall_forall. intros z Hz.
      apply insert_by_start_mem in Hz as [->|Hz]; [lia|].
      rewrite Forall_forall in Hy. apply Hy, Hz.
Qed.

Lemma sort_by_start_sorted l : by_start (sort_by_start l).
Proof.
  induction l as [|x l IH]; [exact I|].
  cbn [sort_by_start foldr]. apply insert_by_start_sorted, IH.
Qed.

(** X18.  The ranges that are given priority, for every file and every list
    of prefixes: the class ranges whose recorded name is not empty and
    starts with one of the prefixes, and the methods ranges whose
    recorded class-id is equal to the recorded name of such a class
    range (a class-id that only starts with a prefix, or is the
    qualified name of the class, gives no priority).  They come by
    increasing first line. *)
Theorem priority_ranges_exact all_lines priority_prefixes :
  (forall x,
     x ∈ priority_ranges_of all_lines priority_prefixes
     <-> (exists s e n, x = ("class", s, e, n)
                        /\ has_priority priority_prefixes n = true
                        /\ (s, e, n) ∈ fst (find_ranges all_lines))
         \/ (exists s e n, x = ("methods", s, e, n)
                           /\ (has_priority priority_prefixes n = true
                               /\ exists s' e',
                                    (s', e', n) ∈ fst (find_ranges all_lines))
                           /\ (s, e, n) ∈ snd (find_ranges all_lines)))
  /\ by_start (priority_ranges_of all_lines priority_prefixes).
Proof.
  split; [intros x; apply priority_ranges_mem|].
  unfold priority_ranges_of.
  destruct (find_ranges all_lines) as [cr mr].
  destruct (categorize priority_prefixes cr) as [[names prio] other].
  apply sort_by_start_sorted.
Qed.

Lemma priority_ranges_exact_witness :
  ("class", 3, 6, Some "FooBar")
    ∈ priority_ranges_of (readlines small_file) ["Foo"]
  /\ ("methods", 10, 13, Some "FooBar")
       ∈ priority_ranges_of (readlines small_file) ["Foo"].
Proof.
  assert (Hc : (3, 6, Some "FooBar") ∈ fst (find_ranges (readlines small_file))).
  { vm_compute. apply list_elem_of_In. left. reflexivity. }
  assert (Hm : (10, 13, Some "FooBar")
                 ∈ snd (find_ranges (readlines small_file))).
  { vm_compute. apply list_elem_of_In. left. reflexivity. }
  split.
  - apply (proj1 (priority_ranges_exact (readlines small_file) ["Foo"])).
    left. exists 3, 6, (Some "FooBar").
    split; [reflexivity|]. split; [reflexivity|exact Hc].
  - apply (proj1 (priority_ranges_exact (readlines small_file) ["Foo"])).
    right. exists 10, 13, (Some "FooBar").
    split; [reflexivity|]. split; [|exact Hm].
    split; [reflexivity|]. exists 3, 6. exact Hc.
Defined.

(** ** The ranges of the first pass *)

Lemma class_loop_close rest : forall i cs name depth i' r,
  class_loop rest i cs name depth = (i', Some r) ->
  exists line, rest !! (i' - i) = Some line
               /\ Py.contains "</class>" line = true.
Proof.
  induction rest as [|line rest IH]; intros i cs name depth i' r;
    cbn [class_loop]; [discriminate|].
  destruct (depth =? 0); [discriminate|].
  destruct (Py.contains "</class>" line) eqn:Ec.
  - destruct (Nat.pred _ =? 0).
    + intros [= <- _]. exists line. rewrite Nat.sub_diag. split; [reflexivity|exact Ec].
    + intros H. pose proof (class_loop_ge _ _ _ _ _ _ _ H) as Hge.
      apply IH in H as (l & El & Hl). exists l. split; [|exact Hl].
      replace (i' - i) with (S (i' - S i)) by lia. exact El.
  - intros H. pose proof (class_loop_ge _ _ _ _ _ _ _ H) as Hge.
    apply IH in H as (l & El & Hl). exists l. split; [|exact Hl].
    replace (i' - i) with (S (i' - S i)) by lia. exact El.
Qed.

Lemma methods_loop_close rest : forall i ms cid i' r,
  methods_loop rest i ms cid = (i', Some r) ->
  (exists line, rest !! (i' - i) = Some line
                /\ Py.contains "</methods>" line = true)
  /\ (forall j line, j < i' - i -> rest !! j = Some line ->
                     Py.contains "</methods>" line = false).
Proof.
  induction rest as [|line rest IH]; intros i ms cid i' r;
    cbn [methods_loop]; [discriminate|].
  destruct (Py.contains "</methods>" line) eqn:Ec.
  - intros [= <- _]. rewrite Nat.sub_diag. split.
    + exists line. split; [reflexivity|exact Ec].
    + intros j l Hj. lia.
  - intros H. pose proof (methods_loop_ge _ _ _ _ _ _ H) as Hge.
    apply IH in H as [(l & El & Hl) Hfirst]. split.
    + exists l. split; [|exact Hl].
      replace (i' - i) with (S (i' - S i)) by lia. exact El.
    + intros j l' Hj Ej. destruct j as [|j].
      * injection Ej as <-. exact Ec.
      * apply (Hfirst j l'); [lia|exact Ej].
Qed.

Lemma ordered_snoc rs r :
  ordered rs -> Forall (fun r' => before r' r) rs -> ordered (rs ++ [r]).
Proof.
  induction rs as [|x rs IH]; intros Ho Hb.
  - cbn. split; [constructor|exact I].
  - destruct Ho as [Hx Ho]. apply Forall_cons in Hb as [Hxr Hb].
    cbn [app ordered]. split; [|apply IH; assumption].
    apply Forall_app. split; [exact Hx|]. constructor; [exact Hxr|constructor].
Qed.

Lemma scan_inv_step all_lines i j cr mr :
  i <= j -> scan_inv all_lines i cr mr -> scan_inv all_lines j cr mr.
Proof.
  intros Hij (Hc & Hm & Hb & Hoc & Hom & Hx).
  repeat split; try assumption.
  eapply Forall_impl; [exact Hb|]. cbn. intros r Hr. lia.
Qed.

Lemma scan_inv_class all_lines i i' n line cr mr :
  scan_inv all_lines i cr mr ->
  all_lines !! i = Some line -> Re.class_open line = true ->
  i < i' ->
  (exists l, all_lines !! i' = Some l /\ Py.contains "</class>" l = true) ->
  scan_inv all_lines (S i') (cr ++ [(i, i', n)]) mr.
Proof.
  intros (Hc & Hm & Hb & Hoc & Hom & Hx) El Ho Hlt Hcl.
  apply Forall_app in Hb as [Hbc Hbm].
  split; [|split; [|split; [|split; [|split]]]].
  - apply Forall_app. split; [exact Hc|]. constructor; [|constructor].
    split; [exact Hlt|]. split; [|exact Hcl]. exists line. split; assumption.
  - exact Hm.
  - rewrite <- app_assoc. apply Forall_app. split.
    + eapply Forall_impl; [exact Hbc|]. cbn. intros r Hr. lia.
    + constructor; [cbn; lia|].
      eapply Forall_impl; [exact Hbm|]. cbn. intros r Hr. lia.
  - apply ordered_snoc; [exact Hoc|].
    eapply Forall_impl; [exact Hbc|]. intros r Hr. exact Hr.
  - exact Hom.
  - intros c m Hin Hmin. apply elem_of_app in Hin as [Hin|Hin].
    + apply Hx; assumption.
    + apply list_elem_of_singleton in Hin as ->. right.
      rewrite Forall_forall in Hbm. apply (Hbm m Hmin).
Qed.

Lemma scan_inv_methods all_lines i i' n line cr mr :
  scan_inv all_lines i cr mr ->
  all_lines !! i = Some line -> Re.class_open line = false ->
  Py.contains "<methods>" line = true ->
  i < i' ->
  (exists l, all_lines !! i' = Some l /\ Py.contains "</methods>" l = true) ->
  (forall j l, i < j < i' -> all_lines !! j = Some l ->
               Py.contains "</methods>" l = false) ->
  scan_inv all_lines (S i') cr (mr ++ [(i, i', n)]).
Proof.
  intros (Hc & Hm & Hb & Hoc & Hom & Hx) El Ho Hmo Hlt Hcl Hfirst.
  apply Forall_app in Hb as [Hbc Hbm].
  split; [|split; [|split; [|split; [|split]]]].
  - exact Hc.
  - apply Forall_app. split; [exact Hm|]. constructor; [|constructor].
    split; [exact Hlt|]. split; [|split; [exact Hcl|exact Hfirst]].
    exists line. repeat split; assumption.
  - apply Forall_app. split.
    + eapply Forall_impl; [exact Hbc|]. cbn. intros r Hr. lia.
    + apply Forall_app. split.
      * eapply Forall_impl; [exact Hbm|]. cbn. intros r Hr. lia.
      * constructor; [cbn; lia|constructor].
  - exact Hoc.
  - apply ordered_snoc; [exact Hom|].
    eapply Forall_impl; [exact Hbm|]. intros r Hr. exact Hr.
  - intros c m Hcin Hin. apply elem_of_app in Hin as [Hin|Hin].
    + apply Hx; assumption.
    + apply list_elem_of_singleton in Hin as ->. left.
      rewrite Forall_forall in Hbc. apply (Hbc c Hcin).
Qed.

Lemma scan_keeps all_lines fuel : forall i cr mr,
  scan_inv all_lines i cr mr ->
  exists j, scan_inv all_lines j (fst (scan fuel all_lines i cr mr))
                     (snd (scan fuel all_lines i cr mr)).
Proof.
  induction fuel as [|fuel IH]; intros i cr mr Hinv; [exists i; exact Hinv|].
  cbn [scan]. destruct (all_lines !! i) as [line|] eqn:El;
    [|exists i; exact Hinv].
  destruct (Re.class_open line) eqn:Eo.
  - destruct (class_loop _ _ _ _ _) as [i' [r|]] eqn:E.
    + pose proof (class_loop_close _ _ _ _ _ _ _ E) as (l & Hl & Hc).
      apply class_loop_range in E as (n & -> & Hb).
      rewrite lookup_drop in Hl.
      replace (S i + (i' - S i)) with i' in Hl by lia.
      apply IH. cbn [option_list].
      apply (scan_inv_class all_lines i i' n line); try assumption; [lia|].
      exists l. split; assumption.
    + apply class_loop_ge in E. cbn [option_list]. rewrite app_nil_r.
      apply IH. apply (scan_inv_step all_lines i); [lia|exact Hinv].
  - destruct (Py.contains "<methods>" line) eqn:Em.
    + destruct (methods_loop _ _ _ _) as [i' [r|]] eqn:E.
      * pose proof (methods_loop_close _ _ _ _ _ _ E) as [(l & Hl & Hc) Hfirst].
        apply methods_loop_range in E as (n & -> & Hb).
        rewrite lookup_drop in Hl.
        replace (S i + (i' - S i)) with i' in Hl by lia.
        apply IH. cbn [option_list].
        apply (scan_inv_methods all_lines i i' n line); try assumption; [lia| |].
        -- exists l. split; assumption.
        -- intros j l' Hj Ej. apply (Hfirst (j - S i) l'); [lia|].
           rewrite lookup_drop. replace (S i + (j - S i)) with j by lia.
           exact Ej.
      * apply methods_loop_ge in E. cbn [option_list]. rewrite app_nil_r.
        apply IH. apply (scan_inv_step all_lines i); [lia|exact Hinv].
    + apply IH. apply (scan_inv_step all_lines i); [lia|exact Hinv].
Qed.

Lemma find_ranges_inv all_lines :
  exists j, scan_inv all_lines j (fst (find_ranges all_lines))
                     (snd (find_ranges all_lines)).
Proof.
  apply scan_keeps.
  split; [constructor|]. split; [constructor|]. split; [constructor|].
  split; [exact I|]. split; [exact I|].
  intros c m Hc. apply elem_of_nil in Hc as [].
Qed.

(** X19.  The ranges the first pass records, for every file: a class range
    goes from a line that opens a class to a later line that closes
    one (never the same line); a methods range goes from a line with
    [<methods>] to the first later line with [</methods>]. *)
Theorem ranges_well_formed all_lines :
  Forall (class_range_ok all_lines) (fst (find_ranges all_lines))
  /\ Forall (methods_range_ok all_lines) (snd (find_ranges all_lines)).
Proof.
  destruct (find_ranges_inv all_lines) as (j & Hc & Hm & _).
  split; assumption.
Qed.

(** X20.  The ranges never overlap: each of the two lists is in the order of
    the file, every range ending before the next one starts, and a
    class range and a methods range have no line in common. *)
Theorem ranges_disjoint all_lines :
  ordered (fst (find_ranges all_lines))
  /\ ordered (snd (find_ranges all_lines))
  /\ (forall c m, c ∈ fst (find_ranges all_lines) ->
                  m ∈ snd (find_ranges all_lines) ->
                  before c m \/ before m c).
Proof.
  destruct (find_ranges_inv all_lines) as (j & _ & _ & _ & Hoc & Hom & Hx).
  split; [exact Hoc|]. split; [exact Hom|exact Hx].
Qed.

Lemma ranges_disjoint_witness :
  before (3, 6, Some "FooBar") (10, 13, Some "FooBar")
  \/ before (10, 13, Some "FooBar") (3, 6, Some "FooBar").
Proof.
  apply (proj2 (proj2 (ranges_disjoint (readlines small_file)))).
  - vm_compute. apply list_elem_of_In. left. reflexivity.
  - vm_compute. apply list_elem_of_In. left. reflexivity.
Defined.

(** ** The names of the ranges *)

Lemma simple_element_group t s g :
  Re.simple_element_at t s = Some g ->
  g <> EmptyString /\ all_chars not_lt g = true.
Proof.
  unfold Re.simple_element_at.
  destruct (Re.strip_prefix _ s) as [r|]; [|discriminate].
  pose proof (span_all not_lt r) as Hs. unfold not_lt in Hs at 1.
  destruct (Re.span _ r) as [g' r1]. cbn [fst] in Hs.
  destruct g' as [|c g']; [discriminate|].
  destruct (String.prefix _ r1); [|discriminate].
  intros [= <-]. split; [discriminate|exact Hs].
Qed.

Lemma search_group t line g :
  Re.search (Re.simple_element_at t) line = Some g ->
  g <> EmptyString /\ all_chars not_lt g = true.
Proof.
  induction line as [|c r IH]; cbn [Re.search].
  - destruct (Re.simple_element_at t EmptyString) as [g'|] eqn:E;
      [|discriminate].
    intros [= <-]. apply (simple_element_group t _ _ E).
  - destruct (Re.simple_element_at t (String c r)) as [g'|] eqn:E;
      [|exact IH].
    intros [= <-]. apply (simple_element_group t _ _ E).
Qed.

Lemma update_name_cases t line old :
  update_name t line old = old
  \/ exists g, update_name t line old = Some g
               /\ Re.search (Re.simple_element_at t) line = Some g.
Proof.
  unfold update_name. destruct (Py.contains _ line); [|left; reflexivity].
  destruct (Re.search _ line) as [g|]; [|left; reflexivity].
  right. exists g. split; reflexivity.
Qed.

Lemma class_loop_name rest : forall i cs name depth i' r nm,
  class_loop rest i cs name depth = (i', Some r) ->
  snd r = Some nm ->
  name = Some nm
  \/ exists j line, i <= j <= i' /\ rest !! (j - i) = Some line
                    /\ Re.search (Re.simple_element_at "name") line = Some nm.
Proof.
  induction rest as [|line rest IH]; intros i cs name depth i' r nm;
    cbn [class_loop]; [discriminate|].
  destruct (depth =? 0); [discriminate|].
  assert (Hstep : forall d,
            class_loop rest (S i) cs (update_name "name" line name) d
            = (i', Some r) -> snd r = Some nm ->
            name = Some nm
            \/ exists j l, i <= j <= i' /\ (line :: rest) !! (j - i) = Some l
                           /\ Re.search (Re.simple_element_at "name") l
                              = Some nm).
  { intros d H Hr. pose proof (class_loop_ge _ _ _ _ _ _ _ H) as Hge.
    destruct (IH _ _ _ _ _ _ _ H Hr) as [Hn|(j & l & Hj & El & Hs)].
    - destruct (update_name_cases "name" line name) as [E|(g & E & Hs)].
      + left. rewrite <- E. exact Hn.
      + right. exists i, line. rewrite Nat.sub_diag.
        split; [lia|]. split; [reflexivity|]. rewrite Hs, <- E. exact Hn.
    - right. exists j, l. split; [lia|]. split; [|exact Hs].
      replace (j - i) with (S (j - S i)) by lia. exact El. }
  destruct (Py.contains "</class>" line).
  - destruct (Nat.pred _ =? 0); [|apply Hstep].
    intros [= <- <-] Hr. cbn [snd] in Hr.
    destruct (update_name_cases "name" line name) as [E|(g & E & Hs)].
    + left. rewrite <- E. exact Hr.
    + right. exists i, line. rewrite Nat.sub_diag.
      split; [lia|]. split; [reflexivity|]. rewrite Hs, <- E. exact Hr.
  - apply Hstep.
Qed.

Lemma methods_loop_name rest : forall i ms cid i' r nm,
  methods_loop rest i ms cid = (i', Some r) ->
  snd r = Some nm ->
  cid = Some nm
  \/ exists j line, i <= j <= i' /\ rest !! (j - i) = Some line
                    /\ Re.search (Re.simple_element_at "class-id") line
                       = Some nm.
Proof.
  induction rest as [|line rest IH]; intros i ms cid i' r nm;
    cbn [methods_loop]; [discriminate|].
  destruct (Py.contains "</methods>" line).
  - intros [= <- <-] Hr. cbn [snd] in Hr.
    destruct (update_name_cases "class-id" line cid) as [E|(g & E & Hs)].
    + left. rewrite <- E. exact Hr.
    + right. exists i, line. rewrite Nat.sub_diag.
      split; [lia|]. split; [reflexivity|]. rewrite Hs, <- E. exact Hr.
  - intros H Hr. pose proof (methods_loop_ge _ _ _ _ _ _ H) as Hge.
    destruct (IH _ _ _ _ _ _ H Hr) as [Hn|(j & l & Hj & El & Hs)].
    + destruct (update_name_cases "class-id" line cid) as [E|(g & E & Hs)].
      * left. rewrite <- E. exact Hn.
      * right. exists i, line. rewrite Nat.sub_diag.
        split; [lia|]. split; [reflexivity|]. rewrite Hs, <- E. exact Hn.
    + right. exists j, l. split; [lia|]. split; [|exact Hs].
      replace (j - i) with (S (j - S i)) by lia. exact El.
Qed.

Lemma scan_Forall (P Q : range -> Prop) all_lines :
  (forall i i' r,
     class_loop (drop (S i) all_lines) (S i) i None 1 = (i', Some r) -> P r) ->
  (forall i i' r,
     methods_loop (drop (S i) all_lines) (S i) i None = (i', Some r) -> Q r) ->
  forall fuel i cr mr,
    Forall P cr -> Forall Q mr ->
    Forall P (fst (scan fuel all_lines i cr mr))
    /\ Forall Q (snd (scan fuel all_lines i cr mr)).
Proof.
  intros HP HQ.
  induction fuel as [|fuel IH]; intros i cr mr Hc Hm; [split; assumption|].
  cbn [scan]. destruct (all_lines !! i) as [line|]; [|split; assumption].
  destruct (Re.class_open line).
  - destruct (class_loop _ _ _ _ _) as [i' r] eqn:E. apply IH; [|exact Hm].
    apply Forall_app. split; [exact Hc|].
    destruct r as [r|]; [|constructor].
    constructor; [apply (HP _ _ _ E)|constructor].
  - destruct (Py.contains "<methods>" line); [|apply IH; assumption].
    destruct (methods_loop _ _ _ _) as [i' r] eqn:E. apply IH; [exact Hc|].
    apply Forall_app. split; [exact Hm|].
    destruct r as [r|]; [|constructor].
    constructor; [apply (HQ _ _ _ E)|constructor].
Qed.

(** X21.  The names the first pass records, on which the priority is decided:
    the name of a class range is the text of a [<name>...</name>] found
    on a line of the range after its first, and the class-id of a
    methods range the text of a [<class-id>...</class-id>] found there;
    such a name is never empty and holds no [<]. *)
Theorem range_names_from_file all_lines :
  Forall (name_from "name" all_lines) (fst (find_ranges all_lines))
  /\ Forall (name_from "class-id" all_lines) (snd (find_ranges all_lines)).
Proof.
  apply scan_Forall; try constructor.
  - intros i i' r E.
    pose proof (class_loop_range _ _ _ _ _ _ _ E) as (n & -> & Hb).
    intros nm ->.
    destruct (class_loop_name _ _ _ _ _ _ _ nm E eq_refl)
      as [Hn|(j & line & Hj & El & Hs)]; [discriminate Hn|].
    destruct (search_group _ _ _ Hs) as [G1 G2].
    split; [exact G1|]. split; [exact G2|].
    exists j, line. split; [lia|]. split; [|exact Hs].
    rewrite lookup_drop in El.
    replace (S i + (j - S i)) with j in El by lia. exact El.
  - intros i i' r E.
    pose proof (methods_loop_range _ _ _ _ _ _ E) as (n & -> & Hb).
    intros nm ->.
    destruct (methods_loop_name _ _ _ _ _ _ nm E eq_refl)
      as [Hn|(j & line & Hj & El & Hs)]; [discriminate Hn|].
    destruct (search_group _ _ _ Hs) as [G1 G2].
    split; [exact G1|]. split; [exact G2|].
    exists j, line. split; [lia|]. split; [|exact Hs].
    rewrite lookup_drop in El.
    replace (S i + (j - S i)) with j in El by lia. exact El.
Qed.

(** ** The header *)

Lemma first_element_line_spec lines : forall i,
  match first_element_line lines i with
  | Some j =>
      i <= j
      /\ (exists line, lines !! (j - i) = Some line
                       /\ opens_element line = true)
      /\ (forall k line, k < j - i -> lines !! k = Some line ->
                         opens_element line = false)
  | None => Forall (fun line => opens_element line = false) lines
  end.
Proof.
  induction lines as [|line rest IH]; intros i; [constructor|].
  cbn [first_element_line]. fold (opens_element line).
  destruct (opens_element line) eqn:Eo.
  - split; [lia|]. rewrite Nat.sub_diag. split.
    + exists line. split; [reflexivity|exact Eo].
    + intros k l Hk. lia.
  - specialize (IH (S i)).
    destruct (first_element_line rest (S i)) as [j|].
    + destruct IH as (Hj & (l & El & Hl) & Hfirst). split; [lia|]. split.
      * exists l. split; [|exact Hl].
        replace (j - i) with (S (j - S i)) by lia. exact El.
      * intros k l' Hk Ek. destruct k as [|k].
        -- injection Ek as <-. exact Eo.
        -- apply (Hfirst k l'); [lia|exact Ek].
    + constructor; assumption.
Qed.

(** X22.  The header ends at the first line that opens an element and is not
    the XML declaration; in a file without such a line it is the first
    line alone. *)
Theorem header_ends_at_first_element all_lines :
  let header_end := find_header_end all_lines in
  (forall j line, j < header_end -> all_lines !! j = Some line ->
                  opens_element line = false)
  /\ ((exists line, all_lines !! header_end = Some line
                    /\ opens_element line = true)
      \/ (header_end = 0
          /\ Forall (fun line => opens_element line = false) all_lines)).
Proof.
  intros header_end. subst header_end. unfold find_header_end.
  pose proof (first_element_line_spec all_lines 0) as H.
  destruct (first_element_line all_lines 0) as [j|].
  - destruct H as (_ & Hl & Hfirst). rewrite Nat.sub_0_r in Hl, Hfirst.
    split; [exact Hfirst|]. left. exact Hl.
  - split; [intros j line Hj; lia|]. right. split; [reflexivity|exact H].
Qed.

Lemma header_ends_at_first_element_witness :
  opens_element "<?xml version='1.0'?>" = false
  /\ find_header_end ["<?xml version='1.0'?>"; "<!-- c -->"; "<st-source>"]
     = 2.
Proof.
  pose proof (proj1 (header_ends_at_first_element
                       ["<?xml version='1.0'?>"; "<!-- c -->"; "<st-source>"])
                0 "<?xml version='1.0'?>") as H.
  split; [apply H; [vm_compute; lia|reflexivity]|reflexivity].
Defined.

End TruncateXmlNewMore.

(** * The prefix-priority truncator on a file laid out in blocks (C3) *)

Module TruncateXmlNewLayout.
Import Truncate TruncateXmlNew TruncateSpec TruncateXmlNewSpec TruncateProps.
Import TruncateCorrect TruncateXmlNewCorrect TruncateMore TruncateXmlNewMore.

(** ** The first pass finds the blocks *)

Lemma update_name_text t line old :
  update_name t line old
  = match element_text t line with Some g => Some g | None => old end.
Proof.
  unfold update_name, element_text.
  destruct (Py.contains _ line); [|reflexivity].
  destruct (Re.search _ line); reflexivity.
Qed.

Lemma fold_update_name t lines : forall old,
  fold_left (fun old line => update_name t line old) lines old
  = match read_name t lines with Some g => Some g | None => old end.
Proof.
  unfold read_name. induction lines as [|l lines IH]; intros old;
    [reflexivity|].
  cbn [fold_left]. rewrite IH, update_name_text.
  change (omap (element_text t) (l :: lines))
    with (match element_text t l with
          | Some g => g :: omap (element_text t) lines
          | None => omap (element_text t) lines
          end).
  destruct (element_text t l) as [g|]; [|reflexivity].
  rewrite last_cons. destruct (last (omap (element_text t) lines));
    reflexivity.
Qed.

Lemma class_loop_block inner closing rest : forall i cs name,
  forallb (fun line => negb (Re.class_open line)
                       && negb (Py.contains "</class>" line)) inner = true ->
  Re.class_open closing = false -> Py.contains "</class>" closing = true ->
  class_loop (inner ++ closing :: rest) i cs name 1
  = (i + length inner,
     Some (cs, i + length inner,
           fold_left (fun old line => update_name "name" line old)
                     (inner ++ [closing]) name)).
Proof.
  induction inner as [|l inner IH]; intros i cs name Hin Hc1 Hc2.
  - cbn [app class_loop length fold_left]. cbn [Nat.eqb].
    rewrite Hc1, Hc2. cbn [Nat.pred Nat.eqb]. rewrite Nat.add_0_r.
    reflexivity.
  - cbn [forallb] in Hin. apply andb_prop in Hin as [Hl Hin].
    apply andb_prop in Hl as [Hl1 Hl2].
    apply negb_true_iff in Hl1, Hl2.
    cbn [app class_loop length fold_left]. cbn [Nat.eqb].
    rewrite Hl1, Hl2. rewrite (IH (S i) cs _ Hin Hc1 Hc2).
    replace (S i + length inner) with (i + S (length inner)) by lia.
    reflexivity.
Qed.

Lemma methods_loop_block inner closing rest : forall i ms cid,
  forallb (fun line => negb (Py.contains "</methods>" line)) inner = true ->
  Py.contains "</methods>" closing = true ->
  methods_loop (inner ++ closing :: rest) i ms cid
  = (i + length inner,
     Some (ms, i + length inner,
           fold_left (fun old line => update_name "class-id" line old)
                     (inner ++ [closing]) cid)).
Proof.
  induction inner as [|l inner IH]; intros i ms cid Hin Hc.
  - cbn [app methods_loop length fold_left]. rewrite Hc, Nat.add_0_r.
    reflexivity.
  - cbn [forallb] in Hin. apply andb_prop in Hin as [Hl Hin].
    apply negb_true_iff in Hl.
    cbn [app methods_loop length fold_left]. rewrite Hl.
    rewrite (IH (S i) ms _ Hin Hc).
    replace (S i + length inner) with (i + S (length inner)) by lia.
    reflexivity.
Qed.

Lemma layout_lines_cons b blocks :
  layout_lines (b :: blocks) = block_lines b ++ layout_lines blocks.
Proof. reflexivity. Qed.

Lemma layout_lines_app a b :
  layout_lines (a ++ b) = layout_lines a ++ layout_lines b.
Proof. unfold layout_lines. rewrite map_app, concat_app. reflexivity. Qed.

Lemma block_lines_length b : 1 <= length (block_lines b).
Proof. destruct b; cbn; lia. Qed.

Lemma scan_layout blocks : forall fuel pre cr mr,
  forallb block_ok blocks = true ->
  length (layout_lines blocks) <= fuel ->
  scan fuel (pre ++ layout_lines blocks) (length pre) cr mr
  = (cr ++ fst (layout_ranges (length pre) blocks),
     mr ++ snd (layout_ranges (length pre) blocks)).
Proof.
  induction blocks as [|b blocks IH]; intros fuel pre cr mr Hok Hf.
  - cbn [layout_lines map concat layout_ranges fst snd].
    rewrite !app_nil_r. destruct fuel; [reflexivity|].
    cbn [scan]. rewrite lookup_ge_None_2 by lia. reflexivity.
  - cbn [forallb] in Hok. apply andb_prop in Hok as [Hb Hok].
    rewrite layout_lines_cons in Hf |- *. rewrite length_app in Hf.
    pose proof (block_lines_length b) as Hn.
    destruct fuel as [|fuel]; [lia|].
    cbn [layout_ranges].
    destruct (layout_ranges (length pre + length (block_lines b)) blocks)
      as [crs mrs] eqn:Er.
    destruct b as [line|opening inner closing|opening inner closing];
      cbn [block_lines block_ok] in *.
    + apply andb_prop in Hb as [H1 H2]. apply negb_true_iff in H1, H2.
      cbn [scan]. rewrite lookup_app_r by lia.
      rewrite Nat.sub_diag. cbn [app lookup list_lookup].
      rewrite H1, H2.
      specialize (IH fuel (pre ++ [line]) cr mr Hok ltac:(cbn in Hf; lia)).
      rewrite <- app_assoc in IH. cbn [app] in IH.
      rewrite length_app in IH. cbn [length] in IH, Er.
      rewrite Nat.add_1_r in IH, Er. rewrite IH, Er. reflexivity.
    + apply andb_prop in Hb as [Hb H5]. apply andb_prop in Hb as [Hb H4].
      apply andb_prop in Hb as [Hb H3]. apply andb_prop in Hb as [H1 H2].
      apply negb_true_iff in H4.
      cbn [scan]. rewrite lookup_app_r by lia.
      rewrite Nat.sub_diag. cbn [app lookup list_lookup]. rewrite H1.
      replace (drop (S (length pre))
                    (pre ++ opening :: (inner ++ [closing]) ++ layout_lines blocks))
        with (inner ++ closing :: layout_lines blocks).
      2:{ rewrite drop_app_ge by lia.
          replace (S (length pre) - length pre) with 1 by lia.
          cbn [drop]. rewrite <- app_assoc. reflexivity. }
      rewrite (class_loop_block inner closing _ _ _ _ H3 H4 H5).
      rewrite fold_update_name.
      assert (E : pre ++ opening :: (inner ++ [closing]) ++ layout_lines blocks
                  = (pre ++ opening :: inner ++ [closing])
                    ++ layout_lines blocks)
        by (rewrite <- (app_assoc pre); reflexivity).
      assert (El : length (pre ++ opening :: inner ++ [closing])
                   = S (S (length pre) + length inner))
        by (rewrite length_app; cbn [length]; rewrite length_app;
            cbn [length]; lia).
      rewrite E, <- El.
      rewrite (IH fuel (pre ++ opening :: inner ++ [closing])
                  (cr ++ option_list
                        (Some (length pre, S (length pre) + length inner,
                               match read_name "name" (inner ++ [closing]) with
                               | Some g => Some g
                               | None => None
                               end)))
                     mr
                  Hok)
        by (cbn [length] in Hf; lia).
      rewrite length_app, Er. cbn [fst snd option_list class_name_of].
      rewrite <- !app_assoc. cbn [app].
      replace (length pre + length (opening :: inner ++ [closing]) - 1)
        with (S (length pre) + length inner)
        by (cbn [length]; rewrite length_app; cbn [length]; lia).
      destruct (read_name "name" (inner ++ [closing])); reflexivity.
    + apply andb_prop in Hb as [Hb H5]. apply andb_prop in Hb as [Hb H4].
      apply andb_prop in Hb as [Hb H3]. apply andb_prop in Hb as [H1 H2].
      apply negb_true_iff in H1.
      cbn [scan]. rewrite lookup_app_r by lia.
      rewrite Nat.sub_diag. cbn [app lookup list_lookup]. rewrite H1, H2.
      replace (drop (S (length pre))
                    (pre ++ opening :: (inner ++ [closing]) ++ layout_lines blocks))
        with (inner ++ closing :: layout_lines blocks).
      2:{ rewrite drop_app_ge by lia.
          replace (S (length pre) - length pre) with 1 by lia.
          cbn [drop]. rewrite <- app_assoc. reflexivity. }
      rewrite (methods_loop_block inner closing _ _ _ _ H4 H5).
      rewrite fold_update_name.
      assert (E : pre ++ opening :: (inner ++ [closing]) ++ layout_lines blocks
                  = (pre ++ opening :: inner ++ [closing])
                    ++ layout_lines blocks)
        by (rewrite <- (app_assoc pre); reflexivity).
      assert (El : length (pre ++ opening :: inner ++ [closing])
                   = S (S (length pre) + length inner))
        by (rewrite length_app; cbn [length]; rewrite length_app;
            cbn [length]; lia).
      rewrite E, <- El.
      rewrite (IH fuel (pre ++ opening :: inner ++ [closing])
                  cr
                     (mr ++ option_list
                        (Some (length pre, S (length pre) + length inner,
                               match read_name "class-id" (inner ++ [closing]) with
                               | Some g => Some g
                               | None => None
                               end)))
                  Hok)
        by (cbn [length] in Hf; lia).
      rewrite length_app, Er. cbn [fst snd option_list class_id_of].
      rewrite <- !app_assoc. cbn [app].
      replace (length pre + length (opening :: inner ++ [closing]) - 1)
        with (S (length pre) + length inner)
        by (cbn [length]; rewrite length_app; cbn [length]; lia).
      destruct (read_name "class-id" (inner ++ [closing])); reflexivity.
Qed.

(** The ranges the first pass records are those of the class blocks
    and of the methods blocks, with the names read on their lines. *)
Lemma find_ranges_layout blocks :
  forallb block_ok blocks = true ->
  find_ranges (layout_lines blocks) = layout_ranges 0 blocks.
Proof.
  intros Hok. unfold find_ranges.
  pose proof (scan_layout blocks _ [] [] [] Hok (Nat.le_refl _)) as H.
  cbn [length app] in H. rewrite H.
  destruct (layout_ranges 0 blocks). reflexivity.
Qed.

(** ** The priority ranges, as lists *)

Lemma categorize_exact prefixes crs : forall names prio other,
  fold_left (categorize_step prefixes) crs (names, prio, other)
  = (names ++ map range_name
       (List.filter (fun r => has_priority prefixes (range_name r)) crs),
     prio ++ map class_prange
       (List.filter (fun r => has_priority prefixes (range_name r)) crs),
     other ++ map class_prange
       (List.filter (fun r => negb (has_priority prefixes (range_name r)))
                    crs)).
Proof.
  induction crs as [|[[s e] n] crs IH]; intros names prio other.
  - cbn. rewrite !app_nil_r. reflexivity.
  - cbn [fold_left categorize_step List.filter range_name].
    destruct (has_priority prefixes n); cbn [negb]; rewrite IH;
      cbn [map class_prange range_name]; rewrite <- !app_assoc; reflexivity.
Qed.

Lemma add_methods_exact names mrs : forall prio,
  add_methods names mrs prio
  = prio ++ map methods_prange
      (List.filter (fun r => bool_decide (range_name r ∈ names)) mrs).
Proof.
  unfold add_methods. induction mrs as [|[[s e] n] mrs IH]; intros prio.
  - cbn. rewrite app_nil_r. reflexivity.
  - cbn [fold_left List.filter range_name].
    destruct (bool_decide (n ∈ names)); rewrite IH;
      cbn [map methods_prange]; rewrite <- ?app_assoc; reflexivity.
Qed.

(** The priority ranges are the ranges of the classes whose name has a
    priority prefix, followed by the ranges of the methods blocks whose
    class-id is one of these names, the whole sorted by first line. *)
Lemma priority_ranges_list all_lines prefixes :
  priority_ranges_of all_lines prefixes
  = sort_by_start
      (map class_prange
         (List.filter (fun r => has_priority prefixes (range_name r))
                      (fst (find_ranges all_lines)))
       ++ map methods_prange
            (List.filter
               (fun r =>
                  bool_decide
                    (range_name r
                     ∈ map range_name
                         (List.filter
                            (fun r => has_priority prefixes (range_name r))
                            (fst (find_ranges all_lines)))))
               (snd (find_ranges all_lines)))).
Proof.
  unfold priority_ranges_of.
  destruct (find_ranges all_lines) as [crs mrs]. cbn [fst snd].
  unfold categorize. rewrite categorize_exact. cbn [app].
  rewrite add_methods_exact. reflexivity.
Qed.

(** ** Their size *)

Lemma total_size_app a b : total_size (a ++ b) = total_size a + total_size b.
Proof.
  induction a as [|x a IH]; [reflexivity|].
  cbn [app total_size]. rewrite IH. lia.
Qed.

Lemma total_size_insert x l :
  total_size (insert_by_start x l) = range_size x + total_size l.
Proof.
  induction l as [|y l IH]; [reflexivity|]. cbn [insert_by_start].
  destruct (range_start x <=? range_start y); cbn [total_size];
    [reflexivity|]. rewrite IH. lia.
Qed.

Lemma total_size_sort l : total_size (sort_by_start l) = total_size l.
Proof.
  induction l as [|x l IH]; [reflexivity|].
  change (sort_by_start (x :: l)) with (insert_by_start x (sort_by_start l)).
  rewrite total_size_insert, IH. reflexivity.
Qed.

Lemma total_size_concat l :
  length (concat (map range_lines l)) = total_size l.
Proof.
  induction l as [|[[[ty s] e] n] l IH]; [reflexivity|].
  cbn [map concat total_size range_size range_lines].
  rewrite length_app, length_seq, IH. reflexivity.
Qed.

Lemma layout_priority_names prefixes blocks : forall start,
  map range_name
      (List.filter (fun r => has_priority prefixes (range_name r))
                   (fst (layout_ranges start blocks)))
  = priority_names prefixes blocks.
Proof.
  unfold priority_names.
  induction blocks as [|b blocks IH]; intros start; [reflexivity|].
  cbn [layout_ranges]. specialize (IH (start + length (block_lines b))).
  destruct (layout_ranges (start + length (block_lines b)) blocks)
    as [crs mrs].
  cbn [fst] in IH.
  destruct b as [line|o inner c|o inner c];
    cbn [fst List.filter priority_class range_name]; try exact IH.
  destruct (has_priority prefixes (class_name_of (ClassBlock o inner c)));
    cbn [map range_name]; rewrite IH; reflexivity.
Qed.

Lemma layout_priority_size prefixes names blocks : forall start,
  total_size
    (map class_prange
       (List.filter (fun r => has_priority prefixes (range_name r))
                    (fst (layout_ranges start blocks))))
  + total_size
      (map methods_prange
         (List.filter (fun r => bool_decide (range_name r ∈ names))
                      (snd (layout_ranges start blocks))))
  = list_sum
      (map (fun b => length (block_lines b))
           (List.filter (block_priority prefixes names) blocks)).
Proof.
  induction blocks as [|b blocks IH]; intros start; [reflexivity|].
  cbn [layout_ranges]. specialize (IH (start + length (block_lines b))).
  destruct (layout_ranges (start + length (block_lines b)) blocks)
    as [crs mrs].
  cbn [fst snd] in IH.
  pose proof (block_lines_length b) as Hn.
  destruct b as [line|o inner c|o inner c];
    cbn [fst snd List.filter block_priority range_name]; try exact IH.
  - destruct (has_priority prefixes (class_name_of (ClassBlock o inner c)));
      [|exact IH].
    cbn [map class_prange total_size range_size list_sum].
    change (list_sum (?a :: ?l)) with (a + list_sum l).
    rewrite <- IH. lia.
  - destruct (bool_decide (class_id_of (MethodsBlock o inner c) ∈ names));
      [|exact IH].
    cbn [map methods_prange total_size range_size list_sum].
    change (list_sum (?a :: ?l)) with (a + list_sum l).
    rewrite <- IH. lia.
Qed.

(** The lines of the priority ranges are as many as the lines of the
    blocks with priority. *)
Lemma layout_budget prefixes blocks :
  forallb block_ok blocks = true ->
  total_size (priority_ranges_of (layout_lines blocks) prefixes)
  = priority_size prefixes blocks.
Proof.
  intros Hok. rewrite priority_ranges_list, total_size_sort, total_size_app.
  rewrite (find_ranges_layout blocks Hok), layout_priority_names.
  apply layout_priority_size.
Qed.

(** ** Where the blocks are *)

Lemma layout_ranges_block before b after : forall start,
  let s := start + length (layout_lines before) in
  let e := s + length (block_lines b) - 1 in
  match b with
  | Plain _ => True
  | ClassBlock _ _ _ =>
      (s, e, class_name_of b)
      ∈ fst (layout_ranges start (before ++ b :: after))
  | MethodsBlock _ _ _ =>
      (s, e, class_id_of b)
      ∈ snd (layout_ranges start (before ++ b :: after))
  end.
Proof.
  induction before as [|x before IH]; intros start s e.
  - subst s e. cbn [app layout_lines map concat length].
    rewrite Nat.add_0_r. cbn [layout_ranges].
    destruct (layout_ranges (start + length (block_lines b)) after)
      as [crs mrs].
    destruct b; [exact I| |]; cbn [fst snd]; apply elem_of_cons; left;
      reflexivity.
  - subst s e. rewrite layout_lines_cons, length_app.
    specialize (IH (start + length (block_lines x))).
    cbn zeta in IH. rewrite <- Nat.add_assoc in IH.
    cbn [app layout_ranges].
    destruct (layout_ranges (start + length (block_lines x))
                            (before ++ b :: after)) as [crs mrs].
    cbn [fst snd] in IH.
    destruct b; [exact I| |]; destruct x; cbn [fst snd]; try exact IH;
      apply elem_of_cons; right; exact IH.
Qed.

Lemma priority_names_spec prefixes blocks x :
  x ∈ priority_names prefixes blocks
  -> has_priority prefixes x = true
     /\ exists s e, (s, e, x) ∈ fst (layout_ranges 0 blocks).
Proof.
  rewrite <- (layout_priority_names prefixes blocks 0).
  intros H. apply list_elem_of_In, in_map_iff in H as ([[s e] n] & <- & H).
  apply filter_In in H as [H Hp]. cbn [range_name] in *.
  split; [exact Hp|]. exists s, e. apply list_elem_of_In, H.
Qed.

(** A block with priority is one of the priority ranges. *)
Lemma priority_block_range prefixes before b after :
  let blocks := before ++ b :: after in
  let s := length (layout_lines before) in
  let e := s + length (block_lines b) - 1 in
  forallb block_ok blocks = true ->
  block_priority prefixes (priority_names prefixes blocks) b = true ->
  exists ty n,
    (ty, s, e, n) ∈ priority_ranges_of (layout_lines blocks) prefixes.
Proof.
  intros blocks s e Hok Hp.
  pose proof (layout_ranges_block before b after 0) as Hb.
  cbn zeta in Hb. cbn [Nat.add] in Hb. fold blocks s e in Hb.
  destruct b as [line|o inner c|o inner c]; cbn [block_priority] in Hp;
    [discriminate Hp| |].
  - exists "class", (class_name_of (ClassBlock o inner c)).
    apply priority_ranges_mem. left. eexists _, _, _.
    split; [reflexivity|]. split; [exact Hp|].
    rewrite (find_ranges_layout blocks Hok). exact Hb.
  - exists "methods", (class_id_of (MethodsBlock o inner c)).
    apply bool_decide_eq_true_1 in Hp.
    apply priority_names_spec in Hp as [Hp Hc].
    apply priority_ranges_mem. right. eexists _, _, _.
    split; [reflexivity|].
    rewrite (find_ranges_layout blocks Hok). split; [|exact Hb].
    split; [exact Hp|exact Hc].
Qed.

(** ** The priority ranges have no line in common *)

Lemma apart_sym x y : apart x y -> apart y x.
Proof.
  destruct x as [[[t1 s1] e1] n1], y as [[[t2 s2] e2] n2]. cbn. tauto.
Qed.

Lemma all_apart_app a b :
  all_apart a -> all_apart b ->
  (forall x y, x ∈ a -> y ∈ b -> apart x y) ->
  all_apart (a ++ b).
Proof.
  induction a as [|x a IH]; intros Ha Hb Hab; [exact Hb|].
  destruct Ha as [Hx Ha]. cbn [app all_apart]. split.
  - apply Forall_app. split; [exact Hx|]. apply Forall_forall.
    intros y Hy. apply Hab; [apply elem_of_cons; left; reflexivity|exact Hy].
  - apply IH; [exact Ha|exact Hb|]. intros u v Hu Hv.
    apply Hab; [apply elem_of_cons; right; exact Hu|exact Hv].
Qed.

Lemma all_apart_insert x l :
  Forall (apart x) l -> all_apart l -> all_apart (insert_by_start x l).
Proof.
  induction l as [|y l IH]; intros Hx Hl.
  - cbn. split; [constructor|exact I].
  - cbn [insert_by_start]. destruct (range_start x <=? range_start y).
    + cbn [all_apart]. split; [exact Hx|exact Hl].
    + destruct Hl as [Hy Hl]. apply Forall_cons in Hx as [Hxy Hx].
      cbn [all_apart]. split; [|apply IH; assumption].
      apply Forall_forall. intros z Hz.
      apply insert_by_start_mem in Hz as [->|Hz].
      * apply apart_sym, Hxy.
      * rewrite Forall_forall in Hy. apply Hy, Hz.
Qed.

Lemma all_apart_sort l : all_apart l -> all_apart (sort_by_start l).
Proof.
  induction l as [|x l IH]; intros H; [exact I|]. destruct H as [Hx Hl].
  change (sort_by_start (x :: l)) with (insert_by_start x (sort_by_start l)).
  apply all_apart_insert; [|apply IH, Hl].
  apply Forall_forall. intros y Hy.
  apply (proj1 (sort_by_start_mem l y)) in Hy.
  rewrite Forall_forall in Hx. apply Hx, Hy.
Qed.

Lemma ordered_all_apart (f : range -> prange) (p : range -> bool) rs :
  (forall s e n, exists ty, f (s, e, n) = (ty, s, e, n)) ->
  ordered rs -> all_apart (map f (List.filter p rs)).
Proof.
  intros Hf. induction rs as [|r rs IH]; intros Ho; [exact I|].
  destruct Ho as [Hb Ho]. cbn [List.filter].
  destruct (p r); [|apply IH; assumption].
  cbn [map all_apart]. split; [|apply IH; assumption].
  apply Forall_forall. intros y Hy.
  apply list_elem_of_In, in_map_iff in Hy as (r' & <- & Hr').
  apply filter_In in Hr' as [Hr' _].
  rewrite Forall_forall in Hb.
  specialize (Hb r' (proj2 (list_elem_of_In _ _) Hr')).
  destruct r as [[s e] n], r' as [[s' e'] n'].
  destruct (Hf s e n) as [ty ->], (Hf s' e' n') as [ty' ->].
  left. exact Hb.
Qed.

Lemma priority_ranges_apart all_lines prefixes :
  all_apart (priority_ranges_of all_lines prefixes).
Proof.
  rewrite priority_ranges_list. apply all_apart_sort.
  destruct (find_ranges_inv all_lines) as (j & _ & _ & _ & Hc & Hm & Hx).
  apply all_apart_app.
  - apply ordered_all_apart; [|exact Hc]. intros s e n. eexists. reflexivity.
  - apply ordered_all_apart; [|exact Hm]. intros s e n. eexists. reflexivity.
  - intros x y Hx1 Hy1.
    apply list_elem_of_In, in_map_iff in Hx1 as ([[s e] n] & <- & Hc1).
    apply list_elem_of_In, in_map_iff in Hy1 as ([[s' e'] n'] & <- & Hm1).
    apply filter_In in Hc1 as [Hc1 _]. apply filter_In in Hm1 as [Hm1 _].
    apply list_elem_of_In in Hc1, Hm1.
    destruct (Hx _ _ Hc1 Hm1) as [H|H]; [left|right]; exact H.
Qed.

Lemma range_lines_mem ty s e n i :
  i ∈ range_lines (ty, s, e, n) <-> s <= i <= e.
Proof.
  cbn [range_lines]. rewrite list_elem_of_In, in_seq. lia.
Qed.

Lemma concat_range_lines_mem l i :
  i ∈ concat (map range_lines l) ->
  exists ty s e n, (ty, s, e, n) ∈ l /\ s <= i <= e.
Proof.
  intros H. apply list_elem_of_In, in_concat in H as (idxs & H1 & H2).
  apply in_map_iff in H1 as ([[[ty s] e] n] & <- & H1).
  exists ty, s, e, n. split; [apply list_elem_of_In, H1|].
  apply range_lines_mem with (ty := ty) (n := n), list_elem_of_In, H2.
Qed.

Lemma all_apart_NoDup l :
  all_apart l -> NoDup (concat (map range_lines l)).
Proof.
  induction l as [|[[[ty s] e] n] l IH]; intros H; [constructor|].
  destruct H as [Hx Hl]. cbn [map concat]. apply NoDup_app.
  split; [apply NoDup_seq|]. split; [|apply IH, Hl].
  intros i Hi Hc. apply range_lines_mem in Hi.
  apply concat_range_lines_mem in Hc as (ty' & s' & e' & n' & Hin & Hi').
  rewrite Forall_forall in Hx. specialize (Hx _ Hin). cbn in Hx. lia.
Qed.

(** The ranges before a range of a sorted list of ranges that are
    apart end before it starts. *)
Lemma sorted_apart_before p1 ty s e n p2 i :
  by_start (p1 ++ (ty, s, e, n) :: p2) ->
  all_apart (p1 ++ (ty, s, e, n) :: p2) ->
  s <= e ->
  i ∈ concat (map range_lines p1) -> i < s.
Proof.
  induction p1 as [|[[[ty1 s1] e1] n1] p1 IH]; intros Hs Ha Hse Hi.
  - apply elem_of_nil in Hi as [].
  - destruct Hs as [Hs1 Hs], Ha as [Ha1 Ha].
    cbn [map concat] in Hi. apply elem_of_app in Hi as [Hi|Hi].
    + apply range_lines_mem in Hi.
      rewrite Forall_forall in Hs1, Ha1.
      assert (Hin : (ty, s, e, n) ∈ p1 ++ (ty, s, e, n) :: p2).
      { apply elem_of_app. right. apply elem_of_cons. left. reflexivity. }
      specialize (Hs1 _ Hin). specialize (Ha1 _ Hin).
      cbn in Hs1, Ha1. lia.
    + apply IH; assumption.
Qed.

(** ** The selection within the budget *)

Lemma filter_ext_elem {A} (P Q : A -> Prop)
      {HP : forall x, Decision (P x)} {HQ : forall x, Decision (Q x)}
      (l : list A) :
  (forall x, x ∈ l -> (P x <-> Q x)) -> filter P l = filter Q l.
Proof.
  induction l as [|x l IH]; intros H; [reflexivity|].
  assert (Hx : P x <-> Q x) by (apply H, elem_of_cons; left; reflexivity).
  assert (Hl : filter P l = filter Q l).
  { apply IH. intros y Hy. apply H, elem_of_cons. right. exact Hy. }
  destruct (decide (P x)) as [Hp|Hp].
  - rewrite (filter_cons_True P x l Hp).
    rewrite (filter_cons_True Q x l (proj1 Hx Hp)), Hl. reflexivity.
  - rewrite (filter_cons_False P x l Hp).
    rewrite (filter_cons_False Q x l (fun q => Hp (proj2 Hx q))), Hl.
    reflexivity.
Qed.

Lemma filter_all {A} (P : A -> Prop) {HP : forall x, Decision (P x)}
      (l : list A) :
  (forall x, x ∈ l -> P x) -> filter P l = l.
Proof.
  induction l as [|x l IH]; intros H; [reflexivity|].
  rewrite filter_cons_True by (apply H, elem_of_cons; left; reflexivity).
  rewrite IH; [reflexivity|].
  intros y Hy. apply H, elem_of_cons. right. exact Hy.
Qed.

Lemma filter_none {A} (P : A -> Prop) {HP : forall x, Decision (P x)}
      (l : list A) :
  (forall x, x ∈ l -> ~ P x) -> filter P l = [].
Proof.
  induction l as [|x l IH]; intros H; [reflexivity|].
  rewrite filter_cons_False by (apply H, elem_of_cons; left; reflexivity).
  apply IH. intros y Hy. apply H, elem_of_cons. right. exact Hy.
Qed.

Section Exact.
Variable all_lines : list string.
Variable max_lines : Z.

(** One priority range, when the output has room for all of its lines
    that are not used: they are all added, in order. *)
Lemma add_range_all idxs : forall st done,
  picks all_lines st done ->
  Forall (fun i => i < length all_lines) idxs -> NoDup idxs ->
  (Z.of_nat (length done + length (filter (fun i => i ∉ done) idxs))
   <= max_lines)%Z ->
  exists st',
    add_range all_lines max_lines idxs st = inr st'
    /\ picks all_lines st' (done ++ filter (fun i => i ∉ done) idxs).
Proof.
  induction idxs as [|i idxs IH]; intros st done Hp Hb Hn Hbud.
  - exists st. split; [reflexivity|].
    change (filter (fun i => i ∉ done) []) with (@nil nat).
    rewrite app_nil_r. exact Hp.
  - apply Forall_cons in Hb as [Hi Hb]. apply NoDup_cons in Hn as [Hni Hn].
    cbn [add_range]. destruct (bool_decide (i ∈ snd st)) eqn:Eu.
    + apply bool_decide_eq_true_1 in Eu.
      assert (Hd : i ∈ done).
      { destruct Hp as (_ & Hu & _). rewrite Hu in Eu.
        apply elem_of_list_to_set in Eu. exact Eu. }
      rewrite (filter_cons_False (fun i => i ∉ done) i idxs) in Hbud |- *
        by (intros H; exact (H Hd)).
      apply IH; assumption.
    + apply bool_decide_eq_false_1 in Eu.
      assert (Hd : i ∉ done).
      { destruct Hp as (_ & Hu & _). rewrite Hu in Eu.
        intros H. apply Eu, elem_of_list_to_set, H. }
      rewrite (filter_cons_True (fun i => i ∉ done) i idxs) in Hbud |- *
        by exact Hd.
      destruct (take_line_picks all_lines i st done Hp Eu Hi)
        as (st1 & -> & Hp1).
      assert (Ef' : filter (fun j => j ∉ done ++ [i]) idxs
                    = filter (fun j => j ∉ done) idxs).
      { apply filter_ext_elem. intros x Hx.
        rewrite elem_of_app, list_elem_of_singleton. split; [tauto|].
        intros H [H'| ->]; [exact (H H')|exact (Hni Hx)]. }
      cbn [length] in Hbud.
      destruct (full max_lines st1) eqn:Ef.
      * exists st1. split; [reflexivity|].
        assert (El : filter (fun j => j ∉ done) idxs = []).
        { apply length_zero_iff_nil. unfold full in Ef.
          apply Z.geb_le in Ef.
          rewrite (picks_length _ _ _ Hp1), length_app in Ef.
          cbn [length] in Ef. lia. }
        rewrite El. exact Hp1.
      * destruct (IH st1 (done ++ [i]) Hp1 Hb Hn) as (st' & E & Hp').
        { rewrite Ef', length_app. cbn [length]. lia. }
        exists st'. split; [exact E|].
        rewrite Ef', <- app_assoc in Hp'. exact Hp'.
Qed.

(** All priority ranges, when the output has room for all their lines
    that are not used. *)
Lemma add_priority_all ranges : forall st done,
  picks all_lines st done ->
  Forall (pin_file all_lines) ranges ->
  NoDup (concat (map range_lines ranges)) ->
  (Z.of_nat (length done
             + length (filter (fun i => i ∉ done)
                              (concat (map range_lines ranges))))
   <= max_lines)%Z ->
  exists st',
    add_priority all_lines max_lines ranges st = inr st'
    /\ picks all_lines st'
         (done ++ filter (fun i => i ∉ done)
                         (concat (map range_lines ranges))).
Proof.
  induction ranges as [|[[[ty s] e] n] rest IH]; intros st done Hp Hb Hn Hbud.
  - exists st. split; [reflexivity|].
    change (filter (fun i => i ∉ done) (concat (map range_lines [])))
      with (@nil nat).
    rewrite app_nil_r. exact Hp.
  - apply Forall_cons in Hb as [[Hse He] Hb].
    cbn [map concat range_lines] in Hn, Hbud |- *.
    rewrite filter_app in Hbud |- *. rewrite length_app in Hbud.
    apply NoDup_app in Hn as (Hn1 & Hdis & Hn2).
    cbn [add_priority].
    destruct (full max_lines st) eqn:Ef.
    + exists st. split; [reflexivity|].
      unfold full in Ef. apply Z.geb_le in Ef.
      rewrite (picks_length _ _ _ Hp) in Ef.
      assert (E1 : filter (fun i => i ∉ done) (seq s (S e - s)) = [])
        by (apply length_zero_iff_nil; lia).
      assert (E2 : filter (fun i => i ∉ done)
                          (concat (map range_lines rest)) = [])
        by (apply length_zero_iff_nil; lia).
      rewrite E1, E2, app_nil_r. exact Hp.
    + destruct (add_range_all (seq s (S e - s)) st done Hp
                  (range_indices_bound all_lines s e He) Hn1)
        as (st1 & -> & Hp1); [lia|].
      assert (Ef' : filter (fun j => j ∉ done
                                       ++ filter (fun i => i ∉ done)
                                                 (seq s (S e - s)))
                           (concat (map range_lines rest))
                    = filter (fun j => j ∉ done)
                             (concat (map range_lines rest))).
      { apply filter_ext_elem. intros x Hx. rewrite elem_of_app.
        split; [tauto|]. intros H [H'|H']; [exact (H H')|].
        apply list_elem_of_filter in H' as [_ H']. exact (Hdis x H' Hx). }
      destruct (IH st1 _ Hp1 Hb Hn2) as (st' & E & Hp').
      { rewrite Ef', length_app. lia. }
      exists st'. split; [exact E|].
      rewrite Ef', <- app_assoc in Hp'. exact Hp'.
Qed.

End Exact.

(** The selection when the header and the priority ranges fit in
    [max_lines]: the header, then every line of the priority ranges
    that is not in the header, range after range, then other lines. *)
Lemma select_exact all_lines max_lines prefixes :
  let header := S (find_header_end all_lines) in
  let ranges := priority_ranges_of all_lines prefixes in
  all_lines <> [] ->
  (Z.of_nat (header + total_size ranges) <= max_lines)%Z ->
  exists st rest,
    select_lines all_lines max_lines prefixes = inr st
    /\ picks all_lines st
         (seq 0 header
          ++ filter (fun i => i ∉ seq 0 header)
                    (concat (map range_lines ranges))
          ++ rest).
Proof.
  intros header ranges Hne Hbud.
  pose proof (header_end_bound all_lines Hne) as Hh. fold header in Hh.
  unfold select_lines, select_priority. fold header. fold ranges.
  change ([], ∅) with (first_lines all_lines 0).
  rewrite (add_header_first all_lines header 0) by (cbn; lia).
  cbn [Nat.add].
  pose proof (picks_first all_lines header ltac:(lia)) as P0.
  destruct (add_priority_all all_lines max_lines ranges _ _ P0
              (priority_ranges_in_file all_lines prefixes)
              (all_apart_NoDup _ (priority_ranges_apart all_lines prefixes)))
    as (st1 & -> & P1).
  { rewrite length_seq.
    pose proof (length_filter (fun i => i ∉ seq 0 header)
                  (concat (map range_lines ranges))) as Hl.
    rewrite total_size_concat in Hl. lia. }
  destruct (add_other_picks all_lines max_lines
              (seq header (length all_lines - header)) st1 _ P1)
    as (st2 & new2 & -> & P2 & _).
  { apply Forall_forall. intros i Hi%list_elem_of_In%in_seq. lia. }
  exists st2, new2. split; [reflexivity|].
  rewrite <- app_assoc in P2. exact P2.
Qed.

(** ** A priority range stands in the selection as one piece *)

Lemma range_infix h ranges p1 ty s e n p2 :
  ranges = p1 ++ (ty, s, e, n) :: p2 ->
  by_start ranges -> all_apart ranges -> s <= e ->
  exists pre post,
    seq 0 h ++ filter (fun i => i ∉ seq 0 h) (concat (map range_lines ranges))
    = pre ++ seq s (S e - s) ++ post.
Proof.
  intros -> Hs Ha Hse.
  rewrite map_app, concat_app. cbn [map concat range_lines].
  rewrite !filter_app.
  assert (Hin : forall i, i ∈ seq 0 h <-> i < h).
  { intros i. rewrite list_elem_of_In, in_seq. lia. }
  assert (Hseq : forall a k i, i ∈ seq a k <-> a <= i < a + k).
  { intros a k i. rewrite list_elem_of_In, in_seq. lia. }
  set (P := fun i => i ∉ seq 0 h).
  destruct (Nat.le_gt_cases h s) as [Hhs|Hhs].
  - rewrite (filter_all P (seq s (S e - s))).
    2:{ intros i Hi. unfold P. rewrite Hin. apply Hseq in Hi. lia. }
    eexists (seq 0 h ++ _), _. rewrite <- app_assoc. reflexivity.
  - rewrite (filter_none P (concat (map range_lines p1))).
    2:{ intros i Hi Hn. apply Hn, Hin.
        pose proof (sorted_apart_before p1 ty s e n p2 i Hs Ha Hse Hi). lia. }
    cbn [app].
    destruct (Nat.le_gt_cases h e) as [Hhe|Hhe].
    + assert (EM : filter P (seq s (S e - s)) = seq h (S e - h)).
      { replace (S e - s) with ((h - s) + (S e - h)) by lia.
        rewrite seq_app, filter_app.
        rewrite (filter_none P (seq s (h - s))).
        2:{ intros i Hi Hn. apply Hn, Hin. apply Hseq in Hi. lia. }
        rewrite (filter_all P (seq (s + (h - s)) (S e - h))).
        2:{ intros i Hi. unfold P. rewrite Hin. apply Hseq in Hi. lia. }
        cbn [app]. f_equal. lia. }
      rewrite EM. generalize (filter P (concat (map range_lines p2))).
      intros F2. exists (seq 0 s), F2.
      assert (E1 : seq 0 h = seq 0 s ++ seq s (h - s)).
      { transitivity (seq 0 (s + (h - s))); [f_equal; lia|apply seq_app]. }
      assert (E2 : seq s (S e - s) = seq s (h - s) ++ seq h (S e - h)).
      { replace (S e - s) with ((h - s) + (S e - h)) by lia.
        rewrite seq_app. do 2 f_equal. lia. }
      rewrite E1, E2, <- !app_assoc. reflexivity.
    + rewrite (filter_none P (seq s (S e - s))).
      2:{ intros i Hi Hn. apply Hn, Hin. apply Hseq in Hi. lia. }
      cbn [app]. generalize (filter P (concat (map range_lines p2))).
      intros F2. exists (seq 0 s), (seq (S e) (h - S e) ++ F2).
      assert (E1 : seq 0 h
                   = seq 0 s ++ seq s (S e - s) ++ seq (S e) (h - S e)).
      { transitivity (seq 0 (s + ((S e - s) + (h - S e))));
          [f_equal; lia|].
        rewrite (seq_app s _ 0), (seq_app (S e - s) (h - S e) (0 + s)).
        cbn [Nat.add]. do 3 f_equal. lia. }
      rewrite E1, <- !app_assoc. reflexivity.
Qed.

Lemma by_start_priority all_lines prefixes :
  by_start (priority_ranges_of all_lines prefixes).
Proof. rewrite priority_ranges_list. apply sort_by_start_sorted. Qed.

Lemma picks_selected all_lines st idxs i :
  picks all_lines st idxs -> i ∈ idxs -> selected all_lines st i.
Proof.
  intros (_ & Hu & Hl) Hi. split.
  - rewrite Hu. apply elem_of_list_to_set, Hi.
  - apply list_elem_of_lookup in Hi as [k Hk].
    destruct (Forall2_lookup_l _ _ _ _ _ Hl Hk) as (line & Hline & Hi).
    exists line. split; [exact Hi|].
    apply (list_elem_of_lookup_2 _ k), Hline.
Qed.

(** The lines numbered like a piece of the file are that piece. *)
Lemma lines_of_piece (B : list string) : forall A C ls,
  Forall2 (fun i line => (A ++ B ++ C) !! i = Some line)
          (seq (length A) (length B)) ls ->
  ls = B.
Proof.
  induction B as [|x B IH]; intros A C ls H.
  - cbn in H. apply Forall2_nil_inv_l in H. exact H.
  - cbn [length seq] in H.
    apply Forall2_cons_inv_l in H as (y & ls' & Hy & H & ->).
    cbn [app] in Hy. rewrite list_lookup_middle in Hy by reflexivity.
    injection Hy as <-. f_equal.
    apply (IH (A ++ [x]) C).
    rewrite <- app_assoc, length_app. cbn [app length].
    rewrite Nat.add_1_r. exact H.
Qed.

(** ** Priority blocks within the budget (C3) *)

(** C3, amended.  Take a file that is not empty and whose lines divide
    into blocks: class blocks, from a line that opens a class to the
    first later line with [</class>], no line after the first opening a
    class; methods blocks, from a line with [<methods>] to the first
    later line with [</methods>]; and single lines that open neither.
    The name of a class block is the text of the last [<name>] element
    that stands on one line after the opening line, the class-id of a
    methods block likewise.  When the header lines and the lines of the
    blocks with priority together number at most [max_lines], every
    class block whose name starts with a priority prefix, and every
    methods block whose class-id is the name of such a class, is
    selected whole, wherever it stands in the file: each of its lines
    is selected, and the block stands in the selection as one piece,
    its lines in the order of the file.  The selection is what the
    parsing tiers are given; when both parses raise, the returned text
    holds the block as one piece too.  (A name on the line of the
    opening tag is not read, and beyond the budget the priority content
    is itself cut at [max_lines].) *)
Theorem C3_priority_blocks_selected strict_parse recovering_parse
        input_file max_lines priority_prefixes blocks :
  let all_lines := readlines input_file in
  let names := priority_names priority_prefixes blocks in
  input_file <> EmptyString ->
  all_lines = layout_lines blocks ->
  forallb block_ok blocks = true ->
  (Z.of_nat (S (find_header_end all_lines)
             + priority_size priority_prefixes blocks)
   <= max_lines)%Z ->
  exists st,
    select_lines all_lines max_lines priority_prefixes = inr st
    /\ truncate_xml_to_lines strict_parse recovering_parse
         input_file max_lines priority_prefixes
       = fallback strict_parse recovering_parse (Py.join EmptyString (fst st))
    /\ forall before b after,
         blocks = before ++ b :: after ->
         block_priority priority_prefixes names b = true ->
         (forall i,
            length (layout_lines before) <= i
            < length (layout_lines before) + length (block_lines b) ->
            selected all_lines st i)
         /\ (exists pre post, fst st = pre ++ block_lines b ++ post)
         /\ (forall e,
               strict_parse (Py.join EmptyString (fst st))
               = inl XMLSyntaxError ->
               recovering_parse (Py.join EmptyString (fst st)) = inl e ->
               exists pre post,
                 result (truncate_xml_to_lines strict_parse recovering_parse
                           input_file max_lines priority_prefixes)
                 = inr (pre +:+ Py.join EmptyString (block_lines b)
                        +:+ post)).
Proof.
  intros all_lines names Hne Hlay Hok Hbud.
  assert (Hnil : all_lines <> []).
  { intros H. apply readlines_nil in H. contradiction. }
  assert (Htr : forall st,
            select_lines all_lines max_lines priority_prefixes = inr st ->
            truncate_xml_to_lines strict_parse recovering_parse
              input_file max_lines priority_prefixes
            = fallback strict_parse recovering_parse
                (Py.join EmptyString (fst st))).
  { intros st E. unfold truncate_xml_to_lines. fold all_lines. rewrite E.
    destruct st. reflexivity. }
  clearbody all_lines. subst all_lines.
  rewrite <- (layout_budget priority_prefixes blocks Hok) in Hbud.
  destruct (select_exact (layout_lines blocks) max_lines priority_prefixes
              Hnil Hbud) as (st & rest & E & P).
  exists st. split; [exact E|]. split; [exact (Htr st E)|].
  intros before b after -> Hp.
  pose proof (block_lines_length b) as Hlen.
  destruct (priority_block_range priority_prefixes before b after Hok Hp)
    as (ty & n & Hin).
  apply list_elem_of_split in Hin as (p1 & p2 & Hsplit).
  destruct (range_infix (S (find_header_end
                              (layout_lines (before ++ b :: after))))
              _ p1 ty _ _ n p2 Hsplit
              (by_start_priority _ _) (priority_ranges_apart _ _)
              ltac:(lia)) as (pre & post & Einf).
  replace (S (length (layout_lines before) + length (block_lines b) - 1)
           - length (layout_lines before))
    with (length (block_lines b)) in Einf by lia.
  rewrite app_assoc, Einf in P.
  assert (Hcont : exists lpre lpost, fst st = lpre ++ block_lines b ++ lpost).
  { destruct P as (_ & _ & Hl).
    apply Forall2_app_inv_l in Hl as (k1 & k2 & Hl & _ & ->).
    apply Forall2_app_inv_l in Hl as (a & k1' & _ & Hl & ->).
    apply Forall2_app_inv_l in Hl as (m & c & Hl & _ & ->).
    rewrite layout_lines_app, layout_lines_cons in Hl.
    apply lines_of_piece in Hl as ->.
    exists a, (c ++ k2). rewrite <- !app_assoc. reflexivity. }
  split; [|split; [exact Hcont|]].
  - intros i Hi. apply (picks_selected _ _ _ _ P).
    apply elem_of_app. left. apply elem_of_app. right.
    apply elem_of_app. left. apply list_elem_of_In, in_seq. lia.
  - intros e Hs Hr. destruct Hcont as (lpre & lpost & Est).
    rewrite (Htr st E). unfold fallback. rewrite Hs, Hr.
    cbn [is_syntax_error result]. rewrite balance_appends.
    exists (Py.join EmptyString lpre),
           (Py.join EmptyString lpost
            +:+ appended (open_tags_of (Py.join EmptyString (fst st)))).
    rewrite Est at 1. rewrite !join_empty_app, <- !append_assoc.
    reflexivity.
Qed.

(** The amended statement at a file of seventy-two lines, [max_lines]
    being fifty: the class [FooBar], at lines 60 to 63, and its methods
    block, at lines 67 to 70, are selected whole, and are in the text
    returned when both parses raise; without a prefix, line 60 is not
    selected. *)
Lemma C3_priority_witness :
  let all_lines := readlines far_class_file in
  far_class_file <> EmptyString
  /\ all_lines = layout_lines far_class_layout
  /\ forallb block_ok far_class_layout = true
  /\ (Z.of_nat (S (find_header_end all_lines)
                + priority_size ["Foo"] far_class_layout)
      <= 50)%Z
  /\ (exists st,
        select_lines all_lines 50 ["Foo"] = inr st
        /\ (forall i, 60 <= i < 64 -> selected all_lines st i)
        /\ (exists pre post,
              fst st = pre ++ [ln "<class>"; ln "<name>FooBar</name>";
                               ln "<super>Object</super>"; ln "</class>"]
                       ++ post)
        /\ (forall i, 67 <= i < 71 -> selected all_lines st i)
        /\ (exists pre post,
              result (truncate_xml_to_lines rejecting_parse rejecting_parse
                        far_class_file 50 ["Foo"])
              = inr (pre
                     +:+ Py.join EmptyString
                           [ln "<methods>"; ln "<class-id>FooBar</class-id>";
                            ln "<body>bar ^1</body>"; ln "</methods>"]
                     +:+ post)))
  /\ (exists st0,
        select_lines all_lines 50 [] = inr st0
        /\ ~ selected all_lines st0 60).
Proof.
  intros all_lines.
  assert (H1 : far_class_file <> EmptyString) by (vm_compute; discriminate).
  assert (H2 : all_lines = layout_lines far_class_layout)
    by (vm_compute; reflexivity).
  assert (H3 : forallb block_ok far_class_layout = true)
    by (vm_compute; reflexivity).
  assert (H4 : (Z.of_nat (S (find_header_end all_lines)
                          + priority_size ["Foo"] far_class_layout)
                <= 50)%Z) by (vm_compute; discriminate).
  split; [exact H1|]. split; [exact H2|]. split; [exact H3|].
  split; [exact H4|]. split.
  - destruct (C3_priority_blocks_selected rejecting_parse rejecting_parse
                far_class_file 50 ["Foo"] far_class_layout H1 H2 H3 H4)
      as (st & E & _ & Hb).
    exists st. split; [exact E|].
    assert (Hp1 : block_priority ["Foo"]
                    (priority_names ["Foo"] far_class_layout)
                    (ClassBlock (ln "<class>")
                       [ln "<name>FooBar</name>"; ln "<super>Object</super>"]
                       (ln "</class>")) = true)
      by (vm_compute; reflexivity).
    assert (Hp2 : block_priority ["Foo"]
                    (priority_names ["Foo"] far_class_layout)
                    (MethodsBlock (ln "<methods>")
                       [ln "<class-id>FooBar</class-id>";
                        ln "<body>bar ^1</body>"]
                       (ln "</methods>")) = true)
      by (vm_compute; reflexivity).
    destruct (Hb ([Plain (ln "<st-source>")]
                  ++ repeat (Plain (ln "<filler/>")) 59)
                 _ _ eq_refl Hp1) as (Hs1 & Hc1 & _).
    destruct (Hb ([Plain (ln "<st-source>")]
                  ++ repeat (Plain (ln "<filler/>")) 59
                  ++ [ClassBlock (ln "<class>")
                        [ln "<name>FooBar</name>"; ln "<super>Object</super>"]
                        (ln "</class>");
                      ClassBlock (ln "<class>") [ln "<name>Other</name>"]
                        (ln "</class>")])
                 _ _ eq_refl Hp2) as (Hs2 & _ & Hr2).
    split; [exact Hs1|]. split; [exact Hc1|]. split; [exact Hs2|].
    apply (Hr2 XMLSyntaxError); reflexivity.
  - assert (T : match select_lines all_lines 50 [] with
                | inr st0 => negb (bool_decide (60 ∈ snd st0))
                | inl _ => false
                end = true) by (vm_compute; reflexivity).
    destruct (select_lines all_lines 50 []) as [e|st0]; [discriminate T|].
    exists st0. split; [reflexivity|]. intros [Hin _].
    apply negb_true_iff, bool_decide_eq_false_1 in T. exact (T Hin).
Defined.

(** The first pass reads the name of a class on the lines after its
    opening line only: a class [FooBar] whose name stands on the line
    of the opening tag is recorded without a name, has no priority,
    and is left out of the fifty lines selected. *)
Lemma name_on_opening_line_is_missed :
  let all_lines := readlines name_on_opening_line in
  find_ranges all_lines = ([(60, 62, None)], [])
  /\ priority_ranges_of all_lines ["Foo"] = []
  /\ exists st,
       select_lines all_lines 50 ["Foo"] = inr st
       /\ ~ selected all_lines st 60
       /\ Py.contains "FooBar" (Py.join EmptyString (fst st)) = false.
Proof.
  intros all_lines. split; [vm_compute; reflexivity|].
  split; [vm_compute; reflexivity|].
  assert (T : match select_lines all_lines 50 ["Foo"] with
              | inr st =>
                  negb (bool_decide (60 ∈ snd st))
                  && negb (Py.contains "FooBar"
                             (Py.join EmptyString (fst st)))
              | inl _ => false
              end = true) by (vm_compute; reflexivity).
  destruct (select_lines all_lines 50 ["Foo"]) as [e|st]; [discriminate T|].
  apply andb_prop in T as [T1 T2].
  exists st. split; [reflexivity|]. split.
  - intros [Hin _]. apply negb_true_iff, bool_decide_eq_false_1 in T1.
    exact (T1 Hin).
  - apply negb_true_iff, T2.
Qed.

End TruncateXmlNewLayout.

(** * The index manager: further properties *)

Module CreateIndexesMore.
Import CreateIndexes CreateIndexesSpec CreateIndexesProps CreateIndexesCorrect.

(** ** The calls and what escapes *)

Section Calls.
Variable faults : nat -> fault.

Lemma session_run_calls query w :
  calls (fst (session_run faults query w)) = S (calls w).
Proof.
  unfold session_run. destruct (faults (calls w)); cbn; try reflexivity.
  destruct (execute (catalog w) query) as [c r]. reflexivity.
Qed.

Lemma turn_calls entry w :
  snd (statement_turn faults entry w) = inr tt
  /\ calls (fst (statement_turn faults entry w)) = S (calls w).
Proof.
  destruct entry as [n q]. unfold statement_turn, try_except, bind.
  pose proof (session_run_calls q w) as Hc.
  destruct (session_run faults q w) as [w1 [e|[]]];
    cbn [fst snd print calls] in *; split; try reflexivity; exact Hc.
Qed.

Lemma loop_calls (stmts : list (string * string)) : forall w,
  snd (for_each stmts (statement_turn faults) w) = inr tt
  /\ calls (fst (for_each stmts (statement_turn faults) w))
     = length stmts + calls w.
Proof.
  induction stmts as [|entry stmts IH]; intros w; [split; reflexivity|].
  rewrite for_each_cons.
  destruct (turn_calls entry w) as [H1 H2].
  destruct (statement_turn faults entry w) as [w1 r1].
  cbn [fst snd] in H1, H2. subst r1.
  destruct (IH w1) as [I1 I2]. split; [exact I1|].
  rewrite I2, H2. cbn [length]. lia.
Qed.

Lemma create_indexes_show w :
  exists w2, calls w2 = 7 + calls w
             /\ create_indexes faults w = show_indexes faults w2.
Proof.
  unfold create_indexes. unfold bind at 1. cbn [print fst].
  unfold bind at 1. unfold statement_loop.
  match goal with |- context [for_each indexes _ ?w0] =>
    destruct (loop_calls indexes w0) as [H1 H2];
    destruct (for_each indexes (statement_turn faults) w0) as [w1 r1] end.
  cbn [fst snd calls] in H1, H2. subst r1.
  unfold bind at 1. cbn [print fst].
  eexists. split; [|reflexivity]. exact H2.
Qed.

(** X23.  [create_indexes] makes exactly eight [session.run] calls, whatever
    fails on the way: no exception of the seven statements leaves the
    loop.  The [SHOW INDEXES] call is not in a [try]: the function ends
    normally exactly when that call, the eighth, succeeds, even if all
    seven statements failed; otherwise its exception escapes. *)
Theorem create_indexes_outcome w :
  calls (fst (create_indexes faults w)) = calls w + 8
  /\ (snd (create_indexes faults w) = inr tt
      <-> faults (calls w + 7) = NoFault)
  /\ (forall e, snd (create_indexes faults w) = inl e ->
                e = ServiceUnavailable).
Proof.
  destruct (create_indexes_show w) as (w2 & Hc & ->).
  unfold show_indexes. rewrite Hc, (Nat.add_comm 7).
  destruct (faults (calls w + 7)); cbn [fst snd calls].
  - split; [lia|]. split; [split; reflexivity|discriminate].
  - split; [lia|]. split; [|intros e [= <-]; reflexivity].
    split; discriminate.
  - split; [lia|]. split; [|intros e [= <-]; reflexivity].
    split; discriminate.
Qed.

End Calls.

Lemma create_indexes_outcome_witness :
  let faults := fun n => if n <? 7 then LostBefore else NoFault in
  faults (calls empty_world + 7) = NoFault
  /\ snd (create_indexes faults empty_world) = inr tt
  /\ catalog (fst (create_indexes faults empty_world)) = [].
Proof.
  intros faults. split; [reflexivity|]. split; [|reflexivity].
  apply (create_indexes_outcome faults empty_world). reflexivity.
Defined.

(** ** A database that has none of the indexes *)

Lemma absent_app c l e : absent (c ++ l) e <-> absent c e /\ absent l e.
Proof.
  unfold absent. rewrite exists_equivalent_app. apply orb_false_iff.
Qed.

Lemma absent_other e e' :
  ix_name e' <> ix_name e -> ix_schema e' <> ix_schema e -> absent [e'] e.
Proof.
  intros Hn Hs. unfold absent, exists_equivalent. cbn.
  rewrite orb_false_r. apply orb_false_iff. split.
  - apply String.eqb_neq, Hn.
  - apply bool_decide_eq_false_2, Hs.
Qed.

Section Fresh.
Variable faults : nat -> fault.
Hypothesis no_fault : forall n, faults n = NoFault.

Lemma turn_fresh n q schema w :
  guarded_schema n q = Some schema ->
  absent (catalog w) (IndexEntry n schema) ->
  statement_turn faults (n, q) w
  = (World (catalog w ++ [IndexEntry n schema]) (S (calls w))
           (stdout w ++ [Created n]),
     inr tt).
Proof.
  intros Hg Ha. unfold statement_turn, try_except, bind, session_run.
  rewrite no_fault, (guarded_execute n q schema _ Hg).
  unfold absent in Ha. cbn [ix_name ix_schema] in Ha. rewrite Ha.
  reflexivity.
Qed.

Lemma loop_fresh (stmts : list (string * string)) : forall w,
  Forall guarded stmts ->
  catalog_ok (omap entry_of stmts) ->
  Forall (absent (catalog w)) (omap entry_of stmts) ->
  for_each stmts (statement_turn faults) w
  = (World (catalog w ++ omap entry_of stmts) (length stmts + calls w)
           (stdout w ++ map (fun entry => Created (fst entry)) stmts),
     inr tt).
Proof.
  induction stmts as [|[n q] stmts IH]; intros w Hg Hok Ha.
  - cbn. rewrite !app_nil_r. destruct w; reflexivity.
  - apply Forall_cons in Hg as [[schema Hs] Hg]. cbn [fst snd] in Hs.
    assert (E : omap entry_of ((n, q) :: stmts)
                = IndexEntry n schema :: omap entry_of stmts).
    { change (omap entry_of ((n, q) :: stmts))
        with (match entry_of (n, q) with
              | Some y => y :: omap entry_of stmts
              | None => omap entry_of stmts
              end).
      unfold entry_of. cbn [fst snd]. rewrite Hs. reflexivity. }
    rewrite E in Hok, Ha |- *. apply Forall_cons in Ha as [Ha1 Ha].
    destruct Hok as [Hn Hsc]. cbn [map] in Hn, Hsc.
    apply NoDup_cons in Hn as [Hn1 Hn]. apply NoDup_cons in Hsc as [Hs1 Hsc].
    rewrite for_each_cons, (turn_fresh n q schema w Hs Ha1).
    rewrite IH; [| exact Hg | split; assumption |].
    + cbn [catalog calls stdout length map fst].
      rewrite <- !app_assoc. cbn [app]. f_equal. f_equal. lia.
    + cbn [catalog]. apply Forall_forall. intros e He.
      apply absent_app. rewrite Forall_forall in Ha.
      split; [apply Ha, He|]. apply absent_other; cbn [ix_name ix_schema].
      * intros Heq. apply Hn1. rewrite Heq.
        apply list_elem_of_fmap. exists e. split; [reflexivity|exact He].
      * intros Heq. apply Hs1. rewrite Heq.
        apply list_elem_of_fmap. exists e. split; [reflexivity|exact He].
Qed.

End Fresh.

Lemma index_entries_eq : omap entry_of indexes = index_entries.
Proof. unfold index_entries. reflexivity. Qed.

Lemma index_entries_ok :
  map ix_name index_entries = map fst indexes /\ catalog_ok index_entries.
Proof.
  split; [vm_compute; reflexivity|].
  split; apply (bool_decide_unpack _); vm_compute; exact I.
Qed.

Lemma create_indexes_fresh_eq (faults : nat -> fault) (w : world) :
  (forall n, faults n = NoFault) ->
  Forall (absent (catalog w)) index_entries ->
  create_indexes faults w
  = (World (catalog w ++ index_entries) (S (7 + calls w))
           ((((stdout w
               ++ [Banner "Creating indexes for optimal query performance..."])
              ++ map (fun entry => Created (fst entry)) indexes)
             ++ [Banner "Verifying created indexes..."])
            ++ map (fun e => Index (ix_name e) (ix_schema e))
                   (catalog w ++ index_entries)),
     inr tt).
Proof.
  intros Hf Ha. destruct index_entries_ok as [_ Hok].
  rewrite <- index_entries_eq in Hok, Ha.
  pose proof (fun w0 Ha0 =>
                loop_fresh faults Hf indexes w0 (proj2 seven_guarded) Hok Ha0)
    as H.
  rewrite index_entries_eq in H, Ha.
  change (length indexes) with 7 in H.
  unfold create_indexes. unfold bind at 1. unfold print at 1.
  unfold bind at 1. unfold statement_loop.
  rewrite H by exact Ha. clear H.
  unfold bind at 1. unfold print at 1. unfold show_indexes.
  cbn [catalog calls stdout]. rewrite Hf. reflexivity.
Qed.

(** X24.  On a database that has no index with the name or the schema of one
    of the seven, and when no call is hit by a fault, [create_indexes]
    adds the seven indexes, named by the keys of the dict, in the order
    of the dict; it prints one [Created] line for each, then every
    index of the catalog, and ends normally. *)
Theorem create_indexes_fresh (faults : nat -> fault) (w : world) :
  (forall n, faults n = NoFault) ->
  Forall (absent (catalog w)) index_entries ->
  map ix_name index_entries = map fst indexes
  /\ snd (create_indexes faults w) = inr tt
  /\ catalog (fst (create_indexes faults w)) = catalog w ++ index_entries
  /\ printed_by w (create_indexes faults w)
     = Banner "Creating indexes for optimal query performance..."
       :: map (fun entry => Created (fst entry)) indexes
       ++ Banner "Verifying created indexes..."
       :: map (fun e => Index (ix_name e) (ix_schema e))
              (catalog w ++ index_entries).
Proof.
  intros Hf Ha. split; [apply index_entries_ok|].
  unfold printed_by. rewrite (create_indexes_fresh_eq faults w Hf Ha).
  cbn [fst snd catalog stdout].
  split; [reflexivity|]. split; [reflexivity|].
  rewrite <- !app_assoc. rewrite drop_app_length. reflexivity.
Qed.

Lemma create_indexes_fresh_witness :
  Forall (absent (catalog empty_world)) index_entries
  /\ catalog (fst (create_indexes no_faults empty_world))
     = catalog empty_world ++ index_entries.
Proof.
  assert (H : Forall (absent (catalog empty_world)) index_entries).
  { apply Forall_forall. intros e _. reflexivity. }
  split; [exact H|].
  exact (proj1 (proj2 (proj2 (create_indexes_fresh no_faults empty_world
                                (fun _ => eq_refl) H)))).
Defined.

End CreateIndexesMore.

(** * The statistics script *)

Module SouStatsMore.
Import Xml SouParser SouParserSpec SouParserProps SouStats.
Import SouParserCorrect SouParserMore.

Lemma well_shaped_keys (r : record) :
  well_shaped r ->
  exists ty body,
    r !! "type" = Some ty /\ (ty = TYPE \/ ty = METHOD)
    /\ r !! "body" = Some body.
Proof.
  intros (Hd & Ht & _).
  assert (Hb : is_Some (r !! "body")).
  { apply elem_of_dom. rewrite Hd. cbn.
    rewrite !elem_of_union, !elem_of_singleton. tauto. }
  destruct Hb as [body Hb].
  destruct Ht as [Ht|Ht]; eexists _, body; (split; [exact Ht|]);
    (split; [|exact Hb]); [left|right]; reflexivity.
Qed.

Lemma count_type_cons t (r : record) rs :
  count_type t (r :: rs) = (if has_type t r then 1 else 0) + count_type t rs.
Proof.
  unfold count_type. cbn [List.filter]. destruct (has_type t r); reflexivity.
Qed.

Lemma tally_all_counts rs : forall t,
  Forall well_shaped rs ->
  tally_all t rs
  = inr (Tally (length rs + count t) (count_type METHOD rs + methods t)
               (count_type TYPE rs + types t)
               (body_len t
                ++ map (fun r : record => count_lines (r !!! "body") false) rs)).
Proof.
  induction rs as [|r rs IH]; intros t H.
  - cbn. rewrite app_nil_r. destruct t. reflexivity.
  - apply Forall_cons in H as [Hr H].
    destruct (well_shaped_keys r Hr) as (ty & body & Ht & Hty & Hb).
    cbn [tally_all]. unfold tally_step. rewrite Ht, Hb.
    rewrite !count_type_cons. unfold has_type. rewrite Ht.
    cbn [map]. rewrite (lookup_total_correct r "body" body Hb).
    destruct Hty as [-> | ->].
    + change (String.eqb TYPE "SymbolType.TYPE") with true. cbv beta iota zeta.
      rewrite (IH _ H). cbn [count methods types body_len].
      rewrite (bool_decide_eq_true_2 (Some TYPE = Some TYPE)) by reflexivity.
      rewrite (bool_decide_eq_false_2 (Some TYPE = Some METHOD)) by discriminate.
      rewrite <- app_assoc. cbn [app length].
      f_equal. f_equal; lia.
    + change (String.eqb METHOD "SymbolType.TYPE") with false.
      cbv beta iota zeta.
      rewrite (IH _ H). cbn [count methods types body_len].
      rewrite (bool_decide_eq_true_2 (Some METHOD = Some METHOD)) by reflexivity.
      rewrite (bool_decide_eq_false_2 (Some METHOD = Some TYPE)) by discriminate.
      rewrite <- app_assoc. cbn [app length].
      f_equal. f_equal; lia.
Qed.

Lemma count_type_total rs :
  Forall well_shaped rs ->
  count_type TYPE rs + count_type METHOD rs = length rs.
Proof.
  induction 1 as [|r rs Hr _ IH]; [reflexivity|].
  rewrite !count_type_cons. cbn [length].
  destruct (well_shaped_keys r Hr) as (ty & body & Ht & Hty & _).
  unfold has_type. rewrite Ht. destruct Hty as [-> | ->].
  - rewrite bool_decide_eq_true_2 by reflexivity.
    rewrite bool_decide_eq_false_2 by discriminate. lia.
  - rewrite bool_decide_eq_false_2 by discriminate.
    rewrite bool_decide_eq_true_2 by reflexivity. lia.
Qed.

Lemma list_min_spec l : forall x,
  list_min x l ∈ x :: l /\ Forall (fun n => list_min x l <= n) (x :: l).
Proof.
  unfold list_min. induction l as [|y l IH]; intros x.
  - cbn. split; [apply elem_of_cons; left; reflexivity|].
    constructor; [reflexivity|constructor].
  - cbn [fold_left]. destruct (IH (Nat.min x y)) as [Hin Hle].
    apply Forall_cons in Hle as [Hm Hle]. split.
    + apply elem_of_cons in Hin as [Hin|Hin].
      * rewrite Hin. destruct (Nat.min_dec x y) as [-> | ->].
        -- apply elem_of_cons. left. reflexivity.
        -- apply elem_of_cons. right. apply elem_of_cons. left. reflexivity.
      * apply elem_of_cons. right. apply elem_of_cons. right. exact Hin.
    + constructor; [lia|]. constructor; [lia|exact Hle].
Qed.

Lemma list_max_spec l : forall x,
  list_max x l ∈ x :: l /\ Forall (fun n => n <= list_max x l) (x :: l).
Proof.
  unfold list_max. induction l as [|y l IH]; intros x.
  - cbn. split; [apply elem_of_cons; left; reflexivity|].
    constructor; [reflexivity|constructor].
  - cbn [fold_left]. destruct (IH (Nat.max x y)) as [Hin Hle].
    apply Forall_cons in Hle as [Hm Hle]. split.
    + apply elem_of_cons in Hin as [Hin|Hin].
      * rewrite Hin. destruct (Nat.max_dec x y) as [-> | ->].
        -- apply elem_of_cons. left. reflexivity.
        -- apply elem_of_cons. right. apply elem_of_cons. left. reflexivity.
      * apply elem_of_cons. right. apply elem_of_cons. right. exact Hin.
    + constructor; [lia|]. constructor; [lia|exact Hle].
Qed.

Lemma insert_sorted_mem x l y : y ∈ insert_sorted x l -> y = x \/ y ∈ l.
Proof.
  induction l as [|z l IH]; cbn [insert_sorted].
  - intros H%list_elem_of_singleton. left. exact H.
  - destruct (x <=? z).
    + intros H%elem_of_cons. exact H.
    + intros H%elem_of_cons. destruct H as [->|H].
      * right. apply elem_of_cons. left. reflexivity.
      * destruct (IH H) as [->|H']; [left; reflexivity|].
        right. apply elem_of_cons. right. exact H'.
Qed.

Lemma sorted_mem l y : y ∈ sorted l -> y ∈ l.
Proof.
  induction l as [|x l IH]; [intros H; exact H|].
  cbn [sorted foldr]. fold (sorted l).
  intros H%insert_sorted_mem. apply elem_of_cons.
  destruct H as [->|H]; [left; reflexivity|right; apply IH, H].
Qed.

Lemma insert_sorted_length x l :
  length (insert_sorted x l) = S (length l).
Proof.
  induction l as [|y l IH]; [reflexivity|].
  cbn [insert_sorted]. destruct (x <=? y); cbn [length]; [reflexivity|].
  rewrite IH. reflexivity.
Qed.

Lemma sorted_length l : length (sorted l) = length l.
Proof.
  induction l as [|x l IH]; [reflexivity|].
  cbn [sorted foldr]. fold (sorted l).
  rewrite insert_sorted_length, IH. reflexivity.
Qed.

(** The indices of the median are within the list, and the median lies
    between any two bounds of the list. *)
Lemma median_of_defined data lo hi :
  data <> [] -> Forall (fun n => lo <= n <= hi) data ->
  exists q, median_of data = inr q
            /\ match q with
               | Int v => lo <= v <= hi
               | Quotient s d => d = 2 /\ 2 * lo <= s <= 2 * hi
               end.
Proof.
  intros Hne Hb. unfold median_of, item. rewrite Forall_forall in Hb.
  assert (Hn : 0 < length data) by (destruct data; [contradiction|cbn; lia]).
  assert (H2 : length data / 2 < length data)
    by (apply Nat.div_lt; lia).
  destruct (lookup_lt_is_Some_2 data _ H2) as [b Eb]. rewrite Eb.
  pose proof (Hb b (list_elem_of_lookup_2 _ _ _ Eb)) as Bb.
  destruct (length data mod 2 =? 1) eqn:Em; [eauto|].
  assert (H1 : length data / 2 - 1 < length data) by lia.
  destruct (lookup_lt_is_Some_2 data _ H1) as [a Ea]. rewrite Ea.
  pose proof (Hb a (list_elem_of_lookup_2 _ _ _ Ea)) as Ba.
  eexists. split; [reflexivity|]. cbn. split; [reflexivity|lia].
Qed.

Lemma visit_well_shaped u ts root :
  Forall well_shaped (yielded (fst (visit u ts root init))).
Proof.
  exact (proj1 (visit_inv u ts shape_inv (on_end_shape u ts) root init
                  shape_init)).
Qed.

(** [parse] prints nothing but the [AttributeError] it catches. *)
Lemma on_end_printed u ts e s :
  Forall (eq AttributeError) (printed s) ->
  Forall (eq AttributeError) (printed (fst (on_end u ts e s))).
Proof.
  intros Hs. unfold on_end.
  destruct (negb _); [exact Hs|].
  rewrite bind_get_pending.
  destruct (String.eqb (tag e) "class").
  { apply (bind_inv (fun s => Forall (eq AttributeError) (printed s)));
      [exact Hs|]. intros name s1 Hs1.
    apply (bind_inv (fun s => Forall (eq AttributeError) (printed s)));
      [exact Hs1|]. intros id s2 Hs2.
    apply (bind_inv (fun s => Forall (eq AttributeError) (printed s)));
      [exact Hs2|intros; assumption]. }
  assert (Hm : Forall (eq AttributeError)
            (printed (fst (((fun s0 : locals =>
        match extract_class_name (findtext e "class-id" None) with
        | inl e0 => print e0 s0
        | inr n => set_class_name n s0
        end) ;;;
     for_each (findall e "body")
       (fun body : element =>
          incr_methods ;;;
          cn <- read_class_name ;;
          id <- fresh_uuid u ;;
          yield
            (mk_record (cn +:+ "." +:+ Py.fmt (get body "selector")) METHOD
               (Py.strip (or_empty (text body))) EmptyString id)) ;;;
     ret (clear e)) s)))).
  { apply (bind_inv (fun s => Forall (eq AttributeError) (printed s))).
    { destruct (findtext e "class-id" None) as [n|]; cbn; [exact Hs|].
      apply Forall_app. split; [exact Hs|]. constructor; [reflexivity|constructor]. }
    intros _ s1 Hs1.
    apply (bind_inv (fun s => Forall (eq AttributeError) (printed s)));
      [|intros; assumption].
    apply (for_each_inv (fun s => Forall (eq AttributeError) (printed s)));
      [|exact Hs1].
    clear. intros body s Hs.
    apply (bind_inv (fun s => Forall (eq AttributeError) (printed s)));
      [exact Hs|]. intros _ s1 Hs1.
    apply (bind_inv (fun s => Forall (eq AttributeError) (printed s))).
    { unfold read_class_name. destruct (class_name s1); exact Hs1. }
    intros cn s2 Hs2.
    apply (bind_inv (fun s => Forall (eq AttributeError) (printed s)));
      [exact Hs2|]. intros id s3 Hs3. exact Hs3. }
  destruct (String.eqb (tag e) "comment"), (pending_class s) as [pc|] eqn:Hpc.
  all: try (destruct (String.eqb (tag e) "methods"); [exact Hm|]).
  all: try exact Hs.
  - apply (bind_inv (fun s => Forall (eq AttributeError) (printed s)));
      [exact Hs|]. intros cid s1 Hs1.
    apply (bind_inv (fun s => Forall (eq AttributeError) (printed s)));
      [exact Hs1|]. intros _ s2 Hs2.
    apply (bind_inv (fun s => Forall (eq AttributeError) (printed s)));
      [exact Hs2|]. intros _ s3 Hs3.
    apply (bind_inv (fun s => Forall (eq AttributeError) (printed s)));
      [exact Hs3|intros; assumption].
Qed.

Lemma visit_printed u ts root :
  Forall (eq AttributeError) (printed (fst (visit u ts root init))).
Proof.
  apply (visit_inv u ts (fun s => Forall (eq AttributeError) (printed s))
           (on_end_printed u ts)).
  constructor.
Qed.

(** X25.  The script on any document.  The body of its loop never raises, for
    a missing key or otherwise: the records have the keys it reads.
    Standard output begins with what [parse] printed, one line for each
    [AttributeError] it caught.  When [parse] ends with an exception, so
    does the script, and nothing more is printed.  Otherwise the three
    totals follow: the number of [TYPE] records, the number of [METHOD]
    records and their sum; when no record was yielded, the script then
    ends with a [ValueError], the [min] of an empty list; when there is
    one, it prints the least and the greatest number of lines of a
    body, the sum of these numbers divided by the number of records,
    and a median that lies between the least and the greatest, and ends
    normally. *)
Theorem script_statistics u ts root :
  let rs := fst (parse u ts root) in
  let caught := map Caught (printed (fst (visit u ts root init))) in
  let lens := map (fun r : record => count_lines (r !!! "body") false) rs in
  count_type TYPE rs + count_type METHOD rs = length rs
  /\ Forall (eq (Caught AttributeError)) caught
  /\ match snd (parse u ts root), rs with
     | Some e, _ => script u ts root = inr (caught, Some (Raised e))
     | None, [] =>
         script u ts root
         = inr (caught ++ [TotalTypes 0; TotalMethods 0; TotalCount 0],
                Some ValueError)
     | None, _ :: _ =>
         exists lo hi med,
           script u ts root
           = inr (caught
                  ++ [TotalTypes (count_type TYPE rs);
                      TotalMethods (count_type METHOD rs);
                      TotalCount (length rs);
                      MinBodyLines lo; MaxBodyLines hi;
                      AvgBodyLines (Quotient (list_sum lens) (length rs));
                      MedianBodyLines med],
                  None)
           /\ lo ∈ lens /\ hi ∈ lens
           /\ Forall (fun n => lo <= n <= hi) lens
           /\ match med with
              | Int v => lo <= v <= hi
              | Quotient s d => d = 2 /\ 2 * lo <= s <= 2 * hi
              end
     end.
Proof.
  intros rs caught lens.
  pose proof (visit_well_shaped u ts root) as Hw.
  pose proof (visit_printed u ts root) as Hp.
  assert (Ers : rs = yielded (fst (visit u ts root init))).
  { unfold rs, parse. destruct (visit u ts root init) as [s [e|e']]; reflexivity. }
  assert (Eend : snd (parse u ts root)
                 = match snd (visit u ts root init) with
                   | inl e => Some e | inr _ => None end).
  { unfold parse. destruct (visit u ts root init) as [s [e|e']]; reflexivity. }
  rewrite <- Ers in Hw.
  split; [apply count_type_total, Hw|]. split.
  { unfold caught. apply Forall_map. eapply Forall_impl; [exact Hp|].
    intros e <-. reflexivity. }
  assert (Es : script u ts root
               = statistics (printed (fst (visit u ts root init))) rs
                   (snd (parse u ts root))).
  { rewrite Eend, Ers. unfold script.
    destruct (visit u ts root init) as [s [e|e']]; reflexivity. }
  rewrite Es. unfold statistics. fold caught.
  rewrite (tally_all_counts rs tally0 Hw).
  cbn [count methods types body_len tally0 app].
  rewrite !Nat.add_0_r. fold lens.
  destruct (snd (parse u ts root)) as [e|]; [reflexivity|].
  assert (Hl : length lens = length rs) by apply length_map.
  clear Ers Es. destruct rs as [|r rs'] eqn:Ers.
  - destruct lens; [reflexivity|discriminate Hl].
  - destruct lens as [|x l] eqn:El; [discriminate Hl|].
    destruct (list_min_spec l x) as [Hlo1 Hlo2].
    destruct (list_max_spec l x) as [Hhi1 Hhi2].
    assert (Hb : Forall (fun n => list_min x l <= n <= list_max x l) (x :: l)).
    { rewrite Forall_forall in Hlo2, Hhi2. apply Forall_forall.
      intros n Hn. split; [apply Hlo2, Hn|apply Hhi2, Hn]. }
    destruct (median_of_defined (sorted (x :: l)) (list_min x l)
                (list_max x l)) as (med & -> & Hmed).
    { intros E. apply (f_equal (@length nat)) in E.
      rewrite sorted_length in E. discriminate E. }
    { rewrite Forall_forall in Hb. apply Forall_forall.
      intros n Hn%sorted_mem. apply Hb, Hn. }
    exists (list_min x l), (list_max x l), med.
    rewrite <- Hl. cbn [app]. repeat split; try assumption.
Qed.

End SouStatsMore.
